(* ===== verification/_CoqProject ===== *)
-Q . S2P
Prelude.v
Pool.v
PoolProps.v
OrderedMap.v
Level.v
OrderBook.v
BookSpec.v
BookMatch.v
BookSide.v
BookRefine.v
BookQuery.v
BookRun.v
BookProps.v
Flow.v
Engine.v
SpscRing.v
SpscConc.v
SpscProps.v
Portfolio.v
PortfolioProps.v
Strategy.v
StrategyProps.v
Ticks.v
Strategies.v
Replay.v
ReplayProps.v
MovingAverage.v
Exposure.v
Holdings.v
Trading.v
Decimal.v
Float64.v
FloatBounds.v
Clock.v
FloatRange.v
Pacing.v
Affinity.v
Bench.v
Scanf.v
Text.v
TickFile.v
GenTicks.v
Backtest.v
FixParser.v
FixProps.v
Feed.v
Gateway.v
GatewayProps.v
GatewayStream.v
GatewayOrder.v
GatewayThreads.v
GatewayConc.v
GatewayFinish.v
GatewayLife.v
GatewayStop.v
GatewayStopProps.v
Uring.v
Ptp.v
PtpSync.v
Driver.v
DriverProps.v
Node.v
DriverConfig.v
Endpoints.v
Programs.v
UnitTests.v
