(* ===== verification/Prelude.v ===== *)
(** * Verification of the low-latency matching engine

    The program (src/mvp) is a limit order matching engine with a FIX gateway,
    a market data feed, a backtester, transport drivers and clock
    synchronisation.

    - [ObjectPool] (src/mvp/src/pool.h) hands out nodes from one slab.
    - [OrderBook] (order_book.h, order_book.cpp) keeps two price maps of
      intrusive FIFO levels whose nodes live in the pool, and an index from
      order id to node.  A placement matches against the other side and rests
      its remainder; a cancel unlinks a node.
    - [Engine] (engine.h, engine.cpp) wraps the book and keeps the trades of
      the last placement.
    - [SpscRing] (spsc_ring.h) is the lock-free queue between two threads.
    - [Portfolio], [StrategyContext], [Strategy] (backtest/) and the
      strategies [MarketMaker] and [MACross] (strategies/) trade on the engine;
      [Replay] plays a tick stream into it and calls them.
    - The FIX codec (fix/parser.h, parser.cpp) frames, parses and builds
      messages; [Gateway] (fix/gateway.h, gateway.cpp) turns them into engine
      calls and execution reports and publishes the top of book through
      [Feed] (md/feed.h, feed.cpp).
    - The drivers (core/, dpdk/, fpga/, iouring/) start, stop and poll a
      transport behind one interface; a factory chooses the best available.
    - [PtpClient] and the oracle (ptp/) estimate the offset of a master clock;
      time/rdtsc.h converts cycle counts to nanoseconds, core/affinity.h pins
      threads.
    - The programs in bench/ generate tapes, backtest the strategies on them,
      and measure the engine.

    ** How the code is represented

    - A function that can go wrong returns [option]; [None] is undefined
      behaviour: a null, dangling or mistyped pointer, a signed overflow, an
      out-of-range cast, a read past a buffer, or a loop that has not finished
      within its fuel.  A theorem whose conclusion is [Some] excludes them all.
    - [uint64_t] and [size_t] are [Z] reduced by [u64]; [int64_t] is [Z] checked
      by [i64].  [double] is binary64 of the Standard Library's [SpecFloat].
    - A pointer into the pool's slab is a slot index, with [None] as null; the
      union in a slot keeps its active member, so that using a freed node is
      [None].
    - An exception is a value of [Outcome]; results of system calls, clock
      readings and the DPDK library are arguments of the functions that use
      them.
    - [std::map] is its list of entries in iteration order, under the
      comparator of the side; [std::unordered_map] is a [gmap]; strings and
      string views are lists of bytes.
    - Objects shared through pointers ([Portfolio], contexts, the routing
      table) live in one store that the operations thread.

    ** Fuel

    A walk along a level is given the capacity of the pool and the matching
    loops one more: a step that continues has passed or consumed a live node,
    of which there are at most as many as slots.  [drain] is given the length
    of the receive buffer plus one: a frame is never empty; the loop without a
    bound is [drain_eval], which has an outcome only when it ends, and the
    worker's [drain_c] tells its bound ([OutOfFuel]) from undefined behaviour.
    [parse_frame] has one step per byte, and the send loop one step per byte of
    the message: each positive [send] shortens it.  Decimal printing is given
    20 digits, which hold every [uint64_t].  In each case a theorem states that the result is
    there with the fuel the model uses (C1, C16, C26, [parse_frame_total],
    [digits_spec]).  The DPDK poll loop has one iteration more than its budget:
    each one that continues has received a packet ([dpdk_poll_budget]).  The
    tick generator is given a list of draws; it ends when enough of them are
    not cancels (C34).  That the noise of a draw is at most 8, twenty times its
    standard deviation, is an assumption of the theorems that need it: the
    distribution itself has no bound.

    ** The files

    - [Prelude] (this file): machine integers, the tactics and hint databases,
      lemmas on lists and options that the components share.
    - [Pool], [PoolProps]: pool.h; the free list, acquire and release, and a
      step relation of clients whose invariant is that held and free slots
      partition the slab.
    - [OrderedMap]: the price maps.
    - [Level]: order nodes and the doubly linked FIFO of a level, with the
      list-segment predicate that describes it.
    - [OrderBook]: the book at pointer level, with [place_limit],
      [match_against], [cancel], the queries and the destructor.
    - [BookSpec]: the abstract specification [ABook]: each side is one list in
      execution order.  Price-time priority, conservation of quantity and the
      uncrossed invariant are proved here of the specification.
    - [BookMatch], [BookSide], [BookRefine], [BookQuery], [BookRun]: the
      pointer-level book refines [ABook]; respectively the matching loops, the
      edits of one side, placements and cancels, the queries and destructor,
      and sequences of operations from an empty book.
    - [BookProps]: what the book promises, stated of the pointer-level
      functions.  [Flow]: bounds on prices and depth under which the queries
      of the book do not overflow.
    - [Engine]: engine.h, and the class [MatchingEngine] with the laws that the
      gateway, the strategies and the replayer rely on; [Engine] is an instance.
    - [SpscRing], [SpscConc], [SpscProps]: the ring, one call at a time (it
      refines a bounded queue, across the wrap-around of the indices), and with
      a producer and a consumer interleaved action by action under
      release/acquire ordering, with vector clocks that detect data races.
    - [Portfolio], [PortfolioProps]: fills, average cost and PnL, with a
      specification of a fill over the integers, an accounting identity up to
      the rounding of the average cost, and bounds that exclude overflow.
    - [Strategy], [StrategyProps]: contexts, the routing table and the delivery
      of fills to taker and maker.
    - [Ticks], [Strategies], [MovingAverage]: ticks, the top of book, the two
      strategies, and the rolling windows of [MACross] against averages
      recomputed from the history.
    - [Replay], [ReplayProps]: the replay loop and its specification, a run of
      the tape on [ABook].
    - [Exposure], [Holdings], [Trading]: the exposure of a strategy, the positions
      of all of them together, and bounds under which their calls are defined;
      replays with any mix of strategies.
    - [Decimal], [Float64], [FloatBounds], [FloatRange]: the integer and
      floating-point conversions of the standard library, rounding bounds, and
      intervals of doubles of either sign.
    - [FixParser], [FixProps]: the codec; building, framing and parsing round
      trip, framing of streams, exactly which frames are accepted.
    - [Scanf], [Text], [TickFile]: [sscanf]; [strtoull], [atoi] and words; the
      CSV and binary tick files.
    - [Pacing]: the pacing of real-time replay.
    - [GenTicks], [Backtest], [Bench]: what the programs in bench/ compute,
      with what they draw at random and the clock readings as arguments.
    - [Programs]: these programs and the PTP oracle from the command line to
      the printed text.
    - [Clock], [Affinity]: time/rdtsc.h and core/affinity.h.
    - [Feed], [Gateway], [GatewayProps], [GatewayStream], [GatewayOrder]: the
      feed's datagrams, sessions and protocol handlers of one session at a time,
      the received stream cut into chunks in different ways, and a new order
      from the message to the reports on the wire.
    - [GatewayThreads], [GatewayConc]: the handlers as programs over the
      operations on shared state, the system that interleaves them with the
      acceptor and [stop], and its theorems: what a thread does alone, which
      operations the mutex guards, how far interleavings are atomic.
    - [GatewayFinish]: the sessions end under every schedule.
    - [GatewayLife]: sockets and threads of the gateway and of the feed.
    - [GatewayStop], [GatewayStopProps]: [stop] beside an acceptor and workers
      that may be blocked in system calls, with descriptors and sockets.
    - [Uring]: the io_uring gateway, which delegates to the gateway.
    - [Ptp]: the client's backends, its exchange with the oracle, the estimate
      and the average.  [PtpSync]: the thread that averages, access by access,
      beside the callers that read.
    - [Driver], [DriverProps], [DriverConfig]: the drivers as instances of a
      class of operations with laws, their counters and the factory; what the
      factory's settings become in each driver and in its description.
    - [Node]: the software driver over its running gateway: calls on the driver
      interleaved with the sessions, through stops and new starts.
    - [Endpoints]: the configurations of the parts that own a socket and the
      addresses they give to the system.
    - [UnitTests]: the scenarios of src/mvp/test that need no socket, evaluated.

    ** What the theorems show

    - Book (C1, C2, C3, C9, C10, C11, C24, C25, C26): from any represented book
      placements and cancels are defined and do what the specification does;
      trades are made in price-time order, at the resting price, and for
      exactly the quantity available within the limit; what remains rests last at
      its price; the book is never crossed; destruction returns every node.
      C25 shows what happens when the pool is exhausted.
    - Pool (C27): no slot is handed out twice, and slots run out exactly when
      all are held.
    - Ring (C4, C5, C28, C29): no data race, values are popped in the order
      pushed and each once, a call takes a bounded number of its own steps, and
      sequential calls are those of a bounded queue.
    - Codec (C12, C13): round trip, framing of streams, accepted frames.
    - Gateway, one session (C6, C14, C15, C16, C39): an order end to end, no
      engine access before logon, independence of how the stream is cut,
      termination, and inputs that reach undefined behaviour.
    - Gateway, all sessions (C7, C8, C17, C18, C40): an operation on
      the engine is a step that does not look at the mutex, so that a handler
      without the lock could be told from one with it: whoever is at such an
      operation holds the lock, also over restarts of the gateway; critical
      sections are atomic, the engine is that of the calls in order, and under
      any schedule the sessions of connections that end come to their end; a
      [stop] returns whatever the peers do, for [shutdown] wakes what is blocked;
      the feed, outside the lock, can repeat a sequence number.  A thread alone
      does what the sequential handlers do ([session_thread_sequential]), the
      execution ids are 1, 2, 3, ... ([exec_ids_unique]), and calls made in
      sequence close each descriptor once ([gateway_descriptors]).
    - Backtester (C19, C20, C23, C30, C37, C21): accounting, routing of fills,
      the tape and its files, the averages a strategy acts on, and the
      inventory of market makers over a whole replay.
    - Programs (C22, C34, C35, C36): generated tapes are well formed; the
      backtester returns on any bounded tape and runs what the generator wrote to
      the end, each line and the mark as the run leaves them; the benchmark places
      what it was asked to and prints the elements at the ranks of its percentiles.
    - Clocks and drivers (C31, C32, C33, C38): the error of the
      master clock that callers read beside the synchronisation thread, from the
      datagrams of both programs to the average; that a stopped thread exits
      ([sync_stops]); the error of the tick conversion; the life cycle and the
      budget of the drivers; what a driver reports of its gateway while sessions
      run.

    ** What is not modelled

    Of the io_uring gateway, the ring and the buffers that its code declares
    and does not use; inline assembly that reads the cycle counter, whose
    readings are arguments; the random engines and their distributions, whose
    draws are arguments; the buffering of the standard output.  The results of
    system calls ([send], [sendto], [accept], [recv], ...) are arguments or
    choices of the environment.  Memory ordering is modelled for the ring and
    for the counters of the PTP client; the gateway's threads interleave one
    access at a time.
    In [GatewayThreads] what a connection delivers, up to its end or to the end of
    the execution looked at, is chosen when it is accepted, a read never blocks
    for ever, [accept] may fail at any moment and a send that fails has a result:
    theorems on the states reached hold of more executions than the program
    has, and a session's end is that of a connection that ends.  [GatewayStop]
    has blocking calls and SIGPIPE, and for it a handler is the messages it
    sends.  The sign of a NaN is not represented.

    ** Next

    The handlers of [GatewayThreads] inside [GatewayStop], so that the bytes a
    worker sends and the state of its socket are one system. *)

From stdpp Require Export prelude strings list gmap fin_maps sorting.
From Stdlib Require Export ZArith Lia.

#[global] Open Scope Z_scope.

(** ** Undefined behaviour

    A C++ function is a function into [option]: [None] is undefined behaviour
    (a null, dangling or mistyped pointer, a signed overflow) or a loop that
    has not finished within its fuel.  A theorem that a call is [Some] states
    that none of these happens. *)

(** ** Machine integers *)

Definition INT64_MAX : Z := 9223372036854775807.
Definition INT64_MIN : Z := -9223372036854775808.
Definition UINT64_SIZE : Z := 18446744073709551616.

(** [uint64_t] and [size_t] arithmetic wraps. *)
Definition u64 (z : Z) : Z := z mod UINT64_SIZE.
Definition u32 (z : Z) : Z := z mod 4294967296.

(** [int64_t] arithmetic that leaves the range is undefined behaviour. *)
Definition i64_range (z : Z) : Prop := INT64_MIN <= z <= INT64_MAX.
Definition i64 (z : Z) : option Z :=
  if (INT64_MIN <=? z) && (z <=? INT64_MAX) then Some z else None.

#[global] Instance i64_range_dec z : Decision (i64_range z).
Proof. unfold i64_range. apply _. Defined.

(** Linear arithmetic with the machine constants unfolded. *)
Ltac lia64 :=
  unfold i64_range, INT64_MIN, INT64_MAX, UINT64_SIZE in *; lia.

Lemma i64_Some z : i64_range z -> i64 z = Some z.
Proof.
  unfold i64_range, i64. intros [??].
  rewrite (proj2 (Z.leb_le _ _)), (proj2 (Z.leb_le _ _)) by done. done.
Qed.

Lemma i64_inv z r : i64 z = Some r -> r = z /\ i64_range z.
Proof.
  unfold i64. destruct (_ && _) eqn:E; [|done].
  intros [= <-]. apply andb_true_iff in E as [?%Z.leb_le ?%Z.leb_le].
  by split.
Qed.

Lemma i64_None z : i64 z = None <-> ~ i64_range z.
Proof.
  split.
  - intros E H. by rewrite i64_Some in E.
  - intros H. destruct (i64 z) eqn:E; [|done].
    by apply i64_inv in E as [_ ?].
Qed.

Lemma u64_small z : 0 <= z < UINT64_SIZE -> u64 z = z.
Proof. apply Z.mod_small. Qed.

Lemma u64_range z : 0 <= u64 z < UINT64_SIZE.
Proof. by apply Z.mod_pos_bound. Qed.

Lemma u64_succ z : u64 (u64 z + 1) = u64 (z + 1).
Proof. unfold u64. by rewrite Z.add_mod_idemp_l. Qed.

(** ** Automation *)

Create HintDb hft.
Create Rewrite HintDb hft.

#[export] Hint Resolve i64_Some u64_small u64_range : hft.

(** Expose the binds of a computation that is known to return. *)
Ltac run_bind H :=
  repeat match type of H with
  | (?m ≫= _) = Some _ =>
      let x := fresh "r" in let E := fresh "E" in
      destruct m as [x|] eqn:E; cbn [mbind option_bind] in H; [|done]
  end.

Lemma bind_Some_l {A B} (x : A) (f : A -> option B) : Some x ≫= f = f x.
Proof. done. Qed.

Lemma bind_ext {A B} (m : option A) (f g : A -> option B) :
  (forall x, m = Some x -> f x = g x) -> m ≫= f = m ≫= g.
Proof. destruct m as [x|]; simpl; [|done]. intros H. by apply H. Qed.

(** Replace the results of checked operations that returned. *)
Ltac i64_invs :=
  repeat match goal with H : i64 _ = Some _ |- _ => apply i64_inv in H as [-> _] end.

(** ** Lists *)

Fixpoint sumZ (l : list Z) : Z :=
  match l with [] => 0 | x :: l => x + sumZ l end.

Lemma sumZ_app l1 l2 : sumZ (l1 ++ l2) = sumZ l1 + sumZ l2.
Proof. induction l1; simpl; lia. Qed.

Lemma sumZ_nonneg l : Forall (fun x => 0 <= x) l -> 0 <= sumZ l.
Proof. induction 1; simpl; lia. Qed.

#[global] Instance sumZ_Permutation : Proper ((≡ₚ) ==> (=)) sumZ.
Proof. induction 1; simpl; lia. Qed.

Lemma StronglySorted_app {A} (R : relation A) l1 l2 :
  StronglySorted R (l1 ++ l2) <->
  StronglySorted R l1 /\ StronglySorted R l2 /\
  (forall x y, x ∈ l1 -> y ∈ l2 -> R x y).
Proof.
  induction l1 as [|a l1 IH]; simpl.
  - split; [|by intros (_&?&_)]. intros ?. split_and!; [constructor|done|].
    intros x y Hx. by apply elem_of_nil in Hx.
  - split.
    + intros [Hs Hf]%StronglySorted_inv. apply IH in Hs as (?&?&Hx).
      rewrite Forall_app in Hf. destruct Hf as [Hf1 Hf2].
      split_and!; [by constructor|done|].
      intros x y [->|?]%elem_of_cons ?; [|by apply Hx].
      rewrite Forall_forall in Hf2. by apply Hf2.
    + intros ([Hs Hf]%StronglySorted_inv & ? & Hx). constructor.
      * apply IH. split_and!; [done..|]. intros. apply Hx; [by right|done].
      * rewrite Forall_app. split; [done|]. rewrite Forall_forall. intros.
        apply Hx; [by left|done].
Qed.

Lemma StronglySorted_sublist {A} (R : relation A) l1 l2 :
  l1 `sublist_of` l2 -> StronglySorted R l2 -> StronglySorted R l1.
Proof.
  induction 1 as [|x l1 l2 Hs IH|x l1 l2 Hs IH]; intros H.
  - constructor.
  - apply StronglySorted_inv in H as [??]. constructor; [by auto|].
    rewrite Forall_forall in *. intros y Hy.
    eapply H0, elem_of_submseteq; [done|by apply sublist_submseteq].
  - apply StronglySorted_inv in H as [??]. auto.
Qed.

Lemma suffix_sublist {A} (l1 l2 : list A) : l1 `suffix_of` l2 -> l1 `sublist_of` l2.
Proof. intros [k ->]. by apply sublist_inserts_l. Qed.

Lemma Forall_sublist_filter {A} (P Q : A -> Prop) `{!forall x, Decision (P x)} l :
  Forall Q l -> Forall Q (filter P l).
Proof.
  rewrite !Forall_forall. intros HQ x [_ Hx]%list_elem_of_filter. by apply HQ.
Qed.
