(* ===== verification/Pool.v ===== *)
(** * [hft::ObjectPool<T>] (src/mvp/src/pool.h)

    The slab of slots, the intrusive free list threaded through it, and
    [acquire]/[release].  A pointer into the slab is the index of its slot;
    [None] is [nullptr].  The union [Slot] keeps its active member: a free or
    just acquired slot holds [next], a slot with a live object holds it. *)

From S2P Require Import Prelude.

Abbreviation ptr := (option nat).

Section Pool.
Context {T : Type}.

(** union Slot *)
Inductive Slot :=
| SlotNext (next : ptr)
| SlotStorage (obj : T).

Record ObjectPool := mkPool {
  capacity_ : nat;
  storage_ : gmap nat Slot;
  free_head_ : ptr;
  in_use_ : Z
}.

(** The constructor's loop [for (i = capacity_; i-- > 0;)]: [i] counts down,
    each slot is pushed on the front of the free list. *)
Fixpoint thread_slots (i : nat) (storage : gmap nat Slot) (free_head : ptr)
    : gmap nat Slot * ptr :=
  match i with
  | O => (storage, free_head)
  | S i => thread_slots i (<[i := SlotNext free_head]> storage) (Some i)
  end.

Definition ObjectPool_new (capacity : nat) : ObjectPool :=
  let '(st, fh) := thread_slots capacity ∅ None in
  {| capacity_ := capacity; storage_ := st; free_head_ := fh; in_use_ := 0 |}.

(** The outer option is undefined behaviour, the inner one [nullptr]. *)
Definition acquire (p : ObjectPool) : option (ptr * ObjectPool) :=
  match free_head_ p with
  | None => Some (None, p)
  | Some s =>
      match storage_ p !! s with
      | Some (SlotNext nxt) =>
          Some (Some s, {| capacity_ := capacity_ p; storage_ := storage_ p;
                           free_head_ := nxt; in_use_ := u64 (in_use_ p + 1) |})
      | _ => None
      end
  end.

(** The slot must be one of the slab. *)
Definition release (l : nat) (p : ObjectPool) : option ObjectPool :=
  match storage_ p !! l with
  | Some _ =>
      Some {| capacity_ := capacity_ p;
              storage_ := <[l := SlotNext (free_head_ p)]> (storage_ p);
              free_head_ := Some l;
              in_use_ := u64 (in_use_ p - 1) |}
  | None => None
  end.

Definition capacity (p : ObjectPool) : nat := capacity_ p.
Definition in_use (p : ObjectPool) : Z := in_use_ p.
Definition free (p : ObjectPool) : Z := u64 (Z.of_nat (capacity_ p) - in_use_ p).

(** Access to objects in the slab: [*l] for reading and writing a live
    object, and placement new into an acquired slot. *)
Definition deref (p : ObjectPool) (l : nat) : option T :=
  match storage_ p !! l with Some (SlotStorage o) => Some o | _ => None end.

Definition set_storage (st : gmap nat Slot) (p : ObjectPool) : ObjectPool :=
  {| capacity_ := capacity_ p; storage_ := st; free_head_ := free_head_ p;
     in_use_ := in_use_ p |}.

Definition modify (l : nat) (f : T -> T) (p : ObjectPool) : option ObjectPool :=
  o ← deref p l;
  Some (set_storage (<[l := SlotStorage (f o)]> (storage_ p)) p).

Definition placement_new (l : nat) (o : T) (p : ObjectPool) : option ObjectPool :=
  match storage_ p !! l with
  | Some (SlotNext _) => Some (set_storage (<[l := SlotStorage o]> (storage_ p)) p)
  | _ => None
  end.

(** ** The pool invariant *)

(** [fl] is the chain of slots reached from [free_head_] through [next]. *)
Fixpoint chain (st : gmap nat Slot) (h : ptr) (fl : list nat) : Prop :=
  match fl with
  | [] => h = None
  | l :: fl => h = Some l /\ exists n, st !! l = Some (SlotNext n) /\ chain st n fl
  end.

Record pool_wf (p : ObjectPool) (fl : list nat) : Prop := {
  wf_chain : chain (storage_ p) (free_head_ p) fl;
  wf_nodup : NoDup fl;
  wf_dom : forall l, is_Some (storage_ p !! l) <-> (l < capacity_ p)%nat;
  wf_in_use : in_use_ p + Z.of_nat (length fl) = Z.of_nat (capacity_ p);
  wf_in_use_nonneg : 0 <= in_use_ p;
  wf_capacity : Z.of_nat (capacity_ p) < UINT64_SIZE
}.

Lemma chain_frame st st' h fl :
  (forall l, l ∈ fl -> st' !! l = st !! l) -> chain st h fl -> chain st' h fl.
Proof.
  revert h. induction fl as [|l fl IH]; intros h Heq; simpl; [done|].
  intros [-> (n & Hn & Hc)]. split; [done|]. exists n. split.
  - rewrite Heq; [done|by left].
  - apply IH; [|done]. intros. apply Heq. by right.
Qed.

Lemma chain_insert st h fl l s :
  l ∉ fl -> chain st h fl -> chain (<[l := s]> st) h fl.
Proof.
  intros Hl. apply chain_frame. intros l' Hl'.
  rewrite lookup_insert_ne; [done|]. by intros ->.
Qed.

Lemma chain_free_lookup st h fl l :
  chain st h fl -> l ∈ fl -> exists n, st !! l = Some (SlotNext n).
Proof.
  revert h. induction fl as [|l' fl IH]; intros h; simpl.
  - by intros _ ?%elem_of_nil.
  - intros [_ (n & Hn & Hc)] [->|?]%elem_of_cons; [by eauto|by eapply IH].
Qed.

Lemma wf_free_bound p fl l : pool_wf p fl -> l ∈ fl -> (l < capacity_ p)%nat.
Proof.
  intros Hwf Hl. apply (wf_dom _ _ Hwf).
  destruct (chain_free_lookup _ _ _ _ (wf_chain _ _ Hwf) Hl) as [n ->]. eauto.
Qed.

Lemma wf_live_not_free p fl l o :
  pool_wf p fl -> deref p l = Some o -> l ∉ fl.
Proof.
  intros Hwf Ho Hl. unfold deref in Ho.
  destruct (chain_free_lookup _ _ _ _ (wf_chain _ _ Hwf) Hl) as [n Hn].
  by rewrite Hn in Ho.
Qed.

(** ** The constructor *)

Lemma thread_slots_spec i st h fl :
  chain st h fl -> NoDup fl -> (forall l, l ∈ fl -> (i <= l)%nat) ->
  let '(st', h') := thread_slots i st h in
  chain st' h' (seq 0 i ++ fl) /\
  (forall l, is_Some (st' !! l) <-> (l < i)%nat \/ is_Some (st !! l)).
Proof.
  revert st h fl. induction i as [|i IH]; intros st h fl Hc Hnd Hge; cbn [thread_slots].
  - split; [done|]. intros. split; [by right|]. intros [?|?]; [lia|done].
  - specialize (IH (<[i := SlotNext h]> st) (Some i) (i :: fl)).
    destruct (thread_slots i _ _) as [st' h'].
    destruct IH as [Hch Hdom].
    + simpl. split; [done|]. exists h. split; [apply lookup_insert_eq|].
      apply chain_insert; [|done]. intros Hi%Hge. lia.
    + constructor; [|done]. intros Hi%Hge. lia.
    + intros l [->|Hl%Hge]%elem_of_cons; lia.
    + split.
      * by rewrite seq_S, <-app_assoc.
      * intros l. rewrite Hdom.
        destruct (decide (l = i)) as [->|].
        -- rewrite lookup_insert_eq. split; [left; lia|right; by eauto].
        -- rewrite lookup_insert_ne by done.
           split; (intros [?|?]; [left; lia|by right]).
Qed.

Lemma ObjectPool_new_wf n :
  Z.of_nat n < UINT64_SIZE -> pool_wf (ObjectPool_new n) (seq 0 n).
Proof.
  intros Hn. unfold ObjectPool_new.
  pose proof (thread_slots_spec n ∅ None []) as H.
  destruct (thread_slots n ∅ None) as [st h]. destruct H as [Hc Hd]; simpl.
  - done.
  - constructor.
  - intros l Hl. by apply elem_of_nil in Hl.
  - rewrite app_nil_r in Hc. constructor; simpl.
    + done.
    + apply NoDup_seq.
    + intros l. rewrite Hd, lookup_empty. split; [|by left].
      intros [?|[? ?]]; done.
    + rewrite length_seq. lia.
    + lia.
    + done.
Qed.

(** ** [acquire] and [release] *)

Lemma acquire_empty p : pool_wf p [] -> acquire p = Some (None, p).
Proof. intros Hwf. pose proof (wf_chain _ _ Hwf) as Hc. unfold acquire. by rewrite Hc. Qed.

Lemma acquire_cons p l fl :
  pool_wf p (l :: fl) ->
  exists p', acquire p = Some (Some l, p') /\ pool_wf p' fl /\
    storage_ p' = storage_ p /\ capacity_ p' = capacity_ p /\
    in_use_ p' = in_use_ p + 1 /\
    (exists n, storage_ p !! l = Some (SlotNext n)).
Proof.
  intros Hwf. pose proof (wf_chain _ _ Hwf) as [Hh (n & Hn & Hc)].
  pose proof (wf_in_use _ _ Hwf) as Hu. pose proof (wf_in_use_nonneg _ _ Hwf).
  pose proof (wf_capacity _ _ Hwf). cbn [length] in Hu.
  assert (u64 (in_use_ p + 1) = in_use_ p + 1) as Hw by (apply u64_small; lia).
  unfold acquire. rewrite Hh, Hn. eexists. split; [done|]. simpl.
  split_and!; try by eauto.
  constructor; simpl.
  - done.
  - by apply NoDup_cons_1_2 with l, wf_nodup with p.
  - apply (wf_dom _ _ Hwf).
  - lia.
  - lia.
  - done.
Qed.

(** Placement new into a slot that has left the free list. *)
Lemma placement_new_spec p fl l o n :
  pool_wf p fl -> l ∉ fl -> storage_ p !! l = Some (SlotNext n) ->
  exists p', placement_new l o p = Some p' /\ pool_wf p' fl /\
    storage_ p' = <[l := SlotStorage o]> (storage_ p) /\
    capacity_ p' = capacity_ p /\ in_use_ p' = in_use_ p.
Proof.
  intros Hwf Hl Hn. unfold placement_new. rewrite Hn. eexists.
  split_and!; [done| |done..].
  destruct Hwf. constructor; simpl; try done.
  - by apply chain_insert.
  - intros l'. rewrite <-wf_dom0. destruct (decide (l' = l)) as [->|].
    + rewrite lookup_insert_eq, Hn. split; eauto.
    + by rewrite lookup_insert_ne.
Qed.

Lemma modify_spec p fl l f o :
  pool_wf p fl -> deref p l = Some o ->
  exists p', modify l f p = Some p' /\ pool_wf p' fl /\
    storage_ p' = <[l := SlotStorage (f o)]> (storage_ p) /\
    capacity_ p' = capacity_ p /\ in_use_ p' = in_use_ p.
Proof.
  intros Hwf Ho. pose proof (wf_live_not_free _ _ _ _ Hwf Ho) as Hl.
  unfold modify. rewrite Ho. simpl. eexists.
  split_and!; [done| |done..].
  destruct Hwf. constructor; simpl; try done.
  - by apply chain_insert.
  - intros l'. rewrite <-wf_dom0. destruct (decide (l' = l)) as [->|].
    + rewrite lookup_insert_eq. unfold deref in Ho.
      destruct (storage_ p !! l); split; eauto; done.
    + by rewrite lookup_insert_ne.
Qed.

(** Releasing an acquired slot puts it on the front of the free list. *)
Lemma release_spec p fl l :
  pool_wf p fl -> l ∉ fl -> (l < capacity_ p)%nat ->
  exists p', release l p = Some p' /\ pool_wf p' (l :: fl) /\
    storage_ p' = <[l := SlotNext (free_head_ p)]> (storage_ p) /\
    capacity_ p' = capacity_ p /\ in_use_ p' = in_use_ p - 1.
Proof.
  intros Hwf Hl Hcap.
  pose proof (proj2 (wf_dom _ _ Hwf l) Hcap) as [s Hs].
  assert (length (l :: fl) <= capacity_ p)%nat as Hlen.
  { rewrite <-(length_seq (capacity_ p) 0). apply submseteq_length, NoDup_submseteq.
    - constructor; [done|]. by eapply wf_nodup.
    - intros x [->|Hx]%elem_of_cons; apply elem_of_seq; [lia|].
      pose proof (wf_free_bound _ _ _ Hwf Hx). lia. }
  simpl in Hlen. pose proof (wf_in_use _ _ Hwf).
  pose proof (wf_capacity _ _ Hwf). pose proof (wf_in_use_nonneg _ _ Hwf).
  assert (u64 (in_use_ p - 1) = in_use_ p - 1) as Hw by (apply u64_small; lia).
  unfold release. rewrite Hs. eexists. split; [done|]. simpl.
  split_and!; [|done..].
  constructor; simpl; try lia.
  - split; [done|]. exists (free_head_ p). rewrite lookup_insert_eq.
    split; [done|]. apply chain_insert; [done|]. apply (wf_chain _ _ Hwf).
  - constructor; [done|]. by eapply wf_nodup.
  - intros l'. rewrite <-(wf_dom _ _ Hwf). destruct (decide (l' = l)) as [->|].
    + rewrite lookup_insert_eq, Hs. split; eauto.
    + by rewrite lookup_insert_ne.
Qed.

End Pool.
Arguments Slot : clear implicits.
Arguments ObjectPool : clear implicits.
