(* ===== verification/PoolProps.v ===== *)
(** * Clients of the object pool

    A client acquires slots, builds objects in them and releases slots it
    holds, in any order.  The step relation records the slots it holds; the
    invariant, by induction on the steps, is that held and free slots
    partition the slab. *)

From S2P Require Import Prelude Pool.

Section Client.
Context {T : Type}.

(** The pool and the slots its client holds. *)
Definition ClientState : Type := ObjectPool T * list nat.

Inductive pool_step : ClientState -> ClientState -> Prop :=
| step_acquire p held l p' :
    acquire p = Some (Some l, p') -> pool_step (p, held) (p', l :: held)
| step_acquire_null p held p' :
    acquire p = Some (None, p') -> pool_step (p, held) (p', held)
| step_construct p held l o p' :
    l ∈ held -> placement_new l o p = Some p' -> pool_step (p, held) (p', held)
| step_write p held l f p' :
    l ∈ held -> modify l f p = Some p' -> pool_step (p, held) (p', held)
| step_release p held1 l held2 p' :
    release l p = Some p' -> pool_step (p, held1 ++ l :: held2) (p', held1 ++ held2).

(** Held and free slots are all the slots, each once. *)
Definition partition (n : nat) (s : ClientState) : Prop :=
  capacity_ s.1 = n /\ exists fl, pool_wf s.1 fl /\ s.2 ++ fl ≡ₚ seq 0 n.

Lemma partition_held n held fl l :
  held ++ fl ≡ₚ seq 0 n -> l ∈ held -> (l ∉ fl) /\ (l < n)%nat.
Proof.
  intros Hp Hl. assert (NoDup (held ++ fl)) as (_ & Hd & _)%NoDup_app by (rewrite Hp; apply NoDup_seq).
  split; [by apply Hd|]. assert (l ∈ seq 0 n) as ?%elem_of_seq; [|lia].
  rewrite <-Hp. apply elem_of_app. by left.
Qed.

Lemma partition_new n :
  Z.of_nat n < UINT64_SIZE -> partition n (ObjectPool_new n, []).
Proof.
  intros Hn. split.
  - unfold ObjectPool_new. simpl. by destruct (thread_slots _ _ _).
  - exists (seq 0 n). split; [by apply ObjectPool_new_wf|done].
Qed.

Lemma partition_step n s s' : partition n s -> pool_step s s' -> partition n s'.
Proof.
  intros [Hc (fl & Hwf & Hp)] Hs. destruct Hs; simpl in *.
  - destruct fl as [|l' fl]; [by rewrite (acquire_empty _ Hwf) in *|].
    destruct (acquire_cons _ _ _ Hwf) as (p1 & E & Hwf' & _ & Hc' & _). simplify_eq.
    split; [done|]. exists fl. split; [done|]. rewrite <-Hp. simpl. by rewrite Permutation_middle.
  - destruct fl as [|l' fl].
    + rewrite (acquire_empty _ Hwf) in *. simplify_eq. split; [done|by exists []].
    + destruct (acquire_cons _ _ _ Hwf) as (p1 & E & _). congruence.
  - destruct (partition_held n held fl l Hp) as [Hfl _]; [done|].
    unfold placement_new in H0. destruct (storage_ p !! l) as [[nx|]|] eqn:Hl; [|done..].
    destruct (placement_new_spec p fl l o nx Hwf Hfl Hl) as (p1 & E & Hwf' & _ & Hc' & _).
    unfold placement_new in E. rewrite Hl in E. simplify_eq. split; [done|by exists fl].
  - unfold modify in H0. destruct (deref p l) as [o|] eqn:Hl; [|done].
    destruct (modify_spec p fl l f o Hwf Hl) as (p1 & E & Hwf' & _ & Hc' & _).
    unfold modify in E. rewrite Hl in E. simplify_eq. split; [done|by exists fl].
  - destruct (partition_held n (held1 ++ l :: held2) fl l Hp) as [Hfl Hln]; [set_solver|].
    destruct (release_spec p fl l Hwf Hfl) as (p1 & E & Hwf' & _ & Hc' & _); [by rewrite Hc|].
    simplify_eq. split; [done|]. exists (l :: fl). split; [done|].
    simpl. rewrite <-Hp, <-!app_assoc. apply Permutation_app_head. symmetry. apply Permutation_middle.
Qed.

Lemma partition_reachable n s :
  Z.of_nat n < UINT64_SIZE -> rtc pool_step (ObjectPool_new n, []) s -> partition n s.
Proof.
  intros Hn Hs. apply (partition_new n) in Hn. revert Hn.
  induction Hs; intros; [done|]. eauto using partition_step.
Qed.

(** (C27) The allocator contract, in every reachable state: [acquire] returns,
    with a slot of the slab that is not held as long as one is left and with
    [nullptr] exactly when all are held; [in_use] counts the held slots; every
    held slot can be released, and the next [acquire] returns it. *)
Theorem pool_contract n p held :
  Z.of_nat n < UINT64_SIZE -> rtc pool_step (ObjectPool_new n, []) (p, held) ->
  in_use p = Z.of_nat (length held) /\ free p = Z.of_nat n - Z.of_nat (length held) /\
  ((length held < n)%nat ->
     exists l p', acquire p = Some (Some l, p') /\ (l ∉ held) /\ (l < n)%nat) /\
  (length held = n -> acquire p = Some (None, p)) /\
  (forall l, l ∈ held -> exists p1 p2,
     release l p = Some p1 /\ acquire p1 = Some (Some l, p2) /\ in_use p2 = in_use p).
Proof.
  intros Hn [Hc (fl & Hwf & Hp)]%partition_reachable; [|done]. simpl in *.
  pose proof (Permutation_length Hp) as Hlen. rewrite length_app, length_seq in Hlen.
  pose proof (wf_in_use _ _ Hwf) as Hu. split_and!.
  - unfold in_use. lia.
  - unfold free. rewrite u64_small by lia. lia.
  - intros Hlt. destruct fl as [|l fl]; [simpl in Hlen; lia|].
    destruct (acquire_cons _ _ _ Hwf) as (p1 & E & _).
    assert (NoDup (held ++ l :: fl)) as (_ & Hd & _)%NoDup_app by (rewrite Hp; apply NoDup_seq).
    exists l, p1. split_and!; [done|intros Hl; apply (Hd _ Hl); by left|].
    rewrite <-Hc. eapply wf_free_bound; [done|by left].
  - intros Hfull. destruct fl as [|l fl]; [by apply acquire_empty|simpl in Hlen; lia].
  - intros l Hl. destruct (partition_held n held fl l Hp Hl) as [Hfl Hln].
    destruct (release_spec p fl l Hwf Hfl) as (p1 & E & Hwf' & _ & _ & Hu1); [by rewrite Hc|].
    destruct (acquire_cons _ _ _ Hwf') as (p2 & E2 & _ & _ & _ & Hu2 & _).
    exists p1, p2. split_and!; [done..|]. unfold in_use. lia.
Qed.

End Client.

Lemma pool_contract_witness :
  let p := {| capacity_ := 1; storage_ := {[ 0%nat := SlotNext (T := Z) None ]};
              free_head_ := None; in_use_ := 1 |} in
  in_use p = 1 /\ free p = 1 - 1 /\
  ((1 < 1)%nat -> exists l p', acquire p = Some (Some l, p') /\ (l ∉ [0%nat]) /\ (l < 1)%nat) /\
  (1%nat = 1%nat -> acquire p = Some (None, p)) /\
  (forall l, l ∈ [0%nat] -> exists p1 p2,
     release l p = Some p1 /\ acquire p1 = Some (Some l, p2) /\ in_use p2 = in_use p).
Proof.
  intros p. apply (pool_contract 1 p [0%nat]).
  - reflexivity.
  - apply rtc_once. apply step_acquire. reflexivity.
Defined.
