(* ===== verification/OrderedMap.v ===== *)
(** * [std::map<Price, Level, Compare>]

    The two sides of the book are [std::map]s that differ in their comparator
    ([std::greater<Price>] for bids, [std::less<Price>] for asks).  A map is
    its list of (key, value) entries in iteration order, so [begin()] is the
    head; keys are equivalent when neither compares below the other. *)

From S2P Require Import Prelude.

(** The [key_compare] of a book side. *)
Inductive KeyCompare := less_Price | greater_Price.

#[global] Instance KeyCompare_eq_dec : EqDecision KeyCompare.
Proof. solve_decision. Defined.

Definition key_comp (c : KeyCompare) (a b : Z) : bool :=
  match c with less_Price => a <? b | greater_Price => b <? a end.

(** The comparator as a relation. *)
Definition key_lt (c : KeyCompare) (a b : Z) : Prop := key_comp c a b = true.

Section OrderedMap.
Context {V : Type}.

Fixpoint map_find (c : KeyCompare) (k : Z) (m : list (Z * V)) : option V :=
  match m with
  | [] => None
  | (k', v) :: m =>
      if key_comp c k k' then None
      else if key_comp c k' k then map_find c k m
      else Some v
  end.

(** Write [v] through an iterator or reference to the entry at [k];
    [operator[]] inserts the entry first when it is absent. *)
Fixpoint map_put (c : KeyCompare) (k : Z) (v : V) (m : list (Z * V)) : list (Z * V) :=
  match m with
  | [] => [(k, v)]
  | (k', v') :: m' =>
      if key_comp c k k' then (k, v) :: m
      else if key_comp c k' k then (k', v') :: map_put c k v m'
      else (k, v) :: m'
  end.

Fixpoint map_erase (c : KeyCompare) (k : Z) (m : list (Z * V)) : list (Z * V) :=
  match m with
  | [] => []
  | (k', v') :: m' =>
      if key_comp c k k' then m
      else if key_comp c k' k then (k', v') :: map_erase c k m'
      else m'
  end.

(** [operator[]] of an absent key value-initialises the mapped value. *)
Definition map_subscript (c : KeyCompare) (dflt : V) (k : Z) (m : list (Z * V)) : V :=
  default dflt (map_find c k m).

End OrderedMap.

(** ** The comparators are strict total orders *)

Lemma key_comp_spec c a b :
  key_comp c a b = true <-> match c with less_Price => a < b | greater_Price => b < a end.
Proof. destruct c; simpl; apply Z.ltb_lt. Qed.

Lemma key_comp_false c a b :
  key_comp c a b = false <-> match c with less_Price => b <= a | greater_Price => a <= b end.
Proof. destruct c; simpl; apply Z.ltb_ge. Qed.

Lemma key_comp_irrefl c a : key_comp c a a = false.
Proof. destruct c; simpl; apply Z.ltb_irrefl. Qed.

#[global] Instance key_lt_strict c : StrictOrder (key_lt c).
Proof.
  split.
  - intros a. unfold complement, key_lt. by rewrite key_comp_irrefl.
  - intros a b d. unfold key_lt. rewrite !key_comp_spec. destruct c; lia.
Qed.

Lemma key_lt_irrefl c a : ~ key_lt c a a.
Proof. unfold key_lt. by rewrite key_comp_irrefl. Qed.

Lemma key_lt_trichotomy c a b : key_lt c a b \/ a = b \/ key_lt c b a.
Proof. unfold key_lt. rewrite !key_comp_spec. destruct c; lia. Qed.

Lemma key_lt_asym c a b : key_lt c a b -> key_comp c b a = false.
Proof. unfold key_lt. rewrite key_comp_spec, key_comp_false. destruct c; lia. Qed.

(** Decide the position of a key against the head of a map. *)
Lemma key_cases c k k' :
  (key_lt c k k' /\ key_comp c k k' = true) \/
  (k = k' /\ key_comp c k k' = false /\ key_comp c k' k = false) \/
  (key_lt c k' k /\ key_comp c k k' = false /\ key_comp c k' k = true).
Proof.
  destruct (key_lt_trichotomy c k k') as [H|[->|H]].
  - by left.
  - right; left. by rewrite key_comp_irrefl.
  - right; right. split_and!; [done|by apply key_lt_asym|done].
Qed.

Ltac map_cases c k k' :=
  let H := fresh "Hk" in let E := fresh "Ek" in let E' := fresh "Ek" in
  destruct (key_cases c k k') as [[H E]|[(-> & E & E')|(H & E & E')]];
  rewrite E; try rewrite E'.

(** ** Maps as sorted lists

    [m = m1 ++ (k, v) :: m2] with [k] after every key of [m1] locates the
    entry that [find] reaches; the lemmas below compute every operation from
    such a split. *)

Section OrderedMapFacts.
Context {V : Type}.
Implicit Types (m : list (Z * V)).

Abbreviation map_sorted c m := (StronglySorted (key_lt c) m.*1).

Lemma map_split_before c k m1 k' v m2 :
  map_sorted c (m1 ++ (k', v) :: m2) -> k = k' ->
  Forall (fun kv => key_lt c kv.1 k) m1.
Proof.
  intros Hs ->. rewrite fmap_app in Hs. apply StronglySorted_app in Hs as (_&_&H).
  rewrite Forall_forall. intros [k1 v1] Hin. apply H.
  - by apply (list_elem_of_fmap_2 fst) in Hin.
  - by left.
Qed.

Lemma map_find_split c k v m1 m2 :
  map_sorted c (m1 ++ (k, v) :: m2) -> map_find c k (m1 ++ (k, v) :: m2) = Some v.
Proof.
  intros Hs. pose proof (map_split_before _ _ _ _ _ _ Hs eq_refl) as Hb. clear Hs.
  induction Hb as [|[k1 v1] m1 Hk Hb IH]; simpl.
  - by rewrite key_comp_irrefl.
  - simpl in Hk. rewrite (key_lt_asym _ _ _ Hk). unfold key_lt in Hk. by rewrite Hk.
Qed.

Lemma map_put_split c k v v' m1 m2 :
  map_sorted c (m1 ++ (k, v) :: m2) ->
  map_put c k v' (m1 ++ (k, v) :: m2) = m1 ++ (k, v') :: m2.
Proof.
  intros Hs. pose proof (map_split_before _ _ _ _ _ _ Hs eq_refl) as Hb. clear Hs.
  induction Hb as [|[k1 v1] m1 Hk Hb IH]; simpl.
  - by rewrite key_comp_irrefl.
  - simpl in Hk. rewrite (key_lt_asym _ _ _ Hk). unfold key_lt in Hk. by rewrite Hk, IH.
Qed.

Lemma map_erase_split c k v m1 m2 :
  map_sorted c (m1 ++ (k, v) :: m2) ->
  map_erase c k (m1 ++ (k, v) :: m2) = m1 ++ m2.
Proof.
  intros Hs. pose proof (map_split_before _ _ _ _ _ _ Hs eq_refl) as Hb. clear Hs.
  induction Hb as [|[k1 v1] m1 Hk Hb IH]; simpl.
  - by rewrite key_comp_irrefl.
  - simpl in Hk. rewrite (key_lt_asym _ _ _ Hk). unfold key_lt in Hk. by rewrite Hk, IH.
Qed.

(** An absent key also splits the map, at the place where it would go. *)
Lemma map_find_None c k m :
  map_sorted c m -> map_find c k m = None ->
  exists m1 m2, m = m1 ++ m2 /\
    Forall (fun kv => key_lt c kv.1 k) m1 /\ Forall (fun kv => key_lt c k kv.1) m2.
Proof.
  induction m as [|[k' v'] m IH]; simpl; intros Hs Hf.
  - by exists [], [].
  - apply StronglySorted_inv in Hs as [Hs Hall]. revert Hf.
    map_cases c k k'; intros Hf.
    + exists [], ((k', v') :: m). split_and!; [done|constructor|].
      constructor; [done|]. rewrite Forall_fmap in Hall.
      eapply Forall_impl; [done|]. intros [k2 v2] ?; simpl in *. by etrans.
    + done.
    + destruct (IH Hs Hf) as (m1 & m2 & -> & H1 & H2).
      exists ((k', v') :: m1), m2. split_and!; [done| |done]. by constructor.
Qed.

Lemma map_find_Some c k v m :
  map_find c k m = Some v -> exists m1 m2, m = m1 ++ (k, v) :: m2.
Proof.
  induction m as [|[k' v'] m IH]; simpl; [done|].
  map_cases c k k'; intros Hf.
  - done.
  - simplify_eq. by exists [], m.
  - destruct (IH Hf) as (m1 & m2 & ->). by exists ((k', v') :: m1), m2.
Qed.

Lemma map_put_absent c k v m1 m2 :
  Forall (fun kv => key_lt c kv.1 k) m1 -> Forall (fun kv => key_lt c k kv.1) m2 ->
  map_put c k v (m1 ++ m2) = m1 ++ (k, v) :: m2.
Proof.
  intros H1 H2. induction H1 as [|[k1 v1] m1 Hk H1 IH]; simpl in *.
  - destruct H2 as [|[k2 v2] m2 Hk _]; simpl; [done|].
    unfold key_lt in Hk. simpl in Hk. by rewrite Hk.
  - rewrite (key_lt_asym _ _ _ Hk). unfold key_lt in Hk. by rewrite Hk, IH.
Qed.

Lemma map_find_absent c k m1 m2 :
  Forall (fun kv => key_lt c kv.1 k) m1 -> Forall (fun kv => key_lt c k kv.1) m2 ->
  map_find c k (m1 ++ m2) = None.
Proof.
  intros H1 H2. induction H1 as [|[k1 v1] m1 Hk H1 IH]; simpl in *.
  - destruct H2 as [|[k2 v2] m2 Hk _]; simpl; [done|].
    unfold key_lt in Hk. simpl in Hk. by rewrite Hk.
  - rewrite (key_lt_asym _ _ _ Hk). unfold key_lt in Hk. by rewrite Hk, IH.
Qed.

End OrderedMapFacts.
