(* ===== verification/Level.v ===== *)
(** * Order nodes and price levels (src/mvp/src/order_book.{h,cpp})

    [OrderNode], [Trade], [Level] and the intrusive doubly linked FIFO of a
    price level: [level_push_back] and [level_unlink] at pointer level, with
    the list-segment predicate that describes the nodes of a level. *)

From S2P Require Import Prelude Pool.

Abbreviation Price := Z.
Abbreviation Quantity := Z.
Abbreviation OrderId := Z.
Abbreviation Timestamp := Z.

Inductive Side := Buy | Sell.

#[global] Instance Side_eq_dec : EqDecision Side.
Proof. solve_decision. Defined.

Record OrderNode := mkNode {
  on_id : OrderId;
  on_side : Side;
  on_price : Price;
  on_qty : Quantity;
  on_ts : Timestamp;
  on_prev : ptr;
  on_next : ptr
}.

Record Trade := mkTrade {
  taker_id : OrderId;
  maker_id : OrderId;
  tr_price : Price;
  tr_qty : Quantity
}.

#[global] Instance Trade_eq_dec : EqDecision Trade.
Proof. solve_decision. Defined.

Record Level := mkLevel { head : ptr; tail : ptr }.

Definition Level_new : Level := {| head := None; tail := None |}.
Definition Level_empty (lvl : Level) : bool :=
  match head lvl with None => true | Some _ => false end.

Abbreviation Mem := (ObjectPool OrderNode).

(** Assignments to the members of a node. *)
Definition set_prev (v : ptr) (n : OrderNode) : OrderNode :=
  mkNode (on_id n) (on_side n) (on_price n) (on_qty n) (on_ts n) v (on_next n).
Definition set_next (v : ptr) (n : OrderNode) : OrderNode :=
  mkNode (on_id n) (on_side n) (on_price n) (on_qty n) (on_ts n) (on_prev n) v.
Definition set_qty (v : Quantity) (n : OrderNode) : OrderNode :=
  mkNode (on_id n) (on_side n) (on_price n) v (on_ts n) (on_prev n) (on_next n).

Definition level_push_back (lvl : Level) (n : nat) (p : Mem) : option (Level * Mem) :=
  p ← modify n (set_prev (tail lvl)) p;
  p ← modify n (set_next None) p;
  '(h, p) ←
    match tail lvl with
    | Some t => p ← modify t (set_next (Some n)) p; Some (head lvl, p)
    | None => Some (Some n, p)
    end;
  Some ({| head := h; tail := Some n |}, p).

Definition level_unlink (lvl : Level) (n : nat) (p : Mem) : option (Level * Mem) :=
  o ← deref p n;
  '(lvl, p) ←
    match on_prev o with
    | Some pr => p ← modify pr (set_next (on_next o)) p; Some (lvl, p)
    | None => Some ({| head := on_next o; tail := tail lvl |}, p)
    end;
  o ← deref p n;
  '(lvl, p) ←
    match on_next o with
    | Some nx => p ← modify nx (set_prev (on_prev o)) p; Some (lvl, p)
    | None => Some ({| head := head lvl; tail := on_prev o |}, p)
    end;
  p ← modify n (set_next None) p;
  p ← modify n (set_prev None) p;
  Some (lvl, p).

(** ** Segments *)

(** An order as the book sees it: a node without its links. *)
Record Order := mkOrder {
  o_id : OrderId;
  o_side : Side;
  o_price : Price;
  o_qty : Quantity;
  o_ts : Timestamp
}.

Definition node_of (o : Order) (prv nxt : ptr) : OrderNode :=
  mkNode (o_id o) (o_side o) (o_price o) (o_qty o) (o_ts o) prv nxt.

Definition with_qty (q : Quantity) (o : Order) : Order :=
  mkOrder (o_id o) (o_side o) (o_price o) q (o_ts o).

Abbreviation Nodes := (list (nat * Order)).

Definition first_loc (ns : Nodes) (d : ptr) : ptr :=
  match ns with [] => d | (l, _) :: _ => Some l end.
Fixpoint last_loc (d : ptr) (ns : Nodes) : ptr :=
  match ns with [] => d | (l, _) :: ns => last_loc (Some l) ns end.

(** The nodes [ns], linked in order, between [prv] and [nxt]. *)
Fixpoint dseg (st : gmap nat (Slot OrderNode)) (prv : ptr) (ns : Nodes) (nxt : ptr) : Prop :=
  match ns with
  | [] => True
  | (l, o) :: ns =>
      st !! l = Some (SlotStorage (node_of o prv (first_loc ns nxt))) /\
      dseg st (Some l) ns nxt
  end.

Definition level_rep (st : gmap nat (Slot OrderNode)) (lvl : Level) (ns : Nodes) : Prop :=
  head lvl = first_loc ns None /\ tail lvl = last_loc None ns /\ dseg st None ns None.

Lemma first_loc_app ns1 ns2 d : first_loc (ns1 ++ ns2) d = first_loc ns1 (first_loc ns2 d).
Proof. by destruct ns1 as [|[]]. Qed.

Lemma last_loc_app d ns1 ns2 : last_loc d (ns1 ++ ns2) = last_loc (last_loc d ns1) ns2.
Proof. revert d. induction ns1 as [|[] ns1 IH]; intros; simpl; [done|apply IH]. Qed.

Lemma dseg_app st prv ns1 ns2 nxt :
  dseg st prv (ns1 ++ ns2) nxt <->
  dseg st prv ns1 (first_loc ns2 nxt) /\ dseg st (last_loc prv ns1) ns2 nxt.
Proof.
  revert prv. induction ns1 as [|[l o] ns1 IH]; intros prv; simpl; [tauto|].
  rewrite IH, first_loc_app. tauto.
Qed.

Lemma dseg_frame st st' prv ns nxt :
  (forall l, l ∈ ns.*1 -> st' !! l = st !! l) -> dseg st prv ns nxt -> dseg st' prv ns nxt.
Proof.
  revert prv. induction ns as [|[l o] ns IH]; intros prv Heq; simpl; [done|].
  intros [Hl Hs]. split.
  - rewrite Heq; [done|by left].
  - apply IH; [|done]. intros. apply Heq. by right.
Qed.

Lemma dseg_insert st prv ns nxt l s :
  l ∉ ns.*1 -> dseg st prv ns nxt -> dseg (<[l := s]> st) prv ns nxt.
Proof.
  intros Hl. apply dseg_frame. intros l' Hl'.
  rewrite lookup_insert_ne; [done|]. by intros ->.
Qed.

Lemma dseg_lookup st prv ns nxt l o :
  dseg st prv ns nxt -> (l, o) ∈ ns ->
  exists pr nx, st !! l = Some (SlotStorage (node_of o pr nx)).
Proof.
  revert prv. induction ns as [|[l' o'] ns IH]; intros prv; simpl.
  - by intros _ ?%elem_of_nil.
  - intros [Hl Hs] [Heq|Hin]%elem_of_cons; [simplify_eq; eauto|by eapply IH].
Qed.

Lemma level_rep_frame st st' lvl ns :
  (forall l, l ∈ ns.*1 -> st' !! l = st !! l) -> level_rep st lvl ns -> level_rep st' lvl ns.
Proof. intros Heq (?&?&?). split_and!; [done..|]. by eapply dseg_frame. Qed.

Lemma level_rep_empty st lvl ns :
  level_rep st lvl ns -> Level_empty lvl = true <-> ns = [].
Proof.
  intros (Hh&_&_). unfold Level_empty. rewrite Hh. by destruct ns as [|[]].
Qed.

(** Retargeting the link that enters or leaves a segment. *)
Lemma dseg_set_nxt st prv ns l o nxt nxt' :
  NoDup (ns ++ [(l, o)]).*1 -> dseg st prv (ns ++ [(l, o)]) nxt ->
  dseg (<[l := SlotStorage (node_of o (last_loc prv ns) nxt')]> st) prv (ns ++ [(l, o)]) nxt'.
Proof.
  rewrite fmap_app. intros Hnd. apply NoDup_app in Hnd as (_&Hni&_).
  rewrite !dseg_app. intros [H1 [H2 _]]. simpl. split_and!.
  - apply dseg_insert; [|done]. intros Hl. apply (Hni _ Hl). by left.
  - apply lookup_insert_eq.
  - done.
Qed.

Lemma dseg_set_prv st prv prv' l o ns nxt :
  NoDup ((l, o) :: ns).*1 -> dseg st prv ((l, o) :: ns) nxt ->
  dseg (<[l := SlotStorage (node_of o prv' (first_loc ns nxt))]> st) prv' ((l, o) :: ns) nxt.
Proof.
  simpl. intros [Hl _]%NoDup_cons [_ Hs]. split; [apply lookup_insert_eq|].
  by apply dseg_insert.
Qed.

(** Every list of nodes is empty or ends in a node. *)
Lemma nodes_snoc_inv (ns : Nodes) : ns = [] \/ exists ns' l o, ns = ns' ++ [(l, o)].
Proof.
  destruct ns as [|x ns _] using rev_ind; [by left|right].
  destruct x. by eexists _, _, _.
Qed.

(** ** The level operations on segments *)

(** [p'] is [p] with free list [fl], changed at most at the slots [ls]. *)
Record mem_upd (fl ls : list nat) (p p' : Mem) : Prop := {
  mu_wf : pool_wf p' fl;
  mu_capacity : capacity_ p' = capacity_ p;
  mu_frame : forall l, l ∉ ls -> storage_ p' !! l = storage_ p !! l
}.

Lemma mem_upd_refl fl ls p : pool_wf p fl -> mem_upd fl ls p p.
Proof. by constructor. Qed.

Lemma mem_upd_trans fl fl' ls p1 p2 p3 :
  mem_upd fl ls p1 p2 -> mem_upd fl' ls p2 p3 -> mem_upd fl' ls p1 p3.
Proof.
  intros [???] [???]. constructor; [done|congruence|].
  intros l Hl. by rewrite mu_frame1, mu_frame0.
Qed.

Lemma mem_upd_weaken fl ls ls' p p' :
  ls ⊆ ls' -> mem_upd fl ls p p' -> mem_upd fl ls' p p'.
Proof. intros Hsub [???]. constructor; [done..|]. intros l Hl. apply mu_frame0. set_solver. Qed.

(** One assignment through a pointer to a live node. *)
Lemma modify_upd fl p l f n :
  pool_wf p fl -> storage_ p !! l = Some (SlotStorage n) ->
  exists p', modify l f p = Some p' /\ mem_upd fl [l] p p' /\
    storage_ p' = <[l := SlotStorage (f n)]> (storage_ p).
Proof.
  intros Hwf Hl.
  assert (deref p l = Some n) as Hd by (unfold deref; by rewrite Hl).
  destruct (modify_spec p fl l f n Hwf Hd) as (p' & Hm & Hwf' & Hst & ? & _).
  exists p'. split_and!; [done| |done]. constructor; [done..|].
  intros l' Hl'. rewrite Hst, lookup_insert_ne; [done|]. set_solver.
Qed.

Lemma deref_storage (p : Mem) l n : storage_ p !! l = Some (SlotStorage n) -> deref p l = Some n.
Proof. unfold deref. by intros ->. Qed.

(** Run one assignment in the goal, naming the new memory. *)
Tactic Notation "do_modify" constr(Hwf) constr(Hl) "as" ident(p') ident(Hu) ident(Hst) :=
  let Hm := fresh in
  match goal with
  | |- context [modify ?l ?f ?p] =>
      destruct (modify_upd _ p l f _ Hwf Hl) as (p' & Hm & Hu & Hst);
      rewrite Hm; clear Hm; cbn [mbind option_bind]
  end.

Lemma level_push_back_spec fl p lvl ns l o pr nx :
  pool_wf p fl -> level_rep (storage_ p) lvl ns -> NoDup ns.*1 -> l ∉ ns.*1 ->
  storage_ p !! l = Some (SlotStorage (node_of o pr nx)) ->
  exists lvl' p', level_push_back lvl l p = Some (lvl', p') /\
    level_rep (storage_ p') lvl' (ns ++ [(l, o)]) /\ mem_upd fl (l :: ns.*1) p p'.
Proof.
  intros Hwf (Hh & Ht & Hs) Hnd Hl Hst. unfold level_push_back.
  do_modify Hwf Hst as p1 Hu1 Hst1.
  assert (storage_ p1 !! l = Some (SlotStorage (node_of o (tail lvl) nx))) as Hl1
    by (by rewrite Hst1, lookup_insert_eq).
  do_modify (mu_wf _ _ _ _ Hu1) Hl1 as p2 Hu2 Hst2.
  assert (mem_upd fl (l :: ns.*1) p p2) as Hu.
  { eapply mem_upd_trans; (eapply mem_upd_weaken; [|done]); set_solver. }
  assert (storage_ p2 !! l = Some (SlotStorage (node_of o (tail lvl) None))) as Hl2
    by (by rewrite Hst2, lookup_insert_eq).
  assert (dseg (storage_ p2) None ns None) as Hs2.
  { rewrite Hst2, Hst1. by do 2 (apply dseg_insert; [done|]). }
  destruct (nodes_snoc_inv ns) as [->|(ns' & t & ot & ->)].
  - simpl in *. rewrite Ht. cbn [mbind option_bind]. do 2 eexists. split; [done|].
    split; [|done]. split_and!; simpl; try done. split; [|done]. by rewrite Hl2, Ht.
  - rewrite last_loc_app in Ht. simpl in Ht. rewrite Ht.
    pose proof Hs2 as Hs2'. rewrite dseg_app in Hs2'. destruct Hs2' as [_ [Ht2 _]].
    do_modify (mu_wf _ _ _ _ Hu2) Ht2 as p3 Hu3 Hst3.
    do 2 eexists. split; [done|]. split.
    + split_and!; simpl.
      * by rewrite Hh, !first_loc_app.
      * by rewrite !last_loc_app.
      * rewrite dseg_app, Hst3. split.
        -- apply (dseg_set_nxt _ _ _ _ _ None); [done|]. done.
        -- simpl. split; [|done]. rewrite last_loc_app. simpl.
           rewrite lookup_insert_ne; [by rewrite Hl2, Ht|]. intros ->. apply Hl.
           rewrite fmap_app. set_solver.
    + eapply mem_upd_trans; [done|]. eapply mem_upd_weaken; [|done].
      rewrite fmap_app. set_solver.
Qed.

(** The two halves of [level_unlink]: the predecessor's link (or the head),
    then the successor's (or the tail). *)
Lemma unlink_prev_spec fl p lvl ns1 l o ns2 :
  let ns := ns1 ++ (l, o) :: ns2 in
  pool_wf p fl -> level_rep (storage_ p) lvl ns -> NoDup ns.*1 ->
  exists lvl' p',
    (match last_loc None ns1 with
    | Some pr => p ← modify pr (set_next (first_loc ns2 None)) p; Some (lvl, p)
    | None => Some ({| head := first_loc ns2 None; tail := tail lvl |}, p)
    end) = Some (lvl', p') /\
    mem_upd fl ns.*1 p p' /\
    head lvl' = first_loc (ns1 ++ ns2) None /\ tail lvl' = tail lvl /\
    storage_ p' !! l =
      Some (SlotStorage (node_of o (last_loc None ns1) (first_loc ns2 None))) /\
    dseg (storage_ p') None ns1 (first_loc ns2 None) /\
    dseg (storage_ p') (Some l) ns2 None.
Proof.
  intros ns Hwf (Hh & Ht & Hs) Hnd. subst ns.
  apply dseg_app in Hs as [Hs1 [Hl Hs2]].
  rewrite fmap_app in Hnd. pose proof Hnd as (Hnd1 & Hdis & Hnd2)%NoDup_app.
  destruct (nodes_snoc_inv ns1) as [->|(ns' & t & ot & ->)].
  - do 2 eexists. split; [done|]. by split_and!; [apply mem_upd_refl|..].
  - rewrite last_loc_app. simpl. pose proof Hs1 as (_ & Hpr & _)%dseg_app.
    do_modify Hwf Hpr as p1 Hu Hst. do 2 eexists. split; [done|]. split_and!.
    + eapply mem_upd_weaken; [|done]. rewrite !fmap_app. set_solver.
    + rewrite Hh, !first_loc_app. done.
    + done.
    + rewrite Hst, lookup_insert_ne; [by rewrite Hl, last_loc_app|].
      intros ->. apply (Hdis l); rewrite ?fmap_app; set_solver.
    + rewrite Hst. eapply dseg_set_nxt; [done|]. done.
    + rewrite Hst. apply dseg_insert; [|done]. intros Hin.
      apply (Hdis t); rewrite ?fmap_app; set_solver.
Qed.

Lemma unlink_next_spec fl p lvl ns1 l o ns2 :
  let ns := ns1 ++ (l, o) :: ns2 in
  pool_wf p fl -> NoDup ns.*1 ->
  head lvl = first_loc (ns1 ++ ns2) None -> tail lvl = last_loc None ns ->
  storage_ p !! l =
    Some (SlotStorage (node_of o (last_loc None ns1) (first_loc ns2 None))) ->
  dseg (storage_ p) None ns1 (first_loc ns2 None) ->
  dseg (storage_ p) (Some l) ns2 None ->
  exists lvl' p',
    (match first_loc ns2 None with
    | Some nx => p ← modify nx (set_prev (last_loc None ns1)) p; Some (lvl, p)
    | None => Some ({| head := head lvl; tail := last_loc None ns1 |}, p)
    end) = Some (lvl', p') /\
    mem_upd fl ns.*1 p p' /\ level_rep (storage_ p') lvl' (ns1 ++ ns2) /\
    storage_ p' !! l =
      Some (SlotStorage (node_of o (last_loc None ns1) (first_loc ns2 None))).
Proof.
  intros ns Hwf Hnd Hh Ht Hl Hs1 Hs2. subst ns. rewrite last_loc_app in Ht. simpl in Ht.
  rewrite fmap_app in Hnd. pose proof Hnd as (Hnd1 & Hdis & Hnd2)%NoDup_app.
  destruct ns2 as [|[nx onx] ns2].
  - do 2 eexists. split; [done|]. split_and!; [by apply mem_upd_refl| |done].
    unfold level_rep. rewrite !app_nil_r in *. by split_and!.
  - pose proof Hs2 as [Hnx _]. simpl first_loc. cbn iota.
    do_modify Hwf Hnx as p1 Hu Hst. do 2 eexists. split; [done|].
    simpl in Hnd2. apply NoDup_cons in Hnd2 as [Hl2 Hnd2].
    split_and!.
    + eapply mem_upd_weaken; [|done]. rewrite !fmap_app. set_solver.
    + split_and!; [done|by rewrite Ht, last_loc_app|].
      apply dseg_app. rewrite Hst. split.
      * apply dseg_insert; [|done]. intros Hin. apply (Hdis nx); set_solver.
      * by eapply dseg_set_prv.
    + rewrite Hst, lookup_insert_ne; [done|]. intros ->. set_solver.
Qed.

Lemma level_unlink_spec fl p lvl ns1 l o ns2 :
  let ns := ns1 ++ (l, o) :: ns2 in
  pool_wf p fl -> level_rep (storage_ p) lvl ns -> NoDup ns.*1 ->
  exists lvl' p', level_unlink lvl l p = Some (lvl', p') /\
    level_rep (storage_ p') lvl' (ns1 ++ ns2) /\ mem_upd fl ns.*1 p p' /\
    storage_ p' !! l = Some (SlotStorage (node_of o None None)).
Proof.
  intros ns Hwf Hrep Hnd.
  pose proof Hrep as (_ & Ht & (_ & Hl & _)%dseg_app).
  destruct (unlink_prev_spec fl p lvl ns1 l o ns2 Hwf Hrep Hnd)
    as (lvl1 & p1 & E1 & Hu1 & Hh1 & Ht1 & Hl1 & Hs1 & Hs2).
  destruct (unlink_next_spec fl p1 lvl1 ns1 l o ns2) as (lvl2 & p2 & E2 & Hu2 & Hr2 & Hl2);
    [by eapply mu_wf|done|done|by rewrite Ht1|done..|].
  unfold level_unlink. rewrite (deref_storage _ _ _ Hl). cbn [mbind option_bind].
  cbn [on_prev on_next node_of]. rewrite E1. cbn [mbind option_bind].
  rewrite (deref_storage _ _ _ Hl1). cbn [mbind option_bind on_prev on_next node_of].
  rewrite E2. cbn [mbind option_bind].
  do_modify (mu_wf _ _ _ _ Hu2) Hl2 as p3 Hu3 Hst3.
  assert (storage_ p3 !! l = Some (SlotStorage (node_of o (last_loc None ns1) None))) as Hl3
    by (by rewrite Hst3, lookup_insert_eq).
  do_modify (mu_wf _ _ _ _ Hu3) Hl3 as p4 Hu4 Hst4.
  assert (l ∉ (ns1 ++ ns2).*1) as Hnotin.
  { subst ns. rewrite fmap_app in Hnd. rewrite fmap_app, elem_of_app.
    apply NoDup_app in Hnd as (_ & Hdis & [? _]%NoDup_cons). set_solver. }
  do 2 eexists. split; [done|]. split_and!.
  - eapply level_rep_frame; [|done]. intros l' Hl'.
    rewrite Hst4, Hst3, !lookup_insert_ne; [done|by intros ->..].
  - assert (forall q q', mem_upd fl [l] q q' -> mem_upd fl ns.*1 q q') as Hw.
    { intros q q'. apply mem_upd_weaken. subst ns. rewrite fmap_app. set_solver. }
    eauto using mem_upd_trans.
  - by rewrite Hst4, lookup_insert_eq.
Qed.

Lemma release_upd fl p l n :
  pool_wf p fl -> storage_ p !! l = Some (SlotStorage n) ->
  exists p', release l p = Some p' /\ mem_upd (l :: fl) [l] p p'.
Proof.
  intros Hwf Hl. destruct (release_spec p fl l) as (p' & Hr & Hwf' & Hst & ? & _).
  - done.
  - eapply wf_live_not_free; [done|by apply deref_storage].
  - apply (wf_dom _ _ Hwf). by rewrite Hl.
  - exists p'. split; [done|]. constructor; [done..|].
    intros l' Hl'. rewrite Hst, lookup_insert_ne; [done|]. set_solver.
Qed.

(** The nodes of a segment are distinct slots, so they fit the capacity. *)
Lemma dseg_length fl p prv ns nxt :
  pool_wf p fl -> dseg (storage_ p) prv ns nxt -> NoDup ns.*1 ->
  (length ns <= capacity_ p)%nat.
Proof.
  intros Hwf Hs Hnd. rewrite <-(length_seq (capacity_ p) 0), <-(length_fmap fst).
  apply submseteq_length, NoDup_submseteq; [done|].
  intros l ([l' o] & -> & Hin)%list_elem_of_fmap. apply elem_of_seq. simpl.
  destruct (dseg_lookup _ _ _ _ _ _ Hs Hin) as (pr & nx & Hl).
  assert (l' < capacity_ p)%nat by (apply (wf_dom _ _ Hwf); by rewrite Hl). lia.
Qed.

Lemma dseg_set_qty st o q prv l ns nxt :
  l ∉ ns.*1 -> dseg st prv ((l, o) :: ns) nxt ->
  dseg (<[l := SlotStorage (set_qty q (node_of o prv (first_loc ns nxt)))]> st)
    prv ((l, with_qty q o) :: ns) nxt.
Proof.
  simpl. intros Hl [_ Hs]. split; [by rewrite lookup_insert_eq|]. by apply dseg_insert.
Qed.

(** Unlinking a node and returning it to the pool, as matching and
    cancelling do. *)
Lemma unlink_release_spec fl p lvl ns1 l o ns2 :
  let ns := ns1 ++ (l, o) :: ns2 in
  pool_wf p fl -> level_rep (storage_ p) lvl ns -> NoDup ns.*1 ->
  exists lvl' p1 p2, level_unlink lvl l p = Some (lvl', p1) /\ release l p1 = Some p2 /\
    level_rep (storage_ p2) lvl' (ns1 ++ ns2) /\ mem_upd (l :: fl) ns.*1 p p2.
Proof.
  intros ns Hwf Hrep Hnd.
  destruct (level_unlink_spec fl p lvl ns1 l o ns2 Hwf Hrep Hnd) as (lvl' & p1 & E & Hrep1 & Hu1 & Hl1).
  destruct (release_upd fl p1 l _ (mu_wf _ _ _ _ Hu1) Hl1) as (p2 & E2 & Hu2).
  exists lvl', p1, p2. split_and!; [done..| |].
  - eapply level_rep_frame; [|done]. intros l' Hl'. apply (mu_frame _ _ _ _ Hu2).
    subst ns. rewrite fmap_app in *. apply NoDup_app in Hnd as (_ & Hdis & [? _]%NoDup_cons).
    set_solver.
  - eapply mem_upd_trans; [done|]. eapply mem_upd_weaken; [|done].
    subst ns. rewrite fmap_app. set_solver.
Qed.
