(* ===== verification/OrderBook.v ===== *)
(** * [hft::OrderBook] (src/mvp/src/order_book.{h,cpp})

    The whole order book at pointer level: the two price maps, the id index,
    the node pool and the counters; [place_limit], [match_against], [cancel],
    the queries and the destructor, with the pool operations and the pointer
    writes in the order of the source.  Each function returns [None] on
    undefined behaviour or when a loop exceeds its fuel. *)

From S2P Require Import Prelude Pool OrderedMap Level.

Record OrderBook := mkBook {
  bids_ : list (Price * Level);     (* std::map with std::greater<Price> *)
  asks_ : list (Price * Level);     (* std::map with std::less<Price> *)
  index_ : gmap Z nat;              (* OrderId -> OrderNode* *)
  pool_ : Mem;
  next_id_ : OrderId;
  next_ts_ : Timestamp
}.

Definition kDefaultPoolCapacity : nat := Z.to_nat 2000000.

Definition OrderBook_new (pool_capacity : nat) : OrderBook :=
  {| bids_ := []; asks_ := []; index_ := ∅; pool_ := ObjectPool_new pool_capacity;
     next_id_ := 1; next_ts_ := 1 |}.

(** ** Queries *)

Definition best_bid (b : OrderBook) : Price :=
  match bids_ b with [] => 0 | (px, _) :: _ => px end.

Definition best_ask (b : OrderBook) : Price :=
  match asks_ b with [] => INT64_MAX | (px, _) :: _ => px end.

(** The walk [for (n = lvl.head; n != nullptr; n = n->next) q += n->qty]. *)
Fixpoint sum_nodes (fuel : nat) (p : Mem) (n : ptr) (q : Quantity) : option Quantity :=
  match n with
  | None => Some q
  | Some l =>
      match fuel with
      | O => None
      | S fuel =>
          o ← deref p l;
          q ← i64 (q + on_qty o);
          sum_nodes fuel p (on_next o) q
      end
  end.

Definition sum_level (p : Mem) (lvl : Level) : option Quantity :=
  sum_nodes (capacity_ p) p (head lvl) 0.

Definition qty_at (b : OrderBook) (side : Side) (px : Price) : option Quantity :=
  match side with
  | Buy =>
      match map_find greater_Price px (bids_ b) with
      | None => Some 0
      | Some lvl => sum_level (pool_ b) lvl
      end
  | Sell =>
      match map_find less_Price px (asks_ b) with
      | None => Some 0
      | Some lvl => sum_level (pool_ b) lvl
      end
  end.

Definition book_size (b : OrderBook) : nat := size (index_ b).

(** ** Matching *)

(** What [match_against] reads and writes beside the opposite side: the
    index, the pool, the taker's remaining quantity and the trade vector. *)
Record MatchState := mkMatch {
  ms_index : gmap Z nat;
  ms_pool : Mem;
  ms_qty : Quantity;
  ms_trades : list Trade
}.

(** The inner loop: fill makers from the head of one level. *)
Fixpoint match_level (fuel : nat) (taker : OrderId) (level_px : Price)
    (lvl : Level) (s : MatchState) : option (Level * MatchState) :=
  match fuel with
  | O => None
  | S fuel =>
      if (0 <? ms_qty s) && negb (Level_empty lvl) then
        maker ← head lvl;
        m ← deref (ms_pool s) maker;
        let fill := Z.min (ms_qty s) (on_qty m) in
        let trades := ms_trades s ++ [mkTrade taker (on_id m) level_px fill] in
        qty ← i64 (ms_qty s - fill);
        mqty ← i64 (on_qty m - fill);
        p ← modify maker (set_qty mqty) (ms_pool s);
        m ← deref p maker;
        if on_qty m =? 0 then
          let index := delete (on_id m) (ms_index s) in
          '(lvl, p) ← level_unlink lvl maker p;
          p ← release maker p;
          match_level fuel taker level_px lvl (mkMatch index p qty trades)
        else
          match_level fuel taker level_px lvl (mkMatch (ms_index s) p qty trades)
      else Some (lvl, s)
  end.

(** [if constexpr (is_same_v<key_compare, less<Price>>)]: a buy crosses asks
    at or below its limit, a sell crosses bids at or above it. *)
Definition cross (c : KeyCompare) (level_px limit : Price) : bool :=
  match c with
  | less_Price => level_px <=? limit
  | greater_Price => limit <=? level_px
  end.

(** The outer loop over the levels of the opposite side. *)
Fixpoint match_levels (fuel : nat) (c : KeyCompare) (opp : list (Price * Level))
    (taker : OrderId) (limit : Price) (s : MatchState)
    : option (list (Price * Level) * MatchState) :=
  match fuel with
  | O => None
  | S fuel =>
      match opp with
      | [] => Some (opp, s)
      | (level_px, lvl) :: rest =>
          if 0 <? ms_qty s then
            if cross c level_px limit then
              '(lvl, s) ← match_level (S (capacity_ (ms_pool s))) taker level_px lvl s;
              let opp := if Level_empty lvl then rest else (level_px, lvl) :: rest in
              match_levels fuel c opp taker limit s
            else Some (opp, s)
          else Some (opp, s)
      end
  end.

Definition match_against (c : KeyCompare) (opp : list (Price * Level))
    (taker : OrderId) (limit : Price) (s : MatchState)
    : option (list (Price * Level) * MatchState) :=
  match_levels (S (capacity_ (ms_pool s))) c opp taker limit s.

(** ** [place_limit] and [cancel] *)

(** The book, the returned id and the trades appended to [trades]. *)
Definition place_limit (b : OrderBook) (side : Side) (price : Price) (qty : Quantity)
    (trades : list Trade) : option (OrderBook * OrderId * list Trade) :=
  let id := next_id_ b in
  let next_id := u64 (next_id_ b + 1) in
  let s := mkMatch (index_ b) (pool_ b) qty trades in
  match side with
  | Buy =>
      '(asks, s) ← match_against less_Price (asks_ b) id price s;
      if 0 <? ms_qty s then
        '(n, p) ← acquire (ms_pool s);
        match n with
        | None =>
            Some (mkBook (bids_ b) asks (ms_index s) p next_id (next_ts_ b), id, ms_trades s)
        | Some n =>
            p ← placement_new n (mkNode id side price (ms_qty s) (next_ts_ b) None None) p;
            let lvl := map_subscript greater_Price Level_new price (bids_ b) in
            '(lvl, p) ← level_push_back lvl n p;
            Some (mkBook (map_put greater_Price price lvl (bids_ b)) asks
                    (<[id := n]> (ms_index s)) p next_id (u64 (next_ts_ b + 1)),
                  id, ms_trades s)
        end
      else
        Some (mkBook (bids_ b) asks (ms_index s) (ms_pool s) next_id (next_ts_ b),
              id, ms_trades s)
  | Sell =>
      '(bids, s) ← match_against greater_Price (bids_ b) id price s;
      if 0 <? ms_qty s then
        '(n, p) ← acquire (ms_pool s);
        match n with
        | None =>
            Some (mkBook bids (asks_ b) (ms_index s) p next_id (next_ts_ b), id, ms_trades s)
        | Some n =>
            p ← placement_new n (mkNode id side price (ms_qty s) (next_ts_ b) None None) p;
            let lvl := map_subscript less_Price Level_new price (asks_ b) in
            '(lvl, p) ← level_push_back lvl n p;
            Some (mkBook bids (map_put less_Price price lvl (asks_ b))
                    (<[id := n]> (ms_index s)) p next_id (u64 (next_ts_ b + 1)),
                  id, ms_trades s)
        end
      else
        Some (mkBook bids (asks_ b) (ms_index s) (ms_pool s) next_id (next_ts_ b),
              id, ms_trades s)
  end.

Definition cancel (b : OrderBook) (id : OrderId) : option (bool * OrderBook) :=
  match index_ b !! id with
  | None => Some (false, b)
  | Some n =>
      o ← deref (pool_ b) n;
      let px := on_price o in
      match on_side o with
      | Buy =>
          match map_find greater_Price px (bids_ b) with
          | None => Some (false, b)
          | Some lvl =>
              '(lvl, p) ← level_unlink lvl n (pool_ b);
              let bids := if Level_empty lvl then map_erase greater_Price px (bids_ b)
                          else map_put greater_Price px lvl (bids_ b) in
              p ← release n p;
              Some (true, mkBook bids (asks_ b) (delete id (index_ b)) p
                            (next_id_ b) (next_ts_ b))
          end
      | Sell =>
          match map_find less_Price px (asks_ b) with
          | None => Some (false, b)
          | Some lvl =>
              '(lvl, p) ← level_unlink lvl n (pool_ b);
              let asks := if Level_empty lvl then map_erase less_Price px (asks_ b)
                          else map_put less_Price px lvl (asks_ b) in
              p ← release n p;
              Some (true, mkBook (bids_ b) asks (delete id (index_ b)) p
                            (next_id_ b) (next_ts_ b))
          end
      end
  end.

(** The destructor releases the node of every index entry; the order in which
    an [unordered_map] is iterated is not specified, so it is an argument. *)
Fixpoint release_all (nodes : list nat) (p : Mem) : option Mem :=
  match nodes with
  | [] => Some p
  | n :: nodes => p ← release n p; release_all nodes p
  end.

Definition OrderBook_delete (b : OrderBook) (iter : list (OrderId * nat)) : option Mem :=
  release_all iter.*2 (pool_ b).

(** ** The unit tests of src/mvp/test/test_book.cpp, run in the model *)

Definition run_places (b : OrderBook) (l : list (Side * Price * Quantity))
    : option (OrderBook * list Trade) :=
  foldl (fun acc '(s, px, q) =>
           '(b, _) ← acc; '(b, _, ts) ← place_limit b s px q []; Some (b, ts))
        (Some (b, [])) l.

Example test_full_cross_multiple_levels :
  (fun '(b, ts) => (ts, best_bid b, best_ask b, qty_at b Buy 101, qty_at b Sell 102))
    <$> run_places (OrderBook_new 8)
          [(Sell, 100, 3); (Sell, 101, 4); (Sell, 102, 5); (Buy, 101, 10)]
  = Some ([mkTrade 4 1 100 3; mkTrade 4 2 101 4], 101, 102, Some 3, Some 5).
Proof. vm_compute. reflexivity. Qed.

Example test_price_time_priority_fifo :
  (fun '(b, ts) => (ts, qty_at b Sell 100))
    <$> run_places (OrderBook_new 8) [(Sell, 100, 4); (Sell, 100, 4); (Buy, 100, 4)]
  = Some ([mkTrade 3 1 100 4], Some 4).
Proof. vm_compute. reflexivity. Qed.

Example test_cancel :
  ('(b, _) ← run_places (OrderBook_new 8) [(Buy, 100, 10); (Buy, 100, 20)];
  '(r1, b) ← cancel b 1; '(r2, b) ← cancel b 1; q ← qty_at b Buy 100;
  '(r3, b) ← cancel b 2;
  Some (r1, r2, q, r3, best_bid b, book_size b))
  = Some (true, false, 20, true, 0, 0%nat).
Proof. vm_compute. reflexivity. Qed.
