(* ===== verification/BookSpec.v ===== *)
(** * Specification of the book: two priority queues

    What [OrderBook] promises, without pointers, levels or an index: each
    side is one list of orders in execution order (best price first, oldest
    first within a price).  A placement consumes the crossing prefix of the
    opposite list and inserts the remainder behind its price; a cancel removes
    one order.  [BookRefine] proves that the pointer-level book implements
    this; the properties of matching are proved here once. *)

From S2P Require Import Prelude OrderedMap Level OrderBook.

Record ABook := mkABook {
  ab_bids : list Order;
  ab_asks : list Order;
  ab_next_id : OrderId;
  ab_next_ts : Timestamp;
  ab_free : nat              (* free slots of the node pool *)
}.

Definition opposite (s : Side) : Side := match s with Buy => Sell | Sell => Buy end.

(** The comparator of the side on which orders of side [s] rest. *)
Definition side_cmp (s : Side) : KeyCompare :=
  match s with Buy => greater_Price | Sell => less_Price end.

Definition ab_side (b : ABook) (s : Side) : list Order :=
  match s with Buy => ab_bids b | Sell => ab_asks b end.

Definition ab_orders (b : ABook) : list Order := ab_bids b ++ ab_asks b.

(** A book from its side [s] and the opposite side. *)
Definition ab_make (s : Side) (own opp : list Order) (nid : OrderId) (nts : Timestamp)
    (free : nat) : ABook :=
  match s with
  | Buy => mkABook own opp nid nts free
  | Sell => mkABook opp own nid nts free
  end.

(** Execution order of two resting orders. *)
Definition prio (c : KeyCompare) (o1 o2 : Order) : Prop :=
  key_lt c (o_price o1) (o_price o2) \/ (o_price o1 = o_price o2 /\ o_ts o1 < o_ts o2).

(** Execute a taker of quantity [q] against the queue [os]. *)
Fixpoint amatch (c : KeyCompare) (taker : OrderId) (limit : Price) (q : Quantity)
    (os : list Order) : list Trade * Quantity * list Order :=
  match os with
  | [] => ([], q, [])
  | o :: os' =>
      if (0 <? q) && cross c (o_price o) limit then
        let fill := Z.min q (o_qty o) in
        let t := mkTrade taker (o_id o) (o_price o) fill in
        if o_qty o - fill =? 0 then
          let '(ts, q', r) := amatch c taker limit (q - fill) os' in (t :: ts, q', r)
        else ([t], q - fill, with_qty (o_qty o - fill) o :: os')
      else ([], q, os)
  end.

(** Insert behind every order that executes no later at an equal price. *)
Fixpoint ainsert (c : KeyCompare) (o : Order) (os : list Order) : list Order :=
  match os with
  | [] => [o]
  | o' :: os' =>
      if key_comp c (o_price o) (o_price o') then o :: os else o' :: ainsert c o os'
  end.

Definition aplace (b : ABook) (side : Side) (price : Price) (qty : Quantity)
    : ABook * OrderId * list Trade :=
  let id := ab_next_id b in
  let opp := ab_side b (opposite side) in
  let own := ab_side b side in
  let '(ts, q, opp') := amatch (side_cmp (opposite side)) id price qty opp in
  let free := (ab_free b + (length opp - length opp'))%nat in
  let rests := (0 <? q) && negb (free =? 0)%nat in
  let own' :=
    if rests then ainsert (side_cmp side) (mkOrder id side price q (ab_next_ts b)) own
    else own in
  (ab_make side own' opp' (u64 (ab_next_id b + 1))
     (if rests then u64 (ab_next_ts b + 1) else ab_next_ts b)
     (if rests then pred free else free), id, ts).

Definition acancel (b : ABook) (id : OrderId) : bool * ABook :=
  if decide (id ∈ o_id <$> ab_orders b) then
    (true, mkABook (filter (fun o => o_id o <> id) (ab_bids b))
                   (filter (fun o => o_id o <> id) (ab_asks b))
                   (ab_next_id b) (ab_next_ts b) (S (ab_free b)))
  else (false, b).

(** ** The invariant of the specification *)

Record order_ok (s : Side) (nid : OrderId) (nts : Timestamp) (o : Order) : Prop := {
  ok_side : o_side o = s;
  ok_qty : 0 < o_qty o <= INT64_MAX;
  ok_id : 0 < o_id o < nid;
  ok_ts : 0 < o_ts o < nts
}.

Record abook_wf (b : ABook) : Prop := {
  awf_side s : Forall (order_ok s (ab_next_id b) (ab_next_ts b)) (ab_side b s);
  awf_prio s : StronglySorted (prio (side_cmp s)) (ab_side b s);
  awf_ids : NoDup (o_id <$> ab_orders b);
  awf_uncrossed : forall x y, x ∈ ab_bids b -> y ∈ ab_asks b -> o_price x < o_price y;
  awf_next_id : 1 <= ab_next_id b < UINT64_SIZE;
  awf_next_ts : 1 <= ab_next_ts b <= ab_next_id b
}.

(** ** Matching *)

Definition traded (ts : list Trade) : Quantity := sumZ (tr_qty <$> ts).
Definition depth (os : list Order) : Quantity := sumZ (o_qty <$> os).

Lemma traded_cons tr ts : traded (tr :: ts) = tr_qty tr + traded ts.
Proof. done. Qed.

Lemma depth_cons o os : depth (o :: os) = o_qty o + depth os.
Proof. done. Qed.

Abbreviation positive os := (Forall (fun o => 0 < o_qty o) os).

Lemma amatch_nil c t l q : amatch c t l q [] = ([], q, []).
Proof. done. Qed.

Lemma amatch_zero c t l q os : q <= 0 -> amatch c t l q os = ([], q, os).
Proof.
  intros Hq. destruct os as [|o os]; simpl; [done|].
  rewrite (proj2 (Z.ltb_ge _ _)) by done. done.
Qed.

(** One unfolding of [amatch], by what happens to the head of the queue. *)
Lemma amatch_cons c t l q o os :
  0 < q -> 0 < o_qty o -> cross c (o_price o) l = true ->
  (o_qty o <= q /\
   amatch c t l q (o :: os) =
     (let '(ts, q', r) := amatch c t l (q - o_qty o) os in
      (mkTrade t (o_id o) (o_price o) (o_qty o) :: ts, q', r))) \/
  (q < o_qty o /\
   amatch c t l q (o :: os) =
     ([mkTrade t (o_id o) (o_price o) q], 0, with_qty (o_qty o - q) o :: os)).
Proof.
  intros Hq Ho Hc. simpl. rewrite (proj2 (Z.ltb_lt _ _)), Hc by done. simpl.
  destruct (Z.le_gt_cases (o_qty o) q) as [Hle|Hgt].
  - left. split; [done|]. by rewrite Z.min_r, Z.sub_diag by done.
  - right. split; [done|]. rewrite Z.min_l by lia.
    by rewrite (proj2 (Z.eqb_neq _ _)), Z.sub_diag by lia.
Qed.

Lemma amatch_stop c t l q o os :
  cross c (o_price o) l = false -> amatch c t l q (o :: os) = ([], q, o :: os).
Proof. intros Hc. simpl. by rewrite Hc, andb_false_r. Qed.

(** Induction over the run of [amatch]: the taker is exhausted, the head does
    not cross, the head is consumed, or the head is reduced. *)
Lemma amatch_ind c t l (P : Quantity -> list Order -> list Trade -> Quantity -> list Order -> Prop) :
  (forall q os, q <= 0 \/ os = [] -> P q os [] q os) ->
  (forall q o os, 0 < q -> cross c (o_price o) l = false -> P q (o :: os) [] q (o :: os)) ->
  (forall q o os ts q' r, 0 < o_qty o <= q -> cross c (o_price o) l = true ->
     P (q - o_qty o) os ts q' r ->
     P q (o :: os) (mkTrade t (o_id o) (o_price o) (o_qty o) :: ts) q' r) ->
  (forall q o os, 0 < q < o_qty o -> cross c (o_price o) l = true ->
     P q (o :: os) [mkTrade t (o_id o) (o_price o) q] 0 (with_qty (o_qty o - q) o :: os)) ->
  forall q os ts q' r, positive os -> amatch c t l q os = (ts, q', r) -> P q os ts q' r.
Proof.
  intros Hdone Hstop Hall Hpart q os. revert q.
  induction os as [|o os IH]; intros q ts q' r Hpos Hm.
  - simplify_eq/=. apply Hdone. by right.
  - apply Forall_cons in Hpos as [Ho Hpos].
    destruct (Z.le_gt_cases q 0) as [Hq|Hq].
    { rewrite amatch_zero in Hm by done. simplify_eq. apply Hdone. by left. }
    destruct (cross c (o_price o) l) eqn:Hc.
    + destruct (amatch_cons c t l q o os) as [[? E]|[? E]]; [lia|done|done|..];
        rewrite E in Hm.
      * destruct (amatch c t l (q - o_qty o) os) as [[ts1 q1] r1] eqn:E1.
        simplify_eq. apply Hall; [done|done|]. by apply IH.
      * simplify_eq. apply Hpart; [lia|done].
    + rewrite amatch_stop in Hm by done. simplify_eq. apply Hstop; [lia|done].
Qed.

Ltac amatch_induct H Hpos :=
  revert H; revert Hpos;
  match goal with |- positive ?os -> amatch ?c ?t ?l ?q ?os = (?ts, ?q', ?r) -> _ =>
    let Hp := fresh in let Hm := fresh in
    intros Hp Hm; pattern q, os, ts, q', r;
    eapply amatch_ind; [..|exact Hp|exact Hm]; clear Hp Hm; clear q os ts q' r
  end.

(** Quantity is conserved: what is traded leaves the taker and the queue. *)
Lemma amatch_conserve c t l q os ts q' r :
  positive os -> amatch c t l q os = (ts, q', r) ->
  q' = q - traded ts /\ depth r = depth os - traded ts /\ (0 <= q -> 0 <= q').
Proof.
  intros Hpos Hm. amatch_induct Hm Hpos; unfold traded, depth; csimpl.
  - intros. lia.
  - intros. lia.
  - intros q o os ts q' r ? _ (->&?&?). lia.
  - intros. lia.
Qed.

(** The queue stays positive and its orders keep id, price, side and time. *)
Lemma amatch_positive c t l q os ts q' r :
  positive os -> amatch c t l q os = (ts, q', r) -> positive r.
Proof.
  intros Hpos Hm. pose proof Hpos as Hpos'. revert Hpos'. amatch_induct Hm Hpos.
  - done.
  - done.
  - intros ?????? _ _ IH [_ ?]%Forall_cons. auto.
  - intros q o os ? _ [? ?]%Forall_cons. constructor; [simpl; lia|done].
Qed.

(** What is left of a crossing queue: the consumed makers are a prefix, and at
    most the next one is reduced.  [k] is the number of consumed makers. *)
Lemma amatch_residual c t l q os ts q' r :
  positive os -> amatch c t l q os = (ts, q', r) ->
  exists k, (k <= length os)%nat /\ length r = (length os - k)%nat /\
    (fun o => with_qty 0 o) <$> r = (fun o => with_qty 0 o) <$> drop k os /\
    Forall2 (fun o o' => o_qty o' <= o_qty o) (drop k os) r /\
    (k <= length ts <= S k)%nat /\ (length ts <= length os)%nat.
Proof.
  intros Hpos Hm. amatch_induct Hm Hpos.
  - intros. exists 0%nat. rewrite drop_0. split_and!; try done; try (simpl; lia).
    apply Forall_Forall2_diag, Forall_true. lia.
  - intros. exists 0%nat. rewrite drop_0. split_and!; try done; try (simpl; lia).
    apply Forall_Forall2_diag, Forall_true. lia.
  - intros ?????? _ _ (k & ? & ? & ? & ? & ? & ?). exists (S k).
    split_and!; simpl; try done; lia.
  - intros q o os ? _. exists 0%nat. rewrite drop_0. split_and!; simpl; try lia; try done.
    constructor; [simpl; lia|]. apply Forall_Forall2_diag, Forall_true. lia.
Qed.

(** Trades follow the queue: the i-th trade is with the i-th order, at its
    price, which crosses the taker's limit, for a positive quantity that the
    maker has. *)
Definition fills (t : OrderId) (c : KeyCompare) (l : Price) (o : Order) (tr : Trade) : Prop :=
  taker_id tr = t /\ maker_id tr = o_id o /\ tr_price tr = o_price o /\
  cross c (o_price o) l = true /\ 0 < tr_qty tr <= o_qty o.

Lemma amatch_fills c t l q os ts q' r :
  positive os -> amatch c t l q os = (ts, q', r) ->
  Forall2 (fills t c l) (take (length ts) os) ts.
Proof.
  intros Hpos Hm. amatch_induct Hm Hpos; simpl; try by constructor.
  - intros ?????? ? ? IH. constructor; [|done]. unfold fills; simpl. split_and!; try done; lia.
  - intros. constructor; [|by rewrite take_0]. unfold fills; simpl. split_and!; try done; lia.
Qed.

(** Every maker but the last is filled completely before the next is touched. *)
Lemma amatch_full_fills c t l q os ts q' r i o tr :
  positive os -> amatch c t l q os = (ts, q', r) ->
  os !! i = Some o -> ts !! i = Some tr -> (S i < length ts)%nat -> tr_qty tr = o_qty o.
Proof.
  intros Hpos Hm. revert i. amatch_induct Hm Hpos; simpl; try (intros; simpl in *; lia).
  intros q2 o2 os ts q' r ? ? IH [|i] ? ? ?; simplify_eq/=; [done|].
  apply (IH i); [done|done|lia].
Qed.

(** ** Crossing *)

Lemma cross_mono c p1 p2 l : key_lt c p1 p2 -> cross c p1 l = false -> cross c p2 l = false.
Proof.
  unfold key_lt. rewrite key_comp_spec. destruct c; simpl; rewrite !Z.leb_gt; lia.
Qed.

Lemma prio_cross c o1 o2 l :
  prio c o1 o2 -> cross c (o_price o1) l = false -> cross c (o_price o2) l = false.
Proof. intros [H|[-> _]]; [by apply cross_mono|done]. Qed.

(** The quantity resting at prices that cross the limit. *)
Definition crossing_depth (c : KeyCompare) (l : Price) (os : list Order) : Quantity :=
  sumZ ((fun o => if cross c (o_price o) l then o_qty o else 0) <$> os).

Lemma crossing_depth_cons c l o os :
  crossing_depth c l (o :: os) =
  (if cross c (o_price o) l then o_qty o else 0) + crossing_depth c l os.
Proof. done. Qed.

Lemma crossing_depth_nonneg c l os : positive os -> 0 <= crossing_depth c l os.
Proof.
  intros Hp. apply sumZ_nonneg, Forall_fmap. eapply Forall_impl; [done|].
  intros o Ho; simpl in *. destruct (cross _ _ _); lia.
Qed.

Lemma crossing_depth_none c l os :
  Forall (fun o => cross c (o_price o) l = false) os -> crossing_depth c l os = 0.
Proof. induction 1 as [|o os Ho Hf IH]; [done|]. rewrite crossing_depth_cons, Ho, IH. done. Qed.

Lemma not_crossing c l o os :
  Forall (prio c o) os -> cross c (o_price o) l = false ->
  Forall (fun o => cross c (o_price o) l = false) (o :: os).
Proof.
  intros Hf Hc. constructor; [done|]. eapply Forall_impl; [done|].
  intros o' ?. by eapply prio_cross.
Qed.

(** A taker with quantity left has exhausted every crossing order. *)
Lemma amatch_exhausts c t l q os ts q' r :
  positive os -> StronglySorted (prio c) os -> amatch c t l q os = (ts, q', r) ->
  0 < q' -> Forall (fun o => cross c (o_price o) l = false) r.
Proof.
  intros Hpos Hs Hm. revert Hs. amatch_induct Hm Hpos.
  - intros q os [?| ->] ??; [lia|constructor].
  - intros q o os ? ? [? ?]%StronglySorted_inv ?. by apply not_crossing.
  - intros ?????? _ _ IH [? _]%StronglySorted_inv. auto.
  - intros. lia.
Qed.

(** The executed volume is exactly the crossing depth, capped by the order. *)
Lemma amatch_volume c t l q os ts q' r :
  positive os -> StronglySorted (prio c) os -> 0 <= q ->
  amatch c t l q os = (ts, q', r) -> traded ts = Z.min q (crossing_depth c l os).
Proof.
  intros Hpos Hs Hq Hm. pose proof Hpos as Hp. revert Hp Hs Hq.
  amatch_induct Hm Hpos.
  - intros q os Hq Hp%(crossing_depth_nonneg c l) _ ?. unfold traded, crossing_depth in *.
    destruct Hq as [?| ->]; simpl in *; lia.
  - intros q o os ? Hc _ [_ Hf]%StronglySorted_inv _.
    rewrite crossing_depth_none by (by apply not_crossing). unfold traded. simpl. lia.
  - intros q o os ts q' r ? Hc IH [_ Hp]%Forall_cons [Hs _]%StronglySorted_inv ?.
    rewrite traded_cons, crossing_depth_cons, Hc, IH by (done || lia). simpl. lia.
  - intros q o os ? Hc [_ Hp%(crossing_depth_nonneg c l)]%Forall_cons _ _.
    rewrite traded_cons, crossing_depth_cons, Hc. unfold traded. simpl. lia.
Qed.

(** ** Preservation of the invariant *)

Lemma ab_side_make s own opp nid nts free : ab_side (ab_make s own opp nid nts free) s = own.
Proof. by destruct s. Qed.

Lemma ab_side_make_opp s own opp nid nts free :
  ab_side (ab_make s own opp nid nts free) (opposite s) = opp.
Proof. by destruct s. Qed.

Lemma ab_make_next_id s own opp nid nts free :
  ab_next_id (ab_make s own opp nid nts free) = nid.
Proof. by destruct s. Qed.

Lemma ab_make_next_ts s own opp nid nts free :
  ab_next_ts (ab_make s own opp nid nts free) = nts.
Proof. by destruct s. Qed.

Lemma ab_make_free s own opp nid nts free : ab_free (ab_make s own opp nid nts free) = free.
Proof. by destruct s. Qed.

#[export] Hint Rewrite ab_side_make ab_side_make_opp ab_make_next_id ab_make_next_ts
  ab_make_free : hft.

Lemma ab_orders_side s b : ab_orders b ≡ₚ ab_side b s ++ ab_side b (opposite s).
Proof. destruct s; simpl; [done|]. apply Permutation_app_comm. Qed.

Lemma side_case (P : Side -> Prop) s : P s -> P (opposite s) -> forall s', P s'.
Proof. destruct s; intros ?? []; done. Qed.

Lemma awf_positive b s : abook_wf b -> positive (ab_side b s).
Proof.
  intros Hwf. eapply Forall_impl; [apply (awf_side _ Hwf)|]. intros o [? [? ?] ? ?]. done.
Qed.

(** No resting order of the opposite side crosses a resting order of [s]. *)
Lemma uncrossed_side b s x y :
  abook_wf b -> x ∈ ab_side b s -> y ∈ ab_side b (opposite s) ->
  cross (side_cmp (opposite s)) (o_price y) (o_price x) = false.
Proof.
  intros Hwf Hx Hy. pose proof (awf_uncrossed _ Hwf) as H.
  destruct s; simpl in *; apply Z.leb_gt; by apply H.
Qed.

Lemma uncrossed_of_side b s :
  (forall x y, x ∈ ab_side b s -> y ∈ ab_side b (opposite s) ->
     cross (side_cmp (opposite s)) (o_price y) (o_price x) = false) ->
  forall x y, x ∈ ab_bids b -> y ∈ ab_asks b -> o_price x < o_price y.
Proof.
  intros H x y Hx Hy. destruct s; simpl in *.
  - specialize (H x y Hx Hy). by apply Z.leb_gt in H.
  - specialize (H y x Hy Hx). by apply Z.leb_gt in H.
Qed.

Lemma amatch_Forall c t l q os ts q' r (P : Order -> Prop) :
  (forall o n, P o -> 0 < n <= o_qty o -> P (with_qty n o)) ->
  positive os -> amatch c t l q os = (ts, q', r) -> Forall P os -> Forall P r.
Proof.
  intros HP Hpos Hm. amatch_induct Hm Hpos; try done.
  - intros ?????? _ _ IH [_ ?]%Forall_cons. auto.
  - intros q o os ? _ [? ?]%Forall_cons. constructor; [|done]. apply HP; [done|lia].
Qed.

Lemma amatch_sorted c t l q os ts q' r :
  positive os -> amatch c t l q os = (ts, q', r) ->
  StronglySorted (prio c) os -> StronglySorted (prio c) r.
Proof.
  intros Hpos Hm. amatch_induct Hm Hpos; try done.
  - intros ?????? _ _ IH [? _]%StronglySorted_inv. auto.
  - intros q o os ? _ [? ?]%StronglySorted_inv. by constructor.
Qed.

Lemma amatch_suffix {A} (f : Order -> A) c t l q os ts q' r :
  (forall o n, f (with_qty n o) = f o) -> positive os ->
  amatch c t l q os = (ts, q', r) -> f <$> r `suffix_of` f <$> os.
Proof.
  intros Hf Hpos Hm. amatch_induct Hm Hpos; csimpl; try done.
  - intros ?????? _ _ IH. by apply suffix_cons_r.
  - intros. by rewrite Hf.
Qed.

Lemma ainsert_Permutation c o os : ainsert c o os ≡ₚ o :: os.
Proof.
  induction os as [|o' os IH]; simpl; [done|].
  destruct (key_comp _ _ _); [done|]. rewrite IH. by constructor.
Qed.

Lemma ainsert_sorted c o os :
  Forall (fun o' => o_ts o' < o_ts o) os -> StronglySorted (prio c) os ->
  StronglySorted (prio c) (ainsert c o os).
Proof.
  induction 1 as [|o' os Hts Hf IH]; simpl; intros Hs; [by repeat constructor|].
  pose proof Hs as [Hs' Hall]%StronglySorted_inv.
  destruct (key_cases c (o_price o) (o_price o')) as [[? E]|[(Heq & E & _)|(? & E & _)]];
    rewrite E.
  - constructor; [done|]. constructor; [by left|].
    eapply Forall_impl; [done|].
    intros o2 [?|[Hp _]]; left; [by etrans|by rewrite <-Hp].
  - constructor; [by auto|]. rewrite ainsert_Permutation. constructor; [|done].
    right. by rewrite Heq.
  - constructor; [by auto|]. rewrite ainsert_Permutation. constructor; [|done]. by left.
Qed.

Lemma order_ok_mono s nid nts nid' nts' o :
  nid <= nid' -> nts <= nts' -> order_ok s nid nts o -> order_ok s nid' nts' o.
Proof. intros ?? [????]. constructor; [done..|lia|lia]. Qed.

Lemma order_ok_with_qty s nid nts o n :
  order_ok s nid nts o -> 0 < n <= o_qty o -> order_ok s nid nts (with_qty n o).
Proof. intros [????] ?. constructor; simpl; [done|lia|done..]. Qed.

(** Inserting a new order keeps a side well formed. *)
Lemma ainsert_side_wf s nid nts os o :
  Forall (order_ok s nid nts) os -> StronglySorted (prio (side_cmp s)) os ->
  o_side o = s -> o_ts o = nts -> 0 < o_qty o <= INT64_MAX -> 0 < o_id o < nid + 1 -> 0 < nts ->
  Forall (order_ok s (nid + 1) (nts + 1)) (ainsert (side_cmp s) o os) /\
  StronglySorted (prio (side_cmp s)) (ainsert (side_cmp s) o os).
Proof.
  intros Hf Hs Hside Hts Hq Hid Hnts. split.
  - rewrite ainsert_Permutation. constructor.
    + constructor; [done|lia|lia|lia].
    + eapply Forall_impl; [done|]. intros o'. apply order_ok_mono; lia.
  - apply ainsert_sorted; [|done]. eapply Forall_impl; [done|]. intros o' [????]. lia.
Qed.

(** The queue left by a taker, as a well-formed side. *)
Lemma amatch_side_wf s nid nts c t l q os ts q' r :
  c = side_cmp s -> amatch c t l q os = (ts, q', r) ->
  Forall (order_ok s nid nts) os -> StronglySorted (prio c) os ->
  positive os /\ Forall (order_ok s nid nts) r /\ StronglySorted (prio c) r /\
  (o_id <$> r) `suffix_of` (o_id <$> os) /\ (o_price <$> r) `suffix_of` (o_price <$> os).
Proof.
  intros -> Hm Hf Hs.
  assert (positive os) as Hpos.
  { eapply Forall_impl; [done|]. by intros o [? [? ?] ? ?]. }
  split_and!; [done|..].
  - eapply amatch_Forall; [|done..]. intros. by apply order_ok_with_qty.
  - by eapply amatch_sorted.
  - by eapply amatch_suffix.
  - by eapply amatch_suffix.
Qed.

Lemma amatch_trades_positive c t l q os ts q' r :
  positive os -> amatch c t l q os = (ts, q', r) -> Forall (fun tr => 0 < tr_qty tr) ts.
Proof.
  intros Hpos Hm. eapply Forall2_Forall_r; [by eapply amatch_fills|].
  apply Forall_true. intros o tr. unfold fills. lia.
Qed.

Lemma traded_nonneg ts : Forall (fun tr => 0 < tr_qty tr) ts -> 0 <= traded ts.
Proof.
  intros Hf. apply sumZ_nonneg, Forall_fmap. eapply Forall_impl; [done|]. simpl. lia.
Qed.

(** The invariant of a book put together from two well-formed sides. *)
Lemma abook_wf_make s own opp nid nts free :
  Forall (order_ok s nid nts) own -> StronglySorted (prio (side_cmp s)) own ->
  Forall (order_ok (opposite s) nid nts) opp ->
  StronglySorted (prio (side_cmp (opposite s))) opp ->
  NoDup ((o_id <$> own) ++ (o_id <$> opp)) ->
  (forall x y, x ∈ own -> y ∈ opp ->
     cross (side_cmp (opposite s)) (o_price y) (o_price x) = false) ->
  1 <= nid < UINT64_SIZE -> 1 <= nts <= nid ->
  abook_wf (ab_make s own opp nid nts free).
Proof.
  intros. constructor; autorewrite with hft; try done.
  - apply (side_case _ s); by autorewrite with hft.
  - apply (side_case _ s); by autorewrite with hft.
  - by rewrite (ab_orders_side s), fmap_app, ab_side_make, ab_side_make_opp.
  - apply (uncrossed_of_side _ s). by autorewrite with hft.
Qed.

(** A placement keeps the invariant as long as the id counter has room. *)
Lemma aplace_wf b side price qty :
  abook_wf b -> ab_next_id b + 1 < UINT64_SIZE -> qty <= INT64_MAX ->
  abook_wf (aplace b side price qty).1.1.
Proof.
  intros Hwf Hnid Hqty. unfold aplace.
  pose proof (awf_next_id _ Hwf). pose proof (awf_next_ts _ Hwf).
  destruct (amatch _ _ _ _ _) as [[ts q] r] eqn:Hm.
  destruct (amatch_side_wf (opposite side) (ab_next_id b) (ab_next_ts b) _ _ _ _ _ _ _ _ eq_refl Hm)
    as (Hpos & Hfr & Hsr & Hidr & Hpxr); [apply (awf_side _ Hwf)|apply (awf_prio _ Hwf)|].
  pose proof (amatch_conserve _ _ _ _ _ _ _ _ Hpos Hm) as (Hq & _ & _).
  pose proof (traded_nonneg _ (amatch_trades_positive _ _ _ _ _ _ _ _ Hpos Hm)) as Htr.
  pose proof (awf_ids _ Hwf) as Hnd. rewrite (ab_orders_side side), fmap_app in Hnd.
  assert (NoDup ((o_id <$> ab_side b side) ++ (o_id <$> r))) as Hnd'.
  { eapply sublist_NoDup; [done|]. apply sublist_app; [done|]. by apply suffix_sublist. }
  assert (forall x y, x ∈ ab_side b side -> y ∈ r ->
    cross (side_cmp (opposite side)) (o_price y) (o_price x) = false) as Hunc.
  { intros x y Hx Hy. apply (list_elem_of_fmap_2 o_price) in Hy.
    eapply elem_of_suffix in Hy; [|done].
    apply list_elem_of_fmap in Hy as (y' & -> & ?). by eapply uncrossed_side. }
  rewrite (u64_small (ab_next_id b + 1)) by lia.
  destruct ((0 <? q) && _) eqn:Hr; simpl.
  - apply andb_true_iff in Hr as [Hq0%Z.ltb_lt _].
    rewrite (u64_small (ab_next_ts b + 1)) by lia.
    edestruct (ainsert_side_wf side (ab_next_id b) (ab_next_ts b) (ab_side b side)
      (mkOrder (ab_next_id b) side price q (ab_next_ts b))) as [Hf' Hs'];
      [apply (awf_side _ Hwf)|apply (awf_prio _ Hwf)|done|done|simpl; lia..|].
    apply abook_wf_make; try done; [..|lia|lia].
    + eapply Forall_impl; [done|]. intros o. apply order_ok_mono; lia.
    + rewrite ainsert_Permutation. csimpl. constructor; [|done].
      rewrite <-fmap_app. intros (o & Hid & Hin)%list_elem_of_fmap.
      apply elem_of_app in Hin as [Hin|Hin].
      * pose proof (awf_side _ Hwf side) as Hf. rewrite Forall_forall in Hf.
        destruct (Hf o Hin) as [???]. lia.
      * rewrite Forall_forall in Hfr. destruct (Hfr o Hin) as [???]. lia.
    + intros x y Hx Hy. rewrite ainsert_Permutation in Hx.
      apply elem_of_cons in Hx as [->|?]; [|by apply Hunc].
      eapply amatch_exhausts in Hm; [|done|apply (awf_prio _ Hwf)|done].
      rewrite Forall_forall in Hm. by apply Hm.
  - apply abook_wf_make; try done; [..|lia|lia].
    + eapply Forall_impl; [apply (awf_side _ Hwf)|]. intros o. apply order_ok_mono; lia.
    + apply (awf_prio _ Hwf).
    + eapply Forall_impl; [done|]. intros o. apply order_ok_mono; lia.
Qed.

Lemma acancel_wf b id : abook_wf b -> abook_wf (acancel b id).2.
Proof.
  intros Hwf. unfold acancel. case_decide; [|done]. simpl.
  apply (abook_wf_make Buy); try apply Hwf.
  - apply Forall_sublist_filter, (awf_side _ Hwf Buy).
  - eapply StronglySorted_sublist; [apply sublist_filter|apply (awf_prio _ Hwf Buy)].
  - apply Forall_sublist_filter, (awf_side _ Hwf Sell).
  - eapply StronglySorted_sublist; [apply sublist_filter|apply (awf_prio _ Hwf Sell)].
  - rewrite <-fmap_app. eapply sublist_NoDup; [apply (awf_ids _ Hwf)|].
    apply fmap_sublist, sublist_app; apply sublist_filter.
  - intros x y [_ Hx]%list_elem_of_filter [_ Hy]%list_elem_of_filter.
    by apply (uncrossed_side b Buy).
Qed.

Lemma abook_new_wf n : abook_wf (mkABook [] [] 1 1 n).
Proof.
  apply (abook_wf_make Buy); try constructor; try lia64. intros x y Hx.
  by apply elem_of_nil in Hx.
Qed.

(** ** Matching a queue in two parts *)

Lemma amatch_app_nil c t l q os1 os2 ts1 q1 ts2 q2 r2 :
  amatch c t l q os1 = (ts1, q1, []) -> amatch c t l q1 os2 = (ts2, q2, r2) ->
  amatch c t l q (os1 ++ os2) = (ts1 ++ ts2, q2, r2).
Proof.
  revert q ts1. induction os1 as [|o os1 IH]; simpl; intros q ts1 H1 H2; [by simplify_eq|].
  destruct (_ && _); [|done]. destruct (_ =? 0); [|done].
  destruct (amatch c t l (q - Z.min q (o_qty o)) os1) as [[ts' q'] r'] eqn:E.
  simplify_eq. by rewrite (IH _ _ E H2).
Qed.

Lemma amatch_app_rest c t l q os1 os2 ts q1 r :
  amatch c t l q os1 = (ts, q1, r) -> r <> [] ->
  amatch c t l q (os1 ++ os2) = (ts, q1, r ++ os2).
Proof.
  revert q ts. induction os1 as [|o os1 IH]; simpl; intros q ts H1 Hr; [by simplify_eq|].
  destruct (_ && _); [|by simplify_eq]. destruct (_ =? 0); [|by simplify_eq].
  destruct (amatch c t l (q - Z.min q (o_qty o)) os1) as [[ts' q'] r'] eqn:E.
  simplify_eq. by rewrite (IH _ _ E Hr).
Qed.

Lemma amatch_crossing_rest c t l q os ts q' r :
  positive os -> Forall (fun o => cross c (o_price o) l = true) os ->
  amatch c t l q os = (ts, q', r) -> r <> [] -> q' <= 0.
Proof.
  intros Hpos Hc Hm. revert Hc. amatch_induct Hm Hpos.
  - by intros q os [?| ->] ??.
  - intros q o os _ Hn [Hy _]%Forall_cons. congruence.
  - intros ?????? _ _ IH [_ ?]%Forall_cons. auto.
  - intros. lia.
Qed.

#[global] Arguments amatch : simpl never.

Lemma ainsert_app c o os1 os2 :
  Forall (fun o' => key_comp c (o_price o) (o_price o') = false) os1 ->
  Forall (fun o' => key_lt c (o_price o) (o_price o')) os2 ->
  ainsert c o (os1 ++ os2) = os1 ++ o :: os2.
Proof.
  intros H1 H2. induction H1 as [|o' os1 Ho _ IH]; simpl.
  - destruct H2 as [|o' os2 Ho _]; simpl; [done|]. unfold key_lt in Ho. by rewrite Ho.
  - by rewrite Ho, IH.
Qed.

(** Removing one order by its unique id. *)
Lemma filter_id_notin id (os : list Order) : id ∉ o_id <$> os -> filter (fun o => o_id o <> id) os = os.
Proof.
  intros H. induction os as [|o os IH]; [done|]. csimpl in H.
  apply not_elem_of_cons in H as [??]. rewrite filter_cons_True by done. by rewrite IH.
Qed.

Lemma filter_id_split o (os1 os2 : list Order) :
  NoDup (o_id <$> os1 ++ o :: os2) ->
  filter (fun o' => o_id o' <> o_id o) (os1 ++ o :: os2) = os1 ++ os2.
Proof.
  rewrite fmap_app. csimpl. intros (_ & Hdis & [H2 _]%NoDup_cons)%NoDup_app.
  rewrite filter_app, filter_cons_False, !filter_id_notin; [done|done| |by intros ?].
  intros H1. apply (Hdis _ H1). by left.
Qed.

Lemma acancel_present a s o os1 os2 :
  abook_wf a -> ab_side a s = os1 ++ o :: os2 ->
  acancel a (o_id o) =
  (true, ab_make s (os1 ++ os2) (ab_side a (opposite s)) (ab_next_id a) (ab_next_ts a)
           (S (ab_free a))).
Proof.
  intros Hwf Hs. pose proof (awf_ids _ Hwf) as Hnd.
  assert (NoDup (o_id <$> ab_side a s) /\ o_id o ∉ o_id <$> ab_side a (opposite s)) as [Hnd1 Hni].
  { rewrite (ab_orders_side s), fmap_app in Hnd. apply NoDup_app in Hnd as (? & Hdis & _).
    split; [done|]. apply Hdis. rewrite Hs, fmap_app. csimpl. set_solver. }
  unfold acancel. rewrite decide_True.
  - rewrite Hs in Hnd1. f_equal. pose proof (filter_id_split _ _ _ Hnd1) as Hf.
    apply filter_id_notin in Hni. destruct s; simpl in *; by rewrite ?Hs, ?Hf, ?Hni.
  - rewrite (ab_orders_side s), Hs, !fmap_app. csimpl. set_solver.
Qed.
