(* ===== verification/BookMatch.v ===== *)
(** * The matching loops implement the specification's matching

    [match_level] and [match_against], run on pointers with the fuel that the
    model gives them, compute [amatch] on the orders that the linked levels
    hold, return every consumed node to the pool and erase it from the index. *)

From S2P Require Import Prelude Pool OrderedMap Level OrderBook BookSpec.

(** ** Representation of one side *)

Abbreviation GSide := (list (Price * Nodes)).

Definition g_nodes (g : GSide) : Nodes := mjoin g.*2.
Definition g_orders (g : GSide) : list Order := (g_nodes g).*2.

Record level_ok (st : gmap nat (Slot OrderNode)) (e : Price * Level) (ge : Price * Nodes)
    : Prop := {
  lk_px : e.1 = ge.1;
  lk_rep : level_rep st e.2 ge.2;
  lk_nonempty : ge.2 <> [];
  lk_orders : Forall (fun n => o_price n.2 = ge.1) ge.2
}.

Definition side_rep (st : gmap nat (Slot OrderNode)) (c : KeyCompare)
    (m : list (Price * Level)) (g : GSide) : Prop :=
  Forall2 (level_ok st) m g /\ StronglySorted (key_lt c) g.*1.

Lemma g_nodes_cons px ns g : g_nodes ((px, ns) :: g) = ns ++ g_nodes g.
Proof. done. Qed.

Lemma g_nodes_app g1 g2 : g_nodes (g1 ++ g2) = g_nodes g1 ++ g_nodes g2.
Proof. unfold g_nodes. by rewrite fmap_app, join_app. Qed.

Lemma g_orders_cons px ns g : g_orders ((px, ns) :: g) = ns.*2 ++ g_orders g.
Proof. unfold g_orders. by rewrite g_nodes_cons, fmap_app. Qed.

Lemma g_orders_app g1 g2 : g_orders (g1 ++ g2) = g_orders g1 ++ g_orders g2.
Proof. unfold g_orders. by rewrite g_nodes_app, fmap_app. Qed.

Lemma level_ok_frame st st' e ge :
  (forall l, l ∈ ge.2.*1 -> st' !! l = st !! l) -> level_ok st e ge -> level_ok st' e ge.
Proof. intros Heq [????]. constructor; [done| |done..]. by eapply level_rep_frame. Qed.

Lemma levels_frame st st' m g :
  (forall l, l ∈ (g_nodes g).*1 -> st' !! l = st !! l) ->
  Forall2 (level_ok st) m g -> Forall2 (level_ok st') m g.
Proof.
  intros Heq H. induction H as [|e [px ns] m g Hok H IH]; [constructor|].
  rewrite g_nodes_cons, fmap_app in Heq. constructor.
  - eapply level_ok_frame; [|done]. intros. apply Heq, elem_of_app. by left.
  - apply IH. intros. apply Heq, elem_of_app. by right.
Qed.

Lemma side_rep_frame st st' c m g :
  (forall l, l ∈ (g_nodes g).*1 -> st' !! l = st !! l) ->
  side_rep st c m g -> side_rep st' c m g.
Proof. intros ? [??]. split; [|done]. by eapply levels_frame. Qed.

Lemma levels_keys st m g : Forall2 (level_ok st) m g -> m.*1 = g.*1.
Proof. induction 1 as [|e ge m g [??? ?] H IH]; csimpl; [done|]. by f_equal. Qed.

Lemma levels_length st m g :
  Forall2 (level_ok st) m g -> (length g <= length (g_nodes g))%nat.
Proof.
  induction 1 as [|e [px ns] m g [?? Hne ?] H IH]; [done|].
  rewrite g_nodes_cons, length_app. destruct ns; simpl in *; [done|lia].
Qed.

Lemma levels_lookup st m g l o :
  Forall2 (level_ok st) m g -> (l, o) ∈ g_nodes g ->
  exists pr nx, st !! l = Some (SlotStorage (node_of o pr nx)).
Proof.
  induction 1 as [|e [px ns] m g [? Hr ??] H IH]; [by intros ?%elem_of_nil|].
  rewrite g_nodes_cons. intros [Hin|Hin]%elem_of_app; [|by apply IH].
  destruct Hr as (_ & _ & Hs). by eapply dseg_lookup.
Qed.

(** Every order of a represented side has a slot, so they fit the capacity. *)
Lemma levels_capacity fl p m g :
  pool_wf p fl -> Forall2 (level_ok (storage_ p)) m g -> NoDup (g_nodes g).*1 ->
  (length (g_nodes g) <= capacity_ p)%nat.
Proof.
  intros Hwf Hf Hnd. rewrite <-(length_seq (capacity_ p) 0), <-(length_fmap fst).
  apply submseteq_length, NoDup_submseteq; [done|].
  intros l ([l' o] & -> & Hin)%list_elem_of_fmap. apply elem_of_seq. simpl.
  destruct (levels_lookup _ _ _ _ _ Hf Hin) as (pr & nx & Hl).
  assert (l' < capacity_ p)%nat by (apply (wf_dom _ _ Hwf); by rewrite Hl). lia.
Qed.

(** ** The inner loop *)

Definition erase_all (ids : list OrderId) (m : gmap Z nat) : gmap Z nat :=
  foldl (fun m id => delete id m) m ids.

(** What a matching run does to the nodes [ns]: it makes the trades [ts],
    consumes the first [k] nodes and leaves [ns']. *)
Record match_effect (c : KeyCompare) (taker : OrderId) (limit : Price) (fl : list nat)
    (ns : Nodes) (s : MatchState) (k : nat) (ts : list Trade) (s' : MatchState) (ns' : Nodes)
    : Prop := {
  me_match : amatch c taker limit (ms_qty s) ns.*2 = (ts, ms_qty s', ns'.*2);
  me_trades : ms_trades s' = ms_trades s ++ ts;
  me_locs : ns'.*1 = drop k ns.*1;
  me_ids : o_id <$> ns'.*2 = drop k (o_id <$> ns.*2);
  me_upd : mem_upd (reverse (take k ns.*1) ++ fl) ns.*1 (ms_pool s) (ms_pool s');
  me_index : ms_index s' = erase_all (take k (o_id <$> ns.*2)) (ms_index s)
}.

Lemma match_effect_none c taker limit fl ns s :
  pool_wf (ms_pool s) fl ->
  amatch c taker limit (ms_qty s) ns.*2 = ([], ms_qty s, ns.*2) ->
  match_effect c taker limit fl ns s 0 [] s ns.
Proof.
  intros. constructor; rewrite ?drop_0, ?take_0, ?app_nil_r; done.
Qed.

(** Consuming the head node, then matching the rest. *)
Lemma match_effect_cons c taker limit fl l o ns s p1 k ts s' ns' :
  0 < o_qty o <= ms_qty s -> cross c (o_price o) limit = true ->
  mem_upd (l :: fl) (l :: ns.*1) (ms_pool s) p1 ->
  match_effect c taker limit (l :: fl) ns
    (mkMatch (delete (o_id o) (ms_index s)) p1 (ms_qty s - o_qty o)
       (ms_trades s ++ [mkTrade taker (o_id o) (o_price o) (o_qty o)])) k ts s' ns' ->
  match_effect c taker limit fl ((l, o) :: ns) s (S k)
    (mkTrade taker (o_id o) (o_price o) (o_qty o) :: ts) s' ns'.
Proof.
  intros Hq Hc Hu [Hm Ht Hl Hi Hu' Hx]; simpl in *. constructor; csimpl; try done.
  - destruct (amatch_cons c taker limit (ms_qty s) o ns.*2) as [[_ E]|[? _]];
      [lia|lia|done| |lia].
    simpl in E. by rewrite E, Hm.
  - by rewrite Ht, <-app_assoc.
  - rewrite reverse_cons, <-app_assoc. simpl. eapply mem_upd_trans; [done|].
    eapply mem_upd_weaken; [|done]. set_solver.
Qed.

Lemma level_head_rep st lvl l o ns :
  level_rep st lvl ((l, o) :: ns) ->
  head lvl = Some l /\ Level_empty lvl = false /\
  st !! l = Some (SlotStorage (node_of o None (first_loc ns None))).
Proof. intros (Hh & _ & [Hl _]). unfold Level_empty. by rewrite Hh. Qed.

(** The loop stops when the taker is done or the level is empty. *)
Lemma match_level_done fuel taker px lvl s :
  ms_qty s <= 0 \/ Level_empty lvl = true ->
  match_level (S fuel) taker px lvl s = Some (lvl, s).
Proof.
  intros Hd. simpl. destruct (0 <? ms_qty s) eqn:Hq; simpl; [|done].
  apply Z.ltb_lt in Hq. destruct Hd as [?| ->]; [lia|done].
Qed.

(** One iteration at the head node [l], up to the write of [maker->qty]. *)
Lemma match_level_head fuel taker px lvl s fl l o ns :
  pool_wf (ms_pool s) fl -> level_rep (storage_ (ms_pool s)) lvl ((l, o) :: ns) ->
  l ∉ ns.*1 -> 0 < ms_qty s <= INT64_MAX -> 0 < o_qty o <= INT64_MAX ->
  let fill := Z.min (ms_qty s) (o_qty o) in
  let o' := with_qty (o_qty o - fill) o in
  exists p1, mem_upd fl [l] (ms_pool s) p1 /\
    level_rep (storage_ p1) lvl ((l, o') :: ns) /\
    match_level (S fuel) taker px lvl s =
      (let trades := ms_trades s ++ [mkTrade taker (o_id o) px fill] in
       if o_qty o' =? 0 then
         '(lvl, p) ← level_unlink lvl l p1;
         p ← release l p;
         match_level fuel taker px lvl
           (mkMatch (delete (o_id o) (ms_index s)) p (ms_qty s - fill) trades)
       else match_level fuel taker px lvl
              (mkMatch (ms_index s) p1 (ms_qty s - fill) trades)).
Proof.
  intros Hwf Hrep Hni Hq Hoq fill o'.
  destruct (level_head_rep _ _ _ _ _ Hrep) as (Hh & He & Hl).
  destruct (modify_upd fl (ms_pool s) l (set_qty (o_qty o - fill)) _ Hwf Hl)
    as (p1 & Hmod & Hu & Hst).
  exists p1. split; [done|].
  assert (level_rep (storage_ p1) lvl ((l, o') :: ns)) as Hrep1.
  { destruct Hrep as (?&?&?). split_and!; [done..|]. rewrite Hst. by apply dseg_set_qty. }
  split; [done|]. cbn [match_level].
  rewrite (proj2 (Z.ltb_lt _ _)), He, Hh by lia. cbn [andb negb mbind option_bind].
  rewrite (deref_storage _ _ _ Hl). cbn [mbind option_bind on_qty on_id node_of].
  fold fill. rewrite (i64_Some (ms_qty s - fill)), (i64_Some (o_qty o - fill)) by lia64.
  cbn [mbind option_bind]. rewrite Hmod. cbn [mbind option_bind].
  destruct (level_head_rep _ _ _ _ _ Hrep1) as (_ & _ & Hl1).
  by rewrite (deref_storage _ _ _ Hl1).
Qed.

(** The inner loop computes [amatch] on the level and frees what it consumes. *)
Lemma match_level_spec c taker limit px fl ns : forall fuel lvl s,
  (length ns < fuel)%nat -> pool_wf (ms_pool s) fl ->
  level_rep (storage_ (ms_pool s)) lvl ns -> NoDup ns.*1 ->
  Forall (fun n => o_price n.2 = px /\ 0 < o_qty n.2 <= INT64_MAX) ns ->
  cross c px limit = true -> ms_qty s <= INT64_MAX ->
  exists k ts lvl' s' ns', match_level fuel taker px lvl s = Some (lvl', s') /\
    match_effect c taker limit fl ns s k ts s' ns' /\
    level_rep (storage_ (ms_pool s')) lvl' ns'.
Proof.
  revert fl. induction ns as [|[l o] ns IH]; intros fl [|fuel] lvl s Hf Hwf Hrep Hnd Hok Hc Hq;
    simpl in Hf; try lia.
  - exists 0%nat, [], lvl, s, []. split_and!; [|by apply match_effect_none|done].
    apply match_level_done. right. by eapply level_rep_empty.
  - destruct (Z.le_gt_cases (ms_qty s) 0) as [Hq0|Hq0].
    { exists 0%nat, [], lvl, s, ((l, o) :: ns). split_and!; [|apply match_effect_none|done].
      - apply match_level_done. by left.
      - done.
      - by apply amatch_zero. }
    apply Forall_cons in Hok as [[Hpx Hoq] Hok]. simpl in Hpx, Hoq.
    csimpl in Hnd. pose proof Hnd as [Hni Hnd']%NoDup_cons.
    destruct (match_level_head fuel taker px lvl s fl l o ns) as (p1 & Hu1 & Hrep1 & E);
      [done..|lia|done|].
    rewrite E; clear E. cbn zeta. cbn [with_qty o_qty].
    destruct (Z.le_gt_cases (o_qty o) (ms_qty s)) as [Hle|Hgt].
    + rewrite Z.min_r, Z.sub_diag by done. cbn [Z.eqb].
      destruct (unlink_release_spec fl p1 lvl [] l (with_qty 0 o) ns)
        as (lvl2 & p2 & p3 & E2 & E3 & Hrep3 & Hu3).
      { apply Hu1. } { by rewrite Z.min_r, Z.sub_diag in Hrep1 by done. } { done. }
      rewrite E2. cbn [mbind option_bind]. rewrite E3. cbn [mbind option_bind].
      set (s3 := mkMatch _ _ _ _).
      destruct (IH (l :: fl) fuel lvl2 s3) as (k & ts & lvl' & s' & ns' & Em & He & Hr');
        [lia|apply Hu3|done..|simpl; lia|].
      eexists (S k), _, lvl', s', ns'. split_and!; [done| |done].
      subst px. eapply match_effect_cons; [lia|done| |done].
      eapply mem_upd_trans; [eapply mem_upd_weaken; [|done]; set_solver|done].
    + rewrite Z.min_l in * by lia. rewrite (proj2 (Z.eqb_neq _ _)) by lia.
      destruct fuel as [|fuel]; [lia|].
      rewrite match_level_done by (left; simpl; lia).
      eexists 0%nat, [mkTrade taker (o_id o) px (ms_qty s)], lvl, _,
        ((l, with_qty (o_qty o - ms_qty s) o) :: ns).
      split_and!; [done| |done]. subst px. constructor; csimpl; rewrite ?drop_0, ?take_0; try done.
      * destruct (amatch_cons c taker limit (ms_qty s) o ns.*2) as [[? _]|[_ E]]; [lia..|done|lia|].
        simpl in E. by rewrite E, Z.sub_diag.
      * eapply mem_upd_weaken; [|done]. set_solver.
Qed.

(** ** The outer loop *)

Lemma erase_all_app ids1 ids2 m : erase_all (ids1 ++ ids2) m = erase_all ids2 (erase_all ids1 m).
Proof. apply foldl_app. Qed.

(** A level consumed entirely, then the levels behind it. *)
Lemma match_effect_app c taker limit fl ns1 ns2 s k1 ts1 s1 k2 ts2 s2 ns' :
  match_effect c taker limit fl ns1 s k1 ts1 s1 [] ->
  match_effect c taker limit (reverse ns1.*1 ++ fl) ns2 s1 k2 ts2 s2 ns' ->
  match_effect c taker limit fl (ns1 ++ ns2) s (length ns1 + k2) (ts1 ++ ts2) s2 ns'.
Proof.
  intros [Hm1 Ht1 Hl1 Hi1 Hu1 Hx1] [Hm2 Ht2 Hl2 Hi2 Hu2 Hx2].
  assert (length ns1 <= k1)%nat as Hk.
  { apply (f_equal length) in Hl1. rewrite length_drop, !length_fmap in Hl1. simpl in Hl1. lia. }
  rewrite !take_ge in * by (rewrite ?length_fmap; lia).
  assert (length ns1 + k2 - length ns1 = k2)%nat as Hk2 by lia.
  constructor; rewrite ?fmap_app, ?drop_app_ge, ?take_app_ge, ?length_fmap, ?Hk2
    by (rewrite ?length_fmap; lia); try done.
  - by eapply amatch_app_nil.
  - by rewrite Ht2, Ht1, <-app_assoc.
  - rewrite reverse_app, <-app_assoc.
    eapply mem_upd_trans; (eapply mem_upd_weaken; [|done]); set_solver.
  - by rewrite erase_all_app, <-Hx1.
Qed.

(** A level on which the taker is exhausted. *)
Lemma match_effect_rest c taker limit fl ns1 ns2 s k ts s' ns' :
  match_effect c taker limit fl ns1 s k ts s' ns' -> ns' <> [] ->
  match_effect c taker limit fl (ns1 ++ ns2) s k ts s' (ns' ++ ns2).
Proof.
  intros [Hm Ht Hl Hi Hu Hx] Hne.
  assert (k <= length ns1)%nat as Hk.
  { apply (f_equal length) in Hl. rewrite length_drop, !length_fmap in Hl.
    destruct ns'; simpl in *; [done|lia]. }
  constructor; rewrite ?fmap_app, ?drop_app_le, ?take_app_le by (rewrite ?length_fmap; lia);
    try done; try congruence.
  - eapply amatch_app_rest; [done|]. by destruct ns'.
  - eapply mem_upd_weaken; [|done]. set_solver.
Qed.

Definition nodes_ok (ns : Nodes) : Prop := Forall (fun n => 0 < o_qty n.2 <= INT64_MAX) ns.

Lemma nodes_ok_positive ns : nodes_ok ns -> positive ns.*2.
Proof. intros H. apply Forall_fmap. eapply Forall_impl; [done|]. simpl. lia. Qed.

(** The loop stops when the taker is done, the side is empty or its best
    level does not cross. *)
Lemma match_levels_stop fuel c m taker limit s fl g :
  pool_wf (ms_pool s) fl -> side_rep (storage_ (ms_pool s)) c m g ->
  (match g with [] => True | (px, _) :: _ => ms_qty s <= 0 \/ cross c px limit = false end) ->
  match_levels (S fuel) c m taker limit s = Some (m, s) /\
  match_effect c taker limit fl (g_nodes g) s 0 [] s (g_nodes g).
Proof.
  intros Hwf [Hrep _] Hst. split.
  - destruct Hrep as [|[px lvl] [px' ns] m g [Hpx _ _ _] _]; [done|].
    simpl in *. subst px'. destruct (0 <? ms_qty s) eqn:Hq; [|done].
    apply Z.ltb_lt in Hq. destruct Hst as [?| ->]; [lia|done].
  - apply match_effect_none; [done|].
    destruct Hrep as [|[px lvl] [px' [|[l o] ns]] m g [Hpx _ Hne Hpxs] _]; [done..|].
    apply Forall_cons in Hpxs as [Ho _]. rewrite g_nodes_cons. csimpl in *.
    destruct Hst as [?|?]; [by apply amatch_zero|apply amatch_stop; congruence].
Qed.

(** The level after its inner loop, back in the side. *)
Lemma side_rep_reduced st st' c px lvl m ns g lvl' ns' :
  side_rep st c ((px, lvl) :: m) ((px, ns) :: g) -> ns' <> [] ->
  level_rep st' lvl' ns' -> (o_price <$> ns'.*2) `suffix_of` (o_price <$> ns.*2) ->
  (forall l, l ∈ (g_nodes g).*1 -> st' !! l = st !! l) ->
  side_rep st' c ((px, lvl') :: m) ((px, ns') :: g).
Proof.
  intros [[[_ _ _ Hpxs] Hrep]%Forall2_cons_1 Hso] Hne Hlr Hsuf Hfr. split; [|done].
  constructor; [|by eapply levels_frame].
  constructor; [done..|]. simpl in Hpxs |- *.
  assert (Forall (fun q => q = px) (o_price <$> ns'.*2)) as Hall.
  { apply Forall_forall. intros q Hq. eapply elem_of_suffix in Hq; [|done].
    revert q Hq. apply Forall_forall. by rewrite !Forall_fmap. }
  by rewrite !Forall_fmap in Hall.
Qed.

(** The quantity left after a run, and when nodes are left. *)
Lemma match_effect_qty c taker limit fl ns s k ts s' ns' :
  match_effect c taker limit fl ns s k ts s' ns' -> nodes_ok ns -> ms_qty s' <= ms_qty s.
Proof.
  intros He Hok%nodes_ok_positive. pose proof (me_match _ _ _ _ _ _ _ _ _ _ He) as Hm.
  pose proof (traded_nonneg _ (amatch_trades_positive _ _ _ _ _ _ _ _ Hok Hm)).
  apply amatch_conserve in Hm as (-> & _); [lia|done].
Qed.

Lemma match_effect_taker_done c taker limit px fl ns s k ts s' ns' :
  match_effect c taker limit fl ns s k ts s' ns' -> nodes_ok ns -> ns' <> [] ->
  Forall (fun n => o_price n.2 = px) ns -> cross c px limit = true -> ms_qty s' <= 0.
Proof.
  intros He Hok%nodes_ok_positive Hne Hpx Hc.
  eapply amatch_crossing_rest; [done| |apply (me_match _ _ _ _ _ _ _ _ _ _ He)|by destruct ns'].
  apply Forall_fmap. eapply Forall_impl; [done|]. intros n Hn. simpl in *. by rewrite Hn.
Qed.

(** The pool after a level is consumed entirely. *)
Lemma match_effect_consumed c taker limit fl ns s k ts s' :
  match_effect c taker limit fl ns s k ts s' [] -> pool_wf (ms_pool s') (reverse ns.*1 ++ fl).
Proof.
  intros [_ _ Hl _ Hu _]. rewrite take_ge in Hu; [apply Hu|].
  apply (f_equal length) in Hl. rewrite length_drop in Hl. simpl in Hl. lia.
Qed.

(** The outer loop computes [amatch] on the side. *)
Lemma match_levels_spec c taker limit g : forall fl fuel m s,
  (length g < fuel)%nat -> pool_wf (ms_pool s) fl ->
  side_rep (storage_ (ms_pool s)) c m g -> NoDup (g_nodes g).*1 ->
  nodes_ok (g_nodes g) -> ms_qty s <= INT64_MAX ->
  exists k ts m' s' g', match_levels fuel c m taker limit s = Some (m', s') /\
    match_effect c taker limit fl (g_nodes g) s k ts s' (g_nodes g') /\
    side_rep (storage_ (ms_pool s')) c m' g'.
Proof.
  induction g as [|[px ns] g IH]; intros fl [|fuel] m s Hf Hwf Hside Hnd Hok Hq;
    simpl in Hf; try lia.
  { eexists 0%nat, [], m, s, [].
    by destruct (match_levels_stop fuel c m taker limit s fl [] Hwf Hside I). }
  destruct (decide (0 < ms_qty s /\ cross c px limit = true)) as [[Hq0 Hc]|Hstop].
  2: { eexists 0%nat, [], m, s, ((px, ns) :: g).
       edestruct (match_levels_stop fuel c m taker limit s fl ((px, ns) :: g)) as [E He];
         [done..| |by split_and!].
       destruct (cross c px limit); [left|by right]. apply Z.nlt_ge. naive_solver. }
  pose proof Hside as [Hrep Hso].
  apply Forall2_cons_inv_r in Hrep as ([px' lvl] & m' & [Hpx Hlr Hne Hpxs] & Hrep & ->).
  simpl in Hpx, Hlr, Hne, Hpxs. subst px'. rewrite g_nodes_cons in *.
  apply Forall_app in Hok as [Hok1 Hok2]. rewrite fmap_app in Hnd.
  pose proof Hnd as (Hnd1 & Hdis & Hnd2)%NoDup_app.
  destruct (match_level_spec c taker limit px fl ns (S (capacity_ (ms_pool s))) lvl s)
    as (k & ts & lvl' & s' & ns' & E & He & Hlr'); [|done..| |done|done|].
  { destruct Hlr as (_ & _ & Hs). pose proof (dseg_length _ _ _ _ _ Hwf Hs Hnd1). lia. }
  { rewrite Forall_forall in *. intros n Hn. auto. }
  assert (forall l, l ∈ (g_nodes g).*1 -> storage_ (ms_pool s') !! l = storage_ (ms_pool s) !! l) as Hfr.
  { intros l Hl. apply (mu_frame _ _ _ _ (me_upd _ _ _ _ _ _ _ _ _ _ He)). intros ?. by apply (Hdis l). }
  cbn [match_levels]. rewrite (proj2 (Z.ltb_lt _ _)), Hc, E by lia. cbn [mbind option_bind].
  destruct (decide (ns' = [])) as [->|Hne'].
  - rewrite (proj2 (level_rep_empty _ _ _ Hlr') eq_refl).
    destruct (IH (reverse ns.*1 ++ fl) fuel m' s') as (k2 & ts2 & m2 & s2 & g2 & E2 & He2 & Hs2);
      [lia|by eapply match_effect_consumed| |done|done|..].
    { split; [by eapply levels_frame|]. by apply StronglySorted_inv in Hso as [? _]. }
    { pose proof (match_effect_qty _ _ _ _ _ _ _ _ _ _ He Hok1). lia. }
    eexists _, _, m2, s2, g2. split_and!; [done| |done]. by eapply match_effect_app.
  - assert (Level_empty lvl' = false) as ->.
    { apply not_true_is_false. by intros ?%(level_rep_empty _ _ _ Hlr'). }
    destruct fuel as [|fuel]; [lia|].
    assert (side_rep (storage_ (ms_pool s')) c ((px, lvl') :: m') ((px, ns') :: g)) as Hs'.
    { eapply side_rep_reduced; [done..| |done].
      eapply (amatch_suffix o_price); [done|by apply nodes_ok_positive|].
      apply (me_match _ _ _ _ _ _ _ _ _ _ He). }
    edestruct (match_levels_stop fuel) as [E2 _]; [|exact Hs'|left|].
    { apply (me_upd _ _ _ _ _ _ _ _ _ _ He). }
    { by eapply match_effect_taker_done. }
    eexists k, ts, _, s', ((px, ns') :: g). split_and!; [exact E2| |done].
    rewrite g_nodes_cons. by apply match_effect_rest.
Qed.

(** [match_against] with the fuel of the model. *)
Lemma match_against_spec c taker limit g fl m s :
  pool_wf (ms_pool s) fl -> side_rep (storage_ (ms_pool s)) c m g ->
  NoDup (g_nodes g).*1 -> nodes_ok (g_nodes g) -> ms_qty s <= INT64_MAX ->
  exists k ts m' s' g', match_against c m taker limit s = Some (m', s') /\
    match_effect c taker limit fl (g_nodes g) s k ts s' (g_nodes g') /\
    side_rep (storage_ (ms_pool s')) c m' g'.
Proof.
  intros Hwf Hs Hnd Hok Hq. apply match_levels_spec; try done.
  destruct Hs as [Hf _]. pose proof (levels_length _ _ _ Hf).
  pose proof (levels_capacity _ _ _ _ Hwf Hf Hnd). lia.
Qed.
