(* ===== verification/BookSide.v ===== *)
(** * Resting and removing an order on one side

    The two edits of a price map at pointer level: [operator[]] followed by
    [level_push_back], and [find], [level_unlink], [release] with the removal
    of an emptied level.  Both are the list edits of the specification. *)

From S2P Require Import Prelude Pool OrderedMap Level OrderBook BookSpec BookMatch.

(** ** Resting an order on its side *)

Definition levels_px (g : GSide) : Prop :=
  Forall (fun ge => Forall (fun n => o_price n.2 = ge.1) ge.2) g.

Lemma levels_ok_px st m g : Forall2 (level_ok st) m g -> levels_px g.
Proof. induction 1 as [|e ge m g [_ _ _ Hpx] H IH]; by constructor. Qed.

Lemma levels_prices g (Q : Price -> Prop) :
  levels_px g -> Forall (fun ge => Q ge.1) g -> Forall (fun o => Q (o_price o)) (g_orders g).
Proof.
  induction 1 as [|[px ns] g Hpx H IH]; [constructor|].
  intros [HQ Hg]%Forall_cons. rewrite g_orders_cons, Forall_app. split; [|by apply IH].
  apply Forall_fmap. eapply Forall_impl; [done|]. intros n Hn. simpl in *. by rewrite Hn.
Qed.

Lemma keys_Forall {V W} (Q : Z -> Prop) (m : list (Z * V)) (g : list (Z * W)) :
  m.*1 = g.*1 -> Forall (fun e => Q e.1) m -> Forall (fun e => Q e.1) g.
Proof.
  intros Heq Hm. assert (Forall Q m.*1) as H by (by apply Forall_fmap).
  by rewrite Heq, Forall_fmap in H.
Qed.

(** Appending to the level of a price is the specification's insertion; an
    absent level is an empty one. *)
Lemma g_orders_push c g1 g2 ns l o :
  levels_px g1 -> levels_px g2 -> Forall (fun n => o_price n.2 = o_price o) ns ->
  Forall (fun ge => key_lt c ge.1 (o_price o)) g1 ->
  Forall (fun ge => key_lt c (o_price o) ge.1) g2 ->
  g_orders (g1 ++ (o_price o, ns ++ [(l, o)]) :: g2) =
  ainsert c o (g_orders g1 ++ ns.*2 ++ g_orders g2).
Proof.
  intros Hp1 Hp2 Hpx Hk1 Hk2.
  rewrite g_orders_app, g_orders_cons, fmap_app, (app_assoc _ ns.*2 (g_orders g2)), ainsert_app.
  - by rewrite <-!app_assoc.
  - apply Forall_app. split.
    + apply (levels_prices _ (fun px => key_comp c (o_price o) px = false)); [done|].
      eapply Forall_impl; [done|].
      intros e He. by apply key_lt_asym.
    + apply Forall_fmap. eapply Forall_impl; [done|]. intros n Hn. simpl in *.
      rewrite Hn. apply key_comp_irrefl.
  - by apply (levels_prices _ (key_lt c (o_price o))).
Qed.

Lemma key_sorted_middle {V} c (k : Z) (v : V) m1 m2 :
  StronglySorted (key_lt c) m1.*1 -> StronglySorted (key_lt c) m2.*1 ->
  Forall (fun e : Z * V => key_lt c e.1 k) m1 -> Forall (fun e : Z * V => key_lt c k e.1) m2 ->
  StronglySorted (key_lt c) (m1 ++ (k, v) :: m2).*1.
Proof.
  intros H1 H2 Hb Ha. rewrite fmap_app. apply StronglySorted_app. split_and!; [done| |].
  - constructor; [done|]. by apply Forall_fmap.
  - intros x y (e & -> & He)%list_elem_of_fmap Hy. rewrite Forall_forall in Hb.
    specialize (Hb e He). apply elem_of_cons in Hy as [->|Hy]; [done|].
    apply list_elem_of_fmap in Hy as (e' & -> & He'). rewrite Forall_forall in Ha.
    etrans; [done|by apply Ha].
Qed.

(** A side cut at price [k]: the levels before it and behind it. *)
Record side_cut (st : gmap nat (Slot OrderNode)) (c : KeyCompare) (k : Price)
    (m1 m2 : list (Price * Level)) (g1 g2 : GSide) : Prop := {
  sc_levels1 : Forall2 (level_ok st) m1 g1;
  sc_levels2 : Forall2 (level_ok st) m2 g2;
  sc_sorted1 : StronglySorted (key_lt c) g1.*1;
  sc_sorted2 : StronglySorted (key_lt c) g2.*1;
  sc_before : Forall (fun ge => key_lt c ge.1 k) g1;
  sc_after : Forall (fun ge => key_lt c k ge.1) g2
}.

Lemma side_cut_present st c k lvl m1 m2 g :
  side_rep st c (m1 ++ (k, lvl) :: m2) g ->
  exists ns g1 g2, g = g1 ++ (k, ns) :: g2 /\ level_ok st (k, lvl) (k, ns) /\
    side_cut st c k m1 m2 g1 g2.
Proof.
  intros [Hf Hso]. apply Forall2_app_inv_l in Hf as (g1 & g2' & Hf1 & Hf2 & ->).
  apply Forall2_cons_inv_l in Hf2 as ([px ns] & g2 & Hok & Hf2 & ->).
  pose proof (lk_px _ _ _ Hok) as Hpx. simpl in Hpx. subst px.
  exists ns, g1, g2. split_and!; [done..|].
  pose proof (map_split_before _ _ _ _ _ _ Hso eq_refl) as Hb. rewrite fmap_app, fmap_cons in Hso.
  apply StronglySorted_app in Hso as (Hs1 & [Hs2 Ha]%StronglySorted_inv & _).
  constructor; try done. by rewrite Forall_fmap in Ha.
Qed.

Lemma side_cut_absent st c k m g :
  side_rep st c m g -> map_find c k m = None ->
  exists m1 m2 g1 g2, m = m1 ++ m2 /\ g = g1 ++ g2 /\ side_cut st c k m1 m2 g1 g2 /\
    forall lvl, map_put c k lvl m = m1 ++ (k, lvl) :: m2.
Proof.
  intros [Hf Hso] Hnone. pose proof (levels_keys _ _ _ Hf) as Hk.
  apply map_find_None in Hnone as (m1 & m2 & -> & Hb & Ha); [|by rewrite Hk].
  apply Forall2_app_inv_l in Hf as (g1 & g2 & Hf1 & Hf2 & ->).
  exists m1, m2, g1, g2. split_and!; [done..| |].
  - rewrite fmap_app in Hso. apply StronglySorted_app in Hso as (? & ? & _).
    constructor; try done.
    + by eapply (keys_Forall (fun x => key_lt c x k)); [eapply levels_keys|].
    + by eapply (keys_Forall (key_lt c k)); [eapply levels_keys|].
  - intros lvl. by apply map_put_absent.
Qed.

Lemma side_rep_levels_sorted st c m g : side_rep st c m g -> StronglySorted (key_lt c) m.*1.
Proof. intros [Hf Hso]. by rewrite (levels_keys _ _ _ Hf). Qed.

(** Putting a level back between the two parts. *)
Lemma side_cut_join st st' c k m1 m2 g1 g2 lvl ns :
  side_cut st c k m1 m2 g1 g2 -> level_ok st' (k, lvl) (k, ns) ->
  (forall l, l ∈ (g_nodes g1).*1 \/ l ∈ (g_nodes g2).*1 -> st' !! l = st !! l) ->
  side_rep st' c (m1 ++ (k, lvl) :: m2) (g1 ++ (k, ns) :: g2).
Proof.
  intros [??????] Hok Hfr. split; [|by apply key_sorted_middle].
  apply Forall2_app; [|constructor; [done|]]; (eapply levels_frame; [|done]); auto.
Qed.

Lemma side_cut_drop st st' c k m1 m2 g1 g2 :
  side_cut st c k m1 m2 g1 g2 ->
  (forall l, l ∈ (g_nodes g1).*1 \/ l ∈ (g_nodes g2).*1 -> st' !! l = st !! l) ->
  side_rep st' c (m1 ++ m2) (g1 ++ g2).
Proof.
  intros [Hf1 Hf2 Hs1 Hs2 Hb Ha] Hfr. split.
  - apply Forall2_app; (eapply levels_frame; [|done]); auto.
  - rewrite fmap_app. apply StronglySorted_app. split_and!; [done..|].
    intros x y (e & -> & He)%list_elem_of_fmap (e' & -> & He')%list_elem_of_fmap.
    rewrite Forall_forall in Hb, Ha. etrans; [by apply Hb|by apply Ha].
Qed.

(** Pushing a fresh node on one level of a side. *)
Lemma push_side fl p c m1 m2 g1 g2 lvl ns l o :
  pool_wf p fl -> side_cut (storage_ p) c (o_price o) m1 m2 g1 g2 ->
  level_rep (storage_ p) lvl ns -> Forall (fun n => o_price n.2 = o_price o) ns ->
  NoDup ((l, o) :: g_nodes g1 ++ ns ++ g_nodes g2).*1 ->
  storage_ p !! l = Some (SlotStorage (node_of o None None)) ->
  exists lvl' p' g', level_push_back lvl l p = Some (lvl', p') /\
    side_rep (storage_ p') c (m1 ++ (o_price o, lvl') :: m2) g' /\
    g_orders g' = ainsert c o (g_orders g1 ++ ns.*2 ++ g_orders g2) /\
    g_nodes g' ≡ₚ (l, o) :: g_nodes g1 ++ ns ++ g_nodes g2 /\
    mem_upd fl ((l, o) :: g_nodes g1 ++ ns ++ g_nodes g2).*1 p p'.
Proof.
  intros Hwf Hcut Hlr Hpx Hnd Hst. csimpl in *. rewrite !fmap_app in *.
  apply NoDup_cons in Hnd as [Hl (_ & Hd1 & (Hnd & Hd2 & _)%NoDup_app)%NoDup_app].
  destruct (level_push_back_spec fl p lvl ns l o None None) as (lvl' & p' & E & Hr & Hu);
    [done..|set_solver|done|].
  exists lvl', p', (g1 ++ (o_price o, ns ++ [(l, o)]) :: g2). split_and!; [done| | | |].
  - eapply side_cut_join; [done| |].
    + constructor; simpl; [done|done|by destruct ns|].
      apply Forall_app. split; [done|]. by repeat constructor.
    + intros x Hx. apply (mu_frame _ _ _ _ Hu). set_solver.
  - destruct Hcut. apply g_orders_push; eauto using levels_ok_px.
  - rewrite !g_nodes_app, !g_nodes_cons. solve_Permutation.
  - eapply mem_upd_weaken; [|done]. set_solver.
Qed.

(** [operator[]] then [level_push_back], on any side. *)
Lemma rest_spec fl p c m g l o :
  pool_wf p fl -> side_rep (storage_ p) c m g -> NoDup ((l, o) :: g_nodes g).*1 ->
  storage_ p !! l = Some (SlotStorage (node_of o None None)) ->
  let lvl := map_subscript c Level_new (o_price o) m in
  exists lvl' p' g', level_push_back lvl l p = Some (lvl', p') /\
    side_rep (storage_ p') c (map_put c (o_price o) lvl' m) g' /\
    g_orders g' = ainsert c o (g_orders g) /\ g_nodes g' ≡ₚ (l, o) :: g_nodes g /\
    mem_upd fl ((l, o) :: g_nodes g).*1 p p'.
Proof.
  intros Hwf Hside Hnd Hst. unfold map_subscript.
  pose proof (side_rep_levels_sorted _ _ _ _ Hside) as Hso.
  destruct (map_find c (o_price o) m) as [lvl|] eqn:Hfind; simpl.
  - apply map_find_Some in Hfind as (m1 & m2 & ->).
    apply side_cut_present in Hside as (ns & g1 & g2 & -> & [_ Hlr _ Hpxs] & Hcut).
    rewrite g_nodes_app, g_nodes_cons, g_orders_app, g_orders_cons in *.
    edestruct (push_side fl p c m1 m2 g1 g2 lvl ns l o) as (lvl' & p' & g' & ? & ? & ? & ? & ?); [done..|].
    exists lvl', p', g'. by rewrite map_put_split.
  - destruct (side_cut_absent _ _ _ _ _ Hside Hfind) as (m1 & m2 & g1 & g2 & -> & -> & Hcut & Hput).
    rewrite g_nodes_app, g_orders_app in *.
    edestruct (push_side fl p c m1 m2 g1 g2 Level_new [] l o) as (lvl' & p' & g' & ? & ? & ? & ? & ?);
      [done..|constructor|done|done|].
    exists lvl', p', g'. by rewrite Hput.
Qed.

(** A node of a side lies in the level of its price. *)
Lemma side_find_node st c m g l o :
  side_rep st c m g -> (l, o) ∈ g_nodes g ->
  exists m1 lvl m2, m = m1 ++ (o_price o, lvl) :: m2 /\
  exists ns g1 g2, g = g1 ++ (o_price o, ns) :: g2 /\ (l, o) ∈ ns /\
    level_ok st (o_price o, lvl) (o_price o, ns) /\ side_cut st c (o_price o) m1 m2 g1 g2.
Proof.
  intros Hside Hin. unfold g_nodes in Hin.
  apply list_elem_of_join in Hin as (ns & Hin & ([px ns'] & -> & Hge)%list_elem_of_fmap).
  apply list_elem_of_split in Hge as (g1 & g2 & ->). simpl in Hin.
  pose proof Hside as [Hf _]. apply Forall2_app_inv_r in Hf as (m1 & m2' & Hf1 & Hf2 & ->).
  apply Forall2_cons_inv_r in Hf2 as ([px' lvl] & m2 & [Hpx _ _ Hpxs] & Hf2 & ->).
  simpl in Hpx, Hpxs. subst px'. rewrite Forall_forall in Hpxs. specialize (Hpxs _ Hin).
  simpl in Hpxs. subst px. exists m1, lvl, m2. split; [done|].
  apply side_cut_present in Hside as (ns2 & g1' & g2' & Heq & Hok & Hcut).
  assert (length g1 = length g1') as Hlen.
  { rewrite <-(Forall2_length _ _ _ Hf1). apply (Forall2_length _ _ _ (sc_levels1 _ _ _ _ _ _ _ Hcut)). }
  apply app_inj_1 in Heq as [-> Heq]; [|done]. injection Heq as -> ->.
  by exists ns2, g1', g2'.
Qed.

(** Finding the level of a node, unlinking the node and releasing it. *)
Lemma unlink_side fl p c m g l o :
  pool_wf p fl -> side_rep (storage_ p) c m g -> NoDup (g_nodes g).*1 -> (l, o) ∈ g_nodes g ->
  exists lvl lvl' p1 p2 g' ns1 ns2,
    map_find c (o_price o) m = Some lvl /\ level_unlink lvl l p = Some (lvl', p1) /\
    release l p1 = Some p2 /\
    side_rep (storage_ p2) c
      (if Level_empty lvl' then map_erase c (o_price o) m else map_put c (o_price o) lvl' m) g' /\
    g_nodes g = ns1 ++ (l, o) :: ns2 /\ g_nodes g' = ns1 ++ ns2 /\
    mem_upd (l :: fl) (g_nodes g).*1 p p2.
Proof.
  intros Hwf Hside Hnd Hin. pose proof (side_rep_levels_sorted _ _ _ _ Hside) as Hso.
  destruct (side_find_node _ _ _ _ _ _ Hside Hin)
    as (m1 & lvl & m2 & -> & ns & g1 & g2 & -> & Hns & [_ Hlr _ Hpxs] & Hcut). clear Hin.
  apply list_elem_of_split in Hns as (n1 & n2 & ->). simpl in Hlr, Hpxs.
  rewrite g_nodes_app, g_nodes_cons, !fmap_app in Hnd.
  pose proof Hnd as (_ & Hd1 & (Hnd2 & Hd2 & _)%NoDup_app)%NoDup_app.
  destruct (unlink_release_spec fl p lvl n1 l o n2) as (lvl' & p1 & p2 & E1 & E2 & Hr & Hu);
    [done..|by rewrite fmap_app|].
  assert (forall x, x ∈ (g_nodes g1).*1 \/ x ∈ (g_nodes g2).*1 ->
    storage_ p2 !! x = storage_ p !! x) as Hfr.
  { intros x Hx. apply (mu_frame _ _ _ _ Hu). rewrite fmap_app. intros Hx'.
    destruct Hx as [Hx|Hx]; [apply (Hd1 x Hx), elem_of_app; by left|by apply (Hd2 x Hx')]. }
  exists lvl, lvl', p1, p2, (if Level_empty lvl' then g1 ++ g2 else g1 ++ (o_price o, n1 ++ n2) :: g2),
    (g_nodes g1 ++ n1), (n2 ++ g_nodes g2).
  rewrite map_find_split, map_erase_split, map_put_split by done.
  split_and!; [done..| | | |].
  - destruct (Level_empty lvl') eqn:He; [by eapply side_cut_drop|].
    eapply side_cut_join; [done| |done]. constructor; simpl; [done..| |].
    + intros Hnil. apply (level_rep_empty _ _ _ Hr) in Hnil. congruence.
    + apply Forall_app in Hpxs as [? [_ ?]%Forall_cons]. by apply Forall_app.
  - by rewrite g_nodes_app, g_nodes_cons, <-!app_assoc.
  - destruct (Level_empty lvl') eqn:He.
    + apply (level_rep_empty _ _ _ Hr), app_nil in He as [-> ->].
      by rewrite g_nodes_app, app_nil_r.
    + by rewrite g_nodes_app, g_nodes_cons, <-!app_assoc.
  - eapply mem_upd_weaken; [|done]. rewrite g_nodes_app, g_nodes_cons, !fmap_app.
    intros x Hx. rewrite !elem_of_app. right. left. by apply elem_of_app.
Qed.
