(* ===== verification/BookRefine.v ===== *)
(** * The pointer-level book refines its specification

    [refines b a]: the slots, links, levels, free list and index of [b] hold
    exactly the orders of the specification book [a].  Placing and cancelling
    on [b] succeed (no null or dangling pointer, no signed overflow, every
    loop ends) and do what [aplace] and [acancel] do on [a]. *)

From S2P Require Import Prelude Pool OrderedMap Level OrderBook BookSpec BookMatch BookSide.

(** ** Representation *)

Definition book_side (b : OrderBook) (s : Side) : list (Price * Level) :=
  match s with Buy => bids_ b | Sell => asks_ b end.

(** A book from its side [s] and the opposite side. *)
Definition book_make (s : Side) (own opp : list (Price * Level)) (index : gmap Z nat)
    (p : Mem) (nid : OrderId) (nts : Timestamp) : OrderBook :=
  match s with
  | Buy => mkBook own opp index p nid nts
  | Sell => mkBook opp own index p nid nts
  end.

Definition g_make (s : Side) (own opp : GSide) : Side -> GSide :=
  fun s' => if decide (s' = s) then own else opp.

Definition index_of (ns : Nodes) : list (OrderId * nat) := (fun n => (o_id n.2, n.1)) <$> ns.

Definition all_nodes (G : Side -> GSide) : Nodes := g_nodes (G Buy) ++ g_nodes (G Sell).

Record book_rep (b : OrderBook) (G : Side -> GSide) (fl : list nat) : Prop := {
  br_side s : side_rep (storage_ (pool_ b)) (side_cmp s) (book_side b s) (G s);
  br_pool : pool_wf (pool_ b) fl;
  br_locs : (all_nodes G).*1 ++ fl ≡ₚ seq 0 (capacity_ (pool_ b));
  br_index : map_to_list (index_ b) ≡ₚ index_of (all_nodes G)
}.

Definition abs_of (b : OrderBook) (G : Side -> GSide) (fl : list nat) : ABook :=
  mkABook (g_orders (G Buy)) (g_orders (G Sell)) (next_id_ b) (next_ts_ b) (length fl).

Definition refines (b : OrderBook) (a : ABook) : Prop :=
  exists G fl, book_rep b G fl /\ a = abs_of b G fl /\ abook_wf a.

(** The state invariant of the class. *)
Definition book_wf (b : OrderBook) : Prop := exists a, refines b a.

(** ** Facts of the representation *)

Lemma opposite_ne s : opposite s <> s.
Proof. by destruct s. Qed.

Lemma g_make_own s own opp : g_make s own opp s = own.
Proof. unfold g_make. by rewrite decide_True. Qed.

Lemma g_make_opp s own opp : g_make s own opp (opposite s) = opp.
Proof. unfold g_make. rewrite decide_False; [done|apply opposite_ne]. Qed.

Lemma all_nodes_side s G : all_nodes G ≡ₚ g_nodes (G s) ++ g_nodes (G (opposite s)).
Proof. destruct s; simpl; [done|]. apply Permutation_app_comm. Qed.

Lemma all_nodes_make s own opp : all_nodes (g_make s own opp) ≡ₚ g_nodes own ++ g_nodes opp.
Proof. by rewrite (all_nodes_side s), g_make_own, g_make_opp. Qed.

Lemma abs_of_side b G fl s : ab_side (abs_of b G fl) s = g_orders (G s).
Proof. by destruct s. Qed.

Lemma br_NoDup b G fl : book_rep b G fl -> NoDup ((all_nodes G).*1 ++ fl).
Proof. intros Hr. rewrite (br_locs _ _ _ Hr). apply NoDup_seq. Qed.

Lemma br_side_NoDup b G fl s : book_rep b G fl ->
  NoDup ((g_nodes (G s)).*1 ++ (g_nodes (G (opposite s))).*1 ++ fl).
Proof.
  intros Hr. pose proof (br_NoDup _ _ _ Hr) as Hnd.
  by rewrite (all_nodes_side s), fmap_app, <-app_assoc in Hnd.
Qed.

Lemma br_nodes_ok b G fl s :
  abook_wf (abs_of b G fl) -> nodes_ok (g_nodes (G s)).
Proof.
  intros Hwf. pose proof (awf_side _ Hwf s) as Hf. rewrite abs_of_side in Hf.
  unfold g_orders in Hf. rewrite Forall_fmap in Hf.
  eapply Forall_impl; [done|]. intros n [? ? ? ?]. done.
Qed.

(** A book put together from two represented sides. *)
Lemma book_rep_make s own opp gown gopp index p nid nts fl :
  side_rep (storage_ p) (side_cmp s) own gown ->
  side_rep (storage_ p) (side_cmp (opposite s)) opp gopp ->
  pool_wf p fl -> (g_nodes gown ++ g_nodes gopp).*1 ++ fl ≡ₚ seq 0 (capacity_ p) ->
  map_to_list index ≡ₚ index_of (g_nodes gown ++ g_nodes gopp) ->
  book_rep (book_make s own opp index p nid nts) (g_make s gown gopp) fl.
Proof.
  intros Hown Hopp Hwf Hlocs Hidx.
  assert (pool_ (book_make s own opp index p nid nts) = p) as Hp by (by destruct s).
  constructor; rewrite ?Hp.
  - apply (side_case _ s); rewrite ?g_make_own, ?g_make_opp; by destruct s.
  - done.
  - by rewrite all_nodes_make.
  - replace (index_ _) with index by (by destruct s).
    unfold index_of. by rewrite all_nodes_make.
Qed.

Lemma abs_of_make s own opp gown gopp index p nid nts fl :
  abs_of (book_make s own opp index p nid nts) (g_make s gown gopp) fl =
  ab_make s (g_orders gown) (g_orders gopp) nid nts (length fl).
Proof. by destruct s. Qed.

(** ** The index *)

Lemma map_to_list_delete_cons (m : gmap Z nat) k v kvs :
  map_to_list m ≡ₚ (k, v) :: kvs -> map_to_list (delete k m) ≡ₚ kvs.
Proof.
  intros Hm. assert (m !! k = Some v) as Hk.
  { apply elem_of_map_to_list. rewrite Hm. by left. }
  apply (Permutation_cons_inv (a := (k, v))). by rewrite <-Hm, map_to_list_delete.
Qed.

Lemma erase_all_index ns1 ns2 (m : gmap Z nat) :
  map_to_list m ≡ₚ index_of (ns1 ++ ns2) ->
  map_to_list (erase_all (o_id <$> ns1.*2) m) ≡ₚ index_of ns2.
Proof.
  revert m. induction ns1 as [|[l o] ns1 IH]; intros m Hm; [done|].
  change (erase_all _ m) with (erase_all (o_id <$> ns1.*2) (delete (o_id o) m)).
  apply IH, (map_to_list_delete_cons _ _ l). exact Hm.
Qed.

Lemma erase_all_None ids (m : gmap Z nat) i : m !! i = None -> erase_all ids m !! i = None.
Proof.
  revert m. induction ids as [|id ids IH]; intros m Hm; [done|]. apply IH.
  rewrite lookup_delete_None. by right.
Qed.

Lemma br_index_lookup b G fl id l :
  book_rep b G fl -> index_ b !! id = Some l <-> exists o, (l, o) ∈ all_nodes G /\ o_id o = id.
Proof.
  intros Hr. rewrite <-elem_of_map_to_list, (br_index _ _ _ Hr). unfold index_of.
  rewrite list_elem_of_fmap. split.
  - intros ([l' o] & Heq & Hin). simplify_eq/=. eauto.
  - intros (o & Hin & <-). by exists (l, o).
Qed.

Lemma abs_of_orders b G fl : ab_orders (abs_of b G fl) = (all_nodes G).*2.
Proof. unfold ab_orders, all_nodes. by rewrite fmap_app. Qed.

Lemma awf_order_id a o : abook_wf a -> o ∈ ab_orders a -> 0 < o_id o < ab_next_id a.
Proof.
  intros Hwf Ho. assert (exists s, o ∈ ab_side a s) as [s Hs].
  { apply elem_of_app in Ho as [?|?]; [by exists Buy|by exists Sell]. }
  pose proof (awf_side _ Hwf s) as Hf. rewrite Forall_forall in Hf.
  by destruct (Hf o Hs).
Qed.

(** The next id is not in use. *)
Lemma br_fresh b G fl : book_rep b G fl -> abook_wf (abs_of b G fl) -> index_ b !! next_id_ b = None.
Proof.
  intros Hr Hwf. destruct (index_ b !! next_id_ b) as [l|] eqn:E; [|done].
  apply (br_index_lookup _ _ _ _ _ Hr) in E as (o & Hin & Hid).
  apply (list_elem_of_fmap_2 snd) in Hin. rewrite <-(abs_of_orders b G fl) in Hin.
  apply (awf_order_id _ _ Hwf) in Hin. simpl in Hin. lia.
Qed.

(** ** Matching on a whole book *)

Lemma take_drop_nodes k (ns ns' : Nodes) :
  ns'.*1 = drop k ns.*1 -> o_id <$> ns'.*2 = drop k (o_id <$> ns.*2) ->
  index_of ns' = index_of (drop k ns).
Proof.
  intros H1 H2. unfold index_of.
  assert (forall n : Nodes, (fun n => (o_id n.2, n.1)) <$> n = zip (o_id <$> n.*2) n.*1) as Hz.
  { induction n as [|[] n IH]; csimpl; [done|]. by f_equal. }
  by rewrite !Hz, H1, H2, !fmap_drop.
Qed.

(** The book between matching and resting: the opposite side has been
    consumed, the own side is untouched. *)
Lemma match_book_spec b G fl a side id price qty trades :
  book_rep b G fl -> abook_wf a -> a = abs_of b G fl -> qty <= INT64_MAX ->
  exists opp s gopp fl' ts,
    match_against (side_cmp (opposite side)) (book_side b (opposite side)) id price
      (mkMatch (index_ b) (pool_ b) qty trades) = Some (opp, s) /\
    amatch (side_cmp (opposite side)) id price qty (ab_side a (opposite side)) =
      (ts, ms_qty s, g_orders gopp) /\
    ms_trades s = trades ++ ts /\
    length fl' = (length fl + (length (ab_side a (opposite side)) - length (g_orders gopp)))%nat /\
    (forall i, index_ b !! i = None -> ms_index s !! i = None) /\
    forall nid nts,
      book_rep (book_make side (book_side b side) opp (ms_index s) (ms_pool s) nid nts)
        (g_make side (G side) gopp) fl'.
Proof.
  intros Hr Hwf -> Hq. set (c := side_cmp (opposite side)). set (ns := g_nodes (G (opposite side))).
  pose proof (br_side_NoDup _ _ _ side Hr) as Hnd. fold ns in Hnd.
  pose proof Hnd as (_ & Hd1 & (Hnd2 & _ & _)%NoDup_app)%NoDup_app.
  destruct (match_against_spec c id price (G (opposite side)) fl (book_side b (opposite side))
    (mkMatch (index_ b) (pool_ b) qty trades)) as (k & ts & opp & s & gopp & E & He & Hso);
    [apply Hr|apply Hr|done|by eapply br_nodes_ok|done|].
  fold ns in He. destruct He as [Hm Htr Hl Hi Hu Hx]; simpl in *.
  exists opp, s, gopp, (reverse (take k ns.*1) ++ fl), ts. rewrite abs_of_side.
  split_and!; [done..| | |].
  - apply (f_equal length) in Hl. rewrite length_drop, !length_fmap in Hl.
    unfold g_orders. fold ns. rewrite length_app, length_reverse, length_take, !length_fmap. lia.
  - intros i Hi0. rewrite Hx. by apply erase_all_None.
  - intros nid nts. apply book_rep_make.
    + eapply side_rep_frame; [|apply Hr]. intros l Hl'. apply (mu_frame _ _ _ _ Hu).
      intros ?. apply (Hd1 l Hl'), elem_of_app. by left.
    + done.
    + apply Hu.
    + rewrite (mu_capacity _ _ _ _ Hu), <-(br_locs _ _ _ Hr), (all_nodes_side side), !fmap_app, Hl.
      fold ns. rewrite reverse_Permutation.
      assert (ns.*1 ≡ₚ take k ns.*1 ++ drop k ns.*1) as Htd by (by rewrite take_drop).
      revert Htd. generalize (take k ns.*1) (drop k ns.*1). intros t d ->. solve_Permutation.
    + rewrite Hx, <-!fmap_take. unfold index_of. rewrite fmap_app.
      rewrite Permutation_app_comm. change (fmap _ (g_nodes gopp)) with (index_of (g_nodes gopp)).
      rewrite (take_drop_nodes k ns (g_nodes gopp)) by done. unfold index_of. rewrite <-fmap_app.
      apply erase_all_index. rewrite (br_index _ _ _ Hr). apply fmap_Permutation.
      by rewrite app_assoc, take_drop, Permutation_app_comm, (all_nodes_side side).
Qed.

(** ** [place_limit] *)

(** Both branches of [place_limit], by the side of the order. *)
Lemma place_limit_side b side price qty trades :
  place_limit b side price qty trades =
  (let id := next_id_ b in
   let nid := u64 (next_id_ b + 1) in
   let c := side_cmp side in
   let own := book_side b side in
   '(opp, s) ← match_against (side_cmp (opposite side)) (book_side b (opposite side)) id price
                 (mkMatch (index_ b) (pool_ b) qty trades);
   if 0 <? ms_qty s then
     '(n, p) ← acquire (ms_pool s);
     match n with
     | None => Some (book_make side own opp (ms_index s) p nid (next_ts_ b), id, ms_trades s)
     | Some n =>
         p ← placement_new n (mkNode id side price (ms_qty s) (next_ts_ b) None None) p;
         '(lvl, p) ← level_push_back (map_subscript c Level_new price own) n p;
         Some (book_make side (map_put c price lvl own) opp (<[id := n]> (ms_index s)) p
                 nid (u64 (next_ts_ b + 1)), id, ms_trades s)
     end
   else Some (book_make side own opp (ms_index s) (ms_pool s) nid (next_ts_ b), id, ms_trades s)).
Proof. by destruct side. Qed.

(** Resting the remainder [o] of an order in a book with a free slot. *)
Lemma rest_book_spec side own opp gown gopp index p nid nts l fl o nid' nts' :
  book_rep (book_make side own opp index p nid nts) (g_make side gown gopp) (l :: fl) ->
  index !! o_id o = None ->
  exists p1 p2 lvl p3 gown', acquire p = Some (Some l, p1) /\
    placement_new l (node_of o None None) p1 = Some p2 /\
    level_push_back (map_subscript (side_cmp side) Level_new (o_price o) own) l p2 = Some (lvl, p3) /\
    g_orders gown' = ainsert (side_cmp side) o (g_orders gown) /\
    book_rep (book_make side (map_put (side_cmp side) (o_price o) lvl own) opp
                (<[o_id o := l]> index) p3 nid' nts') (g_make side gown' gopp) fl.
Proof.
  intros Hr Hid. set (b := book_make side own opp index p nid nts) in Hr.
  assert (pool_ b = p /\ index_ b = index) as [Hp Hix] by (by destruct side).
  pose proof (br_pool _ _ _ Hr) as Hwf. rewrite Hp in Hwf.
  pose proof (br_side _ _ _ Hr side) as Hso. pose proof (br_side _ _ _ Hr (opposite side)) as Hso'.
  replace (book_side b side) with own in Hso by (by destruct side).
  replace (book_side b (opposite side)) with opp in Hso' by (by destruct side).
  pose proof (br_side_NoDup _ _ _ side Hr) as Hnd.
  rewrite ?g_make_own, ?g_make_opp, ?Hp in *.
  assert (NoDup (l :: (g_nodes gown).*1 ++ (g_nodes gopp).*1 ++ fl)) as Hnd'.
  { eapply NoDup_Permutation_proper; [|exact Hnd]. solve_Permutation. }
  apply NoDup_cons in Hnd' as [Hl (Hndo & Hdis & _)%NoDup_app].
  rewrite !not_elem_of_app in Hl. destruct Hl as (Hl1 & Hl2 & Hl3).
  destruct (acquire_cons p l fl Hwf) as (p1 & E1 & Hwf1 & Hst1 & Hc1 & _ & n & Hn).
  rewrite <-Hst1 in Hn, Hso, Hso'.
  destruct (placement_new_spec p1 fl l (node_of o None None) n Hwf1 Hl3 Hn)
    as (p2 & E2 & Hwf2 & Hst2 & Hc2 & _).
  assert (forall c m g, l ∉ (g_nodes g).*1 -> side_rep (storage_ p1) c m g -> side_rep (storage_ p2) c m g) as Hkeep.
  { intros c m g Hlg. apply side_rep_frame. intros x Hx. rewrite Hst2, lookup_insert_ne; [done|].
    by intros ->. }
  destruct (rest_spec fl p2 (side_cmp side) own gown l o) as (lvl & p3 & gown' & E3 & Hs3 & Ho3 & Hn3 & Hu3);
    [done|by apply Hkeep|by constructor|by rewrite Hst2, lookup_insert_eq|].
  exists p1, p2, lvl, p3, gown'. split_and!; [done..|]. apply book_rep_make.
  - done.
  - eapply side_rep_frame; [|by apply Hkeep]. intros x Hx. apply (mu_frame _ _ _ _ Hu3).
    csimpl. rewrite not_elem_of_cons. split; [by intros ->|]. intros ?.
    eapply Hdis; [done|]. apply elem_of_app. by left.
  - apply Hu3.
  - rewrite (mu_capacity _ _ _ _ Hu3), Hc2, Hc1, <-Hp, <-(br_locs _ _ _ Hr), all_nodes_make, Hn3, !fmap_app.
    csimpl. solve_Permutation.
  - rewrite map_to_list_insert by done. unfold index_of. rewrite Hn3. csimpl. constructor.
    rewrite <-Hix, (br_index _ _ _ Hr). unfold index_of. by rewrite all_nodes_make.
Qed.

(** [place_limit] returns and does what the specification does. *)
Lemma place_limit_refines b a side price qty trades :
  refines b a -> next_id_ b + 1 < UINT64_SIZE -> qty <= INT64_MAX ->
  exists b', place_limit b side price qty trades =
      Some (b', (aplace a side price qty).1.2, trades ++ (aplace a side price qty).2) /\
    refines b' (aplace a side price qty).1.1.
Proof.
  intros (G & fl & Hr & Ha & Hwf) Hnid Hq.
  assert (abook_wf (aplace a side price qty).1.1) as Hwf'.
  { apply aplace_wf; [done|by rewrite Ha|done]. }
  destruct (match_book_spec b G fl a side (next_id_ b) price qty trades Hr Hwf Ha Hq)
    as (opp & s & gopp & fl' & ts & E & Hm & Htr & Hlen & Hfresh & Hrep).
  rewrite place_limit_side. cbn zeta. rewrite E. cbn [mbind option_bind].
  revert Hwf'. unfold aplace.
  replace (ab_next_id a) with (next_id_ b) by (by rewrite Ha).
  replace (ab_next_ts a) with (next_ts_ b) by (by rewrite Ha).
  replace (ab_free a) with (length fl) by (by rewrite Ha).
  rewrite Hm, <-Hlen. cbn zeta. cbn [fst snd]. rewrite <-Htr.
  destruct (0 <? ms_qty s) eqn:Hq0; cbn [andb]; [destruct fl' as [|l fl']; cbn [length Nat.eqb negb]|].
  - intros Hwf'. rewrite acquire_empty.
    2: { specialize (Hrep 0 0). apply br_pool in Hrep. by destruct side. }
    eexists. split; [done|]. eexists _, []. split; [apply Hrep|].
    split; [|done]. by rewrite abs_of_make, Ha, abs_of_side.
  - intros Hwf'.
    destruct (rest_book_spec side _ _ _ _ _ _ _ _ l fl'
      (mkOrder (next_id_ b) side price (ms_qty s) (next_ts_ b))
      (u64 (next_id_ b + 1)) (u64 (next_ts_ b + 1)) (Hrep 0 0))
      as (p1 & p2 & lvl & p3 & gown & E1 & E2 & E3 & Ho & Hr').
    { apply Hfresh. eapply br_fresh; [done|by rewrite <-Ha]. }
    rewrite E1. cbn [mbind option_bind]. unfold node_of in E2. simpl in E2, E3.
    rewrite E2. cbn [mbind option_bind]. rewrite E3. cbn [mbind option_bind].
    eexists. split; [done|]. eexists _, _. split; [apply Hr'|].
    split; [|done]. by rewrite abs_of_make, Ho, Ha, abs_of_side.
  - intros Hwf'. eexists. split; [done|]. eexists _, _. split; [apply Hrep|].
    split; [|done]. by rewrite abs_of_make, Ha, abs_of_side.
Qed.

(** ** [cancel] *)

Lemma cancel_side b id n o s pr nx :
  index_ b !! id = Some n -> deref (pool_ b) n = Some (node_of o pr nx) -> o_side o = s ->
  cancel b id =
  match map_find (side_cmp s) (o_price o) (book_side b s) with
  | None => Some (false, b)
  | Some lvl =>
      '(lvl, p) ← level_unlink lvl n (pool_ b);
      let own := if Level_empty lvl then map_erase (side_cmp s) (o_price o) (book_side b s)
                 else map_put (side_cmp s) (o_price o) lvl (book_side b s) in
      p ← release n p;
      Some (true, book_make s own (book_side b (opposite s)) (delete id (index_ b)) p
                    (next_id_ b) (next_ts_ b))
  end.
Proof.
  intros Hi Hd Hs. unfold cancel. rewrite Hi, Hd. cbn [mbind option_bind].
  cbn [on_side on_price node_of]. rewrite Hs. by destruct s.
Qed.

(** A node lies on the side that its order names. *)
Lemma br_node_side b G fl l o :
  book_rep b G fl -> abook_wf (abs_of b G fl) -> (l, o) ∈ all_nodes G ->
  (l, o) ∈ g_nodes (G (o_side o)).
Proof.
  intros Hr Hwf Hin. assert (exists s, (l, o) ∈ g_nodes (G s)) as [s Hs].
  { apply elem_of_app in Hin as [?|?]; [by exists Buy|by exists Sell]. }
  pose proof (awf_side _ Hwf s) as Hf. rewrite abs_of_side, Forall_forall in Hf.
  destruct (Hf o) as [-> _ _ _]; [|done]. by apply (list_elem_of_fmap_2 snd) in Hs.
Qed.

(** [cancel] returns and does what the specification does. *)
Lemma cancel_refines b a id :
  refines b a ->
  exists b', cancel b id = Some ((acancel a id).1, b') /\ refines b' (acancel a id).2.
Proof.
  intros (G & fl & Hr & Ha & Hwf). rewrite Ha in Hwf.
  destruct (index_ b !! id) as [l|] eqn:Hi.
  2: { exists b. unfold cancel, acancel. rewrite Hi, decide_False.
    - split; [done|]. exists G, fl. by rewrite Ha.
    - rewrite Ha, abs_of_orders. intros (o & Hid & ([l o'] & -> & Hin)%list_elem_of_fmap)%list_elem_of_fmap.
      assert (index_ b !! id = Some l) by (apply (br_index_lookup _ _ _ _ _ Hr); eauto). congruence. }
  pose proof Hi as (o & Hin & Hid)%(br_index_lookup _ _ _ _ _ Hr). subst id.
  apply (br_node_side _ _ _ _ _ Hr Hwf) in Hin. remember (o_side o) as s eqn:Hs.
  pose proof (br_side_NoDup _ _ _ s Hr) as Hnd. pose proof Hnd as (Hnd1 & Hdis & _)%NoDup_app.
  destruct (levels_lookup _ _ _ _ _ (proj1 (br_side _ _ _ Hr s)) Hin) as (pr & nx & Hl).
  destruct (unlink_side fl (pool_ b) (side_cmp s) (book_side b s) (G s) l o)
    as (lvl & lvl' & p1 & p2 & g' & ns1 & ns2 & Hfind & E1 & E2 & Hs' & Hn & Hn' & Hu);
    [apply Hr|apply Hr|done|done|].
  rewrite (cancel_side _ _ _ _ _ _ _ Hi (deref_storage _ _ _ Hl) (eq_sym Hs)), Hfind, E1.
  cbn [mbind option_bind]. rewrite E2. cbn [mbind option_bind].
  assert (g_orders (G s) = ns1.*2 ++ o :: ns2.*2) as Ho by (unfold g_orders; by rewrite Hn, fmap_app).
  assert (acancel a (o_id o) = (true, ab_make s (g_orders g') (g_orders (G (opposite s)))
    (next_id_ b) (next_ts_ b) (S (length fl)))) as Hc.
  { rewrite Ha, (acancel_present _ s o ns1.*2 ns2.*2); [|done|by rewrite abs_of_side].
    unfold g_orders at 1. by rewrite abs_of_side, Hn', fmap_app. }
  rewrite Hc. eexists. split; [done|]. exists (g_make s g' (G (opposite s))), (l :: fl).
  split_and!; [|by rewrite abs_of_make|].
  2: { pose proof (acancel_wf a (o_id o)) as Hw. rewrite Hc, Ha in Hw. by apply Hw. }
  apply book_rep_make; [done| |apply Hu| |].
  - eapply side_rep_frame; [|apply Hr]. intros x Hx. apply (mu_frame _ _ _ _ Hu).
    intros Hx'. apply (Hdis _ Hx'), elem_of_app. by left.
  - rewrite (mu_capacity _ _ _ _ Hu), <-(br_locs _ _ _ Hr), (all_nodes_side s), Hn, Hn', !fmap_app.
    csimpl. solve_Permutation.
  - apply (map_to_list_delete_cons _ _ l). rewrite (br_index _ _ _ Hr). unfold index_of.
    rewrite (all_nodes_side s), Hn, Hn', !fmap_app. csimpl. solve_Permutation.
Qed.
