(* ===== verification/BookQuery.v ===== *)
(** * Queries and destruction of the book, against the specification *)

From S2P Require Import Prelude Pool OrderedMap Level OrderBook BookSpec BookMatch BookSide BookRefine.

(** ** Best prices *)

Lemma side_rep_head st c m g d :
  side_rep st c m g ->
  (match m with [] => d | (px, _) :: _ => px end) =
  (match g_orders g with [] => d | o :: _ => o_price o end).
Proof.
  intros [Hf _]. destruct Hf as [|[px lvl] [px' ns] m g [Hpx _ Hne Hpxs] _]; [done|].
  simpl in *. subst px'. rewrite g_orders_cons. destruct ns as [|[l o] ns]; [done|].
  by apply Forall_cons in Hpxs as [? _].
Qed.

Lemma refines_best_bid b a :
  refines b a -> best_bid b = match ab_bids a with [] => 0 | o :: _ => o_price o end.
Proof. intros (G & fl & Hr & -> & _). apply (side_rep_head _ _ _ _ 0 (br_side _ _ _ Hr Buy)). Qed.

Lemma refines_best_ask b a :
  refines b a -> best_ask b = match ab_asks a with [] => INT64_MAX | o :: _ => o_price o end.
Proof.
  intros (G & fl & Hr & -> & _). apply (side_rep_head _ _ _ _ INT64_MAX (br_side _ _ _ Hr Sell)).
Qed.

(** The head of a side has the best price of the side. *)
Lemma awf_best a s o os :
  abook_wf a -> ab_side a s = o :: os ->
  forall o', o' ∈ ab_side a s -> key_comp (side_cmp s) (o_price o') (o_price o) = false.
Proof.
  intros Hwf Hs o' Ho'. pose proof (awf_prio _ Hwf s) as Hp. rewrite Hs in *.
  apply StronglySorted_inv in Hp as [_ Hp]. apply elem_of_cons in Ho' as [->|Ho'].
  - apply key_comp_irrefl.
  - rewrite Forall_forall in Hp. destruct (Hp _ Ho') as [H|[<- _]].
    + by apply key_lt_asym.
    + apply key_comp_irrefl.
Qed.

(** ** Quantity at a price *)

Lemma sum_nodes_spec p ns : forall fuel prv nxt q,
  (length ns <= fuel)%nat -> nxt = None -> dseg (storage_ p) prv ns nxt ->
  nodes_ok ns -> 0 <= q <= INT64_MAX ->
  sum_nodes fuel p (first_loc ns nxt) q = i64 (q + depth ns.*2).
Proof.
  induction ns as [|[l o] ns IH]; intros fuel prv nxt q Hf -> Hs Hok Hq.
  - assert (q + depth ([] : Nodes).*2 = q) as -> by (unfold depth; simpl; lia).
    rewrite i64_Some by lia64. by destruct fuel.
  - destruct fuel as [|fuel]; simpl in Hf; [lia|]. destruct Hs as [Hl Hs].
    apply Forall_cons in Hok as [Ho Hok]. simpl in Ho.
    cbn [first_loc sum_nodes]. rewrite (deref_storage _ _ _ Hl).
    cbn [mbind option_bind on_qty on_next node_of]. csimpl. rewrite depth_cons.
    assert (0 <= depth ns.*2) as Hd.
    { apply sumZ_nonneg. rewrite !Forall_fmap. eapply Forall_impl; [done|]. simpl. lia. }
    destruct (decide (q + o_qty o <= INT64_MAX)) as [Hle|Hgt].
    + rewrite i64_Some by lia64. cbn [mbind option_bind].
      rewrite (IH fuel (Some l) None); [f_equal; lia|lia|done..|lia].
    + rewrite (proj2 (i64_None (q + o_qty o))) by lia64. cbn [mbind option_bind].
      symmetry. apply i64_None. lia64.
Qed.

(** The orders of a queue at one price. *)
Definition at_price (px : Price) (os : list Order) : list Order :=
  filter (fun o => o_price o = px) os.

Lemma at_price_none px os : Forall (fun o => o_price o <> px) os -> at_price px os = [].
Proof.
  unfold at_price. induction 1; [done|]. by rewrite filter_cons_False.
Qed.

Lemma at_price_all px os : Forall (fun o => o_price o = px) os -> at_price px os = os.
Proof. unfold at_price. induction 1 as [|o os Ho _ IH]; [done|]. by rewrite filter_cons_True, IH. Qed.

Lemma cut_at_price st c k m1 m2 g1 g2 (ns : Nodes) :
  side_cut st c k m1 m2 g1 g2 -> Forall (fun n => o_price n.2 = k) ns ->
  at_price k (g_orders g1 ++ ns.*2 ++ g_orders g2) = ns.*2.
Proof.
  intros [Hf1 Hf2 _ _ Hb Ha] Hns. unfold at_price. rewrite !filter_app.
  change (filter (fun o => o_price o = k)) with (at_price k).
  rewrite (at_price_none k (g_orders g1)), (at_price_none k (g_orders g2)), at_price_all, app_nil_r;
    [done|..].
  - by apply Forall_fmap.
  - apply (levels_prices _ (fun x => x <> k)); [by eapply levels_ok_px|].
    eapply Forall_impl; [done|]. intros e He <-. by eapply key_lt_irrefl.
  - apply (levels_prices _ (fun x => x <> k)); [by eapply levels_ok_px|].
    eapply Forall_impl; [done|]. intros e He <-. by eapply key_lt_irrefl.
Qed.

Lemma qty_at_side b side px :
  qty_at b side px =
  match map_find (side_cmp side) px (book_side b side) with
  | None => Some 0
  | Some lvl => sum_level (pool_ b) lvl
  end.
Proof. by destruct side. Qed.

(** [qty_at] is the quantity resting at the price, or overflows. *)
Lemma qty_at_refines b a side px :
  refines b a -> qty_at b side px = i64 (depth (at_price px (ab_side a side))).
Proof.
  intros (G & fl & Hr & -> & Hwf). rewrite qty_at_side, abs_of_side.
  pose proof (br_side _ _ _ Hr side) as Hs.
  destruct (map_find _ _ _) as [lvl|] eqn:Hfind.
  - apply map_find_Some in Hfind as (m1 & m2 & Hm). rewrite Hm in Hs.
    apply side_cut_present in Hs as (ns & g1 & g2 & Hg & [_ (Hh & _ & Hd) _ Hpx] & Hcut).
    simpl in Hh, Hd, Hpx. rewrite Hg, g_orders_app, g_orders_cons, (cut_at_price _ _ _ _ _ _ _ _ Hcut) by done.
    pose proof (br_nodes_ok _ _ _ side Hwf) as Hok. rewrite Hg, g_nodes_app, g_nodes_cons in Hok.
    apply Forall_app in Hok as [_ [Hok _]%Forall_app].
    unfold sum_level. rewrite Hh, (sum_nodes_spec (pool_ b) ns _ None None); [done| |done..|lia64].
    eapply dseg_length; [apply Hr|done|].
    pose proof (br_side_NoDup _ _ _ side Hr) as (Hnd & _)%NoDup_app.
    rewrite Hg, g_nodes_app, g_nodes_cons, !fmap_app in Hnd.
    by apply NoDup_app in Hnd as (_ & _ & (? & _)%NoDup_app).
  - destruct (side_cut_absent _ _ _ _ _ Hs Hfind) as (m1 & m2 & g1 & g2 & Hm & Hg & Hcut & _).
    rewrite Hg, g_orders_app.
    pose proof (cut_at_price _ _ _ _ _ _ _ [] Hcut (Forall_nil_2 _)) as Hnil.
    simpl in Hnil. by rewrite Hnil.
Qed.

(** ** Size and occupancy *)

Lemma refines_size b a : refines b a -> book_size b = length (ab_orders a).
Proof.
  intros (G & fl & Hr & -> & _). unfold book_size.
  rewrite <-length_map_to_list, (br_index _ _ _ Hr), abs_of_orders. unfold index_of.
  by rewrite !length_fmap.
Qed.

Lemma refines_in_use b a :
  refines b a -> in_use (pool_ b) = Z.of_nat (length (ab_orders a)) /\
  capacity (pool_ b) = (length (ab_orders a) + ab_free a)%nat.
Proof.
  intros (G & fl & Hr & -> & _). rewrite abs_of_orders, length_fmap. simpl.
  pose proof (wf_in_use _ _ (br_pool _ _ _ Hr)) as Hu. pose proof (br_locs _ _ _ Hr) as Hp.
  apply Permutation_length in Hp. rewrite length_app, length_fmap, length_seq in Hp.
  unfold in_use, capacity. lia.
Qed.

Lemma refines_index b a id :
  refines b a -> is_Some (index_ b !! id) <-> id ∈ o_id <$> ab_orders a.
Proof.
  intros (G & fl & Hr & -> & _). rewrite abs_of_orders. split.
  - intros [l (o & Hin & <-)%(br_index_lookup _ _ _ _ _ Hr)].
    apply list_elem_of_fmap. exists o. split; [done|]. by apply (list_elem_of_fmap_2 snd) in Hin.
  - intros (o & -> & ([l o'] & -> & Hin)%list_elem_of_fmap)%list_elem_of_fmap.
    exists l. apply (br_index_lookup _ _ _ _ _ Hr). eauto.
Qed.

(** ** Construction and destruction *)

Lemma OrderBook_new_refines n :
  Z.of_nat n < UINT64_SIZE -> refines (OrderBook_new n) (mkABook [] [] 1 1 n).
Proof.
  intros Hn. pose proof (ObjectPool_new_wf (T := OrderNode) n Hn) as Hp.
  exists (fun _ => []), (seq 0 n). split_and!.
  - constructor; simpl.
    + intros s. destruct s; split; constructor.
    + done.
    + unfold ObjectPool_new. destruct (thread_slots _ _ _). done.
    + by rewrite map_to_list_empty.
  - unfold abs_of. simpl. by rewrite length_seq.
  - apply abook_new_wf.
Qed.

(** Releasing distinct live slots, in any order. *)
Lemma release_all_spec ls : forall fl (p : Mem),
  pool_wf p fl -> NoDup (ls ++ fl) -> Forall (fun l => (l < capacity_ p)%nat) ls ->
  exists p', release_all ls p = Some p' /\ pool_wf p' (reverse ls ++ fl) /\
    capacity_ p' = capacity_ p.
Proof.
  induction ls as [|l ls IH]; intros fl p Hwf Hnd Hcap; [by exists p|].
  simpl in Hnd. apply NoDup_cons in Hnd as [Hl Hnd]. apply Forall_cons in Hcap as [Hlc Hcap].
  rewrite not_elem_of_app in Hl. destruct Hl as [Hl1 Hl2].
  destruct (release_spec p fl l Hwf Hl2 Hlc) as (p1 & E & Hwf1 & _ & Hc & _).
  destruct (IH (l :: fl) p1) as (p' & E' & Hwf' & Hc'); [done| |by rewrite Hc|].
  { rewrite <-Permutation_middle. constructor; [by rewrite not_elem_of_app|done]. }
  exists p'. simpl. rewrite E. cbn [mbind option_bind]. split_and!; [done| |congruence].
  by rewrite reverse_cons, <-app_assoc.
Qed.

Lemma OrderBook_delete_spec b a iter :
  refines b a -> iter ≡ₚ map_to_list (index_ b) ->
  exists p, OrderBook_delete b iter = Some p /\ in_use p = 0 /\
    exists fl, pool_wf p fl /\ length fl = capacity (pool_ b).
Proof.
  intros (G & fl & Hr & _ & _) Hit. pose proof (br_NoDup _ _ _ Hr) as Hnd.
  assert (iter.*2 ≡ₚ (all_nodes G).*1) as Hls.
  { rewrite Hit, (br_index _ _ _ Hr). unfold index_of. by rewrite <-list_fmap_compose. }
  destruct (release_all_spec iter.*2 fl (pool_ b)) as (p & E & Hwf & Hc);
    [apply Hr|by rewrite Hls| |].
  - rewrite Hls. apply Forall_forall. intros l Hl.
    assert (l ∈ seq 0 (capacity_ (pool_ b))) as ?%elem_of_seq; [|lia].
    rewrite <-(br_locs _ _ _ Hr). apply elem_of_app. by left.
  - assert (length (reverse iter.*2 ++ fl) = capacity_ (pool_ b)) as Hlen.
    { rewrite <-(length_seq (capacity_ (pool_ b)) 0), <-(br_locs _ _ _ Hr), !length_app, length_reverse.
      by rewrite Hls. }
    exists p. split_and!; [done| |eauto]. pose proof (wf_in_use _ _ Hwf). unfold in_use.
    rewrite Hc in *. lia.
Qed.
