(* ===== verification/BookRun.v ===== *)
(** * Sequences of operations on one book

    A client of [OrderBook] issues placements and cancels.  A run of the
    pointer-level book and the run of the specification on the same operations
    produce the same answers. *)

From S2P Require Import Prelude Pool OrderedMap Level OrderBook BookSpec BookMatch BookSide BookRefine BookQuery.

Inductive BookOp :=
| OpPlace (side : Side) (price : Price) (qty : Quantity)
| OpCancel (id : OrderId).

Inductive BookOut :=
| OutPlaced (id : OrderId) (trades : list Trade)
| OutCancelled (ok : bool).

Definition book_step (b : OrderBook) (op : BookOp) : option (OrderBook * BookOut) :=
  match op with
  | OpPlace side price qty =>
      '(b, id, ts) ← place_limit b side price qty []; Some (b, OutPlaced id ts)
  | OpCancel id => '(ok, b) ← cancel b id; Some (b, OutCancelled ok)
  end.

Fixpoint run_ops (b : OrderBook) (ops : list BookOp) : option (OrderBook * list BookOut) :=
  match ops with
  | [] => Some (b, [])
  | op :: ops =>
      '(b, out) ← book_step b op;
      '(b, outs) ← run_ops b ops;
      Some (b, out :: outs)
  end.

Definition abook_step (a : ABook) (op : BookOp) : ABook * BookOut :=
  match op with
  | OpPlace side price qty =>
      let '(a, id, ts) := aplace a side price qty in (a, OutPlaced id ts)
  | OpCancel id => let '(ok, a) := acancel a id in (a, OutCancelled ok)
  end.

Fixpoint arun_ops (a : ABook) (ops : list BookOp) : ABook * list BookOut :=
  match ops with
  | [] => (a, [])
  | op :: ops =>
      let '(a, out) := abook_step a op in
      let '(a, outs) := arun_ops a ops in
      (a, out :: outs)
  end.

(** Quantities are [int64_t]. *)
Definition op_ok (op : BookOp) : Prop :=
  match op with OpPlace _ _ qty => i64_range qty | OpCancel _ => True end.

#[global] Instance op_ok_dec op : Decision (op_ok op).
Proof. destruct op; simpl; apply _. Defined.

Lemma aplace_next_id a side price qty :
  ab_next_id (aplace a side price qty).1.1 = u64 (ab_next_id a + 1).
Proof.
  unfold aplace. destruct (amatch _ _ _ _ _) as [[ts q] r]. simpl. by destruct side.
Qed.

Lemma acancel_next_id a id : ab_next_id (acancel a id).2 = ab_next_id a.
Proof. unfold acancel. by case_decide. Qed.

Lemma refines_next_id b a : refines b a -> next_id_ b = ab_next_id a.
Proof. by intros (G & fl & _ & -> & _). Qed.

Lemma refines_wf b a : refines b a -> abook_wf a.
Proof. by intros (G & fl & _ & _ & ?). Qed.

(** One operation, on a book whose id counter has room. *)
Lemma book_step_refines b a op :
  refines b a -> op_ok op -> ab_next_id a + 1 < UINT64_SIZE ->
  exists b', book_step b op = Some (b', (abook_step a op).2) /\
    refines b' (abook_step a op).1 /\
    ab_next_id a <= ab_next_id (abook_step a op).1 <= ab_next_id a + 1.
Proof.
  intros Hr Hok Hn. pose proof (awf_next_id _ (refines_wf _ _ Hr)).
  destruct op as [side price qty|id]; simpl.
  - destruct (place_limit_refines b a side price qty []) as (b' & E & Hr');
      [done|by rewrite (refines_next_id _ _ Hr)|apply Hok|].
    pose proof (aplace_next_id a side price qty) as Hid. rewrite u64_small in Hid by lia.
    exists b'. rewrite E. destruct (aplace a side price qty) as [[a' id] ts].
    simpl in *. split_and!; [done..|lia|lia].
  - destruct (cancel_refines b a id Hr) as (b' & E & Hr').
    pose proof (acancel_next_id a id) as Hid.
    exists b'. rewrite E. destruct (acancel a id) as [ok a']. simpl in *.
    split_and!; [done..|lia|lia].
Qed.

Lemma run_ops_refines ops : forall b a,
  refines b a -> Forall op_ok ops ->
  ab_next_id a + Z.of_nat (length ops) < UINT64_SIZE ->
  exists b', run_ops b ops = Some (b', (arun_ops a ops).2) /\ refines b' (arun_ops a ops).1.
Proof.
  induction ops as [|op ops IH]; intros b a Hr Hok Hn; [by exists b|].
  apply Forall_cons in Hok as [Ho Hok]. cbn [length] in Hn.
  destruct (book_step_refines b a op Hr Ho) as (b1 & E1 & Hr1 & Hid); [lia|].
  cbn [run_ops arun_ops]. rewrite E1. cbn [mbind option_bind].
  destruct (abook_step a op) as [a1 out]. simpl in Hr1, Hid.
  destruct (IH b1 a1 Hr1 Hok) as (b' & E & Hr'); [lia|].
  exists b'. rewrite E. cbn [mbind option_bind]. by destruct (arun_ops a1 ops).
Qed.

(** ** What a placement does, in terms of the specification's queues *)

Lemma aplace_shape a side price qty :
  exists q r,
    amatch (side_cmp (opposite side)) (ab_next_id a) price qty (ab_side a (opposite side)) =
      ((aplace a side price qty).2, q, r) /\
    (aplace a side price qty).1.2 = ab_next_id a /\
    ab_side (aplace a side price qty).1.1 (opposite side) = r /\
    let free := (ab_free a + (length (ab_side a (opposite side)) - length r))%nat in
    ab_side (aplace a side price qty).1.1 side =
      if (0 <? q) && negb (free =? 0)%nat
      then ainsert (side_cmp side) (mkOrder (ab_next_id a) side price q (ab_next_ts a))
             (ab_side a side)
      else ab_side a side.
Proof.
  unfold aplace. destruct (amatch _ _ _ _ _) as [[ts q] r] eqn:E. simpl.
  exists q, r. by rewrite ab_side_make, ab_side_make_opp.
Qed.

Lemma refines_next_ts b a : refines b a -> next_ts_ b = ab_next_ts a.
Proof. by intros (G & fl & _ & -> & _). Qed.

Lemma refines_capacity b a : refines b a -> Z.of_nat (capacity (pool_ b)) < UINT64_SIZE.
Proof. intros (G & fl & Hr & _). apply (wf_capacity _ _ (br_pool _ _ _ Hr)). Qed.

(** A side of the map is empty exactly when its queue is. *)
Lemma refines_side_nil b a s : refines b a -> ab_side a s = [] -> book_side b s = [].
Proof.
  intros (G & fl & Hr & -> & _) Hnil. rewrite abs_of_side in Hnil.
  destruct (br_side _ _ _ Hr s) as [Hf _].
  destruct Hf as [|? [? ns] ? ? [_ _ Hne _] _]; [done|].
  rewrite g_orders_cons in Hnil. by destruct ns.
Qed.

(** A placement, as the match of the taker and the effect on its own side. *)
Lemma place_limit_effect b a side price qty :
  refines b a -> next_id_ b + 1 < UINT64_SIZE -> i64_range qty ->
  exists b' ts q r, place_limit b side price qty [] = Some (b', next_id_ b, ts) /\
    refines b' (aplace a side price qty).1.1 /\
    amatch (side_cmp (opposite side)) (next_id_ b) price qty (ab_side a (opposite side)) =
      (ts, q, r) /\
    ab_side (aplace a side price qty).1.1 (opposite side) = r /\
    ab_side (aplace a side price qty).1.1 side =
      if (0 <? q) && negb (ab_free a + (length (ab_side a (opposite side)) - length r) =? 0)%nat
      then ainsert (side_cmp side) (mkOrder (next_id_ b) side price q (next_ts_ b)) (ab_side a side)
      else ab_side a side.
Proof.
  intros Hr Hn [_ Hq]. destruct (place_limit_refines b a side price qty [] Hr Hn Hq) as (b' & E & Hr').
  destruct (aplace_shape a side price qty) as (q & r & Hm & Hid & Hopp & Hown).
  exists b', (aplace a side price qty).2, q, r.
  rewrite (refines_next_id _ _ Hr), (refines_next_ts _ _ Hr).
  split_and!; try done. by rewrite E, Hid.
Qed.

(** A taker whose price no resting order crosses. *)
Lemma amatch_no_cross c t l q os :
  positive os -> StronglySorted (prio c) os -> crossing_depth c l os = 0 ->
  amatch c t l q os = ([], q, os).
Proof.
  intros Hpos Hs Hc. destruct os as [|o os]; [done|]. apply amatch_stop.
  rewrite crossing_depth_cons in Hc. apply Forall_cons in Hpos as [Ho Hpos].
  pose proof (crossing_depth_nonneg c l os Hpos). destruct (cross _ _ _); [lia|done].
Qed.

Lemma aplace_full a side price qty :
  abook_wf a -> ab_free a = 0%nat ->
  crossing_depth (side_cmp (opposite side)) price (ab_side a (opposite side)) = 0 ->
  (aplace a side price qty).1.1 =
    mkABook (ab_bids a) (ab_asks a) (u64 (ab_next_id a + 1)) (ab_next_ts a) 0.
Proof.
  intros Hwf Hf Hc. unfold aplace.
  rewrite amatch_no_cross; [|by apply awf_positive|by apply awf_prio|done].
  rewrite Hf, Nat.sub_diag. simpl. rewrite andb_false_r. by destruct side.
Qed.

Lemma inserted_id_orders a s o os :
  ab_side a s = ainsert (side_cmp s) o os -> o_id o ∈ o_id <$> ab_orders a.
Proof.
  intros H. apply list_elem_of_fmap_2. rewrite (ab_orders_side s), H.
  apply elem_of_app. left. rewrite ainsert_Permutation. by left.
Qed.

Lemma acancel_aplace a side price qty :
  abook_wf a -> 0 < qty -> ab_free a <> 0%nat ->
  crossing_depth (side_cmp (opposite side)) price (ab_side a (opposite side)) = 0 ->
  ab_next_id a + 1 < UINT64_SIZE ->
  acancel (aplace a side price qty).1.1 (ab_next_id a) =
    (true, mkABook (ab_bids a) (ab_asks a) (u64 (ab_next_id a + 1)) (u64 (ab_next_ts a + 1))
             (ab_free a)).
Proof.
  intros Hwf Hq Hf Hc Hid. unfold aplace.
  rewrite amatch_no_cross; [|by apply awf_positive|by apply awf_prio|done].
  rewrite Nat.sub_diag, Nat.add_0_r, (proj2 (Z.ltb_lt _ _)), (proj2 (Nat.eqb_neq _ _)) by done.
  simpl. set (o := mkOrder _ _ _ _ _).
  assert (forall s, ab_next_id a ∉ o_id <$> ab_side a s) as Hni.
  { intros s (x & Hx & Hin)%list_elem_of_fmap. pose proof (awf_side _ Hwf s) as Hs.
    rewrite Forall_forall in Hs. destruct (Hs x Hin). lia. }
  assert (filter (fun x => o_id x <> ab_next_id a) (ainsert (side_cmp side) o (ab_side a side))
          = ab_side a side) as Hfi.
  { pose proof (Hni side) as Hn. revert Hn. generalize (ab_side a side). intros os.
    induction os as [|x os IH]; intros Hn; simpl.
    - rewrite filter_cons_False by (simpl; tauto). done.
    - csimpl in Hn. apply not_elem_of_cons in Hn as [Hx Hn]. destruct (key_comp _ _ _).
      + rewrite filter_cons_False by (simpl; tauto). apply filter_id_notin. csimpl.
        by apply not_elem_of_cons.
      + rewrite filter_cons_True by done. by rewrite IH. }
  unfold acancel. rewrite decide_True.
  - pose proof (filter_id_notin _ _ (Hni (opposite side))) as Ho.
    destruct side; simpl in *; rewrite Hfi, Ho; (repeat f_equal); lia.
  - apply (inserted_id_orders _ side o (ab_side a side)). by rewrite ab_side_make.
Qed.

(** The new order is behind every order of its price. *)
Lemma at_price_ainsert side o os :
  StronglySorted (prio (side_cmp side)) os ->
  at_price (o_price o) (ainsert (side_cmp side) o os) = at_price (o_price o) os ++ [o].
Proof.
  intros Hs. unfold at_price. induction os as [|x os IH]; simpl.
  - by rewrite filter_cons_True.
  - apply StronglySorted_inv in Hs as [Hs Hf].
    destruct (key_comp _ _ _) eqn:E.
    + rewrite filter_cons_True by done.
      change (filter (fun x0 => o_price x0 = o_price o)) with (at_price (o_price o)).
      rewrite at_price_none; [done|]. constructor; [intros Hx; rewrite Hx, key_comp_irrefl in E; done|].
      eapply Forall_impl; [done|]. intros y [Hy|[Hy _]] Hxy.
      * rewrite Hxy in Hy. apply key_lt_asym in Hy. congruence.
      * by rewrite Hy, Hxy, key_comp_irrefl in E.
    + rewrite !filter_cons. case_decide; simpl; by rewrite IH.
Qed.

(** A placement with quantity left and a free slot rests. *)
Lemma place_rests_effect b a side price qty :
  refines b a -> next_id_ b + 1 < UINT64_SIZE -> i64_range qty ->
  let crossing := crossing_depth (side_cmp (opposite side)) price (ab_side a (opposite side)) in
  crossing < qty -> in_use (pool_ b) < Z.of_nat (capacity (pool_ b)) ->
  exists b' ts, place_limit b side price qty [] = Some (b', next_id_ b, ts) /\
    refines b' (aplace a side price qty).1.1 /\
    ab_side (aplace a side price qty).1.1 side =
      ainsert (side_cmp side) (mkOrder (next_id_ b) side price (qty - crossing) (next_ts_ b))
        (ab_side a side).
Proof.
  intros Hr Hn Hq crossing Hc Hroom.
  destruct (place_limit_effect b a side price qty Hr Hn Hq)
    as (b' & ts & q & r & E & Hr' & Hm & _ & Hown).
  pose proof (refines_wf _ _ Hr) as Hwf. pose proof (refines_in_use _ _ Hr) as [Hu Hcap].
  pose proof (awf_positive _ (opposite side) Hwf) as Hpos.
  pose proof (crossing_depth_nonneg (side_cmp (opposite side)) price _ Hpos) as Hnn.
  fold crossing in Hnn.
  assert (0 <= qty) as Hq0 by lia.
  pose proof (amatch_volume _ _ _ _ _ _ _ _ Hpos (awf_prio _ Hwf _) Hq0 Hm) as Hv.
  destruct (amatch_conserve _ _ _ _ _ _ _ _ Hpos Hm) as (Hq' & _ & _).
  fold crossing in Hv. rewrite Z.min_r in Hv by lia.
  exists b', ts. split_and!; [done..|]. rewrite Hown, Hq', Hv, (proj2 (Z.ltb_lt _ _)) by lia.
  rewrite (proj2 (Nat.eqb_neq _ _)) by lia. done.
Qed.

(** A book with resting orders on both sides, for the witnesses below. *)
Definition demo_ops : list BookOp :=
  [OpPlace Sell 101 4; OpPlace Sell 102 5; OpPlace Buy 99 7; OpPlace Sell 101 6; OpPlace Buy 98 2].
Definition demo_book : OrderBook :=
  default (OrderBook_new 8) (fst <$> run_ops (OrderBook_new 8) demo_ops).
Definition demo_abook : ABook := (arun_ops (mkABook [] [] 1 1 8) demo_ops).1.

Lemma demo_refines : refines demo_book demo_abook.
Proof.
  destruct (run_ops_refines demo_ops (OrderBook_new 8) (mkABook [] [] 1 1 8)) as (b' & E & Hr).
  - by apply OrderBook_new_refines.
  - unfold demo_ops. repeat constructor; simpl; lia64.
  - done.
  - unfold demo_book. rewrite E. exact Hr.
Qed.
