(* ===== verification/BookProps.v ===== *)
(** * Properties of the order book

    The promises of [OrderBook] to its callers, stated of the pointer-level
    functions and proved through the refinement. *)

From S2P Require Import Prelude Pool OrderedMap Level OrderBook BookSpec BookMatch BookSide BookRefine BookQuery BookRun.

(** (C1) [place_limit] refines the specification: from any represented book it
    returns (no undefined behaviour, both matching loops end) with the id, the
    trades and the resulting book that [aplace] defines. *)
Theorem place_limit_correct b a side price qty trades :
  refines b a -> next_id_ b + 1 < UINT64_SIZE -> i64_range qty ->
  exists b', place_limit b side price qty trades =
      Some (b', next_id_ b, trades ++ (aplace a side price qty).2) /\
    refines b' (aplace a side price qty).1.1.
Proof.
  intros Hr Hn [_ Hq]. destruct (place_limit_refines b a side price qty trades Hr Hn Hq) as (b' & E & Hr').
  destruct (aplace_shape a side price qty) as (q & r & _ & Hid & _).
  exists b'. by rewrite E, Hid, (refines_next_id _ _ Hr).
Qed.

Lemma place_limit_correct_witness :
  exists b', place_limit demo_book Buy 101 5 [] =
      Some (b', 6, [mkTrade 6 1 101 4; mkTrade 6 4 101 1]) /\
    refines b' (aplace demo_abook Buy 101 5).1.1.
Proof.
  apply (place_limit_correct demo_book demo_abook Buy 101 5 []).
  - apply demo_refines.
  - vm_compute. reflexivity.
  - unfold i64_range. vm_compute. split; discriminate.
Defined.

(** (C2) Memory safety and correctness of every client: any sequence of
    placements and cancels on a new book runs without undefined behaviour and
    answers exactly as the specification does. *)
Theorem run_ops_correct n ops :
  Z.of_nat n < UINT64_SIZE -> Forall op_ok ops ->
  Z.of_nat (length ops) < UINT64_SIZE - 1 ->
  exists b', run_ops (OrderBook_new n) ops = Some (b', (arun_ops (mkABook [] [] 1 1 n) ops).2) /\
    refines b' (arun_ops (mkABook [] [] 1 1 n) ops).1.
Proof.
  intros Hn Hok Hlen. apply run_ops_refines; [by apply OrderBook_new_refines|done|]. simpl. lia.
Qed.

Lemma run_ops_correct_witness :
  exists b', run_ops (OrderBook_new 2)
      [OpPlace Sell 100 3; OpPlace Sell 101 4; OpPlace Sell 102 1; OpPlace Buy 100 5; OpCancel 2]
    = Some (b', [OutPlaced 1 []; OutPlaced 2 []; OutPlaced 3 [];
                 OutPlaced 4 [mkTrade 4 1 100 3]; OutCancelled true]) /\
    refines b' (mkABook [mkOrder 4 Buy 100 2 3] [] 5 4 1).
Proof.
  apply (run_ops_correct 2
    [OpPlace Sell 100 3; OpPlace Sell 101 4; OpPlace Sell 102 1; OpPlace Buy 100 5; OpCancel 2]).
  - reflexivity.
  - repeat constructor; vm_compute; discriminate.
  - reflexivity.
Defined.

(** (C3) [cancel] refines the specification: it returns, answers [true] exactly
    for the ids that rest, and removes exactly that order. *)
Theorem cancel_correct b a id :
  refines b a ->
  exists ok b', cancel b id = Some (ok, b') /\
    (ok = true <-> id ∈ o_id <$> ab_orders a) /\
    refines b' (if ok then mkABook (filter (fun o => o_id o <> id) (ab_bids a))
                             (filter (fun o => o_id o <> id) (ab_asks a))
                             (ab_next_id a) (ab_next_ts a) (S (ab_free a))
                else a).
Proof.
  intros Hr. destruct (cancel_refines b a id Hr) as (b' & E & Hr').
  exists (acancel a id).1, b'. split; [done|]. revert Hr'. unfold acancel.
  case_decide; by intros.
Qed.

Lemma cancel_correct_witness :
  exists ok b', cancel demo_book 1 = Some (ok, b') /\
    (ok = true <-> 1 ∈ o_id <$> ab_orders demo_abook) /\
    refines b' (if ok then mkABook (filter (fun o => o_id o <> 1) (ab_bids demo_abook))
                             (filter (fun o => o_id o <> 1) (ab_asks demo_abook)) 6 6 4
                else demo_abook).
Proof. exact (cancel_correct demo_book demo_abook 1 demo_refines). Defined.

(** (C11) The book is never crossed: whatever placements and cancels a new
    book has served, it is defined, and with both sides populated its best bid
    is strictly below its best ask. *)
Theorem book_uncrossed n ops :
  Z.of_nat n < UINT64_SIZE -> Forall op_ok ops -> Z.of_nat (length ops) < UINT64_SIZE - 1 ->
  exists b outs, run_ops (OrderBook_new n) ops = Some (b, outs) /\
    (bids_ b <> [] -> asks_ b <> [] -> best_bid b < best_ask b).
Proof.
  intros Hn Hok Hlen. destruct (run_ops_refines ops _ _ (OrderBook_new_refines n Hn) Hok) as (b & E & Hr); [simpl; lia|].
  eexists b, _. split; [exact E|]. intros Hb Ha. rewrite (refines_best_bid _ _ Hr), (refines_best_ask _ _ Hr).
  pose proof (awf_uncrossed _ (refines_wf _ _ Hr)) as Hu.
  pose proof (refines_side_nil _ _ Buy Hr) as Nb. pose proof (refines_side_nil _ _ Sell Hr) as Na.
  simpl in Nb, Na. destruct (ab_bids _) as [|x xs]; [by destruct Hb; apply Nb|].
  destruct (ab_asks _) as [|y ys]; [by destruct Ha; apply Na|].
  apply Hu; by left.
Qed.

(** The bids 100 and 98, the ask 101; then a sale at 99 that takes the first
    bid and rests. *)
Lemma book_uncrossed_witness :
  exists b outs, run_ops (OrderBook_new 4) [OpPlace Buy 100 3; OpPlace Buy 98 2; OpPlace Sell 101 4; OpPlace Sell 99 5] = Some (b, outs) /\
    (bids_ b <> [] -> asks_ b <> [] -> best_bid b < best_ask b).
Proof.
  apply (book_uncrossed 4 [OpPlace Buy 100 3; OpPlace Buy 98 2; OpPlace Sell 101 4; OpPlace Sell 99 5]).
  - reflexivity.
  - repeat constructor; vm_compute; discriminate.
  - reflexivity.
Defined.

(** (C9) Price-time priority: the trades of a placement are, in order, with
    the first orders of the opposite side in (price, time) order, each at the
    maker's price, at a price the taker's limit allows, and a maker is filled
    completely before the next one is touched. *)
Theorem price_time_priority b a side price qty :
  refines b a -> next_id_ b + 1 < UINT64_SIZE -> i64_range qty ->
  let opp := ab_side a (opposite side) in
  exists b' ts, place_limit b side price qty [] = Some (b', next_id_ b, ts) /\
    StronglySorted (prio (side_cmp (opposite side))) opp /\
    Forall2 (fills (next_id_ b) (side_cmp (opposite side)) price) (take (length ts) opp) ts /\
    (forall i o tr, opp !! i = Some o -> ts !! i = Some tr -> (S i < length ts)%nat ->
       tr_qty tr = o_qty o).
Proof.
  intros Hr Hn Hq opp.
  destruct (place_limit_effect b a side price qty Hr Hn Hq) as (b' & ts & q & r & E & _ & Hm & _).
  pose proof (awf_positive _ (opposite side) (refines_wf _ _ Hr)) as Hpos.
  exists b', ts. split_and!; [done|apply awf_prio, (refines_wf _ _ Hr)|by eapply amatch_fills|].
  intros i o tr. by eapply amatch_full_fills.
Qed.

Lemma price_time_priority_witness :
  let opp := ab_side demo_abook (opposite Buy) in
  exists b' ts, place_limit demo_book Buy 101 7 [] = Some (b', 6, ts) /\
    StronglySorted (prio (side_cmp (opposite Buy))) opp /\
    Forall2 (fills 6 (side_cmp (opposite Buy)) 101) (take (length ts) opp) ts /\
    (forall i o tr, opp !! i = Some o -> ts !! i = Some tr -> (S i < length ts)%nat ->
       tr_qty tr = o_qty o).
Proof.
  apply (price_time_priority demo_book demo_abook Buy 101 7).
  - apply demo_refines.
  - vm_compute. reflexivity.
  - unfold i64_range. vm_compute. split; discriminate.
Defined.

(** (C10) Volume and conservation: a placement executes exactly as much as rests
    at crossing prices, capped by its quantity, and the opposite side loses
    exactly that. *)
Theorem execution_volume b a side price qty :
  refines b a -> next_id_ b + 1 < UINT64_SIZE -> i64_range qty -> 0 <= qty ->
  exists b' a' ts, place_limit b side price qty [] = Some (b', next_id_ b, ts) /\ refines b' a' /\
    traded ts =
      Z.min qty (crossing_depth (side_cmp (opposite side)) price (ab_side a (opposite side))) /\
    depth (ab_side a' (opposite side)) = depth (ab_side a (opposite side)) - traded ts.
Proof.
  intros Hr Hn Hq Hq0.
  destruct (place_limit_effect b a side price qty Hr Hn Hq)
    as (b' & ts & q & r & E & Hr' & Hm & Hopp & _).
  pose proof (awf_positive _ (opposite side) (refines_wf _ _ Hr)) as Hpos.
  eexists b', _, ts. split_and!; [done|exact Hr'| |].
  - eapply amatch_volume; [done|apply awf_prio, (refines_wf _ _ Hr)|done..].
  - rewrite Hopp. by destruct (amatch_conserve _ _ _ _ _ _ _ _ Hpos Hm) as (_ & ? & _).
Qed.

Lemma execution_volume_witness :
  exists b' a' ts, place_limit demo_book Sell 98 20 [] = Some (b', 6, ts) /\ refines b' a' /\
    traded ts = Z.min 20 9 /\ depth (ab_bids a') = 9 - traded ts.
Proof.
  apply (execution_volume demo_book demo_abook Sell 98 20).
  - apply demo_refines.
  - vm_compute. reflexivity.
  - unfold i64_range. vm_compute. split; discriminate.
  - lia.
Defined.

(** (C24) What does not execute rests when the pool has a slot: the order is in
    the index, is the newest order of its price and adds the remainder to the
    quantity there. *)
Theorem remainder_rests b a side price qty :
  refines b a -> next_id_ b + 1 < UINT64_SIZE -> i64_range qty ->
  let crossing := crossing_depth (side_cmp (opposite side)) price (ab_side a (opposite side)) in
  crossing < qty -> in_use (pool_ b) < Z.of_nat (capacity (pool_ b)) ->
  exists b' a' ts, place_limit b side price qty [] = Some (b', next_id_ b, ts) /\ refines b' a' /\
    is_Some (index_ b' !! next_id_ b) /\
    at_price price (ab_side a' side) =
      at_price price (ab_side a side) ++
      [mkOrder (next_id_ b) side price (qty - crossing) (next_ts_ b)] /\
    qty_at b' side price = i64 (depth (at_price price (ab_side a side)) + (qty - crossing)).
Proof.
  intros Hr Hn Hq crossing Hc Hroom.
  destruct (place_rests_effect b a side price qty Hr Hn Hq Hc Hroom)
    as (b' & ts & E & Hr' & Hown). fold crossing in Hown.
  pose proof (at_price_ainsert side (mkOrder (next_id_ b) side price (qty - crossing) (next_ts_ b))
    (ab_side a side) (awf_prio _ (refines_wf _ _ Hr) side)) as Hat. simpl in Hat.
  rewrite <-Hown in Hat.
  eexists b', _, ts. split_and!; [done|exact Hr'| |done|].
  - apply (refines_index _ _ _ Hr'). by apply (inserted_id_orders _ _ _ _ Hown).
  - rewrite (qty_at_refines _ _ _ _ Hr'), Hat. f_equal. unfold depth. rewrite fmap_app, sumZ_app.
    csimpl. lia.
Qed.

Lemma remainder_rests_witness :
  exists b' a' ts, place_limit demo_book Buy 101 25 [] = Some (b', 6, ts) /\ refines b' a' /\
    is_Some (index_ b' !! 6) /\
    at_price 101 (ab_bids a') = at_price 101 (ab_bids demo_abook) ++ [mkOrder 6 Buy 101 (25 - 10) 6] /\
    qty_at b' Buy 101 = i64 (depth (at_price 101 (ab_bids demo_abook)) + (25 - 10)).
Proof.
  apply (remainder_rests demo_book demo_abook Buy 101 25).
  - apply demo_refines.
  - vm_compute. reflexivity.
  - unfold i64_range. vm_compute. split; discriminate.
  - vm_compute. reflexivity.
  - vm_compute. reflexivity.
Defined.

(** (C25) When the pool is exhausted a placement that crosses nothing is
    dropped: an id is returned as usual, the book does not change, and the id
    cannot be cancelled. *)
Theorem placement_dropped_when_full b a side price qty :
  refines b a -> next_id_ b + 1 < UINT64_SIZE -> i64_range qty ->
  in_use (pool_ b) = Z.of_nat (capacity (pool_ b)) ->
  crossing_depth (side_cmp (opposite side)) price (ab_side a (opposite side)) = 0 ->
  exists b' b'', place_limit b side price qty [] = Some (b', next_id_ b, []) /\
    refines b' (mkABook (ab_bids a) (ab_asks a) (next_id_ b + 1) (next_ts_ b) 0) /\
    cancel b' (next_id_ b) = Some (false, b'').
Proof.
  intros Hr Hn Hq Hfull Hc.
  destruct (place_limit_effect b a side price qty Hr Hn Hq) as (b' & ts & q & r & E & Hr' & Hm & _).
  pose proof (refines_in_use _ _ Hr) as [Hu Hcap]. pose proof (refines_wf _ _ Hr) as Hwf.
  assert (ab_free a = 0%nat) as Hf by lia.
  rewrite (amatch_no_cross _ _ _ _ _ (awf_positive _ _ Hwf) (awf_prio _ Hwf _) Hc) in Hm. simplify_eq.
  rewrite (aplace_full a side price q Hwf Hf Hc) in Hr'.
  pose proof (refines_next_id _ _ Hr) as Hid. pose proof (awf_next_id _ Hwf).
  rewrite u64_small in Hr' by lia. rewrite <-Hid, <-(refines_next_ts _ _ Hr) in Hr'.
  destruct (cancel_refines _ _ (next_id_ b) Hr') as (b'' & Ec & _).
  exists b', b''. split_and!; [done..|]. rewrite Ec. f_equal. f_equal. unfold acancel.
  rewrite decide_False; [done|]. intros (o & Ho & Hin)%list_elem_of_fmap.
  pose proof (awf_order_id a o Hwf Hin). lia.
Qed.

Lemma placement_dropped_when_full_witness :
  exists b' b'', place_limit (OrderBook_new 0) Buy 10 5 [] = Some (b', 1, []) /\
    refines b' (mkABook [] [] 2 1 0) /\ cancel b' 1 = Some (false, b'').
Proof.
  apply (placement_dropped_when_full (OrderBook_new 0) (mkABook [] [] 1 1 0) Buy 10 5).
  - apply OrderBook_new_refines. reflexivity.
  - reflexivity.
  - unfold i64_range. vm_compute. split; discriminate.
  - reflexivity.
  - reflexivity.
Defined.

(** [best_bid] and [best_ask] are the extreme resting prices: no resting
    bid is above, no resting ask below, and a populated side has an order at
    its best price. *)
Theorem best_prices_extreme b a :
  refines b a ->
  (forall o, o ∈ ab_bids a -> o_price o <= best_bid b) /\
  (forall o, o ∈ ab_asks a -> best_ask b <= o_price o) /\
  (ab_bids a <> [] -> best_bid b ∈ o_price <$> ab_bids a) /\
  (ab_asks a <> [] -> best_ask b ∈ o_price <$> ab_asks a).
Proof.
  intros Hr. rewrite (refines_best_bid _ _ Hr), (refines_best_ask _ _ Hr).
  pose proof (refines_wf _ _ Hr) as Hwf.
  pose proof (awf_best a Buy) as Hb. pose proof (awf_best a Sell) as Ha. simpl in Hb, Ha.
  split_and!.
  - intros o Ho. destruct (ab_bids a) as [|x xs] eqn:E; [by apply elem_of_nil in Ho|].
    specialize (Hb x xs Hwf eq_refl o Ho). simpl in Hb. apply Z.ltb_ge in Hb. lia.
  - intros o Ho. destruct (ab_asks a) as [|x xs] eqn:E; [by apply elem_of_nil in Ho|].
    specialize (Ha x xs Hwf eq_refl o Ho). simpl in Ha. apply Z.ltb_ge in Ha. lia.
  - destruct (ab_bids a); [done|]. intros _. csimpl. by left.
  - destruct (ab_asks a); [done|]. intros _. csimpl. by left.
Qed.

Lemma best_prices_extreme_witness :
  (forall o, o ∈ ab_bids demo_abook -> o_price o <= best_bid demo_book) /\
  (forall o, o ∈ ab_asks demo_abook -> best_ask demo_book <= o_price o) /\
  (ab_bids demo_abook <> [] -> best_bid demo_book ∈ o_price <$> ab_bids demo_abook) /\
  (ab_asks demo_abook <> [] -> best_ask demo_book ∈ o_price <$> ab_asks demo_abook).
Proof. exact (best_prices_extreme demo_book demo_abook demo_refines). Defined.

(** [qty_at] returns the total quantity resting at the price, and
    overflows [int64_t] exactly when that total does. *)
Theorem qty_at_total b a side px :
  refines b a -> qty_at b side px = i64 (depth (at_price px (ab_side a side))).
Proof. apply qty_at_refines. Qed.

Lemma qty_at_total_witness : qty_at demo_book Sell 101 = i64 10.
Proof. exact (qty_at_total demo_book demo_abook Sell 101 demo_refines). Defined.

(** Placing an order that crosses nothing and cancelling it restores the
    book, apart from the counters. *)
Theorem place_cancel_roundtrip b a side price qty :
  refines b a -> next_id_ b + 1 < UINT64_SIZE -> i64_range qty -> 0 < qty ->
  crossing_depth (side_cmp (opposite side)) price (ab_side a (opposite side)) = 0 ->
  in_use (pool_ b) < Z.of_nat (capacity (pool_ b)) ->
  exists b1 b2, place_limit b side price qty [] = Some (b1, next_id_ b, []) /\
    cancel b1 (next_id_ b) = Some (true, b2) /\
    refines b2 (mkABook (ab_bids a) (ab_asks a) (next_id_ b + 1) (next_ts_ b + 1) (ab_free a)).
Proof.
  intros Hr Hn Hq Hq0 Hc Hroom. pose proof (refines_wf _ _ Hr) as Hwf.
  pose proof (refines_in_use _ _ Hr) as [Hu Hcap]. assert (ab_free a <> 0%nat) as Hf by lia.
  destruct (place_limit_effect b a side price qty Hr Hn Hq) as (b1 & ts & q & r & E & Hr1 & Hm & _).
  rewrite (amatch_no_cross _ _ _ _ _ (awf_positive _ _ Hwf) (awf_prio _ Hwf _) Hc) in Hm. simplify_eq.
  destruct (cancel_refines _ _ (next_id_ b) Hr1) as (b2 & E2 & Hr2).
  rewrite (refines_next_id _ _ Hr) in *. pose proof (awf_next_id _ Hwf).
  pose proof (awf_next_ts _ Hwf).
  rewrite (acancel_aplace a side price q Hwf Hq0 Hf Hc) in E2, Hr2 by lia.
  rewrite (refines_next_ts _ _ Hr). rewrite !u64_small in Hr2 by lia. eauto.
Qed.

Lemma place_cancel_roundtrip_witness :
  exists b1 b2, place_limit demo_book Sell 100 3 [] = Some (b1, 6, []) /\
    cancel b1 6 = Some (true, b2) /\
    refines b2 (mkABook (ab_bids demo_abook) (ab_asks demo_abook) (6 + 1) (6 + 1) 3).
Proof.
  apply (place_cancel_roundtrip demo_book demo_abook Sell 100 3).
  - apply demo_refines.
  - vm_compute. reflexivity.
  - unfold i64_range. vm_compute. split; discriminate.
  - lia.
  - vm_compute. reflexivity.
  - vm_compute. reflexivity.
Defined.

(** Accounting of the node pool: [size()] is the number of resting
    orders, it is what the pool has in use, and it never exceeds the capacity. *)
Theorem book_occupancy b a :
  refines b a ->
  book_size b = length (ab_orders a) /\ in_use (pool_ b) = Z.of_nat (book_size b) /\
  free (pool_ b) = Z.of_nat (ab_free a) /\ (book_size b <= capacity (pool_ b))%nat.
Proof.
  intros Hr. pose proof (refines_in_use _ _ Hr) as [Hu Hc]. pose proof (refines_size _ _ Hr) as Hs.
  pose proof (refines_capacity _ _ Hr) as Hcap.
  rewrite Hs. split_and!; [done|done| |lia].
  unfold free. unfold in_use, capacity in *. rewrite u64_small by lia. lia.
Qed.

Lemma book_occupancy_witness :
  book_size demo_book = length (ab_orders demo_abook) /\
  in_use (pool_ demo_book) = Z.of_nat (book_size demo_book) /\
  free (pool_ demo_book) = Z.of_nat (ab_free demo_abook) /\
  (book_size demo_book <= capacity (pool_ demo_book))%nat.
Proof. exact (book_occupancy demo_book demo_abook demo_refines). Defined.

(** (C26) Destruction returns every node: whatever the iteration order of the
    index, the destructor releases without a double free and leaves a pool with
    nothing in use and a free list of full length. *)
Theorem destructor_returns_all b iter :
  book_wf b -> iter ≡ₚ map_to_list (index_ b) ->
  exists p, OrderBook_delete b iter = Some p /\ in_use p = 0 /\
    exists fl, pool_wf p fl /\ length fl = capacity (pool_ b).
Proof. intros [a Hr] Hit. by eapply OrderBook_delete_spec. Qed.

Lemma destructor_returns_all_witness :
  exists p, OrderBook_delete demo_book (reverse (map_to_list (index_ demo_book))) = Some p /\
    in_use p = 0 /\ exists fl, pool_wf p fl /\ length fl = 8%nat.
Proof.
  apply (destructor_returns_all demo_book).
  - exists demo_abook. apply demo_refines.
  - apply reverse_Permutation.
Defined.
