(* ===== verification/Flow.v ===== *)
(** * Books whose totals fit the queries

    [qty_at] adds quantities in [int64_t] and the clients add two prices: both
    are defined while prices and the depth of each side stay within bounds.
    [flow_ok B] bounds them, and placements and cancels move the bound by the
    quantity they bring. *)

From S2P Require Import Prelude Pool OrderedMap Level OrderBook BookSpec BookRefine BookQuery BookRun.

(** Prices leave room for [bid + ask]; the quantity of a side is at most [B]. *)
Definition price_ok (px : Price) : Prop := - 2 ^ 62 < px < 2 ^ 62.

#[global] Instance price_ok_dec px : Decision (price_ok px).
Proof. unfold price_ok. apply _. Defined.

Record flow_ok (B : Z) (a : ABook) : Prop := {
  fo_price s : Forall (fun o => price_ok (o_price o)) (ab_side a s);
  fo_depth s : depth (ab_side a s) <= B
}.

Lemma depth_nonneg os : positive os -> 0 <= depth os.
Proof. intros Hp. apply sumZ_nonneg, Forall_fmap. eapply Forall_impl; [done|]. simpl. lia. Qed.

Lemma depth_sublist os os' : os' `sublist_of` os -> positive os -> depth os' <= depth os.
Proof.
  intros Hs. induction Hs as [|o os' os Hs IH|o os' os Hs IH]; intros Hp; [done|..];
    apply Forall_cons in Hp as [??]; rewrite ?depth_cons; specialize (IH ltac:(done)); lia.
Qed.

Lemma depth_ainsert c o os : depth (ainsert c o os) = o_qty o + depth os.
Proof. unfold depth. by rewrite ainsert_Permutation. Qed.

Lemma side_of_case s s' : s' = s \/ s' = opposite s.
Proof. destruct s, s'; auto. Qed.

Lemma aplace_flow B a side price qty :
  abook_wf a -> flow_ok B a -> price_ok price ->
  flow_ok (B + Z.max qty 0) (aplace a side price qty).1.1.
Proof.
  intros Hwf [Hp Hd] Hpr. destruct (aplace_shape a side price qty) as (q & r & Hm & _ & Hopp & Hown).
  pose proof (awf_positive _ (opposite side) Hwf) as Hpos.
  destruct (amatch_conserve _ _ _ _ _ _ _ _ Hpos Hm) as (Hq & Hdr & _).
  pose proof (traded_nonneg _ (amatch_trades_positive _ _ _ _ _ _ _ _ Hpos Hm)).
  constructor; intros s; destruct (side_of_case side s) as [->| ->].
  - rewrite Hown. destruct (_ && _); [|done]. rewrite ainsert_Permutation. by constructor.
  - rewrite Hopp. by eapply (amatch_Forall _ _ _ _ _ _ _ _ (fun o => price_ok (o_price o))).
  - pose proof (Hd side). rewrite Hown. destruct (_ && _); rewrite ?depth_ainsert; simpl; lia.
  - pose proof (Hd (opposite side)). rewrite Hopp. lia.
Qed.

Lemma acancel_flow B a id : abook_wf a -> flow_ok B a -> flow_ok B (acancel a id).2.
Proof.
  intros Hwf [Hp Hd]. unfold acancel. case_decide; [|done]. constructor; intros s.
  - destruct s; simpl; apply Forall_sublist_filter; [apply (Hp Buy)|apply (Hp Sell)].
  - pose proof (Hd s). pose proof (depth_sublist (ab_side a s) (filter (fun o => o_id o <> id) (ab_side a s))
      (sublist_filter _ _) (awf_positive _ s Hwf)). destruct s; simpl in *; lia.
Qed.

Lemma depth_at_price B a s px :
  abook_wf a -> flow_ok B a -> 0 <= depth (at_price px (ab_side a s)) <= B.
Proof.
  intros Hwf Hf. pose proof (fo_depth _ _ Hf s). unfold at_price. split.
  - apply depth_nonneg, Forall_sublist_filter, awf_positive, Hwf.
  - etrans; [|done]. apply depth_sublist; [apply sublist_filter|by apply awf_positive].
Qed.

Lemma demo_flow : flow_ok 100 demo_abook.
Proof.
  constructor; intros s.
  - apply (bool_decide_unpack _). destruct s; vm_compute; exact I.
  - destruct s; vm_compute; discriminate.
Qed.
