(* ===== verification/Engine.v ===== *)
(** * [hft::Engine] (src/mvp/src/engine.h) and the interface its clients use

    The engine owns the book and two trade vectors: [trades_scratch_], filled
    by a placement, and [last_trades_], the copy the clients read.  What the
    gateway, the strategies and the replayer rely on is the class
    [MatchingEngine]: operations of an engine type with their laws against the
    specification [ABook]; their theorems are proved for any instance, and
    [Engine] is one. *)

From S2P Require Import Prelude Pool OrderedMap Level OrderBook BookSpec BookMatch BookSide BookRefine BookQuery BookRun.

(** ** The interface *)

Class EngineOps (E : Type) := {
  e_place : E -> Side -> Price -> Quantity -> option (E * OrderId);
  e_cancel : E -> OrderId -> option (bool * E);
  e_last_trades : E -> list Trade;
  e_best_bid : E -> Price;
  e_best_ask : E -> Price;
  e_qty_at : E -> Side -> Price -> option Quantity
}.

Class MatchingEngine (E : Type) `{EngineOps E} := {
  e_abs : E -> ABook -> Prop;
  e_abs_wf e a : e_abs e a -> abook_wf a;
  e_place_law e a side price qty :
    e_abs e a -> ab_next_id a + 1 < UINT64_SIZE -> i64_range qty ->
    exists e', e_place e side price qty = Some (e', ab_next_id a) /\
      e_last_trades e' = (aplace a side price qty).2 /\
      e_abs e' (aplace a side price qty).1.1;
  e_cancel_law e a id :
    e_abs e a ->
    exists e', e_cancel e id = Some ((acancel a id).1, e') /\
      e_last_trades e' = e_last_trades e /\ e_abs e' (acancel a id).2;
  e_best_bid_law e a :
    e_abs e a -> e_best_bid e = match ab_bids a with [] => 0 | o :: _ => o_price o end;
  e_best_ask_law e a :
    e_abs e a -> e_best_ask e = match ab_asks a with [] => INT64_MAX | o :: _ => o_price o end;
  e_qty_at_law e a side px :
    e_abs e a -> e_qty_at e side px = i64 (depth (at_price px (ab_side a side)))
}.

(** ** The engine *)

Record Engine := mkEngine {
  book_ : OrderBook;
  trades_scratch_ : list Trade;
  last_trades_ : list Trade
}.

Definition Engine_with (b : OrderBook) : Engine := mkEngine b [] [].
Definition Engine_new : Engine := Engine_with (OrderBook_new kDefaultPoolCapacity).

(** [trades_scratch_.clear(); id = book_.place_limit(...); last_trades_ = trades_scratch_]. *)
Definition engine_place_limit (e : Engine) (side : Side) (price : Price) (qty : Quantity)
    : option (Engine * OrderId) :=
  '(b, id, ts) ← place_limit (book_ e) side price qty [];
  Some (mkEngine b ts ts, id).

Definition engine_cancel (e : Engine) (id : OrderId) : option (bool * Engine) :=
  '(ok, b) ← cancel (book_ e) id;
  Some (ok, mkEngine b (trades_scratch_ e) (last_trades_ e)).

Definition engine_match (e : Engine) : nat := length (last_trades_ e).

(** ** The engine implements the interface *)

#[global] Instance Engine_ops : EngineOps Engine := {
  e_place := engine_place_limit;
  e_cancel := engine_cancel;
  e_last_trades := last_trades_;
  e_best_bid e := best_bid (book_ e);
  e_best_ask e := best_ask (book_ e);
  e_qty_at e := qty_at (book_ e)
}.

Lemma engine_place_refines e a side price qty :
  refines (book_ e) a -> ab_next_id a + 1 < UINT64_SIZE -> i64_range qty ->
  exists e', engine_place_limit e side price qty = Some (e', ab_next_id a) /\
    last_trades_ e' = (aplace a side price qty).2 /\
    refines (book_ e') (aplace a side price qty).1.1.
Proof.
  intros Hr Hn [_ Hq]. rewrite <-(refines_next_id _ _ Hr) in Hn.
  destruct (place_limit_refines (book_ e) a side price qty [] Hr Hn Hq) as (b' & E & Hr').
  destruct (aplace_shape a side price qty) as (q & r & _ & Hid & _).
  unfold engine_place_limit. rewrite E, Hid. by eexists (mkEngine b' _ _).
Qed.

Lemma engine_cancel_refines e a id :
  refines (book_ e) a ->
  exists e', engine_cancel e id = Some ((acancel a id).1, e') /\
    last_trades_ e' = last_trades_ e /\ refines (book_ e') (acancel a id).2.
Proof.
  intros Hr. destruct (cancel_refines (book_ e) a id Hr) as (b' & E & Hr').
  unfold engine_cancel. rewrite E. by eexists (mkEngine b' _ _).
Qed.

#[global] Instance Engine_matching : MatchingEngine Engine := {
  e_abs e a := refines (book_ e) a;
  e_abs_wf e := refines_wf (book_ e);
  e_place_law := engine_place_refines;
  e_cancel_law := engine_cancel_refines;
  e_best_bid_law e a := refines_best_bid (book_ e) a;
  e_best_ask_law e a := refines_best_ask (book_ e) a;
  e_qty_at_law e a := qty_at_refines (book_ e) a
}.

(** The engine reports one placement at a time: whatever the previous
    contents of its vectors, after a placement [last_trades()] holds exactly
    the trades of that placement, [match()] counts them, and a cancel in
    between does not change them. *)
Theorem engine_reports_last_placement e a side price qty id :
  refines (book_ e) a -> ab_next_id a + 1 < UINT64_SIZE -> i64_range qty ->
  exists e1 ok e2, engine_place_limit e side price qty = Some (e1, ab_next_id a) /\
    engine_cancel e1 id = Some (ok, e2) /\
    last_trades_ e2 = (aplace a side price qty).2 /\
    engine_match e2 = length (aplace a side price qty).2 /\
    refines (book_ e2) (acancel (aplace a side price qty).1.1 id).2.
Proof.
  intros Hr Hn Hq. destruct (engine_place_refines e a side price qty Hr Hn Hq) as (e1 & E1 & Ht & Hr1).
  destruct (engine_cancel_refines e1 _ id Hr1) as (e2 & E2 & Ht2 & Hr2).
  eexists e1, _, e2. unfold engine_match. rewrite Ht2, Ht. eauto.
Qed.

Definition demo_engine : Engine := Engine_with demo_book.

Lemma engine_reports_last_placement_witness :
  exists e1 ok e2, engine_place_limit demo_engine Buy 101 5 = Some (e1, 6) /\
    engine_cancel e1 4 = Some (ok, e2) /\
    last_trades_ e2 = [mkTrade 6 1 101 4; mkTrade 6 4 101 1] /\ engine_match e2 = 2%nat /\
    refines (book_ e2) (acancel (aplace demo_abook Buy 101 5).1.1 4).2.
Proof.
  apply (engine_reports_last_placement demo_engine demo_abook Buy 101 5 4).
  - apply demo_refines.
  - vm_compute. reflexivity.
  - unfold i64_range. vm_compute. split; discriminate.
Defined.
