(* ===== verification/SpscRing.v ===== *)
(** * [hft::SpscRing<T, Capacity>] (src/mvp/src/spsc_ring.h), one call at a time

    The ring with its two [size_t] indices, which count pushes and pops and
    wrap at 2^64, and the array of [kCap] slots addressed through [kMask].
    Here each call runs alone: the ring refines a bounded queue, also across
    the wrap-around of the indices.  [SpscConc] interleaves the calls. *)

From S2P Require Import Prelude.

(** std::bit_ceil, defined for arguments whose result fits [size_t]. *)
Definition bit_ceil (n : Z) : Z := 2 ^ Z.log2_up n.

Definition round_up_pow2 (n : Z) : Z := if n <? 2 then 2 else bit_ceil n.

Section Ring.
Context {T : Type} (Capacity : Z).

Definition kCap : Z := round_up_pow2 Capacity.
Definition kMask : Z := kCap - 1.

(** A slot that was never written holds no value. *)
Record SpscRing := mkRing {
  head_ : Z;
  tail_ : Z;
  buf_ : list (option T)
}.

Definition SpscRing_new : SpscRing :=
  {| head_ := 0; tail_ := 0; buf_ := replicate (Z.to_nat kCap) None |}.

(** The subscript of an index. *)
Definition slot (i : Z) : nat := Z.to_nat (Z.land i kMask).

Definition try_push (v : T) (r : SpscRing) : bool * SpscRing :=
  let h := head_ r in
  let next := u64 (h + 1) in
  if kCap <? u64 (next - tail_ r) then (false, r)
  else (true, {| head_ := next; tail_ := tail_ r; buf_ := <[slot h := Some v]> (buf_ r) |}).

(** The popped element, [None] when the call returns false; the outer option
    is a read of a slot that holds no value. *)
Definition try_pop (r : SpscRing) : option (option T * SpscRing) :=
  let t := tail_ r in
  if t =? head_ r then Some (None, r)
  else
    out ← mjoin (buf_ r !! slot t);
    Some (Some out, {| head_ := head_ r; tail_ := u64 (t + 1); buf_ := buf_ r |}).

Definition size_approx (r : SpscRing) : Z := u64 (head_ r - tail_ r).

Definition ring_capacity : Z := kCap.

(** ** Index arithmetic *)

Hypothesis Hcapacity : Capacity <= 2 ^ 63.

Definition cap : nat := Z.to_nat kCap.

Lemma kCap_pow2 : exists e, 0 < e <= 63 /\ kCap = 2 ^ e.
Proof.
  unfold kCap, round_up_pow2. destruct (Z.ltb_spec Capacity 2); [by exists 1|].
  exists (Z.log2_up Capacity). split; [|done]. split.
  - apply Z.log2_up_pos. lia.
  - rewrite <-(Z.log2_up_pow2 63) by lia. apply Z.log2_up_le_mono. lia.
Qed.

Lemma kCap_bounds : 2 <= kCap <= 2 ^ 63.
Proof.
  destruct kCap_pow2 as (e & He & ->). split.
  - change 2 with (2 ^ 1) at 1. apply Z.pow_le_mono_r; lia.
  - apply Z.pow_le_mono_r; lia.
Qed.

Lemma cap_kCap : Z.of_nat cap = kCap.
Proof. unfold cap. pose proof kCap_bounds. lia. Qed.

Lemma cap_pos : (2 <= cap)%nat.
Proof. pose proof kCap_bounds. pose proof cap_kCap. lia. Qed.

(** The capacity divides 2^64, so wrapped indices address the same slots. *)
Lemma slot_spec k : slot (u64 (Z.of_nat k)) = (k mod cap)%nat.
Proof.
  unfold slot, kMask, u64. destruct kCap_pow2 as (e & He & E).
  assert (kCap - 1 = Z.ones e) as -> by (rewrite Z.ones_equiv; lia).
  rewrite Z.land_ones by lia. rewrite Z.mod_mod_divide.
  - rewrite <-E, <-cap_kCap, <-Nat2Z.inj_mod. lia.
  - exists (2 ^ (64 - e)). rewrite <-Z.pow_add_r by lia.
    replace (64 - e + e) with 64 by lia. reflexivity.
Qed.

Lemma u64_sub a b : u64 (u64 a - u64 b) = u64 (a - b).
Proof. unfold u64. by rewrite <-Zminus_mod. Qed.

(** Two indices at most a capacity apart are equal as [size_t] values only
    when they are equal. *)
Lemma u64_count_eq (t h : nat) :
  (t <= h)%nat -> (h <= t + cap)%nat ->
  (u64 (Z.of_nat t) =? u64 (Z.of_nat h)) = true <-> t = h.
Proof.
  intros Hle Hge. rewrite Z.eqb_eq. split; [|by intros ->]. intros E.
  assert (u64 (u64 (Z.of_nat h) - u64 (Z.of_nat t)) = 0) as E0 by (by rewrite E, Z.sub_diag).
  rewrite u64_sub, u64_small in E0; [lia|]. pose proof kCap_bounds. pose proof cap_kCap.
  change UINT64_SIZE with (2 * 2 ^ 63). lia.
Qed.

(** [next - tail] as the code computes it, for counts at most a capacity apart. *)
Lemma u64_count_sub (t h : nat) :
  (t <= h)%nat -> (h <= t + S cap)%nat ->
  u64 (u64 (Z.of_nat h) - u64 (Z.of_nat t)) = Z.of_nat (h - t).
Proof.
  intros Hle Hge. rewrite u64_sub, u64_small; [lia|].
  pose proof kCap_bounds. pose proof cap_kCap. change UINT64_SIZE with (2 * 2 ^ 63). lia.
Qed.

Lemma u64_of_succ k : u64 (u64 (Z.of_nat k) + 1) = u64 (Z.of_nat (S k)).
Proof. rewrite u64_succ. f_equal. lia. Qed.

(** Distinct counts less than a capacity apart use distinct slots. *)
Lemma slot_inj (i j : nat) :
  (i <= j < i + cap)%nat -> (i mod cap = j mod cap)%nat -> i = j.
Proof.
  intros Hij E. pose proof cap_pos.
  pose proof (Nat.div_mod_eq i cap). pose proof (Nat.div_mod_eq j cap).
  assert (j = i + cap * (j / cap - i / cap))%nat as Hj.
  { assert (i / cap <= j / cap)%nat by (apply Nat.Div0.div_le_mono; lia). nia. }
  destruct (j / cap - i / cap)%nat; nia.
Qed.

(** ** The ring as a bounded queue *)

(** [q] is the contents, [t] the number of pops so far. *)
Record ring_rep (r : SpscRing) (q : list T) (t : nat) : Prop := {
  rr_head : head_ r = u64 (Z.of_nat (t + length q));
  rr_tail : tail_ r = u64 (Z.of_nat t);
  rr_len : (length q <= cap)%nat;
  rr_buf : length (buf_ r) = cap;
  rr_slots i v : q !! i = Some v -> buf_ r !! ((t + i) mod cap)%nat = Some (Some v)
}.

Lemma mod_cap_lt k : (k mod cap < cap)%nat.
Proof. apply Nat.mod_upper_bound. pose proof cap_pos. lia. Qed.

Lemma ring_new_rep : ring_rep SpscRing_new [] 0.
Proof. constructor; try done; [simpl; lia|apply length_replicate]. Qed.

Lemma try_push_spec r q t v :
  ring_rep r q t ->
  if decide (length q < cap)%nat
  then exists r', try_push v r = (true, r') /\ ring_rep r' (q ++ [v]) t
  else try_push v r = (false, r).
Proof.
  intros [Hh Ht Hl Hb Hs]. unfold try_push.
  rewrite Hh, Ht, u64_of_succ, u64_count_sub, <-cap_kCap by lia.
  case_decide as Hfull.
  - rewrite (proj2 (Z.ltb_ge _ _)) by lia. eexists. split; [done|].
    constructor; simpl; rewrite ?length_insert, ?length_app; try done; simpl.
    + f_equal. lia.
    + lia.
    + intros i x Hi. rewrite slot_spec. pose proof (lookup_lt_Some _ _ _ Hi) as Hlt.
      rewrite length_app in Hlt. simpl in Hlt.
      destruct (decide (i = length q)) as [->|].
      * rewrite lookup_app_r, Nat.sub_diag in Hi by lia. simplify_eq/=.
        apply list_lookup_insert_eq. rewrite Hb. apply mod_cap_lt.
      * rewrite lookup_app_l in Hi by lia.
        rewrite list_lookup_insert_ne; [by apply Hs|].
        intros E. symmetry in E. apply slot_inj in E; lia.
  - by rewrite (proj2 (Z.ltb_lt _ _)) by lia.
Qed.

Lemma try_pop_spec r q t :
  ring_rep r q t ->
  match q with
  | [] => try_pop r = Some (None, r)
  | v :: q' => exists r', try_pop r = Some (Some v, r') /\ ring_rep r' q' (S t)
  end.
Proof.
  intros [Hh Ht Hl Hb Hs]. unfold try_pop. rewrite Hh, Ht. destruct q as [|v q].
  - simpl. by rewrite Nat.add_0_r, Z.eqb_refl.
  - simpl in *. destruct (u64 (Z.of_nat t) =? _) eqn:E.
    { apply u64_count_eq in E; lia. }
    rewrite slot_spec. pose proof (Hs 0%nat v eq_refl) as H0. rewrite Nat.add_0_r in H0.
    rewrite H0. simpl. eexists. split; [done|]. constructor; simpl; try done.
    + f_equal. lia.
    + apply u64_of_succ.
    + lia.
    + intros i x Hi. replace (S (t + i)) with (t + S i)%nat by lia. by apply Hs.
Qed.

Lemma size_approx_spec r q t : ring_rep r q t -> size_approx r = Z.of_nat (length q).
Proof.
  intros [Hh Ht Hl _ _]. unfold size_approx. rewrite Hh, Ht, u64_count_sub; lia.
Qed.

End Ring.
Arguments SpscRing : clear implicits.
