(* ===== verification/SpscConc.v ===== *)
(** * [SpscRing] under concurrency (src/mvp/src/spsc_ring.h)

    A producer thread in [try_push] and a consumer thread in [try_pop], one
    atomic action per step, interleaved arbitrarily, under release/acquire
    memory ordering:

    - each of [head_] and [tail_] is its modification order, a list of
      messages; a relaxed load of the own index sees the newest message (the
      thread is its only writer), an acquire load of the other index may see
      any message not older than the last one seen;
    - a release store attaches the clock of the storing thread to its
      message, an acquire load joins it, so the clocks are the
      happens-before relation between the two threads;
    - the slots of [buf_] are ordinary memory: each keeps the clock of its
      last write and of its last read, and an access that does not
      happen after the other thread's conflicting access is a data race.

    The clock of the producer counts its slot writes, the clock of the
    consumer its slot reads. *)

From S2P Require Import Prelude SpscRing.

#[local] Open Scope nat_scope.

Section Conc.
Context {T : Type} (Capacity : Z).

Record Cell := mkCell { c_val : option T; c_written : nat; c_read : nat }.

(** A message: the stored value and the released clock. *)
Abbreviation Msg := (Z * nat)%type.

Record Shared := mkShared {
  head_msgs : list Msg;
  tail_msgs : list Msg;
  cells : list Cell
}.

(** Where the producer is in [try_push(v)]. *)
Inductive PPc :=
| PIdle
| PLoadHead (v : T)                    (* h = head_.load(relaxed); next = h + 1 *)
| PLoadTail (v : T) (h next : Z)       (* if (next - tail_.load(acquire) > kCap) *)
| PWrite (v : T) (h next : Z)          (* buf_[h & kMask] = v *)
| PStore (v : T) (next : Z).           (* head_.store(next, release) *)

(** Where the consumer is in [try_pop(out)]. *)
Inductive CPc :=
| CIdle
| CLoadTail                            (* t = tail_.load(relaxed) *)
| CLoadHead (t : Z)                    (* if (t == head_.load(acquire)) *)
| CRead (t : Z)                        (* out = buf_[t & kMask] *)
| CStore (t : Z) (out : option T).     (* tail_.store(t + 1, release) *)

(** A thread: its program counter, the newest message of the other index it
    has seen, its own clock and the clock of the other thread it has joined. *)
Record Thread (Pc : Type) := mkThread { pc : Pc; view : nat; clock : nat; known : nat }.
Arguments mkThread {_}.
Arguments pc {_}.
Arguments view {_}.
Arguments clock {_}.
Arguments known {_}.

Record State := mkState { mem : Shared; producer : Thread PPc; consumer : Thread CPc }.

Inductive Conf :=
| Running (s : State)
| DataRace.

(** Returns of the two calls. *)
Inductive Event :=
| PushRet (v : T) (ok : bool)
| PopRet (out : option (option T)).    (* the read value when the call returns true *)

Definition init : State :=
  {| mem := {| head_msgs := [(0%Z, 0)]; tail_msgs := [(0%Z, 0)];
               cells := replicate (Z.to_nat (kCap Capacity)) (mkCell None 0 0) |};
     producer := mkThread PIdle 0 0 0; consumer := mkThread CIdle 0 0 0 |}.

(** The newest message of an index, read by its own writer. *)
Definition newest (ms : list Msg) : option Z := fst <$> last ms.

(** An unsynchronised slot write by the producer, whose clock advances:
    [None] when the consumer's last read of the slot is not known to the
    producer, or out of bounds. *)
Definition slot_write (i : nat) (v : T) (p : Thread PPc) (cs : list Cell)
    : option (list Cell) :=
  c ← cs !! i;
  if (c_read c <=? known p)%nat
  then Some (<[i := mkCell (Some v) (S (clock p)) (c_read c)]> cs)
  else None.

(** An unsynchronised slot read by the consumer. *)
Definition slot_read (i : nat) (t : Thread CPc) (cs : list Cell)
    : option (option T * list Cell) :=
  c ← cs !! i;
  if (c_written c <=? known t)%nat
  then Some (c_val c, <[i := mkCell (c_val c) (c_written c) (S (clock t))]> cs)
  else None.

Inductive ring_step : Conf -> list Event -> Conf -> Prop :=
| push_call m c v vw ck kn :
    ring_step (Running (mkState m (mkThread PIdle vw ck kn) c)) []
              (Running (mkState m (mkThread (PLoadHead v) vw ck kn) c))
| push_load_head m c v vw ck kn h :
    newest (head_msgs m) = Some h ->
    ring_step (Running (mkState m (mkThread (PLoadHead v) vw ck kn) c)) []
              (Running (mkState m (mkThread (PLoadTail v h (u64 (h + 1)%Z)) vw ck kn) c))
| push_full m c v h next vw ck kn k t rel :
    (vw <= k)%nat -> tail_msgs m !! k = Some (t, rel) ->
    (kCap Capacity < u64 (next - t))%Z ->
    ring_step (Running (mkState m (mkThread (PLoadTail v h next) vw ck kn) c)) [PushRet v false]
              (Running (mkState m (mkThread PIdle k ck (Nat.max kn rel)) c))
| push_room m c v h next vw ck kn k t rel :
    (vw <= k)%nat -> tail_msgs m !! k = Some (t, rel) ->
    (u64 (next - t) <= kCap Capacity)%Z ->
    ring_step (Running (mkState m (mkThread (PLoadTail v h next) vw ck kn) c)) []
              (Running (mkState m (mkThread (PWrite v h next) k ck (Nat.max kn rel)) c))
| push_write hm tm cs cs' c v h next vw ck kn :
    slot_write (slot Capacity h) v (mkThread (PWrite v h next) vw ck kn) cs = Some cs' ->
    ring_step (Running (mkState (mkShared hm tm cs) (mkThread (PWrite v h next) vw ck kn) c)) []
              (Running (mkState (mkShared hm tm cs') (mkThread (PStore v next) vw (S ck) kn) c))
| push_race hm tm cs c v h next vw ck kn :
    slot_write (slot Capacity h) v (mkThread (PWrite v h next) vw ck kn) cs = None ->
    ring_step (Running (mkState (mkShared hm tm cs) (mkThread (PWrite v h next) vw ck kn) c)) []
              DataRace
| push_store hm tm cs c v next vw ck kn :
    ring_step (Running (mkState (mkShared hm tm cs) (mkThread (PStore v next) vw ck kn) c))
              [PushRet v true]
              (Running (mkState (mkShared (hm ++ [(next, ck)]) tm cs) (mkThread PIdle vw ck kn) c))
| pop_call m p vw ck kn :
    ring_step (Running (mkState m p (mkThread CIdle vw ck kn))) []
              (Running (mkState m p (mkThread CLoadTail vw ck kn)))
| pop_load_tail m p vw ck kn t :
    newest (tail_msgs m) = Some t ->
    ring_step (Running (mkState m p (mkThread CLoadTail vw ck kn))) []
              (Running (mkState m p (mkThread (CLoadHead t) vw ck kn)))
| pop_empty m p t vw ck kn k rel :
    (vw <= k)%nat -> head_msgs m !! k = Some (t, rel) ->
    ring_step (Running (mkState m p (mkThread (CLoadHead t) vw ck kn))) [PopRet None]
              (Running (mkState m p (mkThread CIdle k ck (Nat.max kn rel))))
| pop_some m p t h vw ck kn k rel :
    (vw <= k)%nat -> head_msgs m !! k = Some (h, rel) -> t <> h ->
    ring_step (Running (mkState m p (mkThread (CLoadHead t) vw ck kn))) []
              (Running (mkState m p (mkThread (CRead t) k ck (Nat.max kn rel))))
| pop_read hm tm cs cs' p t out vw ck kn :
    slot_read (slot Capacity t) (mkThread (CRead t) vw ck kn) cs = Some (out, cs') ->
    ring_step (Running (mkState (mkShared hm tm cs) p (mkThread (CRead t) vw ck kn))) []
              (Running (mkState (mkShared hm tm cs') p (mkThread (CStore t out) vw (S ck) kn)))
| pop_race hm tm cs p t vw ck kn :
    slot_read (slot Capacity t) (mkThread (CRead t) vw ck kn) cs = None ->
    ring_step (Running (mkState (mkShared hm tm cs) p (mkThread (CRead t) vw ck kn))) []
              DataRace
| pop_store hm tm cs p t out vw ck kn :
    ring_step (Running (mkState (mkShared hm tm cs) p (mkThread (CStore t out) vw ck kn)))
              [PopRet (Some out)]
              (Running (mkState (mkShared hm (tm ++ [(u64 (t + 1)%Z, ck)]) cs) p
                          (mkThread CIdle vw ck kn))).

(** Executions and their events. *)
Inductive ring_steps : Conf -> list Event -> Conf -> Prop :=
| steps_refl c : ring_steps c [] c
| steps_snoc c1 tr c2 ev c3 :
    ring_steps c1 tr c2 -> ring_step c2 ev c3 -> ring_steps c1 (tr ++ ev) c3.

Lemma steps_cons c1 ev c2 tr c3 :
  ring_step c1 ev c2 -> ring_steps c2 tr c3 -> ring_steps c1 (ev ++ tr) c3.
Proof.
  intros H1. induction 1 as [|c2 tr c3 ev3 c4 _ IH H4].
  - rewrite app_nil_r. apply (steps_snoc _ [] c1); [constructor|done].
  - rewrite app_assoc. eapply steps_snoc; [by apply IH|done].
Qed.

(** The values of the successful calls. *)
Definition pushed (tr : list Event) : list T :=
  omap (fun e => match e with PushRet v true => Some v | _ => None end) tr.
Definition popped (tr : list Event) : list (option T) :=
  omap (fun e => match e with PopRet (Some o) => Some o | _ => None end) tr.

(** ** The invariant *)

Hypothesis Hcapacity : (Capacity <= 2 ^ 63)%Z.

Abbreviation N := (cap Capacity).

(** The modification order of an index after [n] stores. *)
Definition msgs (n : nat) : list Msg :=
  (fun k => (u64 (Z.of_nat k), k)) <$> seq 0 (S n).

Definition prod_ok (H : nat) (cs : list Cell) (p : Thread PPc) : Prop :=
  match pc p with
  | PIdle | PLoadHead _ => clock p = H
  | PLoadTail v h next => clock p = H /\ h = u64 (Z.of_nat H) /\ next = u64 (Z.of_nat (S H))
  | PWrite v h next =>
      clock p = H /\ h = u64 (Z.of_nat H) /\ next = u64 (Z.of_nat (S H)) /\
      (S H <= view p + N)%nat
  | PStore v next =>
      clock p = S H /\ next = u64 (Z.of_nat (S H)) /\ (S H <= view p + N)%nat /\
      exists r, cs !! (H mod N)%nat = Some (mkCell (Some v) (S H) r)
  end.

Definition cons_ok (P : list T) (Tl : nat) (c : Thread CPc) : Prop :=
  match pc c with
  | CIdle | CLoadTail => clock c = Tl
  | CLoadHead t => clock c = Tl /\ t = u64 (Z.of_nat Tl)
  | CRead t => clock c = Tl /\ t = u64 (Z.of_nat Tl) /\ (Tl < view c)%nat
  | CStore t out =>
      clock c = S Tl /\ t = u64 (Z.of_nat Tl) /\ (Tl < view c)%nat /\
      exists v, out = Some v /\ P !! Tl = Some v
  end.

(** [P] are the values pushed, [Q] the values popped. *)
Record ring_inv (P Q : list T) (s : State) : Prop := {
  i_head : head_msgs (mem s) = msgs (length P);
  i_tail : tail_msgs (mem s) = msgs (length Q);
  i_prod : prod_ok (length P) (cells (mem s)) (producer s);
  i_cons : cons_ok P (length Q) (consumer s);
  i_pview : (view (producer s) <= length Q)%nat /\ known (producer s) = view (producer s);
  i_cview : (length Q <= view (consumer s) <= length P)%nat /\ known (consumer s) = view (consumer s);
  i_room : (length P <= view (producer s) + N)%nat;
  i_len : length (cells (mem s)) = N;
  i_cells k v : (length Q <= k)%nat -> P !! k = Some v ->
    exists r, cells (mem s) !! (k mod N)%nat = Some (mkCell (Some v) (S k) r);
  i_reads j c : cells (mem s) !! j = Some c ->
    c_read c = 0%nat \/
    exists k, c_read c = S k /\ (k mod N)%nat = j /\ (k < clock (consumer s))%nat;
  i_fifo : Q `prefix_of` P
}.

Lemma msgs_last n : newest (msgs n) = Some (u64 (Z.of_nat n)).
Proof.
  unfold newest, msgs. rewrite seq_S, fmap_app. simpl. by rewrite last_snoc.
Qed.

Lemma msgs_lookup n k t rel :
  msgs n !! k = Some (t, rel) -> (k <= n)%nat /\ t = u64 (Z.of_nat k) /\ rel = k.
Proof.
  unfold msgs. rewrite list_lookup_fmap. intros (j & [-> ?]%lookup_seq & E)%fmap_Some.
  simplify_eq/=. split_and!; [lia|done..].
Qed.

Lemma msgs_lookup_2 n k : k <= n -> msgs n !! k = Some (u64 (Z.of_nat k), k).
Proof. intros Hk. unfold msgs. by rewrite list_lookup_fmap, lookup_seq_lt by lia. Qed.

Lemma msgs_snoc n : msgs n ++ [(u64 (Z.of_nat (S n)), S n)] = msgs (S n).
Proof. unfold msgs. rewrite (seq_S (S n)), fmap_app. done. Qed.

Lemma cons_ok_clock P Tl c : cons_ok P Tl c -> (Tl <= clock c <= S Tl)%nat.
Proof. unfold cons_ok. destruct (pc c); lia. Qed.

(** The producer's slot has been read at most by pops it knows of. *)
Lemma prod_no_race P Q s v h next c :
  ring_inv P Q s -> pc (producer s) = PWrite v h next ->
  cells (mem s) !! (length P mod N)%nat = Some c -> (c_read c <= known (producer s))%nat.
Proof.
  intros Hi Hpc Hc. pose proof (i_prod _ _ _ Hi) as Hp. unfold prod_ok in Hp. rewrite Hpc in Hp.
  destruct Hp as (_ & _ & _ & Hroom). destruct (i_pview _ _ _ Hi) as [Hv ->].
  destruct (i_reads _ _ _ Hi _ _ Hc) as [->|(k & -> & Hk & Hlt)]; [lia|].
  destruct (i_cview _ _ _ Hi) as [Hcv _].
  assert (k < length P)%nat as HkP.
  { pose proof (i_cons _ _ _ Hi) as Hcons. unfold cons_ok in Hcons.
    destruct (pc (consumer s)); destruct_and?; lia. }
  destruct (decide (k + N <= length P)%nat); [lia|].
  exfalso. assert (k = length P); [|lia]. apply (slot_inj Capacity Hcapacity); [lia|done].
Qed.

Lemma pushed_app tr1 tr2 : pushed (tr1 ++ tr2) = pushed tr1 ++ pushed tr2.
Proof. apply omap_app. Qed.

Lemma popped_app tr1 tr2 : popped (tr1 ++ tr2) = popped tr1 ++ popped tr2.
Proof. apply omap_app. Qed.

Lemma ring_inv_init : ring_inv [] [] init.
Proof.
  constructor; simpl; try done; try lia.
  - by rewrite length_replicate.
  - intros j c [-> _]%lookup_replicate. by left.
Qed.

(** ** Preservation *)

(** The producer's steps before its store change neither log. *)
Lemma inv_prod_local P Q m p c p' :
  ring_inv P Q (mkState m p c) ->
  view p <= view p' -> view p' <= length Q -> known p' = view p' ->
  prod_ok (length P) (cells m) p' -> ring_inv P Q (mkState m p' c).
Proof.
  intros [] ????. constructor; simpl in *; try done; lia.
Qed.

Lemma inv_cons_local P Q m p c c' :
  ring_inv P Q (mkState m p c) ->
  view c <= view c' -> view c' <= length P -> known c' = view c' -> clock c' = clock c ->
  cons_ok P (length Q) c' -> ring_inv P Q (mkState m p c').
Proof.
  intros [] ??? Hck ?. constructor; simpl in *; try done; [lia|]. by rewrite Hck.
Qed.

Lemma inv_push_write P Q hm tm cs c v h next vw ck kn :
  ring_inv P Q (mkState (mkShared hm tm cs) (mkThread (PWrite v h next) vw ck kn) c) ->
  exists cs', slot_write (slot Capacity h) v (mkThread (PWrite v h next) vw ck kn) cs = Some cs' /\
    ring_inv P Q (mkState (mkShared hm tm cs') (mkThread (PStore v next) vw (S ck) kn) c).
Proof.
  intros Hi. pose proof (fun x => prod_no_race P Q _ v h next x Hi eq_refl) as Hnr.
  pose proof (i_prod _ _ _ Hi) as (Hck & -> & -> & Hroom). simpl in Hck, Hroom.
  pose proof (i_len _ _ _ Hi) as Hlen. simpl in Hlen.
  assert (length P mod N < length cs) as Hlt by (rewrite Hlen; by apply mod_cap_lt).
  apply lookup_lt_is_Some in Hlt as [x Hx].
  unfold slot_write. rewrite slot_spec, Hx by done. cbn [mbind option_bind].
  specialize (Hnr x Hx). simpl in Hnr.
  rewrite (proj2 (Nat.leb_le _ _)) by done. eexists. split; [done|]. simpl. subst ck.
  pose proof (i_pview _ _ _ Hi) as [Hpv _]. simpl in Hpv.
  destruct Hi as [? ? ? ? ? ? ? ? Hcells Hreads ?]. constructor; simpl in *; try done.
  - split_and!; try done. exists (c_read x). apply list_lookup_insert_eq. rewrite Hlen.
    by apply mod_cap_lt.
  - by rewrite length_insert.
  - intros k u Hk Hu. pose proof (lookup_lt_Some _ _ _ Hu).
    destruct (Hcells k u Hk Hu) as [r Hr]. exists r. rewrite list_lookup_insert_ne; [done|].
    intros E. symmetry in E. apply slot_inj in E; lia.
  - intros j y Hy. apply list_lookup_insert_Some in Hy as [(<- & <- & _)|(_ & Hy)]; [|by apply Hreads].
    simpl. by apply (Hreads _ x).
Qed.

Lemma inv_pop_read P Q hm tm cs p t vw ck kn :
  ring_inv P Q (mkState (mkShared hm tm cs) p (mkThread (CRead t) vw ck kn)) ->
  exists out cs', slot_read (slot Capacity t) (mkThread (CRead t) vw ck kn) cs = Some (out, cs') /\
    ring_inv P Q (mkState (mkShared hm tm cs') p (mkThread (CStore t out) vw (S ck) kn)).
Proof.
  intros Hi. pose proof (i_cons _ _ _ Hi) as (Hck & -> & Hlt). simpl in Hck, Hlt.
  pose proof (i_cview _ _ _ Hi) as [Hcv Hkn]. simpl in Hcv, Hkn. subst ck kn.
  assert (length Q < length P) as [v Hv]%lookup_lt_is_Some by lia.
  destruct (i_cells _ _ _ Hi (length Q) v (Nat.le_refl _) Hv) as [r Hr]. simpl in Hr.
  unfold slot_read. rewrite slot_spec, Hr by done. cbn [mbind option_bind c_written known].
  rewrite (proj2 (Nat.leb_le _ _)) by lia. eexists _, _. split; [done|]. simpl.
  destruct Hi as [? ? Hp ? ? ? ? Hlen Hcells Hreads ?]. simpl in *.
  assert (forall j y, cs !! j = Some y -> exists r', <[length Q mod N := mkCell (Some v) (S (length Q)) (S (length Q))]> cs !! j
            = Some (mkCell (c_val y) (c_written y) r')) as Hsame.
  { intros j y Hy. destruct (decide (j = length Q mod N)) as [->|].
    - exists (S (length Q)). rewrite list_lookup_insert_eq by (rewrite Hlen; by apply mod_cap_lt).
      by simplify_eq.
    - exists (c_read y). rewrite list_lookup_insert_ne by done. by destruct y. }
  constructor; simpl in *; try done.
  - unfold prod_ok in *. destruct (pc p); try done. destruct Hp as (? & ? & ? & r' & Hr').
    split_and!; try done. by apply (Hsame _ _ Hr').
  - split_and!; [done..|]. by exists v.
  - by rewrite length_insert.
  - intros k u Hk Hu. destruct (Hcells k u Hk Hu) as [r' Hr']. by apply (Hsame _ _ Hr').
  - intros j y Hy. apply list_lookup_insert_Some in Hy as [(<- & <- & _)|(_ & Hy)].
    + right. exists (length Q). simpl. split_and!; [done..|lia].
    + destruct (Hreads j y Hy) as [?|(k & ? & ? & ?)]; [by left|]. right. exists k.
      split_and!; [done..|lia].
Qed.

Lemma inv_push_store P Q hm tm cs c v next vw ck kn :
  ring_inv P Q (mkState (mkShared hm tm cs) (mkThread (PStore v next) vw ck kn) c) ->
  ring_inv (P ++ [v]) Q
    (mkState (mkShared (hm ++ [(next, ck)]) tm cs) (mkThread PIdle vw ck kn) c).
Proof.
  intros Hi. pose proof (i_prod _ _ _ Hi) as (Hck & -> & Hroom & r & Hr). simpl in *. subst ck.
  destruct Hi as [Hh ? ? Hc ? [? ?] ? ? Hcells ? ?]. simpl in *.
  constructor; simpl in *; rewrite ?length_app; simpl; rewrite ?(Nat.add_comm _ 1); simpl; try done.
  - rewrite Hh. apply msgs_snoc.
  - unfold cons_ok in *. destruct (pc c); try done. destruct Hc as (? & ? & ? & u & ? & Hu).
    split_and!; try done. exists u. split; [done|]. by apply lookup_app_l_Some.
  - split; [lia|done].
  - intros k u Hk Hu. destruct (decide (k = length P)) as [->|].
    + rewrite lookup_app_r, Nat.sub_diag in Hu by lia. simplify_eq/=. by exists r.
    + pose proof (lookup_lt_Some _ _ _ Hu) as Hlt. rewrite length_app in Hlt. simpl in Hlt.
      rewrite lookup_app_l in Hu by lia. by apply Hcells.
  - by apply prefix_app_r.
Qed.

Lemma inv_pop_store P Q hm tm cs p t out vw ck kn :
  ring_inv P Q (mkState (mkShared hm tm cs) p (mkThread (CStore t out) vw ck kn)) ->
  exists v, out = Some v /\ ring_inv P (Q ++ [v])
    (mkState (mkShared hm (tm ++ [(u64 (t + 1)%Z, ck)]) cs) p (mkThread CIdle vw ck kn)).
Proof.
  intros Hi. pose proof (i_cons _ _ _ Hi) as (Hck & -> & Hlt & v & -> & Hv). simpl in *. subst ck.
  exists v. split; [done|]. destruct Hi as [? Ht ? ? [? ?] [? ?] ? ? Hcells ? [R HR]]. simpl in *.
  constructor; simpl in *; rewrite ?length_app; simpl; rewrite ?(Nat.add_comm _ 1); simpl; try done.
  - rewrite Ht, u64_of_succ. apply msgs_snoc.
  - split; [lia|done].
  - split; [lia|done].
  - intros k u Hk Hu. apply Hcells; [lia|done].
  - subst P. rewrite lookup_app_r, Nat.sub_diag in Hv by lia. destruct R as [|w R]; simplify_eq/=.
    exists R. by rewrite <-app_assoc.
Qed.

Lemma ring_inv_step P Q s ev c :
  ring_inv P Q s -> ring_step (Running s) ev c ->
  exists s' Q', c = Running s' /\ popped ev = Some <$> Q' /\
    ring_inv (P ++ pushed ev) (Q ++ Q') s'.
Proof.
  intros Hi Hs. inversion Hs; subst; clear Hs.
  all: pose proof (i_pview _ _ _ Hi) as [Hpv Hpk]; pose proof (i_cview _ _ _ Hi) as [Hcv Hck].
  all: pose proof (i_prod _ _ _ Hi) as Hpo; pose proof (i_cons _ _ _ Hi) as Hco.
  all: pose proof (i_head _ _ _ Hi) as Hhm; pose proof (i_tail _ _ _ Hi) as Htm.
  all: pose proof (i_room _ _ _ Hi) as Hroom.
  all: unfold prod_ok, cons_ok in Hpo, Hco; simpl in *.
  all: try (match goal with H : tail_msgs _ !! _ = Some _ |- _ =>
              rewrite Htm in H; apply msgs_lookup in H as (? & -> & ->) end).
  all: try (match goal with H : head_msgs _ !! _ = Some _ |- _ =>
              rewrite Hhm in H; apply msgs_lookup in H as (? & ? & ->) end).
  - eexists _, []. split_and!; [done..|]. rewrite !app_nil_r.
    eapply inv_prod_local; [done|done..].
  - eexists _, []. split_and!; [done..|]. rewrite !app_nil_r.
    rewrite Hhm, msgs_last in *. simplify_eq.
    eapply inv_prod_local; [done|done..|]. unfold prod_ok. simpl. by rewrite u64_of_succ.
  - eexists _, []. split_and!; [done..|]. rewrite !app_nil_r.
    eapply inv_prod_local; [done|done|done|simpl; lia|]. unfold prod_ok. simpl. apply Hpo.
  - eexists _, []. split_and!; [done..|]. rewrite !app_nil_r.
    destruct Hpo as (? & -> & ->).
    eapply inv_prod_local; [done|done|done|simpl; lia|]. unfold prod_ok. simpl. split_and!; [done..|].
    match goal with H : (u64 _ <= kCap _)%Z |- _ => rename H into Hroom' end.
    rewrite (u64_count_sub Capacity Hcapacity), <-(cap_kCap Capacity Hcapacity) in Hroom' by lia. lia.
  - destruct (inv_push_write _ _ _ _ _ _ _ _ _ _ _ _ Hi) as (cs2 & E & Hi2). simplify_eq.
    eexists _, []. rewrite !app_nil_r. eauto.
  - destruct (inv_push_write _ _ _ _ _ _ _ _ _ _ _ _ Hi) as (cs2 & E & Hi2). congruence.
  - eexists _, []. split_and!; [done..|]. rewrite app_nil_r. by apply (inv_push_store _ _ _ _ _ _ v next).
  - eexists _, []. split_and!; [done..|]. rewrite !app_nil_r.
    eapply inv_cons_local; [done|simpl; lia..|done|done].
  - eexists _, []. split_and!; [done..|]. rewrite !app_nil_r.
    rewrite Htm, msgs_last in *. simplify_eq.
    eapply inv_cons_local; [done|simpl; lia..|done|done].
  - eexists _, []. split_and!; [done..|]. rewrite !app_nil_r.
    eapply inv_cons_local; [done|simpl; lia..|done|]. unfold cons_ok. simpl. apply Hco.
  - eexists _, []. split_and!; [done..|]. rewrite !app_nil_r. destruct Hco as (? & ->).
    eapply inv_cons_local; [done|simpl; lia..|done|]. unfold cons_ok. simpl. split_and!; [done..|].
    destruct (decide (k = length Q)); [|lia]. congruence.
  - destruct (inv_pop_read _ _ _ _ _ _ _ _ _ _ Hi) as (o2 & cs2 & E & Hi2). simplify_eq.
    eexists _, []. rewrite !app_nil_r. eauto.
  - destruct (inv_pop_read _ _ _ _ _ _ _ _ _ _ Hi) as (o2 & cs2 & E & Hi2). congruence.
  - destruct (inv_pop_store _ _ _ _ _ _ _ _ _ _ _ Hi) as (v & -> & Hi2).
    eexists _, [v]. split_and!; [done..|]. by rewrite app_nil_r.
Qed.

Lemma ring_reachable_inv tr c :
  ring_steps (Running init) tr c ->
  exists s Q, c = Running s /\ popped tr = Some <$> Q /\ ring_inv (pushed tr) Q s.
Proof.
  remember (Running init) as c0 eqn:E0. induction 1 as [|c1 tr c2 ev c3 Hst IH Hs]; subst.
  - exists init, []. split_and!; [done..|]. apply ring_inv_init.
  - destruct (IH eq_refl) as (s & Q & -> & Hq & Hi).
    destruct (ring_inv_step _ _ _ _ _ Hi Hs) as (s' & Q' & -> & Hq' & Hi').
    exists s', (Q ++ Q'). rewrite pushed_app, popped_app, Hq, Hq', fmap_app. done.
Qed.

End Conc.
