(* ===== verification/SpscProps.v ===== *)
(** * Properties of the single-producer single-consumer ring *)

From S2P Require Import Prelude SpscRing SpscConc.

(** ** Calls in sequence *)

Section Sequential.
Context {T : Type} (Capacity : Z).

Inductive RingOp := Push (v : T) | Pop.
Inductive RingOut := OPush (ok : bool) | OPop (out : option T).

Fixpoint ring_run (r : SpscRing T) (ops : list RingOp) : option (list RingOut * SpscRing T) :=
  match ops with
  | [] => Some ([], r)
  | Push v :: ops =>
      let '(ok, r) := try_push Capacity v r in
      '(outs, r) ← ring_run r ops; Some (OPush ok :: outs, r)
  | Pop :: ops =>
      '(out, r) ← try_pop Capacity r;
      '(outs, r) ← ring_run r ops; Some (OPop out :: outs, r)
  end.

(** The specification: a queue of at most [n] elements. *)
Fixpoint queue_run (n : nat) (q : list T) (ops : list RingOp) : list RingOut * list T :=
  match ops with
  | [] => ([], q)
  | Push v :: ops =>
      let ok := bool_decide (length q < n)%nat in
      let '(outs, q') := queue_run n (if ok then q ++ [v] else q) ops in
      (OPush ok :: outs, q')
  | Pop :: ops =>
      let '(outs, q') := queue_run n (tail q) ops in (OPop (head q) :: outs, q')
  end.

(** (C29) The ring is a bounded queue: from any state of the indices, also just
    before they wrap around, every sequence of calls returns, answers as a
    queue of [kCap] elements does, and [size_approx] is the queue's length. *)
Theorem ring_refines_queue r q t ops :
  Capacity <= 2 ^ 63 -> ring_rep Capacity r q t ->
  exists r' t', ring_run r ops = Some ((queue_run (cap Capacity) q ops).1, r') /\
    ring_rep Capacity r' (queue_run (cap Capacity) q ops).2 t' /\
    size_approx r' = Z.of_nat (length (queue_run (cap Capacity) q ops).2).
Proof.
  intros Hc. revert r q t. induction ops as [|[v|] ops IH]; intros r q t Hr.
  - exists r, t. split_and!; [done..|]. by eapply size_approx_spec.
  - cbn [ring_run queue_run]. pose proof (try_push_spec Capacity Hc r q t v Hr) as Hp.
    case_bool_decide as Hd; [rewrite decide_True in Hp by done|rewrite decide_False in Hp by done].
    + destruct Hp as (r1 & -> & Hr1). destruct (IH _ _ _ Hr1) as (r' & t' & E & ? & ?).
      exists r', t'. rewrite E. by destruct (queue_run _ (q ++ [v]) ops).
    + rewrite Hp. destruct (IH _ _ _ Hr) as (r' & t' & E & ? & ?).
      exists r', t'. rewrite E. by destruct (queue_run _ q ops).
  - cbn [ring_run queue_run]. pose proof (try_pop_spec Capacity Hc r q t Hr) as Hp.
    destruct q as [|v q]; simpl.
    + rewrite Hp. destruct (IH _ _ _ Hr) as (r' & t' & E & ? & ?).
      exists r', t'. simpl. rewrite E. by destruct (queue_run _ [] ops).
    + destruct Hp as (r1 & -> & Hr1). destruct (IH _ _ _ Hr1) as (r' & t' & E & ? & ?).
      exists r', t'. simpl. rewrite E. by destruct (queue_run _ q ops).
Qed.

End Sequential.

(** At the wrap-around: both indices are 2^64 - 1. *)
Lemma ring_refines_queue_witness :
  exists r' t', ring_run 2 (mkRing (2 ^ 64 - 1) (2 ^ 64 - 1) [None; None])
      [Push 7; Push 8; Push 9; Pop; Pop; Push 5; Pop; Pop] =
    Some ([OPush true; OPush true; OPush false; OPop (Some 7); OPop (Some 8);
           OPush true; OPop (Some 5); OPop None], r') /\
    ring_rep 2 r' [] t' /\ size_approx r' = 0.
Proof.
  apply (ring_refines_queue 2 (mkRing (2 ^ 64 - 1) (2 ^ 64 - 1) [None; None]) []
           (Z.to_nat (2 ^ 64 - 1)) [Push 7; Push 8; Push 9; Pop; Pop; Push 5; Pop; Pop]).
  - discriminate.
  - constructor.
    + cbn [length head_]. rewrite Nat.add_0_r, Z2Nat.id by discriminate. reflexivity.
    + cbn [length tail_]. rewrite Z2Nat.id by discriminate. reflexivity.
    + apply Nat.le_0_l.
    + reflexivity.
    + intros i v Hi. discriminate.
Defined.

(** ** Two threads *)

Section Threads.
Context {T : Type} (Capacity : Z).
Hypothesis Hcapacity : Capacity <= 2 ^ 63.

(** (C4) Race freedom: under every interleaving and every choice of visible
    index values, no slot access races with the other thread's. *)
Theorem spsc_no_data_race (tr : list (Event (T := T))) c :
  ring_steps Capacity (Running (init Capacity)) tr c -> c <> DataRace.
Proof.
  intros (s & Q & -> & _ & _)%(ring_reachable_inv Capacity Hcapacity). discriminate.
Qed.

(** (C5) First in, first out, nothing lost, duplicated or read before it was
    written: the values popped are, in order, a prefix of the values pushed,
    and at most [kCap] pushes are ahead of the pops. *)
Theorem spsc_fifo (tr : list (Event (T := T))) s :
  ring_steps Capacity (Running (init Capacity)) tr (Running s) ->
  exists Q, popped tr = Some <$> Q /\ Q `prefix_of` pushed tr /\
    (length (pushed tr) <= length Q + cap Capacity)%nat.
Proof.
  intros (s' & Q & [= <-] & Hq & Hi)%(ring_reachable_inv Capacity Hcapacity).
  exists Q. split_and!; [done|apply Hi|].
  destruct (i_pview _ _ _ _ Hi) as [? _]. pose proof (i_room _ _ _ _ Hi). lia.
Qed.

(** The verdicts are justified: a push is refused only when [kCap]
    elements are not known to be popped, a pop only when it has popped every
    push it can see; a thread that sees the newest index is refused only when
    the ring is really full, respectively empty. *)
Theorem spsc_verdicts (tr : list (Event (T := T))) s s' ev :
  ring_steps Capacity (Running (init Capacity)) tr (Running s) ->
  ring_step Capacity (Running s) ev (Running s') ->
  (forall v, ev = [PushRet v false] ->
     (view _ (producer s') <= length (popped tr))%nat /\
     length (pushed tr) = (view _ (producer s') + cap Capacity)%nat) /\
  (ev = [PopRet None] ->
     (view _ (consumer s') <= length (pushed tr))%nat /\
     length (popped tr) = view _ (consumer s')).
Proof.
  intros (s1 & Q & [= <-] & Hq & Hi)%(ring_reachable_inv Capacity Hcapacity) Hs.
  pose proof (i_prod _ _ _ _ Hi) as Hp. pose proof (i_cons _ _ _ _ Hi) as Hc.
  pose proof (i_tail _ _ _ _ Hi) as Ht. pose proof (i_head _ _ _ _ Hi) as Hh.
  pose proof (i_room _ _ _ _ Hi) as Hroom. destruct (i_cview _ _ _ _ Hi) as [Hcv _].
  destruct (i_pview _ _ _ _ Hi) as [Hpv _].
  rewrite Hq, length_fmap. pose proof (cap_kCap Capacity Hcapacity) as Hk.
  split; intros; subst ev; inversion Hs; subst; simpl in *.
  - destruct Hp as (_ & -> & ->). rewrite Ht in *.
    match goal with H : msgs _ !! _ = Some _ |- _ => apply msgs_lookup in H as (? & -> & ->) end.
    rewrite (u64_count_sub Capacity Hcapacity) in * by lia. lia.
  - destruct Hc as (_ & ->). rewrite Hh in *.
    match goal with H : msgs _ !! _ = Some _ |- _ => apply msgs_lookup in H as (? & E & ->) end.
    apply Z.eqb_eq in E. apply (u64_count_eq Capacity Hcapacity) in E; lia.
Qed.

(** The number of steps left of a call in progress. *)
Definition push_left (p : PPc (T := T)) : nat :=
  match p with
  | PIdle => 0 | PStore _ _ => 1 | PWrite _ _ _ => 2 | PLoadTail _ _ _ => 3 | PLoadHead _ => 4
  end.
Definition pop_left (p : CPc (T := T)) : nat :=
  match p with
  | CIdle => 0 | CStore _ _ => 1 | CRead _ => 2 | CLoadHead _ => 3 | CLoadTail => 4
  end.

(** What a step of the producer, or of the consumer, does to its own call: it
    begins one or brings the one in progress closer to its return. *)
Definition push_advances (p p' : PPc (T := T)) : Prop :=
  (p = PIdle /\ exists v, p' = PLoadHead v) \/ (push_left p' < push_left p)%nat.
Definition pop_advances (c c' : CPc (T := T)) : Prop :=
  (c = CIdle /\ c' = CLoadTail) \/ (pop_left c' < pop_left c)%nat.

Lemma ring_step_advances s ev (s' : State (T := T)) :
  ring_step Capacity (Running s) ev (Running s') ->
  (consumer s' = consumer s /\ push_advances (pc _ (producer s)) (pc _ (producer s'))) \/
  (producer s' = producer s /\ pop_advances (pc _ (consumer s)) (pc _ (consumer s'))).
Proof.
  unfold push_advances, pop_advances.
  intros Hs. inversion Hs; subst; simpl;
    first [left; split; [reflexivity|] | right; split; [reflexivity|]]; first [left; by eauto | right; simpl; lia].
Qed.

(** A call in progress can always take its next step. *)
Lemma ring_can_step (tr : list (Event (T := T))) s :
  ring_steps Capacity (Running (init Capacity)) tr (Running s) ->
  (pc _ (producer s) <> PIdle -> exists ev s', ring_step Capacity (Running s) ev (Running s') /\
     (push_left (pc _ (producer s')) < push_left (pc _ (producer s)))%nat) /\
  (pc _ (consumer s) <> CIdle -> exists ev s', ring_step Capacity (Running s) ev (Running s') /\
     (pop_left (pc _ (consumer s')) < pop_left (pc _ (consumer s)))%nat).
Proof.
  intros (s1 & Q & [= <-] & _ & Hi)%(ring_reachable_inv Capacity Hcapacity).
  pose proof (i_tail _ _ _ _ Hi) as Ht. pose proof (i_head _ _ _ _ Hi) as Hh.
  destruct (i_pview _ _ _ _ Hi) as [Hpv _]. destruct (i_cview _ _ _ _ Hi) as [Hcv _]. split.
  - destruct s as [[hm tm cs] [p vw ck kn] c]. simpl in *. intros Hne.
    destruct p as [|v|v h next|v h next|v next]; [done|..].
    + eexists _, _. split; [eapply push_load_head; simpl; by rewrite Hh, msgs_last|]. simpl. auto with lia.
    + assert (tm !! vw = Some (u64 (Z.of_nat vw), vw)) as Hvw by (by rewrite Ht, msgs_lookup_2).
      destruct (Z.le_gt_cases (u64 (next - u64 (Z.of_nat vw))) (kCap Capacity)).
      * eexists _, _. split; [eapply push_room; [reflexivity|exact Hvw|done]|]. simpl. auto with lia.
      * eexists _, _. split; [eapply push_full; [reflexivity|exact Hvw|done]|]. simpl. auto with lia.
    + destruct (inv_push_write Capacity Hcapacity _ _ _ _ _ _ _ _ _ _ _ _ Hi) as (cs' & E & _).
      eexists _, _. split; [by eapply push_write|]. simpl. auto with lia.
    + eexists _, _. split; [by eapply push_store|]. simpl. auto with lia.
  - destruct s as [[hm tm cs] p [c vw ck kn]]. simpl in *. intros Hne.
    destruct c as [| |t|t|t out]; [done|..].
    + eexists _, _. split; [eapply pop_load_tail; simpl; by rewrite Ht, msgs_last|]. simpl. auto with lia.
    + assert (hm !! vw = Some (u64 (Z.of_nat vw), vw)) as Hvw by (rewrite Hh, msgs_lookup_2; [done|lia]).
      destruct (decide (t = u64 (Z.of_nat vw))) as [->|].
      * eexists _, _. split; [by eapply pop_empty|]. simpl. auto with lia.
      * eexists _, _. split; [by eapply pop_some|]. simpl. auto with lia.
    + destruct (inv_pop_read Capacity Hcapacity _ _ _ _ _ _ _ _ _ _ Hi) as (o & cs' & E & _).
      eexists _, _. split; [by eapply pop_read|]. simpl. auto with lia.
    + eexists _, _. split; [by eapply pop_store|]. simpl. auto with lia.
Qed.

(** (C28) Wait freedom.  From every state the two threads reach, whatever values
    of the other index they see: every step, of either thread, begins a call of
    the thread that makes it or brings that thread's call closer to its return,
    at most four steps away, and leaves the other thread's call as it is; and a
    call in progress always has a next step.  So a push or a pop returns after
    at most four steps of its own thread, whatever the other thread does. *)
Theorem spsc_wait_free (tr : list (Event (T := T))) s :
  ring_steps Capacity (Running (init Capacity)) tr (Running s) ->
  (forall ev c, ring_step Capacity (Running s) ev c -> exists s', c = Running s' /\
     ((consumer s' = consumer s /\ push_advances (pc _ (producer s)) (pc _ (producer s'))) \/
      (producer s' = producer s /\ pop_advances (pc _ (consumer s)) (pc _ (consumer s'))))) /\
  (push_left (pc _ (producer s)) <= 4 /\ pop_left (pc _ (consumer s)) <= 4)%nat /\
  (pc _ (producer s) <> PIdle -> exists ev s', ring_step Capacity (Running s) ev (Running s') /\
     (push_left (pc _ (producer s')) < push_left (pc _ (producer s)))%nat) /\
  (pc _ (consumer s) <> CIdle -> exists ev s', ring_step Capacity (Running s) ev (Running s') /\
     (pop_left (pc _ (consumer s')) < pop_left (pc _ (consumer s)))%nat).
Proof.
  intros Hr. split; [|split; [|by apply (ring_can_step tr)]].
  - intros ev [s'|] Hs; [exists s'; split; [done|by eapply ring_step_advances]|].
    destruct (ring_reachable_inv Capacity Hcapacity (tr ++ ev) DataRace) as (? & ? & ? & _); [by eapply steps_snoc|done].
  - by destruct (pc _ (producer s)), (pc _ (consumer s)); simpl; lia.
Qed.

End Threads.

(** An execution: the consumer starts a pop and loads [tail_], the producer
    pushes 5, the consumer finishes, and the producer starts another push. *)
Lemma demo_exec :
  exists s, ring_steps 2 (Running (init 2))
      [PushRet 5 true; PopRet (Some (Some 5))] (Running s) /\
    pc _ (producer s) = PLoadHead 6 /\ pc _ (consumer s) = CIdle.
Proof.
  eexists. split; [|split].
  - eapply (steps_cons _ _ []); [apply pop_call|].
    eapply (steps_cons _ _ []); [apply pop_load_tail; reflexivity|].
    eapply (steps_cons _ _ []); [apply (push_call _ _ _ 5)|].
    eapply (steps_cons _ _ []); [apply push_load_head; reflexivity|].
    eapply (steps_cons _ _ []); [eapply (push_room _ _ _ _ _ _ _ _ _ 0); [reflexivity|reflexivity|discriminate]|].
    eapply (steps_cons _ _ []); [apply push_write; reflexivity|].
    eapply (steps_cons _ _ [_]); [apply push_store|].
    eapply (steps_cons _ _ []); [eapply (pop_some _ _ _ _ _ _ _ _ 1); [auto|reflexivity|discriminate]|].
    eapply (steps_cons _ _ []); [apply pop_read; reflexivity|].
    eapply (steps_cons _ _ [_]); [apply pop_store|].
    eapply (steps_cons _ _ []); [apply (push_call _ _ _ 6)|].
    apply steps_refl.
  - reflexivity.
  - reflexivity.
Qed.

Lemma demo_capacity : 2 <= 2 ^ 63.
Proof. discriminate. Qed.

Lemma spsc_no_data_race_witness :
  exists c, ring_steps 2 (Running (init 2)) [PushRet 5 true; PopRet (Some (Some 5))] c /\ c <> DataRace.
Proof.
  destruct demo_exec as (s & Hs & _). exists (Running s). split; [exact Hs|].
  exact (spsc_no_data_race 2 demo_capacity _ _ Hs).
Defined.

Lemma spsc_fifo_witness :
  exists Q, [Some 5] = Some <$> Q /\ Q `prefix_of` [5] /\ (1 <= length Q + 2)%nat.
Proof. destruct demo_exec as (s & Hs & _). exact (spsc_fifo 2 demo_capacity _ _ Hs). Defined.

Lemma spsc_verdicts_witness :
  exists (s s' : State (T := Z)), ring_steps 2 (Running (init 2)) [] (Running s) /\
  ring_step 2 (Running s) [PopRet None] (Running s') /\
  (forall v : Z, [PopRet None] = [PushRet v false] ->
     (view _ (producer s') <= 0)%nat /\ 0%nat = (view _ (producer s') + 2)%nat) /\
  ([PopRet None] = [PopRet (T := Z) None] ->
     (view _ (consumer s') <= 0)%nat /\ 0%nat = view _ (consumer s')).
Proof.
  set (s0 := init (T := Z) 2).
  set (s2 := mkState (mem s0) (producer s0) (mkThread _ (CLoadHead 0) 0 0 0)).
  exists s2, (mkState (mem s0) (producer s0) (mkThread _ CIdle 0 0 0)).
  assert (ring_steps 2 (Running s0) [] (Running s2)) as Hst.
  { eapply (steps_cons _ _ []); [apply pop_call|].
    eapply (steps_cons _ _ []); [apply pop_load_tail; reflexivity|]. apply steps_refl. }
  assert (ring_step 2 (Running s2) [PopRet None]
            (Running (mkState (mem s0) (producer s0) (mkThread _ CIdle 0 0 0)))) as Hpop.
  { exact (pop_empty 2 (mem s0) (producer s0) 0 0 0 0 0 0 (Nat.le_refl 0) eq_refl). }
  split; [exact Hst|]. split; [exact Hpop|].
  exact (spsc_verdicts 2 demo_capacity [] _ _ _ Hst Hpop).
Defined.

Lemma spsc_wait_free_witness :
  exists s, pc _ (producer s) = PLoadHead 6 /\
  (forall ev c, ring_step 2 (Running s) ev c -> exists s', c = Running s' /\
     ((consumer s' = consumer s /\ push_advances (pc _ (producer s)) (pc _ (producer s'))) \/
      (producer s' = producer s /\ pop_advances (pc _ (consumer s)) (pc _ (consumer s'))))) /\
  (push_left (pc _ (producer s)) <= 4 /\ pop_left (pc _ (consumer s)) <= 4)%nat /\
  (pc _ (producer s) <> PIdle -> exists ev s', ring_step 2 (Running s) ev (Running s') /\
     (push_left (pc _ (producer s')) < push_left (pc _ (producer s)))%nat) /\
  (pc _ (consumer s) <> CIdle -> exists ev s', ring_step 2 (Running s) ev (Running s') /\
     (pop_left (pc _ (consumer s')) < pop_left (pc _ (consumer s)))%nat).
Proof.
  destruct demo_exec as (s & Hs & Hp & _). exists s. split; [exact Hp|].
  exact (spsc_wait_free 2 demo_capacity _ _ Hs).
Defined.
