(* ===== verification/Portfolio.v ===== *)
(** * [hft::backtest::Portfolio] (src/mvp/src/backtest/portfolio.{h,cpp})

    Position, weighted-average cost and realized PnL of one strategy, in
    [int64_t] arithmetic ([None] is signed overflow) with C++'s truncating
    division. *)

From S2P Require Import Prelude Pool OrderedMap Level.

Record Portfolio := mkPortfolio {
  position_ : Quantity;
  avg_cost_ : Price;
  realized_pnl_ : Z;
  gross_volume_ : Z
}.

Definition Portfolio_new : Portfolio := mkPortfolio 0 0 0 0.

(** std::abs on int64_t. *)
Definition abs64 (z : Z) : option Z := i64 (Z.abs z).

Definition on_fill (p : Portfolio) (side : Side) (price : Price) (qty : Quantity)
    : option Portfolio :=
  signed_qty ← (match side with Buy => Some qty | Sell => i64 (- qty) end);
  gross ← i64 (gross_volume_ p + qty);
  let pos := position_ p in
  if pos =? 0 then Some (mkPortfolio signed_qty price (realized_pnl_ p) gross)
  else if ((0 <? pos) && (0 <? signed_qty)) || ((pos <? 0) && (signed_qty <? 0)) then
    new_pos ← i64 (pos + signed_qty);
    abs_old ← abs64 pos;
    abs_add ← abs64 signed_qty;
    old_value ← i64 (avg_cost_ p * abs_old);
    add_value ← i64 (price * abs_add);
    value ← i64 (old_value + add_value);
    total ← i64 (abs_old + abs_add);
    Some (mkPortfolio new_pos (Z.quot value total) (realized_pnl_ p) gross)
  else
    abs_pos ← abs64 pos;
    abs_fill ← abs64 signed_qty;
    let closed := Z.min abs_pos abs_fill in
    pnl_per_unit ← (if 0 <? pos then i64 (price - avg_cost_ p) else i64 (avg_cost_ p - price));
    pnl ← i64 (pnl_per_unit * closed);
    realized ← i64 (realized_pnl_ p + pnl);
    if abs_fill <? abs_pos then
      new_pos ← i64 (pos + signed_qty);
      Some (mkPortfolio new_pos (avg_cost_ p) realized gross)
    else if abs_fill =? abs_pos then Some (mkPortfolio 0 0 realized gross)
    else
      new_pos ← i64 (signed_qty + pos);
      Some (mkPortfolio new_pos price realized gross).

Definition unrealized_pnl (p : Portfolio) (mark : Price) : option Z :=
  if position_ p =? 0 then Some 0
  else if 0 <? position_ p then
    d ← i64 (mark - avg_cost_ p); i64 (d * position_ p)
  else
    d ← i64 (avg_cost_ p - mark); n ← i64 (- position_ p); i64 (d * n).

Definition total_pnl (p : Portfolio) (mark : Price) : option Z :=
  u ← unrealized_pnl p mark; i64 (realized_pnl_ p + u).

(** ** Histories of fills *)

Record Fill := mkFill { f_side : Side; f_price : Price; f_qty : Quantity }.

Fixpoint run_fills (p : Portfolio) (fs : list Fill) : option Portfolio :=
  match fs with
  | [] => Some p
  | f :: fs => p ← on_fill p (f_side f) (f_price f) (f_qty f); run_fills p fs
  end.

Definition signed (f : Fill) : Z :=
  match f_side f with Buy => f_qty f | Sell => - f_qty f end.

Definition net (fs : list Fill) : Z := sumZ (signed <$> fs).
Definition volume (fs : list Fill) : Z := sumZ (f_qty <$> fs).

(** Profit of the fills at a mark, without averaging: each unit bought at its
    price and valued at the mark. *)
Definition mark_value (mark : Price) (fs : list Fill) : Z :=
  sumZ ((fun f => signed f * (mark - f_price f)) <$> fs).

(** Same direction as the position. *)
Definition averaging (p : Portfolio) (f : Fill) : bool :=
  ((0 <? position_ p) && (0 <? signed f)) || ((position_ p <? 0) && (signed f <? 0)).

(** [on_fill] over unbounded integers. *)
Definition fill_spec (p : Portfolio) (f : Fill) : Portfolio :=
  let pos := position_ p in
  let sq := signed f in
  let gross := gross_volume_ p + f_qty f in
  if pos =? 0 then mkPortfolio sq (f_price f) (realized_pnl_ p) gross
  else if averaging p f then
    mkPortfolio (pos + sq)
      (Z.quot (avg_cost_ p * Z.abs pos + f_price f * Z.abs sq) (Z.abs pos + Z.abs sq))
      (realized_pnl_ p) gross
  else
    let closed := Z.min (Z.abs pos) (Z.abs sq) in
    let realized := realized_pnl_ p +
      (if 0 <? pos then f_price f - avg_cost_ p else avg_cost_ p - f_price f) * closed in
    if Z.abs sq <? Z.abs pos then mkPortfolio (pos + sq) (avg_cost_ p) realized gross
    else if Z.abs sq =? Z.abs pos then mkPortfolio 0 0 realized gross
    else mkPortfolio (sq + pos) (f_price f) realized gross.

(** Units whose cost is re-averaged by a fill, less one: the largest rounding
    error of the truncating division. *)
Definition slack1 (p : Portfolio) (f : Fill) : Z :=
  if averaging p f then Z.abs (position_ p + signed f) - 1 else 0.

Fixpoint slack (p : Portfolio) (fs : list Fill) : Z :=
  match fs with
  | [] => 0
  | f :: fs =>
      slack1 p f +
      match on_fill p (f_side f) (f_price f) (f_qty f) with
      | Some p => slack p fs
      | None => 0
      end
  end.

(** Profit the portfolio records at a mark, as an integer. *)
Definition recorded (p : Portfolio) (mark : Price) : Z :=
  realized_pnl_ p + (mark - avg_cost_ p) * position_ p.

Lemma unrealized_spec p mark u :
  unrealized_pnl p mark = Some u -> u = (mark - avg_cost_ p) * position_ p.
Proof.
  unfold unrealized_pnl. destruct (Z.eqb_spec (position_ p) 0) as [E|]; [rewrite E; intros; simplify_eq; lia|].
  destruct (0 <? position_ p); intros H; run_bind H;
    i64_invs; lia.
Qed.

Lemma total_pnl_spec p mark v : total_pnl p mark = Some v -> v = recorded p mark.
Proof.
  unfold total_pnl. intros H. run_bind H. apply i64_inv in H as [-> _].
  apply unrealized_spec in E as ->. done.
Qed.

(** The value of a truncating average. *)
Lemma quot_error a n : 0 < n -> Z.abs (a - Z.quot a n * n) <= n - 1.
Proof. intros Hn. pose proof (Z.quot_rem a n). pose proof (Z.rem_bound_abs a n). lia. Qed.

Lemma side_signed f sq :
  (match f_side f with Buy => Some (f_qty f) | Sell => i64 (- f_qty f) end) = Some sq ->
  sq = signed f.
Proof.
  unfold signed. destruct (f_side f); [congruence|]. by intros [-> _]%i64_inv.
Qed.

(** A call that does not overflow computes the specification. *)
Lemma on_fill_spec p f p' :
  on_fill p (f_side f) (f_price f) (f_qty f) = Some p' -> p' = fill_spec p f.
Proof.
  unfold on_fill, fill_spec, averaging, abs64. intros H. run_bind H.
  apply side_signed in E as ->. apply i64_inv in E0 as [-> _].
  destruct (position_ p =? 0); [by simplify_eq|]. destruct (_ || _); run_bind H.
  - i64_invs.
    by simplify_eq.
  - destruct (0 <? position_ p);
      i64_invs;
      (destruct (_ <? _); [|destruct (_ =? _)]); run_bind H;
      i64_invs;
      by simplify_eq.
Qed.

(** An opposite fill splits into what it closes and what it opens; neither
    loses profit. *)
Lemma closing_exact p f mark :
  position_ p <> 0 -> averaging p f = false ->
  position_ (fill_spec p f) = position_ p + signed f /\
  recorded (fill_spec p f) mark - recorded p mark - signed f * (mark - f_price f) = 0.
Proof.
  intros H0 Hd. unfold fill_spec, recorded. rewrite (proj2 (Z.eqb_neq _ _)), Hd by done.
  assert (Hopp : (0 < position_ p /\ signed f <= 0) \/ (position_ p < 0 /\ 0 <= signed f)).
  { apply orb_false_iff in Hd as [?%andb_false_iff ?%andb_false_iff]. lia. }
  clear Hd. generalize dependent (signed f). intros sq Hopp.
  destruct (Z.ltb_spec (Z.abs sq) (Z.abs (position_ p)));
    [|destruct (Z.eqb_spec (Z.abs sq) (Z.abs (position_ p)))]; simpl;
    (split; [lia|]); destruct (Z.ltb_spec 0 (position_ p)).
  - rewrite Z.min_r, (Z.abs_neq sq) by lia. lia.
  - rewrite Z.min_r, (Z.abs_eq sq) by lia. lia.
  - rewrite Z.min_l, (Z.abs_eq (position_ p)) by lia. assert (sq = - position_ p) as -> by lia. lia.
  - rewrite Z.min_l, (Z.abs_neq (position_ p)) by lia. assert (sq = - position_ p) as -> by lia. lia.
  - rewrite Z.min_l, (Z.abs_eq (position_ p)) by lia. lia.
  - rewrite Z.min_l, (Z.abs_neq (position_ p)) by lia. lia.
Qed.

(** A fill in the direction of the position loses at most the remainder of
    the average. *)
Lemma averaging_error p f mark :
  averaging p f = true ->
  position_ (fill_spec p f) = position_ p + signed f /\
  Z.abs (recorded (fill_spec p f) mark - recorded p mark - signed f * (mark - f_price f))
    <= Z.abs (position_ p + signed f) - 1.
Proof.
  intros Hd. assert (position_ p <> 0) as H0.
  { intros E. unfold averaging in Hd. by rewrite E in Hd. }
  unfold fill_spec, recorded. rewrite (proj2 (Z.eqb_neq _ _)), Hd by done. simpl. split; [done|].
  unfold averaging in Hd. generalize dependent (signed f). intros sq Hd.
  assert (Z.abs (position_ p) + Z.abs sq = Z.abs (position_ p + sq) /\
          0 < Z.abs (position_ p + sq)) as [-> Hn].
  { apply orb_true_iff in Hd as [Hd|Hd]; apply andb_true_iff in Hd as [??]; lia. }
  pose proof (quot_error (avg_cost_ p * Z.abs (position_ p) + f_price f * Z.abs sq) _ Hn) as Hq.
  revert Hq. generalize (Z.quot (avg_cost_ p * Z.abs (position_ p) + f_price f * Z.abs sq)
    (Z.abs (position_ p + sq))). intros q Hq.
  apply orb_true_iff in Hd as [Hd|Hd]; apply andb_true_iff in Hd as [?%Z.ltb_lt ?%Z.ltb_lt].
  - rewrite !(Z.abs_eq (position_ p)), (Z.abs_eq sq), !(Z.abs_eq (position_ p + sq)) in * by lia.
    replace (_ - _ - _) with (avg_cost_ p * position_ p + f_price f * sq - q * (position_ p + sq)) by ring.
    done.
  - rewrite !(Z.abs_neq (position_ p)), (Z.abs_neq sq), !(Z.abs_neq (position_ p + sq)) in * by lia.
    replace (_ - _ - _) with (- (avg_cost_ p * - position_ p + f_price f * - sq
      - q * - (position_ p + sq))) by ring. by rewrite Z.abs_opp.
Qed.

(** One fill: the position moves by the signed quantity, the recorded profit
    by the profit of the fill, up to the averaging error. *)
Lemma fill_spec_effect p f :
  position_ (fill_spec p f) = position_ p + signed f /\
  gross_volume_ (fill_spec p f) = gross_volume_ p + f_qty f /\
  forall mark, Z.abs (recorded (fill_spec p f) mark - recorded p mark - signed f * (mark - f_price f))
    <= slack1 p f.
Proof.
  assert (gross_volume_ (fill_spec p f) = gross_volume_ p + f_qty f) as Hg.
  { unfold fill_spec. by repeat case_match. }
  unfold slack1. destruct (averaging p f) eqn:Hd.
  - split_and!; [apply (averaging_error p f 0 Hd)|done|]. intros mark. by apply averaging_error.
  - destruct (decide (position_ p = 0)) as [H0|H0].
    + unfold fill_spec, recorded. rewrite H0. simpl. split_and!; [done..|]. intros mark. lia.
    + split_and!; [apply (closing_exact p f 0 H0 Hd)|done|]. intros mark.
      by rewrite (proj2 (closing_exact p f mark H0 Hd)).
Qed.
