(* ===== verification/PortfolioProps.v ===== *)
(** * Properties of the portfolio *)

From S2P Require Import Prelude Pool OrderedMap Level Portfolio.

Lemma run_fills_effect fs : forall p p',
  run_fills p fs = Some p' ->
  position_ p' = position_ p + net fs /\ gross_volume_ p' = gross_volume_ p + volume fs /\
  forall mark, Z.abs (recorded p' mark - recorded p mark - mark_value mark fs) <= slack p fs.
Proof.
  induction fs as [|f fs IH]; intros p p' H; simpl in H.
  - simplify_eq. unfold net, volume, mark_value. simpl. split_and!; [lia..|]. intros. lia.
  - destruct (on_fill _ _ _ _) as [p1|] eqn:E; cbn [mbind option_bind] in H; [|done].
    pose proof (on_fill_spec _ _ _ E) as E1.
    destruct (fill_spec_effect p f) as (Hp & Hg & Hr). rewrite <-E1 in Hp, Hg, Hr.
    destruct (IH _ _ H) as (Hp' & Hg' & Hr').
    unfold net, volume, mark_value in *. csimpl. rewrite E. split_and!; [lia..|].
    intros mark. specialize (Hr mark). specialize (Hr' mark). lia.
Qed.

(** (C19) Accounting: after any history of fills from flat, the position is the
    net signed quantity, the gross volume the sum of quantities, and the total
    PnL at any mark is the mark-to-market profit of the fills, up to the
    remainders of the averaging divisions ([slack], zero when no fill adds to a
    position). *)
Theorem portfolio_accounting fs p mark v :
  run_fills Portfolio_new fs = Some p -> total_pnl p mark = Some v ->
  position_ p = net fs /\ gross_volume_ p = volume fs /\
  Z.abs (v - mark_value mark fs) <= slack Portfolio_new fs.
Proof.
  intros H ->%total_pnl_spec. destruct (run_fills_effect fs _ _ H) as (Hp & Hg & Hr).
  split_and!; [done..|]. specialize (Hr mark). unfold recorded in Hr at 2. simpl in Hr. lia.
Qed.

Definition demo_fills : list Fill :=
  [mkFill Buy 100 3; mkFill Buy 101 4; mkFill Sell 103 5; mkFill Sell 99 6; mkFill Buy 98 4].

Lemma portfolio_accounting_witness :
  exists p, run_fills Portfolio_new demo_fills = Some p /\ total_pnl p 120 = Some 17 /\
    position_ p = net demo_fills /\ gross_volume_ p = volume demo_fills /\
    Z.abs (17 - mark_value 120 demo_fills) <= slack Portfolio_new demo_fills.
Proof.
  exists (mkPortfolio 0 0 17 22). split; [vm_compute; reflexivity|].
  split; [vm_compute; reflexivity|].
  apply (portfolio_accounting demo_fills (mkPortfolio 0 0 17 22) 120 17); vm_compute; reflexivity.
Defined.

(** ** Overflow *)

Lemma quot_bound a n P : 0 < n -> Z.abs a <= P * n -> Z.abs (Z.quot a n) <= P.
Proof.
  intros Hn Ha. rewrite <-Z.quot_abs by lia. rewrite (Z.abs_eq n) by lia.
  rewrite Z.quot_div_nonneg by lia. apply Z.div_le_upper_bound; lia.
Qed.

Lemma abs_mul_le a b A B : Z.abs a <= A -> Z.abs b <= B -> Z.abs (a * b) <= A * B.
Proof. intros. rewrite Z.abs_mul. apply Z.mul_le_mono_nonneg; lia. Qed.

Section Bounds.
Context (P G : Z) (HP : 1 <= P) (HG : 4 * P * G <= INT64_MAX).

(** Prices within [P], total volume within [G]. *)
Record bounded (p : Portfolio) : Prop := {
  b_avg : Z.abs (avg_cost_ p) <= P;
  b_pos : Z.abs (position_ p) <= gross_volume_ p;
  b_real : Z.abs (realized_pnl_ p) <= 2 * P * gross_volume_ p
}.

Definition fill_ok (f : Fill) : Prop := Z.abs (f_price f) <= P /\ 0 <= f_qty f.

Lemma fill_signed f : fill_ok f -> Z.abs (signed f) = f_qty f.
Proof. intros [_ H]. unfold signed. destruct (f_side f); lia. Qed.

Lemma fill_spec_bounded p f : bounded p -> fill_ok f -> bounded (fill_spec p f).
Proof.
  intros [Ha Hp Hr] Hf. pose proof (fill_signed f Hf) as Hs. destruct Hf as [Hpr Hq].
  destruct (fill_spec_effect p f) as (Ep & Eg & _).
  assert (Z.abs (position_ (fill_spec p f)) <= gross_volume_ (fill_spec p f)) as Hpos by lia.
  constructor; [|done|rewrite Eg]; clear Ep Eg Hpos; unfold fill_spec, averaging; cbv zeta.
  - destruct (position_ p =? 0) eqn:E0; [done|]. apply Z.eqb_neq in E0. destruct (_ || _); simpl.
    + apply quot_bound; [lia|]. pose proof (abs_mul_le _ _ _ _ Ha (Z.le_refl (Z.abs (Z.abs (position_ p))))).
      pose proof (abs_mul_le _ _ _ _ Hpr (Z.le_refl (Z.abs (Z.abs (signed f))))). lia.
    + destruct (_ <? _); [done|]. destruct (_ =? _); [simpl; lia|done].
  - assert (2 * P * gross_volume_ p <= 2 * P * (gross_volume_ p + f_qty f)) by nia.
    destruct (position_ p =? 0); [simpl; lia|]. destruct (_ || _); [simpl; lia|].
    set (u := if 0 <? position_ p then f_price f - avg_cost_ p else avg_cost_ p - f_price f).
    assert (Z.abs (u * Z.min (Z.abs (position_ p)) (Z.abs (signed f))) <= 2 * P * f_qty f).
    { apply abs_mul_le; [unfold u; destruct (0 <? position_ p); lia|lia]. }
    clearbody u. destruct (_ <? _); [|destruct (_ =? _)]; simpl; lia.
Qed.

Ltac i64_run := repeat (rewrite i64_Some by lia64; cbn [mbind option_bind]).

(** Nothing overflows. *)
Lemma on_fill_defined p f :
  bounded p -> fill_ok f -> gross_volume_ p + f_qty f <= G ->
  on_fill p (f_side f) (f_price f) (f_qty f) = Some (fill_spec p f).
Proof.
  intros [Ha Hp Hr] Hf Hle. pose proof (fill_signed f Hf) as Hs. destruct Hf as [Hpr Hq].
  pose proof (abs_mul_le _ _ _ _ Ha (Z.eq_le_incl _ _ (Z.abs_idemp (position_ p)))) as Hold.
  pose proof (abs_mul_le _ _ _ _ Hpr (Z.eq_le_incl _ _ (Z.abs_idemp (signed f)))) as Hadd.
  assert (P * Z.abs (position_ p) + P * Z.abs (signed f) <= P * G) by nia.
  assert (P * Z.abs (position_ p) <= P * gross_volume_ p) by nia.
  assert (P * gross_volume_ p + P * f_qty f <= P * G) by nia. assert (0 <= P * f_qty f) by nia. assert (G <= P * G) by nia.
  assert ((match f_side f with Buy => Some (f_qty f) | Sell => i64 (- f_qty f) end) = Some (signed f)) as Hsq.
  { unfold signed. destruct (f_side f); [done|]. apply i64_Some. lia64. }
  unfold on_fill, fill_spec, averaging, abs64. cbv zeta. rewrite Hsq. cbn [mbind option_bind].
  rewrite (i64_Some (gross_volume_ p + f_qty f)) by lia64. cbn [mbind option_bind].
  destruct (Z.eqb_spec (position_ p) 0) as [|E0]; [done|].
  assert (P <= P * G) as HPG by nia. pose proof (Z.abs_le (position_ p) (Z.abs (position_ p))) as [Hbp _].
  pose proof (Z.abs_le (signed f) (Z.abs (signed f))) as [Hbs _].
  specialize (Hbp (Z.le_refl _)). specialize (Hbs (Z.le_refl _)). clear Hsq.
  pose proof (Z.abs_nonneg (position_ p)). pose proof (Z.abs_nonneg (signed f)).
  rewrite Z.abs_le in Ha, Hpr, Hr, Hold, Hadd.
  set (u := if 0 <? position_ p then f_price f - avg_cost_ p else avg_cost_ p - f_price f).
  assert (Z.abs (u * Z.min (Z.abs (position_ p)) (Z.abs (signed f))) <= 2 * P * f_qty f) as Hu.
  { apply abs_mul_le; [unfold u; destruct (0 <? position_ p); lia|lia]. }
  rewrite Z.abs_le in Hu.
  assert ((if 0 <? position_ p then i64 (f_price f - avg_cost_ p) else i64 (avg_cost_ p - f_price f))
          = Some u) as ->.
  { unfold u. destruct (0 <? position_ p); apply i64_Some; lia64. }
  clearbody u. generalize dependent (Z.abs (position_ p)). intros ao. intros.
  generalize dependent (Z.abs (signed f)). intros aq. intros. destruct (_ || _); i64_run; [done|].
  destruct (_ <? _); [by i64_run|]. destruct (_ =? _); [done|by i64_run].
Qed.

Lemma total_pnl_defined p mark :
  bounded p -> gross_volume_ p <= G -> Z.abs mark <= P ->
  total_pnl p mark = Some (recorded p mark).
Proof.
  intros [Ha Hp Hr] HpG Hm. assert (P * gross_volume_ p <= P * G) by nia.
  assert (G <= P * G) by nia. assert (P <= P * G \/ G = 0) by nia.
  assert (Z.abs ((mark - avg_cost_ p) * position_ p) <= 2 * P * gross_volume_ p) as Hv
    by (apply abs_mul_le; lia).
  unfold total_pnl, unrealized_pnl, recorded.
  destruct (Z.eqb_spec (position_ p) 0) as [E0|E0].
  { cbn [mbind option_bind]. rewrite E0, Z.mul_0_r. apply i64_Some. lia64. }
  assert (P <= P * G) by lia.
  destruct (Z.ltb_spec 0 (position_ p)).
  - rewrite i64_Some by lia64. cbn [mbind option_bind]. rewrite i64_Some by lia64.
    cbn [mbind option_bind]. apply i64_Some. lia64.
  - rewrite !i64_Some by lia64. cbn [mbind option_bind].
    replace ((avg_cost_ p - mark) * - position_ p) with ((mark - avg_cost_ p) * position_ p) by ring.
    rewrite i64_Some by lia64. cbn [mbind option_bind]. apply i64_Some. lia64.
Qed.

Lemma run_fills_defined fs : forall p,
  bounded p -> Forall fill_ok fs -> gross_volume_ p + volume fs <= G ->
  exists p', run_fills p fs = Some p' /\ bounded p' /\ gross_volume_ p' <= G.
Proof.
  induction fs as [|f fs IH]; intros p Hb Hok Hv.
  - exists p. unfold volume in Hv. simpl in Hv. split_and!; [done..|lia].
  - apply Forall_cons in Hok as [Hf Hok].
    assert (0 <= volume fs) as Hnn.
    { apply sumZ_nonneg, Forall_fmap. eapply Forall_impl; [done|]. by intros ? []. }
    change (volume (f :: fs)) with (f_qty f + volume fs) in Hv.
    simpl. rewrite on_fill_defined by (done || lia). cbn [mbind option_bind].
    apply IH; [by apply fill_spec_bounded|done|].
    destruct (fill_spec_effect p f) as (_ & -> & _). lia.
Qed.

(** Overflow safety: with prices and marks within [P] and total volume
    within [G], 4*P*G representable, every history of fills and every mark is
    computed without signed overflow. *)
Theorem portfolio_no_overflow fs mark :
  Forall fill_ok fs -> volume fs <= G -> Z.abs mark <= P ->
  exists p v, run_fills Portfolio_new fs = Some p /\ total_pnl p mark = Some v.
Proof.
  intros Hok Hv Hm. destruct (run_fills_defined fs Portfolio_new) as (p & E & Hb & Hg); [|done|done|].
  - constructor; simpl; lia.
  - eexists p, _. split; [done|]. by apply total_pnl_defined.
Qed.

End Bounds.

Lemma portfolio_no_overflow_witness :
  exists p v, run_fills Portfolio_new demo_fills = Some p /\ total_pnl p 120 = Some v.
Proof.
  apply (portfolio_no_overflow 1000000 1000000).
  - discriminate.
  - discriminate.
  - unfold demo_fills, fill_ok. repeat constructor; discriminate.
  - discriminate.
  - discriminate.
Defined.

(** A long position marked down by less than its quantity: the truncating
    average loses a tick per unit. *)
Example averaging_truncates :
  (fun p => (avg_cost_ p, total_pnl p 101)) <$> run_fills Portfolio_new [mkFill Buy 100 1; mkFill Buy 101 2]
  = Some (100, Some 3) /\ mark_value 101 [mkFill Buy 100 1; mkFill Buy 101 2] = 1.
Proof. vm_compute. done. Qed.
