(* ===== verification/Strategy.v ===== *)
(** * The strategy framework (src/mvp/src/backtest/strategy.{h,cpp})

    Strategies are objects reached through pointers; several contexts share
    one engine and one routing table from order ids to strategies.  The shared
    objects form the [World]; a context holds its owner and the top of book.
    The engine is any type with the operations of [EngineOps].  [None] is a
    dangling strategy pointer or undefined behaviour of an operation called. *)

From S2P Require Import Prelude Pool OrderedMap Level OrderBook BookSpec Portfolio Engine.

Record BookTop := mkTop {
  bid_px : Price;
  bid_qty : Quantity;
  ask_px : Price;
  ask_qty : Quantity;
  mid : Price
}.

Definition BookTop_new : BookTop := mkTop 0 0 0 0 0.

(** A strategy object: the base class and the data [derived] of its class. *)
Record Strategy {D : Type} := mkStrategy {
  name_ : string;
  portfolio_ : Portfolio;
  orders_submitted : Z;
  orders_filled : Z;
  orders_canceled : Z;
  derived : D
}.
Arguments Strategy : clear implicits.

(** [Strategy*] *)
Abbreviation sptr := nat.

Record StrategyContext := mkContext { owner_ : sptr; top_ : BookTop }.

Definition set_top (t : BookTop) (c : StrategyContext) : StrategyContext := mkContext (owner_ c) t.

Section Framework.
Context {E D : Type} `{EngineOps E}.

(** What the contexts refer to. *)
Record World := mkWorld {
  w_engine : E;
  w_routing : gmap Z sptr;
  w_strats : gmap sptr (Strategy D)
}.

Definition Strategy_new (name : string) (d : D) : Strategy D :=
  mkStrategy D name Portfolio_new 0 0 0 d.

Definition set_portfolio (p : Portfolio) (s : Strategy D) : Strategy D :=
  mkStrategy D (name_ s) p (orders_submitted s) (orders_filled s) (orders_canceled s) (derived s).
Definition inc_submitted (s : Strategy D) : Strategy D :=
  mkStrategy D (name_ s) (portfolio_ s) (u64 (orders_submitted s + 1)) (orders_filled s)
    (orders_canceled s) (derived s).
Definition inc_filled (s : Strategy D) : Strategy D :=
  mkStrategy D (name_ s) (portfolio_ s) (orders_submitted s) (u64 (orders_filled s + 1))
    (orders_canceled s) (derived s).
Definition inc_canceled (s : Strategy D) : Strategy D :=
  mkStrategy D (name_ s) (portfolio_ s) (orders_submitted s) (orders_filled s)
    (u64 (orders_canceled s + 1)) (derived s).
Definition set_derived (d : D) (s : Strategy D) : Strategy D :=
  mkStrategy D (name_ s) (portfolio_ s) (orders_submitted s) (orders_filled s)
    (orders_canceled s) d.

(** Update the object behind a pointer. *)
Definition upd_strat (p : sptr) (f : Strategy D -> Strategy D) (ss : gmap sptr (Strategy D))
    : option (gmap sptr (Strategy D)) :=
  s ← ss !! p; Some (<[p := f s]> ss).

(** [p->on_fill(side, price, qty); p->orders_filled++] *)
Definition deliver_fill (p : sptr) (side : Side) (price : Price) (qty : Quantity)
    (ss : gmap sptr (Strategy D)) : option (gmap sptr (Strategy D)) :=
  s ← ss !! p;
  pf ← on_fill (portfolio_ s) side price qty;
  Some (<[p := inc_filled (set_portfolio pf s)]> ss).

(** The loop over the trades of a placement by [owner]. *)
Fixpoint route_fills (owner : sptr) (side : Side) (routing : gmap Z sptr) (trs : list Trade)
    (ss : gmap sptr (Strategy D)) : option (gmap sptr (Strategy D)) :=
  match trs with
  | [] => Some ss
  | tr :: trs =>
      ss ← deliver_fill owner side (tr_price tr) (tr_qty tr) ss;
      ss ← (match routing !! maker_id tr with
            | Some m => deliver_fill m (opposite side) (tr_price tr) (tr_qty tr) ss
            | None => Some ss
            end);
      route_fills owner side routing trs ss
  end.

(** StrategyContext::place_limit *)
Definition ctx_place_limit (c : StrategyContext) (side : Side) (price : Price) (qty : Quantity)
    (w : World) : option (World * OrderId) :=
  '(e, id) ← e_place (w_engine w) side price qty;
  let routing := <[id := owner_ c]> (w_routing w) in
  ss ← upd_strat (owner_ c) inc_submitted (w_strats w);
  ss ← route_fills (owner_ c) side routing (e_last_trades e) ss;
  Some (mkWorld e routing ss, id).

(** StrategyContext::cancel *)
Definition ctx_cancel (c : StrategyContext) (id : OrderId) (w : World) : option (bool * World) :=
  '(ok, e) ← e_cancel (w_engine w) id;
  if ok : bool then
    ss ← upd_strat (owner_ c) inc_canceled (w_strats w);
    Some (true, mkWorld e (delete id (w_routing w)) ss)
  else Some (false, mkWorld e (w_routing w) (w_strats w)).

(** ** Fills by strategy *)

(** The fills of strategy [p] in the trades of a placement by [owner]. *)
Definition fills_of (p owner : sptr) (side : Side) (routing : gmap Z sptr) (trs : list Trade)
    : list Fill :=
  tr ← trs;
  (if decide (p = owner) then [mkFill side (tr_price tr) (tr_qty tr)] else []) ++
  (if decide (routing !! maker_id tr = Some p)
   then [mkFill (opposite side) (tr_price tr) (tr_qty tr)] else []).

(** Every routed id belongs to an existing strategy. *)
Definition routing_ok (routing : gmap Z sptr) (ss : gmap sptr (Strategy D)) : Prop :=
  forall id p, routing !! id = Some p -> is_Some (ss !! p).

(** What a placement does to one strategy: its fills reach its portfolio, in
    order, each is counted, and nothing else changes. *)
Record strat_after (fs : list Fill) (s s' : Strategy D) : Prop := {
  sa_portfolio : run_fills (portfolio_ s) fs = Some (portfolio_ s');
  sa_filled : orders_filled s' = Nat.iter (length fs) (fun n => u64 (n + 1)) (orders_filled s);
  sa_submitted : orders_submitted s' = orders_submitted s;
  sa_canceled : orders_canceled s' = orders_canceled s;
  sa_name : name_ s' = name_ s;
  sa_derived : derived s' = derived s
}.

Lemma run_fills_app fs1 fs2 p :
  run_fills p (fs1 ++ fs2) = p ← run_fills p fs1; run_fills p fs2.
Proof. revert p. induction fs1 as [|f fs1 IH]; intros p; simpl; [done|]. destruct (on_fill _ _ _ _); simpl; auto. Qed.

Lemma strat_after_refl s : strat_after [] s s.
Proof. by constructor. Qed.

Lemma strat_after_trans fs1 fs2 s1 s2 s3 :
  strat_after fs1 s1 s2 -> strat_after fs2 s2 s3 -> strat_after (fs1 ++ fs2) s1 s3.
Proof.
  intros [P1 F1 ????] [P2 F2 ????]. constructor; try congruence.
  - rewrite run_fills_app, P1. done.
  - by rewrite F2, F1, length_app, (Nat.add_comm (length fs1)), Nat.iter_add.
Qed.

Lemma strat_after_fill s f pf :
  on_fill (portfolio_ s) (f_side f) (f_price f) (f_qty f) = Some pf ->
  strat_after [f] s (inc_filled (set_portfolio pf s)).
Proof. intros Hf. constructor; simpl; try done. by rewrite Hf. Qed.

(** The effect [F p] on every strategy [p]. *)
Definition strats_after (F : sptr -> list Fill) (ss ss' : gmap sptr (Strategy D)) : Prop :=
  forall p, option_Forall2 (strat_after (F p)) (ss !! p) (ss' !! p).

Lemma strats_after_lookup F ss ss' p s :
  strats_after F ss ss' -> ss !! p = Some s -> exists s', ss' !! p = Some s' /\ strat_after (F p) s s'.
Proof. intros HF Hs. specialize (HF p). rewrite Hs in HF. inversion HF; subst. eauto. Qed.

Lemma strats_after_id ss : strats_after (fun _ => []) ss ss.
Proof. intros p. destruct (ss !! p); constructor. apply strat_after_refl. Qed.

Lemma strats_after_trans F1 F2 ss1 ss2 ss3 :
  strats_after F1 ss1 ss2 -> strats_after F2 ss2 ss3 ->
  strats_after (fun p => F1 p ++ F2 p) ss1 ss3.
Proof.
  intros H1 H2 p. specialize (H1 p). specialize (H2 p).
  destruct H1 as [s1 s2 H1|]; inversion H2; constructor. by eapply strat_after_trans.
Qed.

Lemma strats_after_ext F1 F2 ss ss' :
  (forall p, F1 p = F2 p) -> strats_after F1 ss ss' -> strats_after F2 ss ss'.
Proof. intros HF H1 p. rewrite <-HF. apply H1. Qed.

Definition fills_to (p : sptr) (f : Fill) (q : sptr) : list Fill :=
  if decide (q = p) then [f] else [].

Lemma deliver_fill_spec p f ss s :
  ss !! p = Some s -> is_Some (run_fills (portfolio_ s) [f]) ->
  exists ss', deliver_fill p (f_side f) (f_price f) (f_qty f) ss = Some ss' /\
    strats_after (fills_to p f) ss ss'.
Proof.
  intros Hs [pf Hf]. simpl in Hf. unfold deliver_fill. rewrite Hs. cbn [mbind option_bind].
  destruct (on_fill _ _ _ _) as [pf'|] eqn:Ef; cbn [mbind option_bind] in *; [|done].
  eexists. split; [done|]. intros q. unfold fills_to. destruct (decide (q = p)) as [->|].
  - rewrite Hs, lookup_insert_eq. constructor. by apply strat_after_fill.
  - rewrite lookup_insert_ne by done. apply strats_after_id.
Qed.

(** Fills that the portfolios of [ss] take without overflow. *)
Definition fills_defined (F : sptr -> list Fill) (ss : gmap sptr (Strategy D)) : Prop :=
  forall p s, ss !! p = Some s -> is_Some (run_fills (portfolio_ s) (F p)).

Lemma fills_defined_app F1 F2 ss :
  fills_defined (fun p => F1 p ++ F2 p) ss ->
  fills_defined F1 ss /\ forall ss', strats_after F1 ss ss' -> fills_defined F2 ss'.
Proof.
  intros HF. split.
  - intros p s Hs. destruct (HF p s Hs) as [x Hx]. rewrite run_fills_app in Hx. run_bind Hx. eauto.
  - intros ss' Ha p s' Hs'. specialize (Ha p). rewrite Hs' in Ha. inversion Ha as [s ? Hst Heq|]; subst.
    destruct (HF p s (eq_sym Heq)) as [x Hx].
    rewrite run_fills_app, (sa_portfolio _ _ _ Hst) in Hx. eauto.
Qed.

Lemma routing_ok_after routing F ss ss' :
  routing_ok routing ss -> strats_after F ss ss' -> routing_ok routing ss'.
Proof.
  intros Hok Ha id p Hp. destruct (Hok _ _ Hp) as [s Hs].
  destruct (strats_after_lookup _ _ _ _ _ Ha Hs) as (s' & -> & _). eauto.
Qed.

(** The fills of one trade. *)
Definition taker_fill (owner : sptr) (side : Side) (tr : Trade) : sptr -> list Fill :=
  fills_to owner (mkFill side (tr_price tr) (tr_qty tr)).
Definition maker_fill (side : Side) (routing : gmap Z sptr) (tr : Trade) (p : sptr) : list Fill :=
  if decide (routing !! maker_id tr = Some p)
  then [mkFill (opposite side) (tr_price tr) (tr_qty tr)] else [].

Lemma fills_of_cons p owner side routing tr trs :
  fills_of p owner side routing (tr :: trs) =
  taker_fill owner side tr p ++ maker_fill side routing tr p ++ fills_of p owner side routing trs.
Proof. unfold fills_of, taker_fill, maker_fill, fills_to. csimpl. by rewrite <-app_assoc. Qed.

Lemma maker_deliver_spec side routing tr ss :
  routing_ok routing ss -> fills_defined (maker_fill side routing tr) ss ->
  exists ss', (match routing !! maker_id tr with
               | Some m => deliver_fill m (opposite side) (tr_price tr) (tr_qty tr) ss
               | None => Some ss
               end) = Some ss' /\ strats_after (maker_fill side routing tr) ss ss'.
Proof.
  intros Hok Hd. unfold maker_fill in *. destruct (routing !! maker_id tr) as [m|] eqn:Em.
  - destruct (Hok _ _ Em) as [s Hs]. pose proof (Hd m s Hs) as Hf.
    cbv beta in Hf. rewrite decide_True in Hf by done.
    destruct (deliver_fill_spec m (mkFill (opposite side) (tr_price tr) (tr_qty tr)) ss s Hs Hf)
      as (ss' & Ed & Ha).
    exists ss'. split; [done|]. eapply strats_after_ext; [|done]. intros q. unfold fills_to.
    destruct (decide (q = m)), (decide (Some m = Some q)); congruence.
  - exists ss. split; [done|]. eapply strats_after_ext; [|apply strats_after_id]. done.
Qed.

(** Delivering the trades of a placement. *)
Lemma route_fills_spec owner side routing trs : forall ss,
  is_Some (ss !! owner) -> routing_ok routing ss ->
  fills_defined (fun p => fills_of p owner side routing trs) ss ->
  exists ss', route_fills owner side routing trs ss = Some ss' /\
    strats_after (fun p => fills_of p owner side routing trs) ss ss'.
Proof.
  induction trs as [|tr trs IH]; intros ss Ho Hok Hd; [exists ss; split; [done|apply strats_after_id]|].
  assert (fills_defined (fun p => taker_fill owner side tr p ++
            (maker_fill side routing tr p ++ fills_of p owner side routing trs)) ss) as Hd1.
  { intros p s Hs. rewrite <-fills_of_cons. by apply Hd. }
  apply fills_defined_app in Hd1 as [Ht Hd1]. destruct Ho as [so Hso].
  pose proof (Ht owner so Hso) as Hf. unfold taker_fill, fills_to in Hf. rewrite decide_True in Hf by done.
  destruct (deliver_fill_spec owner _ ss so Hso Hf) as (ss1 & E1 & Ha1). simpl in E1.
  specialize (Hd1 ss1 Ha1). apply fills_defined_app in Hd1 as [Hm Hd2].
  assert (routing_ok routing ss1) as Hok1 by (by eapply routing_ok_after).
  destruct (maker_deliver_spec side routing tr ss1 Hok1 Hm) as (ss2 & E2 & Ha2).
  destruct (IH ss2) as (ss3 & E3 & Ha3).
  - destruct (strats_after_lookup _ _ _ _ _ Ha1 Hso) as (s1 & Hs1 & _).
    destruct (strats_after_lookup _ _ _ _ _ Ha2 Hs1) as (s2 & -> & _). eauto.
  - by eapply routing_ok_after.
  - by apply Hd2.
  - exists ss3. cbn [route_fills]. rewrite E1. cbn [mbind option_bind]. rewrite E2.
    cbn [mbind option_bind]. split; [done|].
    eapply strats_after_ext; [intros p; symmetry; apply fills_of_cons|].
    eapply strats_after_trans; [exact Ha1|]. by eapply strats_after_trans.
Qed.

End Framework.
Arguments World : clear implicits.
