(* ===== verification/StrategyProps.v ===== *)
(** * Properties of the strategy framework, for any matching engine *)

From S2P Require Import Prelude Pool OrderedMap Level OrderBook BookSpec BookRefine BookQuery BookRun Portfolio Engine Strategy.

Section Props.
Context {E D : Type} `{HE : MatchingEngine E}.

(** The fills a placement by [owner] delivers to strategy [p]. *)
Definition placement_fills (a : ABook) (routing : gmap Z sptr) (owner : sptr) (side : Side)
    (price : Price) (qty : Quantity) (p : sptr) : list Fill :=
  fills_of p owner side (<[ab_next_id a := owner]> routing) (aplace a side price qty).2.

(** The strategies once the submission is counted. *)
Definition submitted (owner : sptr) (ss : gmap sptr (Strategy D)) : gmap sptr (Strategy D) :=
  alter inc_submitted owner ss.

Lemma submitted_lookup owner ss p s :
  submitted owner ss !! p = Some s ->
  exists s0, ss !! p = Some s0 /\ portfolio_ s = portfolio_ s0 /\
    s = if decide (p = owner) then inc_submitted s0 else s0.
Proof.
  unfold submitted. destruct (decide (p = owner)) as [->|].
  - rewrite lookup_alter_eq. intros (s0 & -> & ->)%fmap_Some. eauto.
  - rewrite lookup_alter_ne by done. eauto.
Qed.

Lemma ctx_place_limit_spec c side price qty (w : World E D) a :
  e_abs (w_engine w) a -> ab_next_id a + 1 < UINT64_SIZE -> i64_range qty ->
  is_Some (w_strats w !! owner_ c) -> routing_ok (w_routing w) (w_strats w) ->
  fills_defined (placement_fills a (w_routing w) (owner_ c) side price qty) (w_strats w) ->
  exists w', ctx_place_limit c side price qty w = Some (w', ab_next_id a) /\
    e_abs (w_engine w') (aplace a side price qty).1.1 /\
    w_routing w' = <[ab_next_id a := owner_ c]> (w_routing w) /\
    strats_after (placement_fills a (w_routing w) (owner_ c) side price qty)
      (submitted (owner_ c) (w_strats w)) (w_strats w').
Proof.
  intros Ha Hn Hq [so Hso] Hok Hd.
  destruct (e_place_law _ a side price qty Ha Hn Hq) as (e' & Ee & Et & Ha').
  unfold ctx_place_limit. rewrite Ee. cbn [mbind option_bind].
  assert (upd_strat (owner_ c) inc_submitted (w_strats w) = Some (submitted (owner_ c) (w_strats w))) as Eu.
  { unfold upd_strat, submitted. rewrite Hso. cbn [mbind option_bind]. f_equal.
    apply map_eq. intros p. destruct (decide (p = owner_ c)) as [->|].
    - by rewrite lookup_insert_eq, lookup_alter_eq, Hso.
    - by rewrite lookup_insert_ne, lookup_alter_ne by done. }
  rewrite Eu. cbn [mbind option_bind]. rewrite Et.
  destruct (route_fills_spec (owner_ c) side (<[ab_next_id a := owner_ c]> (w_routing w))
    (aplace a side price qty).2 (submitted (owner_ c) (w_strats w))) as (ss' & Es & Has).
  - unfold submitted. rewrite lookup_alter_eq, Hso. eauto.
  - assert (routing_ok (<[ab_next_id a := owner_ c]> (w_routing w)) (w_strats w)) as Hok'.
    { intros id p Hp. apply lookup_insert_Some in Hp as [[_ <-]|[_ Hp]]; [eauto|by eapply Hok]. }
    intros id p Hp. destruct (Hok' _ _ Hp) as [s Hs]. unfold submitted.
    destruct (decide (p = owner_ c)) as [->|].
    + rewrite lookup_alter_eq, Hs. eauto.
    + rewrite lookup_alter_ne by done. eauto.
  - intros p s (s0 & Hs0 & -> & _)%submitted_lookup. by apply Hd.
  - rewrite Es. cbn [mbind option_bind]. eexists. split_and!; [done..|]. exact Has.
Qed.

(** (C20) Routing of fills: a placement by a strategy returns the engine's id,
    routes that id to the strategy, and delivers exactly its trades: every
    trade to the taker with its side, and to the strategy that owns the maker,
    if any, with the opposite side, in trade order; each strategy's portfolio
    is the run of its fills and its fill counter their number. *)
Theorem placement_routes_fills c side price qty (w : World E D) a :
  e_abs (w_engine w) a -> ab_next_id a + 1 < UINT64_SIZE -> i64_range qty ->
  is_Some (w_strats w !! owner_ c) -> routing_ok (w_routing w) (w_strats w) ->
  fills_defined (placement_fills a (w_routing w) (owner_ c) side price qty) (w_strats w) ->
  exists w', ctx_place_limit c side price qty w = Some (w', ab_next_id a) /\
    e_abs (w_engine w') (aplace a side price qty).1.1 /\
    w_routing w' = <[ab_next_id a := owner_ c]> (w_routing w) /\
    strats_after (placement_fills a (w_routing w) (owner_ c) side price qty)
      (submitted (owner_ c) (w_strats w)) (w_strats w').
Proof. apply ctx_place_limit_spec. Qed.

(** Signed quantity of a fill on a side. *)
Definition signed_qty (side : Side) (q : Quantity) : Z :=
  match side with Buy => q | Sell => - q end.

Lemma sum_fills_to (p : sptr) (x : Z) (ps : list sptr) :
  NoDup ps -> p ∈ ps -> sumZ ((fun q => if decide (q = p) then x else 0) <$> ps) = x.
Proof.
  induction 1 as [|q ps Hq Hnd IH]; [by intros ?%elem_of_nil|]. csimpl. intros [->|Hp]%elem_of_cons.
  - rewrite decide_True by done.
    assert (sumZ ((fun q0 => if decide (q0 = q) then x else 0) <$> ps) = 0) as ->; [|lia].
    clear -Hq. induction ps as [|r ps IH]; [done|]. apply not_elem_of_cons in Hq as [??].
    csimpl. rewrite decide_False by done. by rewrite IH.
  - rewrite decide_False by (by intros ->). by rewrite IH.
Qed.

Lemma sumZ_fmap_add {A} (f g : A -> Z) l :
  sumZ ((fun x => f x + g x) <$> l) = sumZ (f <$> l) + sumZ (g <$> l).
Proof. induction l; csimpl; lia. Qed.

Lemma sumZ_fmap_ext {A} (f g : A -> Z) l : (forall x, f x = g x) -> sumZ (f <$> l) = sumZ (g <$> l).
Proof. intros Hfg. induction l; csimpl; [done|]. by rewrite Hfg, IHl. Qed.

Lemma net_app fs1 fs2 : net (fs1 ++ fs2) = net fs1 + net fs2.
Proof. unfold net. by rewrite fmap_app, sumZ_app. Qed.

(** Trades between strategies cancel out: summed over all strategies, the
    positions move by the signed quantity of the trades whose maker belongs to
    no strategy. *)
Theorem strategy_trades_net_out (ps : list sptr) owner side (routing : gmap Z sptr) trs :
  NoDup ps -> owner ∈ ps -> (forall id p, routing !! id = Some p -> p ∈ ps) ->
  sumZ ((fun p => net (fills_of p owner side routing trs)) <$> ps) =
  sumZ ((fun tr => match routing !! maker_id tr with
                   | Some _ => 0
                   | None => signed_qty side (tr_qty tr)
                   end) <$> trs).
Proof.
  intros Hnd Ho Hr. induction trs as [|tr trs IH].
  - simpl. clear. by induction ps.
  - rewrite fmap_cons. cbn [sumZ]. rewrite <-IH. clear IH.
    rewrite (sumZ_fmap_ext _ (fun p => net (taker_fill owner side tr p ++ maker_fill side routing tr p)
      + net (fills_of p owner side routing trs)))
      by (intros p; by rewrite fills_of_cons, app_assoc, net_app).
    rewrite sumZ_fmap_add. f_equal.
    transitivity (sumZ ((fun p => (if decide (p = owner) then signed_qty side (tr_qty tr) else 0) +
      (if decide (routing !! maker_id tr = Some p) then - signed_qty side (tr_qty tr) else 0)) <$> ps)).
    { apply sumZ_fmap_ext. intros p. rewrite net_app. unfold taker_fill, fills_to, maker_fill.
      destruct (decide (p = owner)), (decide (routing !! maker_id tr = Some p));
        destruct side; unfold net, signed; simpl; lia. }
    rewrite sumZ_fmap_add, sum_fills_to by done. destruct (routing !! maker_id tr) as [m|] eqn:Em.
    + rewrite (sumZ_fmap_ext _ (fun p => if decide (p = m) then - signed_qty side (tr_qty tr) else 0)).
      * rewrite sum_fills_to; [lia|done|by eapply Hr].
      * intros p. destruct (decide (Some m = Some p)), (decide (p = m)); congruence.
    + rewrite (sumZ_fmap_ext _ (fun _ => 0)) by (intros; by rewrite decide_False).
      assert (sumZ ((fun _ => 0) <$> ps) = 0) as ->; [|lia]. clear. by induction ps.
Qed.

End Props.

(** Two strategies on the demonstration engine: strategy 0 owns the ask 1. *)
Definition demo_world : World Engine unit :=
  mkWorld demo_engine {[ 1 := 0%nat ]}
    {[ 0%nat := Strategy_new "a"%string tt; 1%nat := Strategy_new "b"%string tt ]}.

Lemma placement_routes_fills_witness :
  exists w', ctx_place_limit (mkContext 1 BookTop_new) Buy 101 5 demo_world = Some (w', 6) /\
    e_abs (w_engine w') (aplace demo_abook Buy 101 5).1.1 /\
    w_routing w' = <[6 := 1%nat]> (w_routing demo_world) /\
    strats_after (placement_fills demo_abook (w_routing demo_world) 1 Buy 101 5)
      (submitted 1 (w_strats demo_world)) (w_strats w').
Proof.
  apply (placement_routes_fills (mkContext 1 BookTop_new) Buy 101 5 demo_world demo_abook).
  - apply demo_refines.
  - vm_compute. reflexivity.
  - unfold i64_range. vm_compute. split; discriminate.
  - vm_compute. eauto.
  - intros id p Hp. apply (lookup_singleton_Some 1 id 0%nat p) in Hp as [_ <-]. vm_compute. eauto.
  - intros p s Hs. unfold demo_world in Hs. cbn [w_strats] in Hs.
    apply lookup_insert_Some in Hs as [[<- <-]|[_ Hs]].
    + vm_compute. eauto.
    + apply lookup_singleton_Some in Hs as [<- <-]. vm_compute. eauto.
Defined.

Definition demo_routing : gmap Z sptr := {[ 1 := 0%nat ]}.
Definition demo_trades : list Trade := [mkTrade 6 1 101 4; mkTrade 6 4 101 1].

Lemma strategy_trades_net_out_witness :
  sumZ ((fun p => net (fills_of p 1 Buy demo_routing demo_trades)) <$> [0%nat; 1%nat]) = 1.
Proof.
  rewrite (strategy_trades_net_out [0%nat; 1%nat] 1 Buy demo_routing demo_trades).
  - vm_compute. reflexivity.
  - apply (bool_decide_unpack _). vm_compute. exact I.
  - right. left.
  - intros id p Hp. unfold demo_routing in Hp. apply lookup_singleton_Some in Hp as [_ <-]. left.
Defined.
