(* ===== verification/Ticks.v ===== *)
(** * The event stream of the replayer (src/mvp/src/backtest/replay.h) *)

From S2P Require Import Prelude Pool OrderedMap Level.

(** enum class EventType : uint8_t *)
Definition EventType_Add : Z := 0.
Definition EventType_Cancel : Z := 1.
Definition EventType_Trade : Z := 2.

Record Tick := mkTick {
  ts_ns : Z;       (* uint64_t *)
  symbol : Z;      (* uint32_t *)
  event : Z;       (* uint8_t, an EventType *)
  t_side : Z;      (* uint8_t: 0 = buy, 1 = sell *)
  t_price : Z;     (* int64_t *)
  t_qty : Z;       (* int64_t *)
  ext_id : Z       (* uint64_t *)
}.

(** [static_cast<Side>(t.side)]: the code compares the result with
    [Side::Buy] only, so every other value acts as a sell. *)
Definition side_of (s : Z) : Side := if s =? 0 then Buy else Sell.
