(* ===== verification/Strategies.v ===== *)
(** * The two strategies (src/mvp/strategies/mm.{h,cpp}, ma_cross.{h,cpp})

    [MarketMaker] and [MACross] as the data of their derived classes and their
    [on_tick], written against the strategy framework for any engine. *)

From S2P Require Import Prelude Pool OrderedMap Level OrderBook BookSpec Portfolio Engine Strategy Ticks.

(** ** Data *)

Record MarketMakerConfig := mkMMConfig {
  quote_qty : Quantity;
  spread : Price;
  requote_threshold : Price;
  requote_interval : Z;            (* uint64_t *)
  inventory_limit : Quantity
}.

Definition MarketMakerConfig_default : MarketMakerConfig := mkMMConfig 10 2 1 50 100.

Record MarketMaker := mkMM {
  mm_cfg : MarketMakerConfig;
  last_quote_mid_ : Price;
  tick_counter_ : Z;               (* uint64_t *)
  bid_id_ : OrderId;
  ask_id_ : OrderId
}.

Definition MarketMaker_new (cfg : MarketMakerConfig) : MarketMaker := mkMM cfg 0 0 0 0.

Record MACrossConfig := mkMAConfig {
  fast_window : Z;                 (* size_t *)
  slow_window : Z;
  target_position : Quantity;
  slippage_ticks : Price
}.

Definition MACrossConfig_default : MACrossConfig := mkMAConfig 20 100 50 1.

Record MACross := mkMA {
  ma_cfg : MACrossConfig;
  fast_win_ : list Price;
  slow_win_ : list Price;
  fast_sum_ : Z;
  slow_sum_ : Z;
  last_sign_ : Z
}.

Definition MACross_new (cfg : MACrossConfig) : MACross := mkMA cfg [] [] 0 0 0.

(** The dynamic type of a strategy object. *)
Inductive Derived :=
| DMarketMaker (m : MarketMaker)
| DMACross (m : MACross).

Section Strategies.
Context {E : Type} `{EngineOps E}.

Abbreviation W := (World E Derived).

(** The members of [*this]. *)
Definition get_mm (this : sptr) (w : W) : option MarketMaker :=
  s ← w_strats w !! this;
  match derived s with DMarketMaker m => Some m | _ => None end.
Definition get_ma (this : sptr) (w : W) : option MACross :=
  s ← w_strats w !! this;
  match derived s with DMACross m => Some m | _ => None end.
Definition put_derived (this : sptr) (d : Derived) (w : W) : option W :=
  ss ← upd_strat this (set_derived d) (w_strats w);
  Some (mkWorld (w_engine w) (w_routing w) ss).
Definition position_of (this : sptr) (w : W) : option Quantity :=
  s ← w_strats w !! this; Some (position_ (portfolio_ s)).

(** ** MarketMaker *)

Definition set_bid_id (id : OrderId) (m : MarketMaker) : MarketMaker :=
  mkMM (mm_cfg m) (last_quote_mid_ m) (tick_counter_ m) id (ask_id_ m).
Definition set_ask_id (id : OrderId) (m : MarketMaker) : MarketMaker :=
  mkMM (mm_cfg m) (last_quote_mid_ m) (tick_counter_ m) (bid_id_ m) id.
Definition set_last_mid (px : Price) (m : MarketMaker) : MarketMaker :=
  mkMM (mm_cfg m) px (tick_counter_ m) (bid_id_ m) (ask_id_ m).
Definition set_counter (n : Z) (m : MarketMaker) : MarketMaker :=
  mkMM (mm_cfg m) (last_quote_mid_ m) n (bid_id_ m) (ask_id_ m).

(** Assign to a member of [*this]. *)
Definition mm_set (this : sptr) (f : MarketMaker -> MarketMaker) (w : W) : option W :=
  m ← get_mm this w; put_derived this (DMarketMaker (f m)) w.

Definition mm_cancel_quotes (this : sptr) (ctx : StrategyContext) (w : W) : option W :=
  m ← get_mm this w;
  w ← (if bid_id_ m =? 0 then Some w
       else '(_, w) ← ctx_cancel ctx (bid_id_ m) w; mm_set this (set_bid_id 0) w);
  m ← get_mm this w;
  if ask_id_ m =? 0 then Some w
  else '(_, w) ← ctx_cancel ctx (ask_id_ m) w; mm_set this (set_ask_id 0) w.

Definition mm_place_quotes (this : sptr) (ctx : StrategyContext) (mid : Price) (w : W) : option W :=
  m ← get_mm this w;
  pos ← position_of this w;
  let cfg := mm_cfg m in
  let quote_bid := pos <=? inventory_limit cfg in
  nlimit ← i64 (- inventory_limit cfg);
  let quote_ask := nlimit <=? pos in
  w ← (if quote_bid then
         px ← i64 (mid - spread cfg);
         '(w, id) ← ctx_place_limit ctx Buy px (quote_qty cfg) w;
         mm_set this (set_bid_id id) w
       else Some w);
  w ← (if quote_ask then
         px ← i64 (mid + spread cfg);
         '(w, id) ← ctx_place_limit ctx Sell px (quote_qty cfg) w;
         mm_set this (set_ask_id id) w
       else Some w);
  mm_set this (set_last_mid mid) w.

Definition mm_on_tick (this : sptr) (ctx : StrategyContext) (t : Tick) (w : W) : option W :=
  let top := top_ ctx in
  if (bid_px top =? 0) || (ask_px top =? 0) then Some w
  else
    let md := mid top in
    w ← (m ← get_mm this w; mm_set this (set_counter (u64 (tick_counter_ m + 1))) w);
    m ← get_mm this w;
    mid_moved ← (if last_quote_mid_ m =? 0 then Some true
                 else d ← i64 (md - last_quote_mid_ m); d ← abs64 d;
                      Some (requote_threshold (mm_cfg m) <=? d));
    interval_hit ← (if requote_interval (mm_cfg m) =? 0 then None
                    else Some (tick_counter_ m mod requote_interval (mm_cfg m) =? 0));
    if negb mid_moved && negb interval_hit then Some w
    else
      w ← mm_cancel_quotes this ctx w;
      mm_place_quotes this ctx md w.

(** ** MACross *)

(** One window of [push_price]: append, add, and drop the oldest price when
    the window is longer than configured. *)
Definition push_window (window : Z) (win : list Price) (sum : Z) (p : Price)
    : option (list Price * Z) :=
  sum ← i64 (sum + p);
  let win := win ++ [p] in
  if window <? Z.of_nat (length win) then
    match win with
    | [] => None
    | x :: win => sum ← i64 (sum - x); Some (win, sum)
    end
  else Some (win, sum).

Definition push_price (p : Price) (m : MACross) : option MACross :=
  '(fw, fs) ← push_window (fast_window (ma_cfg m)) (fast_win_ m) (fast_sum_ m) p;
  '(sw, ss) ← push_window (slow_window (ma_cfg m)) (slow_win_ m) (slow_sum_ m) p;
  Some (mkMA (ma_cfg m) fw sw fs ss (last_sign_ m)).

Definition fast_avg (m : MACross) : Price :=
  match fast_win_ m with [] => 0 | _ => Z.quot (fast_sum_ m) (Z.of_nat (length (fast_win_ m))) end.
Definition slow_avg (m : MACross) : Price :=
  match slow_win_ m with [] => 0 | _ => Z.quot (slow_sum_ m) (Z.of_nat (length (slow_win_ m))) end.

Definition set_last_sign (sign : Z) (m : MACross) : MACross :=
  mkMA (ma_cfg m) (fast_win_ m) (slow_win_ m) (fast_sum_ m) (slow_sum_ m) sign.

Definition ma_sign (m : MACross) : Z :=
  if slow_avg m <? fast_avg m then 1 else if fast_avg m <? slow_avg m then -1 else 0.

(** The order sent when the averages have crossed. *)
Definition ma_trade (this : sptr) (ctx : StrategyContext) (sign : Z) (m : MACross) (w : W)
    : option W :=
  let top := top_ ctx in
  if (bid_px top =? 0) || (ask_px top =? 0) then Some w
  else
    let target := target_position (ma_cfg m) in
    pos ← position_of this w;
    if 0 <? sign then
      need ← i64 (target - pos);
      if 0 <? need then
        px ← i64 (ask_px top + slippage_ticks (ma_cfg m));
        '(w, _) ← ctx_place_limit ctx Buy px need w; Some w
      else Some w
    else
      neg ← i64 (- target);
      need ← i64 (pos - neg);
      if 0 <? need then
        px ← i64 (bid_px top - slippage_ticks (ma_cfg m));
        '(w, _) ← ctx_place_limit ctx Sell px need w; Some w
      else Some w.

Definition ma_on_tick (this : sptr) (ctx : StrategyContext) (t : Tick) (w : W) : option W :=
  m ← get_ma this w;
  let signal :=
    if event t =? EventType_Trade then Some (t_price t)
    else if mid (top_ ctx) =? 0 then None else Some (mid (top_ ctx)) in
  match signal with
  | None => Some w
  | Some px =>
      m ← push_price px m;
      w ← put_derived this (DMACross m) w;
      if Z.of_nat (length (slow_win_ m)) <? slow_window (ma_cfg m) then Some w
      else
        let sign := ma_sign m in
        if (sign =? 0) || (sign =? last_sign_ m) then Some w
        else
          w ← put_derived this (DMACross (set_last_sign sign m)) w;
          ma_trade this ctx sign m w
  end.

(** Virtual dispatch of [on_tick]; neither class overrides [on_start],
    [on_end] or [on_fill]. *)
Definition on_tick (this : sptr) (ctx : StrategyContext) (t : Tick) (w : W) : option W :=
  s ← w_strats w !! this;
  match derived s with
  | DMarketMaker _ => mm_on_tick this ctx t w
  | DMACross _ => ma_on_tick this ctx t w
  end.

End Strategies.
