(* ===== verification/Replay.v ===== *)
(** * [hft::backtest::Replay] (src/mvp/src/backtest/replay.{h,cpp})

    The loop that plays ticks into the engine, routes the fills of resting
    strategy orders, and calls the strategies with the top of book taken after
    the tick.  The pacing of [ReplaySpeed::Realtime] is in [Pacing]. *)

From S2P Require Import Prelude Pool OrderedMap Level OrderBook BookSpec Portfolio Engine Strategy Ticks Strategies.

Record ReplayStats := mkStats {
  ticks_consumed : Z;
  exogenous_adds : Z;
  exogenous_cancels : Z;
  trade_prints : Z;
  engine_trades : Z
}.

Section Replay.
Context {E : Type} `{EngineOps E}.

Abbreviation W := (World E Derived).

(** The locals of [run] that live across ticks. *)
Record ReplayState := mkReplay {
  rp_world : W;
  ext_to_eng : gmap Z OrderId;
  last_trade_px : Price;
  stats : ReplayStats;
  ctxs : list StrategyContext
}.

Definition snapshot_top (e : E) (last_trade : Price) : option BookTop :=
  let best_bid := e_best_bid e in
  let best_ask := e_best_ask e in
  let bid := if best_bid =? 0 then 0 else best_bid in
  let ask := if best_ask =? INT64_MAX then 0 else best_ask in
  bq ← (if bid =? 0 then Some 0 else e_qty_at e Buy bid);
  aq ← (if ask =? 0 then Some 0 else e_qty_at e Sell ask);
  m ← (if negb (bid =? 0) && negb (ask =? 0) then s ← i64 (bid + ask); Some (Z.quot s 2)
       else if negb (bid =? 0) then Some bid
       else if negb (ask =? 0) then Some ask
       else Some last_trade);
  Some (mkTop bid bq ask aq m).

(** The loop over the trades of an exogenous placement. *)
Fixpoint route_makers (taker_side : Side) (trs : list Trade) (n : Z) (last_px : Price)
    (routing : gmap Z sptr) (ss : gmap sptr (Strategy Derived))
    : option (Z * Price * gmap Z sptr * gmap sptr (Strategy Derived)) :=
  match trs with
  | [] => Some (n, last_px, routing, ss)
  | tr :: trs =>
      let n := u64 (n + 1) in
      match routing !! maker_id tr with
      | Some m =>
          ss ← deliver_fill m (opposite taker_side) (tr_price tr) (tr_qty tr) ss;
          route_makers taker_side trs n (tr_price tr) (delete (maker_id tr) routing) ss
      | None => route_makers taker_side trs n (tr_price tr) routing ss
      end
  end.

(** [switch (static_cast<EventType>(t.event))] *)
Definition apply_tick (t : Tick) (r : ReplayState) : option ReplayState :=
  let w := rp_world r in
  let st := stats r in
  if event t =? EventType_Add then
    '(e, eng_id) ← e_place (w_engine w) (side_of (t_side t)) (t_price t) (t_qty t);
    let ext := if ext_id t =? 0 then ext_to_eng r else <[ext_id t := eng_id]> (ext_to_eng r) in
    '(n, px, routing, ss) ← route_makers (side_of (t_side t)) (e_last_trades e)
        (engine_trades st) (last_trade_px r) (w_routing w) (w_strats w);
    Some (mkReplay (mkWorld e routing ss) ext px
      (mkStats (ticks_consumed st) (u64 (exogenous_adds st + 1)) (exogenous_cancels st)
         (trade_prints st) n) (ctxs r))
  else if event t =? EventType_Cancel then
    let st := mkStats (ticks_consumed st) (exogenous_adds st) (u64 (exogenous_cancels st + 1))
                (trade_prints st) (engine_trades st) in
    match ext_to_eng r !! ext_id t with
    | Some id =>
        '(_, e) ← e_cancel (w_engine w) id;
        Some (mkReplay (mkWorld e (w_routing w) (w_strats w)) (delete (ext_id t) (ext_to_eng r))
                (last_trade_px r) st (ctxs r))
    | None => Some (mkReplay w (ext_to_eng r) (last_trade_px r) st (ctxs r))
    end
  else if event t =? EventType_Trade then
    Some (mkReplay w (ext_to_eng r) (t_price t)
      (mkStats (ticks_consumed st) (exogenous_adds st) (exogenous_cancels st)
         (u64 (trade_prints st + 1)) (engine_trades st)) (ctxs r))
  else Some r.

(** [for i: ctxs[i].set_top(top); strategies_[i]->on_tick(ctxs[i], t)] *)
Fixpoint notify (top : BookTop) (t : Tick) (cs : list StrategyContext) (strategies : list sptr) (w : W)
    : option (list StrategyContext * W) :=
  match cs, strategies with
  | c :: cs, s :: strategies =>
      let c := set_top top c in
      w ← on_tick s c t w;
      '(cs, w) ← notify top t cs strategies w;
      Some (c :: cs, w)
  | _, _ => Some ([], w)
  end.

Definition replay_tick (strategies : list sptr) (r : ReplayState) (t : Tick) : option ReplayState :=
  let st := stats r in
  let r := mkReplay (rp_world r) (ext_to_eng r) (last_trade_px r)
    (mkStats (u64 (ticks_consumed st + 1)) (exogenous_adds st) (exogenous_cancels st)
       (trade_prints st) (engine_trades st)) (ctxs r) in
  r ← apply_tick t r;
  top ← snapshot_top (w_engine (rp_world r)) (last_trade_px r);
  '(cs, w) ← notify top t (ctxs r) strategies (rp_world r);
  Some (mkReplay w (ext_to_eng r) (last_trade_px r) (stats r) cs).

Definition replay_init (strategies : list sptr) (e : E) (ss : gmap sptr (Strategy Derived))
    : ReplayState :=
  mkReplay (mkWorld e ∅ ss) ∅ 0 (mkStats 0 0 0 0 0)
    ((fun s => mkContext s BookTop_new) <$> strategies).

Fixpoint replay_ticks (strategies : list sptr) (ticks : list Tick) (r : ReplayState)
    : option ReplayState :=
  match ticks with
  | [] => Some r
  | t :: ticks => r ← replay_tick strategies r t; replay_ticks strategies ticks r
  end.

(** Replay::run, with the engine and the strategies it refers to. *)
Definition replay_run (strategies : list sptr) (e : E) (ss : gmap sptr (Strategy Derived))
    (ticks : list Tick) : option (ReplayStats * W) :=
  r ← replay_ticks strategies ticks (replay_init strategies e ss);
  Some (stats r, rp_world r).

End Replay.
