(* ===== verification/ReplayProps.v ===== *)
(** * Properties of the replayer and of the strategies' signals *)

From S2P Require Import Prelude Pool OrderedMap Level OrderBook BookSpec BookRefine BookQuery BookRun Flow Portfolio Engine Strategy Ticks Strategies Replay.

(** ** The top of book *)

Section Top.
Context {E : Type} `{HE : MatchingEngine E}.

Lemma best_price_ok B a s d o os :
  flow_ok B a -> ab_side a s = o :: os ->
  (match ab_side a s with [] => d | o :: _ => o_price o end) = o_price o /\ price_ok (o_price o).
Proof. intros [Hp _] Hs. specialize (Hp s). rewrite Hs in *. split; [done|]. by inversion Hp. Qed.

Lemma snapshot_defined e a B px :
  e_abs e a -> flow_ok B a -> B <= INT64_MAX ->
  exists top, snapshot_top e px = Some top /\
    bid_px top = (match ab_bids a with [] => 0 | o :: _ => o_price o end) /\
    ask_px top = (match ab_asks a with [] => 0 | o :: _ => o_price o end) /\
    (bid_px top <> 0 -> bid_qty top = depth (at_price (bid_px top) (ab_bids a))) /\
    (ask_px top <> 0 -> ask_qty top = depth (at_price (ask_px top) (ab_asks a))) /\
    (bid_px top <> 0 -> ask_px top <> 0 -> mid top = Z.quot (bid_px top + ask_px top) 2).
Proof.
  intros Ha Hf HB. pose proof (e_abs_wf _ _ Ha) as Hwf. unfold snapshot_top.
  rewrite (e_best_bid_law _ _ Ha), (e_best_ask_law _ _ Ha).
  set (b := match ab_bids a with [] => 0 | o :: _ => o_price o end).
  set (k := match ab_asks a with [] => INT64_MAX | o :: _ => o_price o end).
  set (k' := match ab_asks a with [] => 0 | o :: _ => o_price o end).
  assert ((if b =? 0 then 0 else b) = b) as -> by (destruct (Z.eqb_spec b 0); lia).
  assert ((if k =? INT64_MAX then 0 else k) = k' /\ price_ok b /\ price_ok k') as (-> & Hb & Hk).
  { split_and!.
    - unfold k, k'. destruct (ab_asks a) as [|o os] eqn:Ea; [done|].
      pose proof (fo_price _ _ Hf Sell) as Hp. simpl in Hp. rewrite Ea in Hp.
      apply Forall_cons in Hp as [Hp _]. unfold price_ok in Hp.
      destruct (Z.eqb_spec (o_price o) INT64_MAX); [lia64|done].
    - unfold b. pose proof (fo_price _ _ Hf Buy) as Hp. simpl in Hp.
      destruct Hp; [unfold price_ok; lia|done].
    - unfold k'. pose proof (fo_price _ _ Hf Sell) as Hp. simpl in Hp.
      destruct Hp; [unfold price_ok; lia|done]. }
  clearbody b k'. unfold price_ok in *.
  assert (forall s px, e_qty_at e s px = Some (depth (at_price px (ab_side a s)))) as Hq.
  { intros s x. rewrite (e_qty_at_law _ _ _ _ Ha). apply i64_Some.
    pose proof (depth_at_price B a s x Hwf Hf). lia64. }
  assert (i64 (b + k') = Some (b + k')) as Hs by (apply i64_Some; lia64).
  destruct (Z.eqb_spec b 0), (Z.eqb_spec k' 0); rewrite ?Hq, ?Hs; simpl; rewrite ?Hq, ?Hs; simpl;
    eexists; (split; [done|]); simpl; split_and!; try done; congruence.
Qed.

(** The snapshot handed to strategies is the top of the book: on a book of
    positive prices whose side totals fit [int64_t] it returns, with best
    prices and the total quantities resting there, 0 for an empty side, and a
    two-sided top has bid < ask and the mid between them. *)
Theorem snapshot_top_correct e a B px :
  e_abs e a -> flow_ok B a -> B <= INT64_MAX ->
  (forall s, Forall (fun o => 0 < o_price o) (ab_side a s)) ->
  exists top, snapshot_top e px = Some top /\
    bid_px top = (match ab_bids a with [] => 0 | o :: _ => o_price o end) /\
    ask_px top = (match ab_asks a with [] => 0 | o :: _ => o_price o end) /\
    (ab_bids a <> [] -> bid_qty top = depth (at_price (bid_px top) (ab_bids a))) /\
    (ab_asks a <> [] -> ask_qty top = depth (at_price (ask_px top) (ab_asks a))) /\
    (ab_bids a <> [] -> ab_asks a <> [] ->
       bid_px top < ask_px top /\ bid_px top <= mid top < ask_px top).
Proof.
  intros Ha Hf HB Hpos. pose proof (awf_uncrossed _ (e_abs_wf _ _ Ha)) as Hu.
  destruct (snapshot_defined e a B px Ha Hf HB) as (top & Et & Eb & Ek & Hbq & Hkq & Hmid).
  pose proof (Hpos Buy) as Hpb. pose proof (Hpos Sell) as Hps. simpl in *.
  exists top. split_and!; [done..| | |].
  - destruct (ab_bids a); [done|]. apply Forall_cons in Hpb as [? _]. intros _. apply Hbq. lia.
  - destruct (ab_asks a); [done|]. apply Forall_cons in Hps as [? _]. intros _. apply Hkq. lia.
  - destruct (ab_bids a) as [|x xs]; [done|]. destruct (ab_asks a) as [|y ys]; [done|].
    apply Forall_cons in Hpb as [? _], Hps as [? _]. intros _ _.
    assert (o_price x < o_price y) by (apply Hu; by left).
    rewrite Hmid, Eb, Ek, Z.quot_div_nonneg by lia.
    pose proof (Z.div_mod (o_price x + o_price y) 2). pose proof (Z.mod_pos_bound (o_price x + o_price y) 2). lia.
Qed.

End Top.

Lemma snapshot_top_correct_witness :
  exists top, snapshot_top demo_engine 7 = Some top /\ bid_px top = 99 /\ ask_px top = 101 /\
    ([99] <> [] -> bid_qty top = depth (at_price (bid_px top) (ab_bids demo_abook))) /\
    ([101] <> [] -> ask_qty top = depth (at_price (ask_px top) (ab_asks demo_abook))) /\
    ([99] <> [] -> [101] <> [] -> bid_px top < ask_px top /\ bid_px top <= mid top < ask_px top).
Proof.
  destruct (snapshot_top_correct demo_engine demo_abook 100 7) as (top & H1 & H2 & H3 & H4 & H5 & H6).
  - apply demo_refines.
  - apply demo_flow.
  - vm_compute. discriminate.
  - intros s. apply (bool_decide_unpack _). destruct s; vm_compute; exact I.
  - exists top. split; [exact H1|]. split; [exact H2|]. split; [exact H3|].
    split; [intros _; apply H4; vm_compute; discriminate|].
    split; [intros _; apply H5; vm_compute; discriminate|].
    intros _ _. apply H6; vm_compute; discriminate.
Defined.

(** ** Replaying a tape *)

(** The specification: the book, the external ids and the trades so far. *)
Definition atape_step (s : ABook * gmap Z OrderId * list Trade) (t : Tick)
    : ABook * gmap Z OrderId * list Trade :=
  let '(a, ext, ts) := s in
  if event t =? EventType_Add then
    let '(a', id, trs) := aplace a (side_of (t_side t)) (t_price t) (t_qty t) in
    (a', if ext_id t =? 0 then ext else <[ext_id t := id]> ext, ts ++ trs)
  else if event t =? EventType_Cancel then
    match ext !! ext_id t with
    | Some id => ((acancel a id).2, delete (ext_id t) ext, ts)
    | None => (a, ext, ts)
    end
  else (a, ext, ts).

Definition atape (a : ABook) (ticks : list Tick) : ABook * gmap Z OrderId * list Trade :=
  foldl atape_step (a, ∅, []) ticks.

Definition tape_ok (t : Tick) : Prop := i64_range (t_qty t) /\ price_ok (t_price t).
Definition inflow (t : Tick) : Z := Z.max (t_qty t) 0.

Section Tape.
Context {E : Type} `{HE : MatchingEngine E}.

Lemma route_makers_none side trs (ss : gmap sptr (Strategy Derived)) : forall n px,
  exists px', route_makers side trs n px ∅ ss =
    Some (Nat.iter (length trs) (fun n => u64 (n + 1)) n, px', ∅, ss).
Proof.
  induction trs as [|tr trs IH]; intros n px; simpl; [by eexists|].
  rewrite lookup_empty. destruct (IH (u64 (n + 1)) (tr_price tr)) as [px' E']. exists px'.
  rewrite E'. pose proof (Nat.iter_succ_r (length trs) _ (fun n => u64 (n + 1)) n) as Hi.
  simpl in Hi. by rewrite Hi.
Qed.

Lemma iter_u64_succ k n : 0 <= n < UINT64_SIZE ->
  Nat.iter k (fun n => u64 (n + 1)) n = u64 (n + Z.of_nat k).
Proof.
  intros Hn. induction k as [|k IH]; [by rewrite Z.add_0_r, u64_small|].
  rewrite Nat.iter_succ, IH. unfold u64. rewrite Zplus_mod_idemp_l. f_equal. lia.
Qed.

(** How many ticks are of a kind. *)
Definition ticks_of (ev : Z) (ticks : list Tick) : Z := Z.of_nat (length (filter (fun t => event t = ev) ticks)).

Lemma ticks_of_snoc ev ticks t :
  ticks_of ev (ticks ++ [t]) = ticks_of ev ticks + if event t =? ev then 1 else 0.
Proof.
  unfold ticks_of. rewrite filter_app, length_app. destruct (Z.eqb_spec (event t) ev) as [He|He];
    [rewrite filter_cons_True|rewrite filter_cons_False]; simpl; done || lia.
Qed.

Lemma ticks_of_le ev ticks : 0 <= ticks_of ev ticks <= Z.of_nat (length ticks).
Proof. unfold ticks_of. pose proof (length_filter (fun t => event t = ev) ticks). lia. Qed.

(** The state of a replay without strategies that has counted [k] ticks, and
    made [seen], whose specification is [(a, ext, ts)]. *)
Record tape_rep (B : Z) (ss : gmap sptr (Strategy Derived)) (r : ReplayState (E := E)) (k : nat) (seen : list Tick) (a : ABook)
    (ext : gmap Z OrderId) (ts : list Trade) : Prop := {
  tp_abs : e_abs (w_engine (rp_world r)) a;
  tp_routing : w_routing (rp_world r) = ∅;
  tp_strats : w_strats (rp_world r) = ss;
  tp_ext : ext_to_eng r = ext;
  tp_trades : engine_trades (stats r) = u64 (Z.of_nat (length ts));
  tp_ticks : ticks_consumed (stats r) = u64 (Z.of_nat k);
  tp_adds : exogenous_adds (stats r) = u64 (ticks_of EventType_Add seen);
  tp_cancels : exogenous_cancels (stats r) = u64 (ticks_of EventType_Cancel seen);
  tp_prints : trade_prints (stats r) = u64 (ticks_of EventType_Trade seen);
  tp_ctxs : ctxs r = [];
  tp_flow : flow_ok B a
}.

(** A counter that follows the ticks of a kind. *)
Lemma ticks_of_counted ev seen t c :
  c = u64 (ticks_of ev seen) -> (if event t =? ev then u64 (c + 1) else c) = u64 (ticks_of ev (seen ++ [t])).
Proof. intros ->. rewrite ticks_of_snoc. destruct (_ =? _); [by rewrite u64_succ|by rewrite Z.add_0_r]. Qed.

(** The switch of the loop. *)
Lemma apply_tick_tape B ss r k seen a ext ts t :
  tape_rep B ss r k seen a ext ts -> tape_ok t -> ab_next_id a + 1 < UINT64_SIZE ->
  let '(a', ext', ts') := atape_step (a, ext, ts) t in
  exists r', apply_tick t r = Some r' /\ tape_rep (B + inflow t) ss r' k (seen ++ [t]) a' ext' ts' /\
    ab_next_id a' <= ab_next_id a + 1.
Proof.
  intros [Ha Hro Hs He Ht Hk Had Hca Htr Hc Hf] [Hq Hp] Hn. pose proof (e_abs_wf _ _ Ha) as Hwf.
  assert (flow_ok (B + inflow t) a) as Hf'.
  { destruct Hf as [Hp0 Hd0]. constructor; [done|]. intros s. unfold inflow. specialize (Hd0 s). lia. }
  pose proof (ticks_of_counted EventType_Add seen t _ Had) as Had'.
  pose proof (ticks_of_counted EventType_Cancel seen t _ Hca) as Hca'.
  pose proof (ticks_of_counted EventType_Trade seen t _ Htr) as Htr'.
  unfold apply_tick, atape_step. rewrite He. destruct (Z.eqb_spec (event t) EventType_Add) as [Ev|Ev].
  - rewrite Ev in *. cbn [Z.eqb] in Had', Hca', Htr'.
    destruct (e_place_law _ a (side_of (t_side t)) (t_price t) (t_qty t) Ha Hn Hq) as (e' & Ee & Etr & Ha').
    rewrite Ee. cbn [mbind option_bind]. rewrite Etr, Hro, Hs.
    destruct (route_makers_none (side_of (t_side t))
      (aplace a (side_of (t_side t)) (t_price t) (t_qty t)).2 ss (engine_trades (stats r)) (last_trade_px r))
      as [px' Er].
    rewrite Er. cbn [mbind option_bind].
    pose proof (aplace_flow B a (side_of (t_side t)) (t_price t) (t_qty t) Hwf Hf Hp) as Hf2.
    pose proof (aplace_next_id a (side_of (t_side t)) (t_price t) (t_qty t)) as Hid.
    rewrite u64_small in Hid by (pose proof (awf_next_id _ Hwf); lia).
    destruct (aplace_shape a (side_of (t_side t)) (t_price t) (t_qty t)) as (_ & _ & _ & Hid2 & _).
    destruct (aplace _ _ _ _) as [[a' id] trs]. simpl in *. subst id.
    eexists. split; [done|]. split; [|lia]. constructor; simpl; try done.
    rewrite Ht, iter_u64_succ, length_app by apply u64_range.
    unfold u64. rewrite Zplus_mod_idemp_l. f_equal. lia.
  - destruct (Z.eqb_spec (event t) EventType_Cancel) as [Ev2|Ev2].
    + destruct (ext !! ext_id t) as [id|].
      * destruct (e_cancel_law _ a id Ha) as (e' & Ee & _ & Ha'). rewrite Ee. cbn [mbind option_bind].
        eexists. split; [done|]. split; [|rewrite acancel_next_id; lia].
        constructor; simpl; try done; [|by apply acancel_flow]. by rewrite Ev2 in Htr'.
      * eexists. split; [done|]. split; [|lia]. constructor; simpl; try done. by rewrite Ev2 in Htr'.
    + destruct (event t =? EventType_Trade); eexists; (split; [done|]); (split; [|lia]); by constructor.
Qed.

Lemma replay_tick_tape B ss r k seen a ext ts t :
  tape_rep B ss r k seen a ext ts -> tape_ok t -> ab_next_id a + 1 < UINT64_SIZE ->
  B + inflow t <= INT64_MAX ->
  let '(a', ext', ts') := atape_step (a, ext, ts) t in
  exists r', replay_tick [] r t = Some r' /\ tape_rep (B + inflow t) ss r' (S k) (seen ++ [t]) a' ext' ts' /\
    ab_next_id a' <= ab_next_id a + 1.
Proof.
  intros Hr Hok Hn HB. unfold replay_tick. set (r1 := mkReplay _ _ _ _ _).
  assert (tape_rep B ss r1 (S k) seen a ext ts) as Hr1.
  { destruct Hr as [? ? ? ? ? Hk ? ? ? ? ?]. constructor; try done. simpl. rewrite Hk. unfold u64.
    rewrite Zplus_mod_idemp_l. f_equal. lia. }
  pose proof (apply_tick_tape B ss r1 (S k) seen a ext ts t Hr1 Hok Hn) as Ha.
  destruct (atape_step (a, ext, ts) t) as [[a' ext'] ts']. destruct Ha as (r2 & E2 & Hr2 & Hid).
  rewrite E2. cbn [mbind option_bind].
  destruct (snapshot_defined _ _ _ (last_trade_px r2) (tp_abs _ _ _ _ _ _ _ _ Hr2) (tp_flow _ _ _ _ _ _ _ _ Hr2) HB)
    as (top & Et & _).
  rewrite Et. cbn [mbind option_bind]. rewrite (tp_ctxs _ _ _ _ _ _ _ _ Hr2). cbn.
  eexists. split; [done|]. split; [|done]. destruct Hr2. by constructor.
Qed.

Lemma replay_ticks_tape ss ticks : forall B r seen a ext ts,
  tape_rep B ss r (length seen) seen a ext ts -> Forall tape_ok ticks ->
  ab_next_id a + Z.of_nat (length ticks) < UINT64_SIZE ->
  B + sumZ (inflow <$> ticks) <= INT64_MAX ->
  let '(a', ext', ts') := foldl atape_step (a, ext, ts) ticks in
  exists r', replay_ticks [] ticks r = Some r' /\
    tape_rep (B + sumZ (inflow <$> ticks)) ss r' (length (seen ++ ticks)) (seen ++ ticks) a' ext' ts'.
Proof.
  induction ticks as [|t ticks IH]; intros B r seen a ext ts Hr Hok Hn HB.
  - simpl. exists r. by rewrite Z.add_0_r, app_nil_r.
  - apply Forall_cons in Hok as [Ht Hok]. csimpl in HB. cbn [length] in Hn.
    assert (0 <= sumZ (inflow <$> ticks)) as Hnn.
    { apply sumZ_nonneg, Forall_fmap, Forall_true. unfold inflow. simpl. lia. }
    pose proof (replay_tick_tape B ss r (length seen) seen a ext ts t Hr Ht) as H1. cbn [foldl replay_ticks].
    destruct (atape_step (a, ext, ts) t) as [[a1 ext1] ts1].
    destruct H1 as (r1 & E1 & Hr1 & Hid); [lia|lia|]. rewrite E1. cbn [mbind option_bind].
    replace (S (length seen)) with (length (seen ++ [t])) in Hr1 by (rewrite length_app; simpl; lia).
    specialize (IH (B + inflow t) r1 (seen ++ [t]) a1 ext1 ts1 Hr1 Hok).
    destruct (foldl atape_step (a1, ext1, ts1) ticks) as [[a' ext'] ts'].
    destruct IH as (r' & E' & Hr'); [lia|lia|]. exists r'. split; [done|]. csimpl.
    by rewrite Z.add_assoc, cons_middle, app_assoc.
Qed.

(** (C23) Replay of a tape without strategies: if the quantities added fit
    [int64_t] in total, the run returns; the engine's book is the one that the
    specification of the tape (adds, cancels through the external ids, prints
    without effect) produces; and of the five statistics, four are the number
    of ticks and the numbers of adds, cancels and prints among them, and the
    fifth the number of trades of that specification. *)
Theorem replay_tape e a B ticks :
  e_abs e a -> flow_ok B a -> Forall tape_ok ticks ->
  ab_next_id a + Z.of_nat (length ticks) < UINT64_SIZE ->
  B + sumZ (inflow <$> ticks) <= INT64_MAX ->
  exists w, replay_run [] e ∅ ticks =
      Some (mkStats (Z.of_nat (length ticks)) (ticks_of EventType_Add ticks) (ticks_of EventType_Cancel ticks)
              (ticks_of EventType_Trade ticks) (u64 (Z.of_nat (length (atape a ticks).2))), w) /\
    e_abs (w_engine w) (atape a ticks).1.1.
Proof.
  intros Ha Hf Hok Hn HB. pose proof (awf_next_id _ (e_abs_wf _ _ Ha)).
  pose proof (replay_ticks_tape ∅ ticks B (replay_init [] e ∅) [] a ∅ []) as Hr.
  unfold atape, replay_run. destruct (foldl atape_step (a, ∅, []) ticks) as [[a' ext'] ts'].
  destruct Hr as (r & E' & [? ? ? ? Ht Hk Had Hca Htr ? ?]); [by constructor|done..|].
  rewrite E'. cbn [mbind option_bind app snd fst] in *. eexists. split; [|done]. do 2 f_equal.
  destruct (stats r). cbn in *. pose proof (ticks_of_le EventType_Add ticks). pose proof (ticks_of_le EventType_Cancel ticks).
  pose proof (ticks_of_le EventType_Trade ticks). rewrite Ht, Hk, Had, Hca, Htr, !(u64_small (ticks_of _ _)), u64_small by lia. done.
Qed.

End Tape.

Definition demo_ticks : list Tick :=
  [mkTick 1 0 0 1 103 5 77; mkTick 2 0 0 0 102 6 0; mkTick 3 0 1 0 0 0 77; mkTick 4 0 2 0 102 1 0].

Lemma replay_tape_witness :
  exists w, replay_run [] demo_engine ∅ demo_ticks = Some (mkStats 4 2 1 1 2, w) /\
    e_abs (w_engine w) (atape demo_abook demo_ticks).1.1.
Proof.
  apply (replay_tape demo_engine demo_abook 100 demo_ticks).
  - apply demo_refines.
  - apply demo_flow.
  - unfold demo_ticks, tape_ok, i64_range. repeat constructor; vm_compute; discriminate.
  - vm_compute. reflexivity.
  - vm_compute. discriminate.
Defined.

(** ** The moving averages *)

(** The running sums are right: pushing prices one by one into a window of
    [n] slots keeps exactly the last [n] prices and their sum, as long as the
    partial sums fit [int64_t]. *)
Theorem push_window_last n win sum p :
  (length win <= n)%nat -> (0 < n)%nat -> sum = sumZ win ->
  i64_range (sum + p) -> i64_range (sumZ (drop (length win + 1 - n) (win ++ [p]))) ->
  exists sum', push_window (Z.of_nat n) win sum p = Some (drop (length win + 1 - n) (win ++ [p]), sum') /\
    sum' = sumZ (drop (length win + 1 - n) (win ++ [p])) /\
    (length (drop (length win + 1 - n) (win ++ [p])) <= n)%nat.
Proof.
  intros Hl Hn -> Hr Hr'. unfold push_window. rewrite i64_Some by done. cbn [mbind option_bind].
  rewrite length_drop, length_app. simpl. destruct (Z.ltb_spec (Z.of_nat n) (Z.of_nat (length win + 1))) as [Hlt|Hge].
  - assert (length win + 1 - n = 1)%nat as E1 by lia. rewrite E1 in *.
    destruct win as [|x win]; [simpl in *; lia|]. simpl in *.
    assert (x + sumZ win + p - x = sumZ (win ++ [p])) as -> by (rewrite sumZ_app; simpl; lia).
    rewrite i64_Some by done. eexists. split; [done|]. split; [done|lia].
  - assert (length win + 1 - n = 0)%nat as -> by lia. rewrite drop_0. exists (sumZ win + p).
    split_and!; [done|rewrite sumZ_app; simpl; lia|lia].
Qed.

Lemma push_window_last_witness :
  exists sum', push_window 3 [4; 5; 6] 15 7 = Some ([5; 6; 7], sum') /\ sum' = 18 /\ (3 <= 3)%nat.
Proof.
  apply (push_window_last 3 [4; 5; 6] 15 7).
  - auto.
  - auto with arith.
  - reflexivity.
  - unfold i64_range. vm_compute. split; discriminate.
  - unfold i64_range. vm_compute. split; discriminate.
Defined.

(** ** Behaviours found *)

Definition tick_add (side px qty : Z) : Tick := mkTick 0 0 EventType_Add side px qty 0.
Definition tick_print (px : Z) : Tick := mkTick 0 0 EventType_Trade 0 px 0 0.
Definition position_after (ss : gmap sptr (Strategy Derived)) (ticks : list Tick) : option Quantity :=
  '(_, w) ← replay_run [0%nat] (Engine_with (OrderBook_new 32)) ss ticks;
  position_of 0 w.

Definition one_mm : gmap sptr (Strategy Derived) :=
  {[ 0%nat := Strategy_new "market_maker"%string (DMarketMaker (MarketMaker_new MarketMakerConfig_default)) ]}.

(** A resting strategy order loses its owner at its first exogenous fill:
    the market maker bids 98 for 10, sells of 4 and then 6 both execute against
    that bid, and its position ends at 4 instead of 10. *)
Theorem replay_loses_later_fills :
  position_after one_mm [tick_add 0 90 5; tick_add 1 110 5; tick_add 1 98 4] = Some 4 /\
  position_after one_mm [tick_add 0 90 5; tick_add 1 110 5; tick_add 1 98 4; tick_add 1 98 6] = Some 4 /\
  position_after one_mm [tick_add 0 90 5; tick_add 1 110 5; tick_add 1 98 10] = Some 10.
Proof. vm_compute. done. Qed.

Definition one_ma : gmap sptr (Strategy Derived) :=
  {[ 0%nat := Strategy_new "ma_cross"%string (DMACross (MACross_new (mkMAConfig 1 2 50 1))) ]}.

(** The position of [MACross] is not bounded by its target: the unfilled
    part of a crossing order stays in the book, later crossings size their
    orders from the position alone, and when the old remainder fills the
    position passes the target of 50. *)
Theorem ma_cross_exceeds_target :
  position_after one_ma
    [tick_add 0 95 1; tick_add 1 100 20; tick_print 100; tick_print 110;
     tick_add 0 110 100; tick_add 1 120 200; tick_print 50; tick_print 200;
     tick_add 1 1 100] = Some 80.
Proof. vm_compute. done. Qed.
