(* ===== verification/MovingAverage.v ===== *)
(** * The moving averages of [MACross]

    [push_price] keeps, for each of the two windows, the last prices and their
    running sum.  Here they are equal to the average recomputed from the whole
    history of prices. *)

From S2P Require Import Prelude Pool OrderedMap Level OrderBook BookSpec Portfolio Engine Strategy Ticks Strategies.

(** ** The reference *)

(** The last [n] prices of a history. *)
Definition last_prices (n : Z) (ps : list Price) : list Price := drop (length ps - Z.to_nat n) ps.

Definition simple_average (ps : list Price) : Price :=
  match ps with [] => 0 | _ => Z.quot (sumZ ps) (Z.of_nat (length ps)) end.

Definition reference_sign (fast slow : Z) (ps : list Price) : Z :=
  let f := simple_average (last_prices fast ps) in
  let s := simple_average (last_prices slow ps) in
  if s <? f then 1 else if f <? s then -1 else 0.

(** The strategy after a history of prices. *)
Fixpoint push_prices (ps : list Price) (m : MACross) : option MACross :=
  match ps with
  | [] => Some m
  | p :: ps => m ← push_price p m; push_prices ps m
  end.

(** ** One window *)

Lemma length_last_prices n ps : 0 <= n -> Z.of_nat (length (last_prices n ps)) = Z.min n (Z.of_nat (length ps)).
Proof. intros Hn. unfold last_prices. rewrite length_drop. lia. Qed.

Lemma sumZ_bound P ps : Forall (fun p => - P <= p <= P) ps -> 0 <= P ->
  - (P * Z.of_nat (length ps)) <= sumZ ps <= P * Z.of_nat (length ps).
Proof.
  intros Hf HP. induction Hf as [|p ps Hp _ IH]; [simpl; lia|]. cbn [length sumZ]. nia.
Qed.

(** Appending a price keeps the window the last [n] prices. *)
Lemma last_prices_snoc n ps p :
  0 <= n ->
  last_prices n (ps ++ [p]) =
    if n <? Z.of_nat (length (last_prices n ps ++ [p])) then drop 1 (last_prices n ps ++ [p]) else last_prices n ps ++ [p].
Proof.
  intros Hn. rewrite length_app. cbn [length]. pose proof (length_last_prices n ps Hn) as Hl.
  unfold last_prices in *. rewrite length_app. cbn [length].
  destruct (Z.ltb_spec n (Z.of_nat (length (drop (length ps - Z.to_nat n) ps) + 1))) as [Hlt|Hge].
  - assert (n <= Z.of_nat (length ps)) by lia.
    rewrite drop_app. rewrite length_drop in *.
    destruct (decide (n = 0)) as [->|Hn0].
    + assert (drop (length ps - Z.to_nat 0) ps = []) as -> by (apply drop_ge; simpl; lia).
      by rewrite !drop_ge by (simpl; lia).
    + replace (length ps + 1 - Z.to_nat n - length ps)%nat with 0%nat by lia.
      replace (length ps + 1 - Z.to_nat n)%nat with (S (length ps - Z.to_nat n)) by lia.
      rewrite drop_0. destruct (drop (length ps - Z.to_nat n) ps) as [|x l] eqn:Ed.
      { assert (length (drop (length ps - Z.to_nat n) ps) = 0)%nat as Hz by (by rewrite Ed). rewrite length_drop in Hz. lia. }
      simpl. f_equal. replace (S (length ps - Z.to_nat n)) with (length ps - Z.to_nat n + 1)%nat by lia.
      by rewrite <-drop_drop, Ed.
  - rewrite length_drop in *. rewrite drop_app_le by lia. f_equal. f_equal. lia.
Qed.

Lemma push_window_slides P n ps p :
  0 <= n -> 0 <= P -> P * (n + 1) <= INT64_MAX -> Forall (fun p => - P <= p <= P) (ps ++ [p]) ->
  push_window n (last_prices n ps) (sumZ (last_prices n ps)) p =
    Some (last_prices n (ps ++ [p]), sumZ (last_prices n (ps ++ [p]))).
Proof.
  intros Hn HP Hb Hf. apply Forall_app in Hf as [Hf Hp]. apply Forall_cons in Hp as [Hp _].
  assert (Forall (fun p => - P <= p <= P) (last_prices n ps)) as Hw by by apply Forall_drop.
  pose proof (sumZ_bound _ _ Hw HP) as Hs. pose proof (length_last_prices n ps Hn) as Hl.
  assert (P * Z.of_nat (length (last_prices n ps)) <= P * n) as Hle by nia.
  rewrite Z.mul_add_distr_l, Z.mul_1_r in Hb. unfold push_window. rewrite i64_Some by lia64. cbn [mbind option_bind].
  assert (sumZ (last_prices n ps ++ [p]) = sumZ (last_prices n ps) + p) as Es.
  { rewrite sumZ_app. simpl. lia. }
  rewrite last_prices_snoc by done. destruct (Z.ltb_spec n (Z.of_nat (length (last_prices n ps ++ [p])))).
  - rewrite <-Es. assert (Forall (fun p => - P <= p <= P) (last_prices n ps ++ [p])) as Hw'
      by (apply Forall_app; split; [done|by apply Forall_singleton]).
    assert (Z.of_nat (length (last_prices n ps ++ [p])) = n + 1) as Hl1.
    { rewrite length_app in *. simpl in *. lia. }
    destruct (last_prices n ps ++ [p]) as [|x l]; [simpl in *; lia|]. cbn [drop].
    apply Forall_cons in Hw' as [Hx Hw']. pose proof (sumZ_bound _ _ Hw' HP) as Hs'. cbn [length] in Hl1.
    replace (sumZ (x :: l) - x) with (sumZ l) by (simpl; lia).
    assert (P * Z.of_nat (length l) <= P * n) by nia. by rewrite i64_Some by lia64.
  - by rewrite Es.
Qed.

(** The strategy after the history [ps]. *)
Definition ma_after (cfg : MACrossConfig) (ps : list Price) : MACross :=
  mkMA cfg (last_prices (fast_window cfg) ps) (last_prices (slow_window cfg) ps)
    (sumZ (last_prices (fast_window cfg) ps)) (sumZ (last_prices (slow_window cfg) ps)) 0.

(** One more price; the sign of the last signal is left alone. *)
Lemma push_price_after P cfg ps p sgn :
  0 <= fast_window cfg -> 0 <= slow_window cfg -> 0 <= P ->
  P * (Z.max (fast_window cfg) (slow_window cfg) + 1) <= INT64_MAX -> Forall (fun p => - P <= p <= P) (ps ++ [p]) ->
  push_price p (set_last_sign sgn (ma_after cfg ps)) = Some (set_last_sign sgn (ma_after cfg (ps ++ [p]))).
Proof.
  intros Hf Hs HP Hb Hps. unfold push_price.
  cbn [set_last_sign ma_after ma_cfg fast_win_ fast_sum_ slow_win_ slow_sum_ last_sign_].
  rewrite (push_window_slides P (fast_window cfg)), (push_window_slides P (slow_window cfg)) by (done || nia).
  by rewrite !bind_Some_l.
Qed.

Lemma push_prices_from P cfg qs : forall ps,
  0 <= fast_window cfg -> 0 <= slow_window cfg -> 0 <= P ->
  P * (Z.max (fast_window cfg) (slow_window cfg) + 1) <= INT64_MAX -> Forall (fun p => - P <= p <= P) (ps ++ qs) ->
  push_prices qs (ma_after cfg ps) = Some (ma_after cfg (ps ++ qs)).
Proof.
  induction qs as [|q qs IH]; intros ps Hf Hs HP Hb Hps; [by rewrite app_nil_r|].
  assert (ps ++ q :: qs = (ps ++ [q]) ++ qs) as Eq by by rewrite <-app_assoc. rewrite Eq in *.
  apply Forall_app in Hps as Hpq. destruct Hpq as [Hpq _].
  pose proof (push_price_after P cfg ps q 0 Hf Hs HP Hb Hpq) as E1.
  change (set_last_sign 0 (ma_after ?c ?l)) with (ma_after c l) in E1.
  cbn [push_prices]. rewrite E1, bind_Some_l. by apply (IH (ps ++ [q])).
Qed.

(** (C37) The rolling averages are the averages: after any history of prices
    bounded by [P], with windows for which the sums fit [int64_t], both rolling
    windows hold the last prices of the history and their exact sums, nothing
    overflows, and the sign of the crossover is the one computed from scratch on
    the whole history. *)
Theorem moving_averages_equiv P cfg ps :
  0 <= fast_window cfg -> 0 <= slow_window cfg -> 0 <= P ->
  P * (Z.max (fast_window cfg) (slow_window cfg) + 1) <= INT64_MAX -> Forall (fun p => - P <= p <= P) ps ->
  exists m, push_prices ps (MACross_new cfg) = Some m /\
    fast_win_ m = last_prices (fast_window cfg) ps /\ slow_win_ m = last_prices (slow_window cfg) ps /\
    fast_avg m = simple_average (last_prices (fast_window cfg) ps) /\
    slow_avg m = simple_average (last_prices (slow_window cfg) ps) /\
    ma_sign m = reference_sign (fast_window cfg) (slow_window cfg) ps.
Proof.
  intros Hf Hs HP Hb Hps. pose proof (push_prices_from P cfg ps []) as E. exists (ma_after cfg ps).
  split; [by apply E|]. by split_and!.
Qed.

Lemma moving_averages_equiv_witness :
  exists m, push_prices [100; 103; 90; 95] (MACross_new (mkMAConfig 2 3 50 1)) = Some m /\
    fast_win_ m = [90; 95] /\ slow_win_ m = [103; 90; 95] /\
    fast_avg m = 92 /\ slow_avg m = 96 /\ ma_sign m = -1.
Proof.
  apply (moving_averages_equiv 1000 (mkMAConfig 2 3 50 1) [100; 103; 90; 95]).
  - simpl. lia.
  - simpl. lia.
  - lia.
  - simpl. lia64.
  - repeat constructor; lia.
Defined.
