(* ===== verification/Exposure.v ===== *)
(** * Exposure of strategies

    The exposure of a strategy on a side is its position in the direction of
    that side together with what rests there under its name: the position it
    would reach if all its orders of the side were filled.  Placements, fills
    and cancels move it in one way only, whoever trades: a strategy's exposure
    on a side grows by the quantity it places there and by nothing else.  On
    this rests the inventory bound of [Trading].  The second part gathers
    the bounds under which a strategy's calls are defined. *)

From S2P Require Import Prelude Pool OrderedMap Level OrderBook BookSpec BookRefine BookQuery BookRun Flow Portfolio PortfolioProps Engine Strategy StrategyProps.

(** ** Orders of one owner *)

Section Owned.
Context (P : OrderId -> Prop) `{forall id, Decision (P id)}.

Definition depth_of (os : list Order) : Quantity := depth (filter (fun o => P (o_id o)) os).
Definition traded_of (trs : list Trade) : Quantity := traded (filter (fun tr => P (maker_id tr)) trs).

Lemma depth_of_cons o os : depth_of (o :: os) = (if decide (P (o_id o)) then o_qty o else 0) + depth_of os.
Proof. unfold depth_of. rewrite filter_cons. case_decide; rewrite ?depth_cons; lia. Qed.

Lemma traded_of_nil : traded_of [] = 0.
Proof. done. Qed.

Lemma traded_of_cons tr trs :
  traded_of (tr :: trs) = (if decide (P (maker_id tr)) then tr_qty tr else 0) + traded_of trs.
Proof. unfold traded_of. rewrite filter_cons. case_decide; rewrite ?traded_cons; lia. Qed.

Lemma depth_of_none os : Forall (fun o => ~ P (o_id o)) os -> depth_of os = 0.
Proof. induction 1 as [|o os Ho _ IH]; [done|]. rewrite depth_of_cons, IH. by rewrite decide_False. Qed.

Lemma depth_of_nonneg os : positive os -> 0 <= depth_of os.
Proof. intros Hp. by apply depth_nonneg, Forall_sublist_filter. Qed.

Lemma traded_of_bounds trs : Forall (fun tr => 0 < tr_qty tr) trs -> 0 <= traded_of trs <= traded trs.
Proof.
  induction 1 as [|tr trs Ht _ IH]; [done|]. rewrite traded_of_cons, traded_cons. case_decide; lia.
Qed.

(** What the owner's orders lose to a taker is what it trades as a maker. *)
Lemma amatch_depth_of c t l q os ts q' r :
  positive os -> amatch c t l q os = (ts, q', r) -> depth_of r = depth_of os - traded_of ts.
Proof.
  intros Hpos Hm. amatch_induct Hm Hpos.
  - intros. rewrite traded_of_nil. lia.
  - intros. rewrite traded_of_nil. lia.
  - intros q o os ts q' r _ _ ->. rewrite depth_of_cons, traded_of_cons. simpl. case_decide; lia.
  - intros q o os _ _. rewrite !depth_of_cons, traded_of_cons, traded_of_nil. simpl. case_decide; lia.
Qed.

Lemma depth_of_ainsert c o os : depth_of (ainsert c o os) = (if decide (P (o_id o)) then o_qty o else 0) + depth_of os.
Proof. rewrite <-depth_of_cons. unfold depth_of, depth. by rewrite ainsert_Permutation. Qed.

End Owned.

Lemma depth_of_mono (P Q : OrderId -> Prop) `{forall id, Decision (P id)} `{forall id, Decision (Q id)} os :
  positive os -> Forall (fun o => P (o_id o) -> Q (o_id o)) os -> depth_of P os <= depth_of Q os.
Proof.
  induction 1 as [|o os Ho _ IH]; [done|]. intros [HPQ ?]%Forall_cons. rewrite !depth_of_cons.
  specialize (IH ltac:(done)). do 2 case_decide; try lia. naive_solver.
Qed.

Lemma depth_of_sublist (P : OrderId -> Prop) `{forall id, Decision (P id)} os os' :
  os' `sublist_of` os -> positive os -> depth_of P os' <= depth_of P os.
Proof.
  intros Hs. induction Hs as [|o os' os Hs IH|o os' os Hs IH]; intros Hp; [done|..];
    apply Forall_cons in Hp as [??]; rewrite ?depth_of_cons; specialize (IH ltac:(done)); case_decide; lia.
Qed.

(** ** Fills of one owner *)

Lemma net_cons f fs : net (f :: fs) = signed f + net fs.
Proof. done. Qed.
Lemma volume_app fs1 fs2 : volume (fs1 ++ fs2) = volume fs1 + volume fs2.
Proof. unfold volume. by rewrite fmap_app, sumZ_app. Qed.

Lemma net_fills_of p owner side routing trs :
  net (fills_of p owner side routing trs) =
  signed_qty side ((if decide (p = owner) then traded trs else 0) - traded_of (fun id => routing !! id = Some p) trs).
Proof.
  induction trs as [|tr trs IH]; [destruct side; simpl; by destruct (decide (p = owner))|].
  rewrite fills_of_cons, !net_app, IH, traded_cons, traded_of_cons. unfold taker_fill, fills_to, maker_fill.
  destruct (decide (p = owner)), (decide (routing !! maker_id tr = Some p)), side;
    rewrite ?net_cons; unfold signed; cbn [signed_qty opposite f_side f_qty]; change (net []) with 0; lia.
Qed.

Lemma fills_of_volume p owner side routing trs :
  Forall (fun tr => 0 < tr_qty tr) trs ->
  volume (fills_of p owner side routing trs) <= 2 * traded trs.
Proof.
  induction 1 as [|tr trs Ht _ IH]; [done|]. rewrite fills_of_cons, !volume_app, traded_cons.
  assert (volume (taker_fill owner side tr p) <= tr_qty tr) by (unfold taker_fill, fills_to; case_decide; unfold volume; simpl; lia).
  assert (volume (maker_fill side routing tr p) <= tr_qty tr) by (unfold maker_fill; case_decide; unfold volume; simpl; lia).
  lia.
Qed.

Lemma fills_of_ok P p owner side routing trs :
  Forall (fun tr => 0 < tr_qty tr /\ Z.abs (tr_price tr) <= P) trs ->
  Forall (fill_ok P) (fills_of p owner side routing trs).
Proof.
  induction 1 as [|tr trs [Hq Hp] _ IH]; [constructor|]. rewrite fills_of_cons. unfold taker_fill, fills_to, maker_fill.
  apply Forall_app. split; [|apply Forall_app; split; [|done]]; case_decide; repeat constructor; simpl; lia.
Qed.

(** The fills an exogenous placement delivers to [p]: a routing entry is
    erased with its first fill. *)
Fixpoint ext_fills (p : sptr) (side : Side) (routing : gmap Z sptr) (trs : list Trade) : list Fill :=
  match trs with
  | [] => []
  | tr :: trs => maker_fill side routing tr p ++ ext_fills p side (delete (maker_id tr) routing) trs
  end.

Definition ext_routing (routing : gmap Z sptr) (trs : list Trade) : gmap Z sptr :=
  foldl (fun r tr => delete (maker_id tr) r) routing trs.

Lemma ext_routing_subset trs : forall routing, ext_routing routing trs ⊆ routing.
Proof.
  induction trs as [|tr trs IH]; intros routing; [done|]. etrans; [apply IH|apply delete_subseteq].
Qed.

Lemma traded_of_subset (routing routing' : gmap Z sptr) p trs :
  routing' ⊆ routing -> Forall (fun tr => 0 < tr_qty tr) trs ->
  traded_of (fun id => routing' !! id = Some p) trs <= traded_of (fun id => routing !! id = Some p) trs.
Proof.
  intros Hs. induction 1 as [|tr trs Ht _ IH]; [done|]. rewrite !traded_of_cons.
  do 2 case_decide; try lia. exfalso. eauto using lookup_weaken.
Qed.

(** What is delivered of the trades, and at most all of them. *)
Lemma ext_fills_net p side trs : forall routing,
  Forall (fun tr => 0 < tr_qty tr) trs ->
  exists x, net (ext_fills p side routing trs) = signed_qty side (- x) /\
    volume (ext_fills p side routing trs) = x /\ 0 <= x <= traded_of (fun id => routing !! id = Some p) trs.
Proof.
  induction trs as [|tr trs IH]; intros routing Hp; [exists 0; by destruct side|].
  apply Forall_cons in Hp as [Ht Hp]. destruct (IH (delete (maker_id tr) routing) Hp) as (x & Hn & Hv & Hx).
  pose proof (traded_of_subset routing (delete (maker_id tr) routing) p trs (delete_subseteq _ _) Hp).
  cbn [ext_fills]. rewrite net_app, volume_app, Hn, Hv, traded_of_cons. unfold maker_fill.
  destruct (decide (routing !! maker_id tr = Some p)).
  - exists (tr_qty tr + x). unfold net, volume, signed. destruct side; simpl; lia.
  - exists x. unfold net, volume. simpl. lia.
Qed.

Lemma ext_fills_ok P p side trs : forall routing,
  Forall (fun tr => 0 < tr_qty tr /\ Z.abs (tr_price tr) <= P) trs ->
  Forall (fill_ok P) (ext_fills p side routing trs).
Proof.
  induction trs as [|tr trs IH]; intros routing Hf; [constructor|]. apply Forall_cons in Hf as [[Hq Hp] Hf].
  cbn [ext_fills]. apply Forall_app. split; [|by apply IH]. unfold maker_fill.
  case_decide; repeat constructor; simpl; lia.
Qed.

(** ** Exposure *)

Definition exposure (side : Side) (routing : gmap Z sptr) (a : ABook) (p : sptr) (pos : Quantity) : Z :=
  signed_qty side pos + depth_of (fun id => routing !! id = Some p) (ab_side a side).

Lemma depth_of_ext (P Q : OrderId -> Prop) `{forall id, Decision (P id)} `{forall id, Decision (Q id)} os :
  Forall (fun o => P (o_id o) <-> Q (o_id o)) os -> depth_of P os = depth_of Q os.
Proof.
  induction 1 as [|o os HPQ _ IH]; [done|]. rewrite !depth_of_cons, IH. do 2 case_decide; naive_solver.
Qed.

Lemma traded_of_ext (P Q : OrderId -> Prop) `{forall id, Decision (P id)} `{forall id, Decision (Q id)} trs :
  Forall (fun tr => P (maker_id tr) <-> Q (maker_id tr)) trs -> traded_of P trs = traded_of Q trs.
Proof.
  induction 1 as [|tr trs HPQ _ IH]; [done|]. rewrite !traded_of_cons, IH. do 2 case_decide; naive_solver.
Qed.

Lemma awf_ids_below a s : abook_wf a -> Forall (fun o => o_id o < ab_next_id a) (ab_side a s).
Proof. intros Hwf. eapply Forall_impl; [apply (awf_side _ Hwf)|]. intros o []. lia. Qed.

(** The trades of a placement are with resting orders, at their prices. *)
Lemma aplace_trades P a side px qty :
  abook_wf a -> Forall (fun o => Z.abs (o_price o) <= P) (ab_side a (opposite side)) ->
  Forall (fun tr => 0 < tr_qty tr /\ Z.abs (tr_price tr) <= P) (aplace a side px qty).2 /\
  Forall (fun tr => maker_id tr < ab_next_id a) (aplace a side px qty).2.
Proof.
  intros Hwf Hp. destruct (aplace_shape a side px qty) as (q & r & Hm & _).
  pose proof (amatch_fills _ _ _ _ _ _ _ _ (awf_positive _ _ Hwf) Hm) as Hf.
  pose proof (Forall_take _ (length (aplace a side px qty).2) _ Hp) as Hp'.
  pose proof (Forall_take _ (length (aplace a side px qty).2) _ (awf_ids_below a (opposite side) Hwf)) as Hi'.
  split; (eapply Forall2_Forall_r; [exact Hf|]).
  - eapply Forall_impl; [exact Hp'|]. unfold fills. simpl. intros o Ho tr (_ & _ & Hpr & _ & Hq). rewrite Hpr. lia.
  - eapply Forall_impl; [exact Hi'|]. unfold fills. simpl. intros o Ho tr (_ & Hmk & _). lia.
Qed.

Lemma trades_positive P trs :
  Forall (fun tr => 0 < tr_qty tr /\ Z.abs (tr_price tr) <= P) trs -> Forall (fun tr => 0 < tr_qty tr) trs.
Proof. intros Hf. eapply Forall_impl; [done|]. by intros tr []. Qed.

(** A routing entry of the next id says nothing about the orders of the book. *)
Lemma routed_fresh (routing : gmap Z sptr) a s owner p :
  abook_wf a ->
  depth_of (fun id => <[ab_next_id a := owner]> routing !! id = Some p) (ab_side a s) =
  depth_of (fun id => routing !! id = Some p) (ab_side a s).
Proof.
  intros Hwf. apply depth_of_ext. eapply Forall_impl; [by apply awf_ids_below|].
  intros o Ho. simpl in Ho. by rewrite lookup_insert_ne by lia.
Qed.

Lemma aplace_trades_positive a side px qty :
  abook_wf a -> Forall (fun tr => 0 < tr_qty tr) (aplace a side px qty).2.
Proof.
  intros Hwf. destruct (aplace_shape a side px qty) as (q & r & Hm & _).
  by eapply amatch_trades_positive, Hm; apply awf_positive.
Qed.

(** What rests for [p] after a placement, on both sides, with the routing the
    placement leaves. *)
Lemma aplace_resting (routing : gmap Z sptr) a side px qty p :
  abook_wf a ->
  let a' := (aplace a side px qty).1.1 in
  let trs := (aplace a side px qty).2 in
  let rest s b := depth_of (fun id => routing !! id = Some p) (ab_side b s) in
  rest (opposite side) a' = rest (opposite side) a - traded_of (fun id => routing !! id = Some p) trs /\
  rest side a' <= rest side a +
    (if decide (routing !! ab_next_id a = Some p) then Z.max qty 0 - traded trs else 0) /\
  0 <= traded trs <= Z.max qty 0.
Proof.
  intros Hwf. destruct (aplace_shape a side px qty) as (q & r & Hm & _ & Hopp & Hown). cbv beta zeta in *.
  pose proof (awf_positive _ (opposite side) Hwf) as Hpos. rewrite Hopp, Hown.
  pose proof (amatch_depth_of (fun id => routing !! id = Some p) _ _ _ _ _ _ _ _ Hpos Hm) as ->.
  destruct (amatch_conserve _ _ _ _ _ _ _ _ Hpos Hm) as (Hq & _ & Hnn).
  pose proof (traded_nonneg _ (amatch_trades_positive _ _ _ _ _ _ _ _ Hpos Hm)).
  assert (qty <= 0 -> traded (aplace a side px qty).2 = 0) as H0.
  { intros Hle. rewrite amatch_zero in Hm by done. by injection Hm as <-. }
  split; [done|]. destruct (_ && _) eqn:Er.
  - apply andb_true_iff in Er as [Hlt%Z.ltb_lt _]. rewrite depth_of_ainsert. simpl. case_decide; lia.
  - case_decide; lia.
Qed.

(** A placement by [owner]: its own exposure grows by at most the quantity, on
    the side of the order; no other exposure grows. *)
Lemma placement_exposure (routing : gmap Z sptr) a owner side px qty p pos s :
  abook_wf a ->
  exposure s (<[ab_next_id a := owner]> routing) (aplace a side px qty).1.1 p
    (pos + net (placement_fills a routing owner side px qty p)) <=
  exposure s routing a p pos + (if decide (p = owner /\ s = side) then Z.max qty 0 else 0).
Proof.
  intros Hwf. unfold placement_fills. rewrite net_fills_of.
  destruct (aplace_resting (<[ab_next_id a := owner]> routing) a side px qty p Hwf) as (Ho & Hs & Ht).
  rewrite (routed_fresh routing a (opposite side) owner p Hwf) in Ho.
  rewrite (routed_fresh routing a side owner p Hwf), lookup_insert_eq in Hs.
  pose proof (traded_of_bounds (fun id => <[ab_next_id a := owner]> routing !! id = Some p) _
    (aplace_trades_positive a side px qty Hwf)) as Hx.
  unfold exposure. destruct (side_of_case side s) as [->| ->].
  - destruct (decide (p = owner /\ side = side)) as [[-> _]|Hne].
    + rewrite !decide_True in * by done. destruct side; simpl in *; lia.
    + rewrite !decide_False in * by naive_solver. destruct side; simpl in *; lia.
  - rewrite (decide_False (P := p = owner /\ opposite side = side)) by (intros [_ ?]; by destruct side).
    destruct (decide (p = owner)); destruct side; simpl in *; lia.
Qed.

Lemma depth_of_subset (routing routing' : gmap Z sptr) p os :
  routing' ⊆ routing -> positive os ->
  depth_of (fun id => routing' !! id = Some p) os <= depth_of (fun id => routing !! id = Some p) os.
Proof.
  intros Hs Hp. apply depth_of_mono; [done|]. apply Forall_forall. intros o _ Ho. by eapply lookup_weaken.
Qed.

(** An exogenous placement: no exposure grows. *)
Lemma ext_exposure (routing : gmap Z sptr) a side px qty p pos s :
  abook_wf a -> abook_wf (aplace a side px qty).1.1 -> routing !! ab_next_id a = None ->
  let trs := (aplace a side px qty).2 in
  exposure s (ext_routing routing trs) (aplace a side px qty).1.1 p (pos + net (ext_fills p side routing trs)) <=
  exposure s routing a p pos.
Proof.
  intros Hwf Hwf' Hfresh. cbv zeta.
  pose proof (depth_of_subset routing _ p _ (ext_routing_subset (aplace a side px qty).2 routing) (awf_positive _ s Hwf')).
  destruct (aplace_resting routing a side px qty p Hwf) as (Ho & Hs & _). cbv zeta in *. rewrite Hfresh in Hs.
  destruct (ext_fills_net p side _ routing (aplace_trades_positive a side px qty Hwf)) as (x & Hn & _ & Hx).
  rewrite decide_False in Hs by done. unfold exposure. rewrite Hn.
  destruct (side_of_case side s) as [->| ->]; destruct side; simpl in *; lia.
Qed.

Lemma acancel_sublist a id s : ab_side (acancel a id).2 s `sublist_of` ab_side a s.
Proof. unfold acancel. case_decide; [|done]. destruct s; apply sublist_filter. Qed.

(** A cancel: no exposure grows. *)
Lemma cancel_exposure (routing routing' : gmap Z sptr) a id p pos s :
  abook_wf a -> routing' ⊆ routing ->
  exposure s routing' (acancel a id).2 p pos <= exposure s routing a p pos.
Proof.
  intros Hwf Hs. unfold exposure.
  pose proof (depth_of_subset routing routing' p _ Hs (awf_positive _ s Hwf)).
  pose proof (depth_of_sublist (fun id => routing' !! id = Some p) _ _ (acancel_sublist a id s) (awf_positive _ s Hwf)).
  lia.
Qed.

Lemma aplace_ids a side px qty s id :
  abook_wf a -> id ∈ (o_id <$> ab_side (aplace a side px qty).1.1 s) ->
  id ∈ (o_id <$> ab_side a s) \/ (s = side /\ id = ab_next_id a).
Proof.
  intros Hwf. destruct (aplace_shape a side px qty) as (q & r & Hm & _ & Hopp & Hown). cbv zeta in Hown.
  destruct (side_of_case side s) as [->| ->].
  - rewrite Hown. destruct (_ && _); [|by left]. rewrite ainsert_Permutation. csimpl. rewrite elem_of_cons. naive_solver.
  - rewrite Hopp. pose proof (amatch_suffix o_id _ _ _ _ _ _ _ _ ltac:(done) (awf_positive _ _ Hwf) Hm) as [k Hk].
    rewrite Hk. intros. left. apply elem_of_app. by right.
Qed.

Lemma acancel_ids a id s id' :
  id' ∈ (o_id <$> ab_side (acancel a id).2 s) -> id' ∈ (o_id <$> ab_side a s) /\ id' <> id.
Proof.
  unfold acancel. case_decide as Hin.
  - intros (o & -> & Ho)%list_elem_of_fmap. assert (o ∈ filter (fun o => o_id o <> id) (ab_side a s)) as [? ?]%list_elem_of_filter
      by by destruct s. split; [by apply list_elem_of_fmap_2|done].
  - intros H0. split; [done|]. intros ->. apply Hin. unfold ab_orders. rewrite fmap_app. apply elem_of_app.
    destruct s; [by left|by right].
Qed.

(** ** Bounds under which calls are defined *)

Section World.
Context {E D : Type} `{HE : MatchingEngine E}.
(** Largest price, total quantity placed, and depth of a side at the start. *)
Context (PM VM B0 : Z) (HP : 1 <= PM < 2 ^ 62) (HG : 4 * PM * (2 * VM) <= INT64_MAX) (HB : B0 + VM <= INT64_MAX).

Abbreviation World := (World E D).

(** Prices of the book within [P], a quantity [V] placed so far, ids up to
    [N]. *)
Record world_ok (P V N : Z) (w : World) (a : ABook) : Prop := {
  wo_abs : e_abs (w_engine w) a;
  wo_price s : Forall (fun o => Z.abs (o_price o) <= P) (ab_side a s);
  wo_depth s : depth (ab_side a s) <= B0 + V;
  wo_next : ab_next_id a <= N;
  wo_routing : routing_ok (w_routing w) (w_strats w);
  wo_routed id p : w_routing w !! id = Some p -> id < ab_next_id a;
  wo_portfolio p s : w_strats w !! p = Some s -> bounded PM (portfolio_ s) /\ gross_volume_ (portfolio_ s) <= 2 * V
}.

Lemma world_ok_weaken P V N P' V' N' w a :
  world_ok P V N w a -> P <= P' -> V <= V' -> N <= N' -> world_ok P' V' N' w a.
Proof.
  intros [Ha Hp Hd Hn Hr Hi Hf] HP' HV HN. split; try done.
  - intros s. eapply Forall_impl; [apply Hp|]. simpl. lia.
  - intros s. specialize (Hd s). lia.
  - lia.
  - intros p s Hs. destruct (Hf p s Hs). split; [done|lia].
Qed.

Lemma world_ok_flow P V N w a : world_ok P V N w a -> P <= PM -> flow_ok (B0 + V) a.
Proof.
  intros Hw HPM. split; [|apply (wo_depth _ _ _ _ _ Hw)]. intros s.
  eapply Forall_impl; [apply (wo_price _ _ _ _ _ Hw)|]. unfold price_ok. simpl. lia.
Qed.

(** An order of [p] rests on a side. *)
Definition owned (w : World) (a : ABook) (p : sptr) (side : Side) (id : OrderId) : Prop :=
  id ∈ (o_id <$> ab_side a side) /\ w_routing w !! id = Some p.

(** What a call does to the strategies: exposures grow by at most [grow], and
    the only new orders are [new]; the data of the derived classes stay. *)
Record change (grow : sptr -> Side -> Z) (new : sptr -> Side -> OrderId -> Prop)
    (w w' : World) (a a' : ABook) : Prop := {
  ch_strats p s : w_strats w !! p = Some s ->
    exists s', w_strats w' !! p = Some s' /\ derived s' = derived s /\
      forall side, exposure side (w_routing w') a' p (position_ (portfolio_ s')) <=
        exposure side (w_routing w) a p (position_ (portfolio_ s)) + grow p side;
  ch_dom p : is_Some (w_strats w' !! p) -> is_Some (w_strats w !! p);
  ch_owned p side id : owned w' a' p side id -> owned w a p side id \/ new p side id
}.

(** Fills of a bounded world are defined. *)
Lemma world_fills P V N w a (F : sptr -> list Fill) x :
  world_ok P V N w a -> 0 <= x -> V + x <= VM -> (forall p, Forall (fill_ok PM) (F p)) -> (forall p, volume (F p) <= 2 * x) ->
  fills_defined F (w_strats w) /\
  forall ss, strats_after F (w_strats w) ss ->
    forall p s, ss !! p = Some s -> bounded PM (portfolio_ s) /\ gross_volume_ (portfolio_ s) <= 2 * (V + x).
Proof.
  intros Hw Hx HV Hok Hvol.
  assert (forall p s, w_strats w !! p = Some s -> exists pf, run_fills (portfolio_ s) (F p) = Some pf /\
    bounded PM pf /\ gross_volume_ pf <= 2 * (V + x)) as Hrun.
  { intros p s Hs. destruct (wo_portfolio _ _ _ _ _ Hw p s Hs) as [Hb Hg]. specialize (Hvol p).
    apply run_fills_defined; [lia|nia|done|apply Hok|lia]. }
  split.
  - intros p s Hs. destruct (Hrun p s Hs) as (pf & -> & _). eauto.
  - intros ss Ha p s' Hs'. specialize (Ha p). rewrite Hs' in Ha. inversion Ha as [s ? Hst Heq|]; subst.
    destruct (Hrun p s (eq_sym Heq)) as (pf & Epf & Hb & Hg). rewrite (sa_portfolio _ _ _ Hst) in Epf. by simplify_eq.
Qed.

(** Strategies that differ in counters or derived data only. *)
Definition same_portfolios (ss ss' : gmap sptr (Strategy D)) : Prop :=
  forall p, option_Forall2 (fun s s' => portfolio_ s' = portfolio_ s) (ss !! p) (ss' !! p).

Lemma same_portfolios_insert ss p s s' :
  ss !! p = Some s -> portfolio_ s' = portfolio_ s -> same_portfolios ss (<[p := s']> ss).
Proof.
  intros Hs Hp q. destruct (decide (q = p)) as [->|]; [rewrite Hs, lookup_insert_eq; by constructor|].
  rewrite lookup_insert_ne by done. destruct (ss !! q); by constructor.
Qed.

Lemma same_portfolios_submitted owner ss : same_portfolios ss (submitted owner ss).
Proof.
  intros q. unfold submitted. destruct (decide (q = owner)) as [->|].
  - rewrite lookup_alter_eq. destruct (ss !! owner); by constructor.
  - rewrite lookup_alter_ne by done. destruct (ss !! q); by constructor.
Qed.

Lemma world_ok_same P V N e r ss ss' a :
  world_ok P V N (mkWorld e r ss) a -> same_portfolios ss ss' -> world_ok P V N (mkWorld e r ss') a.
Proof.
  intros [Ha Hp Hd Hn Hr Hi Hf] Hs. split; try done; simpl in *.
  - intros id p Hid. destruct (Hr id p Hid) as [s Es]. specialize (Hs p). simpl in Es. rewrite Es in Hs. inversion Hs. eauto.
  - intros p s' Es'. specialize (Hs p). rewrite Es' in Hs. inversion Hs as [s ? E1 E2|]; subst.
    rewrite E1. by apply (Hf p s).
Qed.

(** The book after a placement. *)
Lemma aplace_book P V a side px qty :
  abook_wf a -> flow_ok (B0 + V) a -> (forall s, Forall (fun o => Z.abs (o_price o) <= P) (ab_side a s)) ->
  Z.abs px <= P <= PM ->
  (forall s, Forall (fun o => Z.abs (o_price o) <= P) (ab_side (aplace a side px qty).1.1 s)) /\
  forall s, depth (ab_side (aplace a side px qty).1.1 s) <= B0 + (V + Z.max qty 0).
Proof.
  intros Hwf Hf Hp Hpx. split.
  - destruct (aplace_shape a side px qty) as (q & r & Hm & _ & Hopp & Hown). cbv zeta in Hown.
    intros s. destruct (side_of_case side s) as [->| ->].
    + rewrite Hown. destruct (_ && _); [|done]. rewrite ainsert_Permutation. constructor; [simpl; lia|done].
    + rewrite Hopp. by eapply (amatch_Forall _ _ _ _ _ _ _ _ (fun o => Z.abs (o_price o) <= P));
        [|apply awf_positive|exact Hm|].
  - intros s. assert (price_ok px) as Hok by (unfold price_ok; lia).
    pose proof (fo_depth _ _ (aplace_flow _ a side px qty Hwf Hf Hok) s). lia.
Qed.

Lemma aplace_next P V N a side px qty w :
  world_ok P V N w a -> N + 1 < UINT64_SIZE -> ab_next_id (aplace a side px qty).1.1 = ab_next_id a + 1.
Proof.
  intros Hw HN. rewrite aplace_next_id. pose proof (awf_next_id _ (e_abs_wf _ _ (wo_abs _ _ _ _ _ Hw))).
  pose proof (wo_next _ _ _ _ _ Hw). apply u64_small. lia.
Qed.

(** The effect of fills on one strategy. *)
Lemma strat_after_position fs (s s' : Strategy D) :
  strat_after fs s s' -> position_ (portfolio_ s') = position_ (portfolio_ s) + net fs.
Proof. intros Hs. apply (run_fills_effect fs _ _ (sa_portfolio _ _ _ Hs)). Qed.

(** Fills [F] have reached the strategies. *)
Definition filled (F : sptr -> list Fill) (ss ss' : gmap sptr (Strategy D)) : Prop :=
  forall p, option_Forall2 (fun s s' => derived s' = derived s /\
    position_ (portfolio_ s') = position_ (portfolio_ s) + net (F p)) (ss !! p) (ss' !! p).

Lemma filled_after F ss ss' : strats_after F ss ss' -> filled F ss ss'.
Proof.
  intros Ha p. specialize (Ha p). destruct Ha as [s s' Hs|]; constructor.
  split; [apply (sa_derived _ _ _ Hs)|by apply strat_after_position].
Qed.

Lemma filled_submitted F owner ss ss' : filled F (submitted owner ss) ss' -> filled F ss ss'.
Proof.
  intros Hf p. specialize (Hf p). unfold submitted in Hf. destruct (decide (p = owner)) as [->|].
  - rewrite lookup_alter_eq in Hf. destruct (ss !! owner); inversion Hf; by constructor.
  - by rewrite lookup_alter_ne in Hf by done.
Qed.

Lemma filled_dom F ss ss' p : filled F ss ss' -> is_Some (ss !! p) <-> is_Some (ss' !! p).
Proof. intros Hf. specialize (Hf p). inversion Hf; split; intros []; eauto; done. Qed.

Lemma change_filled F grow new w w' a a' :
  filled F (w_strats w) (w_strats w') ->
  (forall p side pos, exposure side (w_routing w') a' p (pos + net (F p)) <=
     exposure side (w_routing w) a p pos + grow p side) ->
  (forall p side id, owned w' a' p side id -> owned w a p side id \/ new p side id) ->
  change grow new w w' a a'.
Proof.
  intros Hf He Hown. split; [| |done].
  - intros p s Hs. pose proof (Hf p) as Hfp. rewrite Hs in Hfp. inversion Hfp as [? s' [Hd Hpos] E1 E2|]; subst.
    exists s'. split_and!; [done..|]. intros side. rewrite Hpos. apply He.
  - intros p. by apply (filled_dom F).
Qed.

(** The world a placement leaves, by a strategy or not. *)
Lemma placed_world P V N w a side px qty F e' r' ss' :
  world_ok P V N w a -> Z.abs px <= P <= PM -> N + 1 < UINT64_SIZE ->
  e_abs e' (aplace a side px qty).1.1 -> filled F (w_strats w) ss' ->
  (forall id p, r' !! id = Some p -> w_routing w !! id = Some p \/ (id = ab_next_id a /\ is_Some (w_strats w !! p))) ->
  (forall p s, ss' !! p = Some s -> bounded PM (portfolio_ s) /\
     gross_volume_ (portfolio_ s) <= 2 * (V + Z.max qty 0)) ->
  world_ok P (V + Z.max qty 0) (N + 1) (mkWorld e' r' ss') (aplace a side px qty).1.1.
Proof.
  intros Hw Hpx HN Ha' Hfl Hr' Hport. pose proof Hw as [Ha Hp Hd Hn Hr Hi Hf]. pose proof (e_abs_wf _ _ Ha) as Hwf.
  destruct (aplace_book P V a side px qty Hwf (world_ok_flow _ _ _ _ _ Hw ltac:(lia)) Hp Hpx) as [Hp' Hd'].
  pose proof (aplace_next _ _ _ a side px qty _ Hw HN) as Hn'. split; simpl; try done.
  - lia.
  - intros id p Hid. apply (filled_dom _ _ _ p Hfl). destruct (Hr' id p Hid) as [Hid'|[_ ?]]; [by eapply Hr|done].
  - intros id p Hid. destruct (Hr' id p Hid) as [Hid'%Hi|[-> _]]; lia.
Qed.

Lemma place_ok P V N c side px qty w a :
  world_ok P V N w a -> is_Some (w_strats w !! owner_ c) -> Z.abs px <= P <= PM ->
  i64_range qty -> V + Z.max qty 0 <= VM -> N + 1 < UINT64_SIZE ->
  exists w', ctx_place_limit c side px qty w = Some (w', ab_next_id a) /\
    world_ok P (V + Z.max qty 0) (N + 1) w' (aplace a side px qty).1.1 /\
    change (fun p s => if decide (p = owner_ c /\ s = side) then Z.max qty 0 else 0)
      (fun p s id => p = owner_ c /\ s = side /\ id = ab_next_id a) w w' a (aplace a side px qty).1.1 /\
    filled (placement_fills a (w_routing w) (owner_ c) side px qty) (w_strats w) (w_strats w').
Proof.
  intros Hw Ho Hpx Hq HV HN. pose proof Hw as [Ha Hp Hd Hn Hr Hi Hf]. pose proof (e_abs_wf _ _ Ha) as Hwf.
  set (F := placement_fills a (w_routing w) (owner_ c) side px qty).
  destruct (aplace_trades PM a side px qty Hwf) as [Htr _].
  { eapply Forall_impl; [apply (Hp (opposite side))|]. simpl. lia. }
  destruct (aplace_resting (w_routing w) a side px qty 0 Hwf) as (_ & _ & Ht).
  assert (world_ok P V N (mkWorld (w_engine w) (w_routing w) (submitted (owner_ c) (w_strats w))) a) as Hw1.
  { destruct w. eapply world_ok_same; [exact Hw|apply same_portfolios_submitted]. }
  assert (forall p, Forall (fill_ok PM) (F p)) as HFok by (intros p; by apply fills_of_ok).
  assert (forall p, volume (F p) <= 2 * Z.max qty 0) as HFv.
  { intros p. etrans; [apply fills_of_volume; by eapply trades_positive|]. lia. }
  destruct (world_fills _ _ _ _ _ F (Z.max qty 0) Hw ltac:(lia) HV HFok HFv) as [Hdef _].
  destruct (world_fills _ _ _ _ _ F (Z.max qty 0) Hw1 ltac:(lia) HV HFok HFv) as [_ Hport].
  destruct (ctx_place_limit_spec c side px qty w a Ha ltac:(lia) Hq Ho Hr Hdef) as (w' & Ew & Ha' & Er & Hss).
  pose proof (filled_submitted _ _ _ _ (filled_after _ _ _ Hss)) as Hfl. fold F in Hfl.
  exists w'. split; [done|]. split_and!; [..|exact Hfl].
  - destruct w' as [e' r' ss']. simpl in *. subst r'. apply (placed_world _ _ _ w a side px qty F); [done..| |].
    + intros id p [[<- <-]|[_ ?]]%lookup_insert_Some; [by right|by left].
    + by apply Hport.
  - apply (change_filled F); [done| |].
    + intros p s pos. rewrite Er. by apply placement_exposure.
    + intros p s id [Hin Hro]. rewrite Er in Hro. apply lookup_insert_Some in Hro as [[<- <-]|[Hne Hro]].
      * apply aplace_ids in Hin as [Hin|[-> _]]; [|by right|done]. exfalso.
        apply list_elem_of_fmap in Hin as (o & Ho1 & Ho2).
        pose proof (proj1 (Forall_forall _ _) (awf_ids_below a s Hwf) o Ho2). simpl in *. lia.
      * apply aplace_ids in Hin as [Hin|[_ ->]]; [by left|done|done].
Qed.

Lemma filled_same ss ss' :
  (forall p, option_Forall2 (fun s s' => derived s' = derived s /\ portfolio_ s' = portfolio_ s) (ss !! p) (ss' !! p)) ->
  filled (fun _ => []) ss ss' /\ same_portfolios ss ss'.
Proof.
  intros Hs. split; intros p; specialize (Hs p); destruct Hs as [s s' [Hd Hp]|]; constructor; [|done].
  split; [done|]. rewrite Hp. change (net []) with 0. lia.
Qed.

(** A cancel, by a strategy or not. *)
Lemma cancelled_world P V N w a id e' r' ss' :
  world_ok P V N w a -> e_abs e' (acancel a id).2 -> r' ⊆ w_routing w ->
  filled (fun _ => []) (w_strats w) ss' -> same_portfolios (w_strats w) ss' ->
  let w' := mkWorld e' r' ss' in let a' := (acancel a id).2 in
  world_ok P V N w' a' /\ change (fun _ _ => 0) (fun _ _ _ => False) w w' a a' /\
  forall p side id', owned w' a' p side id' -> id' <> id.
Proof.
  intros Hw Ha' Hr' Hfl Hss w' a'. pose proof Hw as [Ha Hp Hd Hn Hr Hi Hf]. pose proof (e_abs_wf _ _ Ha) as Hwf.
  assert (forall p side id', owned w' a' p side id' -> owned w a p side id' /\ id' <> id) as Hown.
  { intros p side id' [Hin Hro]. apply acancel_ids in Hin as [Hin Hne]. split; [|done]. split; [done|].
    by eapply lookup_weaken. }
  split; [|split].
  - assert (world_ok P V N (mkWorld (w_engine w) (w_routing w) ss') a) as [_ _ _ _ Hr1 _ Hf1].
    { destruct w. by eapply world_ok_same. }
    unfold a'. split; simpl; try done; rewrite ?acancel_next_id; try done.
    + intros s. apply Forall_forall. intros o Ho. eapply elem_of_sublist in Ho; [|apply acancel_sublist].
      by apply (proj1 (Forall_forall _ _) (Hp s)).
    + intros s. etrans; [apply depth_sublist; [apply acancel_sublist|by apply awf_positive]|apply Hd].
    + intros id' p Hid. eapply (Hr1 id'). simpl. by eapply lookup_weaken.
    + intros id' p Hid. eapply Hi. by eapply lookup_weaken.
  - apply (change_filled (fun _ => [])); [done| |by intros p side id' [? _]%Hown; left].
    intros p side pos. change (net []) with 0. rewrite !Z.add_0_r. by apply cancel_exposure.
  - intros p side id' [_ ?]%Hown. done.
Qed.

Lemma cancel_ok P V N c id w a :
  world_ok P V N w a -> is_Some (w_strats w !! owner_ c) ->
  exists ok w', ctx_cancel c id w = Some (ok, w') /\ let a' := (acancel a id).2 in
    (world_ok P V N w' a' /\ change (fun _ _ => 0) (fun _ _ _ => False) w w' a a' /\
    forall p side id', owned w' a' p side id' -> id' <> id) /\
    filled (fun _ => []) (w_strats w) (w_strats w').
Proof.
  intros Hw [s Hs]. destruct (e_cancel_law _ a id (wo_abs _ _ _ _ _ Hw)) as (e' & Ee & _ & Ha').
  unfold ctx_cancel. rewrite Ee. cbn [mbind option_bind]. destruct (acancel a id).1.
  - unfold upd_strat. rewrite Hs. cbn [mbind option_bind]. eexists _, _. split; [done|].
    destruct (filled_same (w_strats w) (<[owner_ c := inc_canceled s]> (w_strats w))) as [Hfl Hss].
    { intros p. destruct (decide (p = owner_ c)) as [->|]; [rewrite Hs, lookup_insert_eq; by constructor|].
      rewrite lookup_insert_ne by done. destruct (w_strats w !! p); by constructor. }
    split; [|exact Hfl]. by apply cancelled_world; try done; apply delete_subseteq.
  - eexists _, _. split; [done|]. destruct (filled_same (w_strats w) (w_strats w)) as [Hfl Hss].
    { intros p. destruct (w_strats w !! p); by constructor. }
    split; [|exact Hfl]. by apply cancelled_world.
Qed.

End World.
