(* ===== verification/Holdings.v ===== *)
(** * Positions of all strategies together

    What one strategy buys another sells, or the tape does: the sum of the
    absolute positions grows by what the tape trades and by what the owner of
    an order moves itself, never more.  A strategy whose orders depend on its
    position ([MACross]) is bounded through this sum. *)

From S2P Require Import Prelude Pool OrderedMap Level OrderBook BookSpec BookRefine BookQuery BookRun Flow Portfolio PortfolioProps Engine Strategy StrategyProps Exposure.

(** ** Sums over strategies *)

Section Sums.
Context {A : Type}.

Lemma sumZ_le (f g : A -> Z) l : (forall x, x ∈ l -> f x <= g x) -> sumZ (f <$> l) <= sumZ (g <$> l).
Proof.
  induction l as [|x l IH]; intros Hle; [done|]. rewrite !fmap_cons. cbn [sumZ].
  pose proof (Hle x ltac:(by left)). specialize (IH (fun y Hy => Hle y (list_elem_of_further _ _ _ Hy))). lia.
Qed.

Lemma sumZ_add (f g : A -> Z) l : sumZ ((fun x => f x + g x) <$> l) = sumZ (f <$> l) + sumZ (g <$> l).
Proof. induction l as [|x l IH]; [done|]. rewrite !fmap_cons. cbn [sumZ]. lia. Qed.

(** At most one strategy of the list owns an order. *)
Lemma sumZ_owner `{EqDecision A} (o : option A) q l :
  NoDup l -> 0 <= q -> sumZ ((fun x => if decide (o = Some x) then q else 0) <$> l) <= q.
Proof.
  intros Hnd Hq. induction Hnd as [|x l Hx _ IH]; [done|]. rewrite fmap_cons. cbn [sumZ].
  destruct (decide (o = Some x)) as [->|]; [|lia].
  enough (sumZ ((fun y => if decide (Some x = Some y) then q else 0) <$> l) <= sumZ ((fun _ => 0) <$> l)) as Hz.
  { assert (sumZ ((fun _ : A => 0) <$> l) = 0) by (clear; induction l; [done|]; rewrite fmap_cons; cbn [sumZ]; lia). lia. }
  apply sumZ_le. intros y Hy. rewrite decide_False; [done|]. intros [= ->]. done.
Qed.

End Sums.

(** The makers of the trades share the quantity traded. *)
Lemma traded_split (routing : gmap Z sptr) trs l :
  NoDup l -> Forall (fun tr => 0 < tr_qty tr) trs ->
  sumZ ((fun p => traded_of (fun id => routing !! id = Some p) trs) <$> l) <= traded trs.
Proof.
  intros Hnd. induction 1 as [|tr trs Ht _ IH].
  { etrans; [apply (sumZ_le _ (fun _ => 0)); by intros|]. clear. induction l; [done|]. rewrite fmap_cons. cbn [sumZ]. done. }
  rewrite traded_cons. pose proof (sumZ_owner (routing !! maker_id tr) (tr_qty tr) l Hnd ltac:(lia)).
  etrans; [apply (sumZ_le _ (fun p => (if decide (routing !! maker_id tr = Some p) then tr_qty tr else 0)
    + traded_of (fun id => routing !! id = Some p) trs))|rewrite sumZ_add; lia].
  intros p _. by rewrite traded_of_cons.
Qed.

Section Holdings.
Context {D : Type}.

Definition position_at (ss : gmap sptr (Strategy D)) (p : sptr) : Quantity :=
  match ss !! p with Some s => position_ (portfolio_ s) | None => 0 end.

(** The absolute positions of the strategies of a run, each counted once. *)
Definition holdings (ps : list sptr) (ss : gmap sptr (Strategy D)) : Z :=
  sumZ ((fun p => Z.abs (position_at ss p)) <$> remove_dups ps).

Lemma holdings_nonneg ps ss : 0 <= holdings ps ss.
Proof. apply sumZ_nonneg, Forall_fmap, Forall_forall. intros p _. simpl. lia. Qed.

Lemma position_within ps ss p : p ∈ ps -> Z.abs (position_at ss p) <= holdings ps ss.
Proof.
  intros Hp. unfold holdings. apply elem_of_remove_dups, elem_of_Permutation in Hp as [l ->]. rewrite fmap_cons. cbn [sumZ].
  pose proof (sumZ_nonneg ((fun p => Z.abs (position_at ss p)) <$> l)) as Hn.
  rewrite Forall_fmap in Hn. specialize (Hn ltac:(apply Forall_forall; intros q _; simpl; lia)). lia.
Qed.

(** Positions move by the fills, and only those of known strategies. *)
Lemma filled_position F (ss ss' : gmap sptr (Strategy D)) p :
  filled F ss ss' -> position_at ss' p = position_at ss p + (if decide (is_Some (ss !! p)) then net (F p) else 0).
Proof.
  intros Hf. specialize (Hf p). unfold position_at. destruct Hf as [s s' [_ Hp]|]; [by rewrite decide_True by eauto|].
  by rewrite decide_False by (by intros []).
Qed.

Lemma filled_position_abs F (ss ss' : gmap sptr (Strategy D)) p x :
  filled F ss ss' -> Z.abs (net (F p)) <= x -> Z.abs (position_at ss' p) <= Z.abs (position_at ss p) + x.
Proof. intros Hf Hx. rewrite (filled_position _ _ _ p Hf). case_decide; lia. Qed.

(** A placement by [o] moves its position by [d] towards the side of the
    order, and the other positions by at most [d] together. *)
Lemma placement_holdings (routing : gmap Z sptr) a o side px qty ps (ss ss' : gmap sptr (Strategy D)) :
  abook_wf a -> o ∈ ps -> is_Some (ss !! o) ->
  filled (placement_fills a routing o side px qty) ss ss' ->
  exists d, 0 <= d <= Z.max qty 0 /\ position_at ss' o = position_at ss o + signed_qty side d /\
    holdings ps ss' <= holdings ps ss - Z.abs (position_at ss o) + Z.abs (position_at ss' o) + d.
Proof.
  intros Hwf Ho Hs Hf. set (trs := (aplace a side px qty).2). set (r := <[ab_next_id a := o]> routing).
  pose proof (aplace_trades_positive a side px qty Hwf) as Hpos. fold trs in Hpos.
  destruct (aplace_resting r a side px qty o Hwf) as (_ & _ & Ht). fold trs in Ht.
  pose proof (traded_of_bounds (fun id => r !! id = Some o) trs Hpos) as Hto.
  exists (traded trs - traded_of (fun id => r !! id = Some o) trs). split; [lia|]. split.
  { rewrite (filled_position _ _ _ o Hf), decide_True by done. unfold placement_fills. rewrite net_fills_of.
    fold r trs. by rewrite decide_True by done. }
  pose proof (NoDup_remove_dups ps) as Hnd. unfold holdings. apply elem_of_remove_dups in Ho.
  apply elem_of_Permutation in Ho as [l Hl]. rewrite Hl in Hnd |- *. rewrite !fmap_cons. cbn [sumZ].
  pose proof (traded_split r trs (o :: l) Hnd Hpos) as Hsp. rewrite fmap_cons in Hsp. cbn [sumZ] in Hsp.
  apply NoDup_cons in Hnd as [Hol _].
  enough (sumZ ((fun p => Z.abs (position_at ss' p)) <$> l) <= sumZ ((fun p => Z.abs (position_at ss p)) <$> l) +
    sumZ ((fun p => traded_of (fun id => r !! id = Some p) trs) <$> l)) by lia.
  rewrite <-sumZ_add. apply sumZ_le. intros p Hp. apply (filled_position_abs _ _ _ _ _ Hf).
  unfold placement_fills. rewrite net_fills_of. fold r trs. rewrite decide_False by (by intros ->).
  pose proof (traded_of_bounds (fun id => r !! id = Some p) trs Hpos). destruct side; simpl; lia.
Qed.

(** An order of the tape moves the positions by at most its quantity. *)
Lemma ext_holdings (routing : gmap Z sptr) a side px qty ps (ss ss' : gmap sptr (Strategy D)) :
  abook_wf a -> filled (fun p => ext_fills p side routing (aplace a side px qty).2) ss ss' ->
  holdings ps ss' <= holdings ps ss + Z.max qty 0.
Proof.
  intros Hwf Hf. set (trs := (aplace a side px qty).2) in *.
  pose proof (aplace_trades_positive a side px qty Hwf) as Hpos. fold trs in Hpos.
  destruct (aplace_resting routing a side px qty 0%nat Hwf) as (_ & _ & Ht). fold trs in Ht.
  pose proof (traded_split routing trs (remove_dups ps) (NoDup_remove_dups ps) Hpos) as Hsp. unfold holdings.
  enough (sumZ ((fun p => Z.abs (position_at ss' p)) <$> remove_dups ps) <=
    sumZ ((fun p => Z.abs (position_at ss p)) <$> remove_dups ps) +
    sumZ ((fun p => traded_of (fun id => routing !! id = Some p) trs) <$> remove_dups ps)) by lia.
  rewrite <-sumZ_add. apply sumZ_le. intros p _. apply (filled_position_abs _ _ _ _ _ Hf).
  destruct (ext_fills_net p side trs routing Hpos) as (x & -> & _ & Hx). destruct side; simpl; lia.
Qed.

(** Calls that fill nothing. *)
Lemma idle_holdings ps (ss ss' : gmap sptr (Strategy D)) :
  filled (fun _ => []) ss ss' -> holdings ps ss' = holdings ps ss /\ forall p, position_at ss' p = position_at ss p.
Proof.
  intros Hf. assert (forall p, position_at ss' p = position_at ss p) as Hp.
  { intros p. rewrite (filled_position _ _ _ p Hf). change (net []) with 0. case_decide; lia. }
  split; [|done]. unfold holdings. f_equal. apply list_fmap_ext. intros _ p _. by rewrite Hp.
Qed.

Lemma same_holdings ps (ss ss' : gmap sptr (Strategy D)) :
  same_portfolios ss ss' -> holdings ps ss' = holdings ps ss /\ forall p, position_at ss' p = position_at ss p.
Proof.
  intros Hs. assert (forall p, position_at ss' p = position_at ss p) as Hp.
  { intros p. specialize (Hs p). unfold position_at. destruct Hs as [s s' ->|]; done. }
  split; [|done]. unfold holdings. f_equal. apply list_fmap_ext. intros _ p _. by rewrite Hp.
Qed.

End Holdings.
