(* ===== verification/Trading.v ===== *)
(** * Strategies over a tape

    [MarketMaker] and [MACross] (src/mvp/strategies) under [Replay::run]: with
    any number of each and any tape of bounded prices and quantities the run is
    defined; each market maker keeps at most one resting quote per side and its
    inventory within its limit and one quote, and the positions of all
    strategies together stay bounded. *)

From S2P Require Import Prelude Pool OrderedMap Level OrderBook BookSpec BookRefine BookQuery BookRun Flow Portfolio PortfolioProps Engine Strategy StrategyProps Ticks Strategies Replay ReplayProps MovingAverage Exposure Holdings.

(** The loop over the trades of an exogenous placement. *)
Lemma route_makers_spec P side trs : forall n px routing (ss : gmap sptr (Strategy Derived)),
  Z.abs px <= P -> Forall (fun tr => 0 < tr_qty tr /\ Z.abs (tr_price tr) <= P) trs -> routing_ok routing ss -> fills_defined (fun p => ext_fills p side routing trs) ss ->
  exists n' px' ss', route_makers side trs n px routing ss = Some (n', px', ext_routing routing trs, ss') /\
    Z.abs px' <= P /\ strats_after (fun p => ext_fills p side routing trs) ss ss'.
Proof.
  induction trs as [|tr trs IH]; intros n px routing ss Hpx Htr Hok Hd.
  { exists n, px, ss. split_and!; [done..|]. apply strats_after_id. }
  apply Forall_cons in Htr as [[_ Hp] Htr].
  apply (fills_defined_app (maker_fill side routing tr)
    (fun p => ext_fills p side (delete (maker_id tr) routing) trs)) in Hd as [Hm Hd].
  destruct (maker_deliver_spec side routing tr ss Hok Hm) as (ss1 & E1 & Ha1). specialize (Hd ss1 Ha1).
  assert (routing_ok (delete (maker_id tr) routing) ss1) as Hok1.
  { intros id p [_ Hid]%lookup_delete_Some. eapply routing_ok_after; eauto. }
  destruct (IH (u64 (n + 1)) (tr_price tr) _ ss1 Hp Htr Hok1 Hd) as (n' & px' & ss' & E2 & Hpx' & Ha2).
  exists n', px', ss'. split; [|split; [done|by eapply strats_after_trans]]. cbn [route_makers].
  destruct (routing !! maker_id tr) as [m|] eqn:Em.
  - rewrite E1. exact E2.
  - injection E1 as ->. rewrite delete_id in E2 by done. rewrite E2. unfold ext_routing. cbn [foldl].
    by rewrite (delete_id routing) by done.
Qed.

Section Makers.
Context {E : Type} `{HE : MatchingEngine E}.
Context (PM VM B0 : Z) (HP : 1 <= PM < 2 ^ 62) (HG : 4 * PM * (2 * VM) <= INT64_MAX) (HB : B0 + VM <= INT64_MAX).

Abbreviation W := (World E Derived).
Abbreviation wok := (world_ok (D := Derived) PM B0).

(** An exogenous placement. *)
Lemma ext_place_ok P V N (w : W) a side px qty n last :
  wok P V N w a -> Z.abs px <= P <= PM -> Z.abs last <= P -> i64_range qty -> V + Z.max qty 0 <= VM -> N + 1 < UINT64_SIZE ->
  exists e' n' last' ss', e_place (w_engine w) side px qty = Some (e', ab_next_id a) /\
    route_makers side (e_last_trades e') n last (w_routing w) (w_strats w) =
      Some (n', last', ext_routing (w_routing w) (aplace a side px qty).2, ss') /\
    let w' := mkWorld e' (ext_routing (w_routing w) (aplace a side px qty).2) ss' in
    let a' := (aplace a side px qty).1.1 in
    wok P (V + Z.max qty 0) (N + 1) w' a' /\ change (fun _ _ => 0) (fun _ _ _ => False) w w' a a' /\
    Z.abs last' <= P /\ forall ps, holdings ps ss' <= holdings ps (w_strats w) + Z.max qty 0.
Proof.
  intros Hw Hpx Hlast Hq HV HN. pose proof Hw as [Ha Hp Hd Hn Hr Hi Hf]. pose proof (e_abs_wf _ _ Ha) as Hwf.
  destruct (e_place_law _ a side px qty Ha ltac:(lia) Hq) as (e' & Ee & Et & Ha').
  set (trs := (aplace a side px qty).2) in *. set (F p := ext_fills p side (w_routing w) trs).
  destruct (aplace_trades P a side px qty Hwf (Hp (opposite side))) as [HtrP _]. fold trs in HtrP.
  assert (Forall (fun tr => 0 < tr_qty tr /\ Z.abs (tr_price tr) <= PM) trs) as Htr.
  { eapply Forall_impl; [exact HtrP|]. simpl. lia. } pose proof (aplace_trades_positive a side px qty Hwf) as Hpos. fold trs in Hpos.
  destruct (aplace_resting (w_routing w) a side px qty 0 Hwf) as (_ & _ & Ht). fold trs in Ht.
  assert (forall p, volume (F p) <= 2 * Z.max qty 0) as HFv.
  { intros p. destruct (ext_fills_net p side trs (w_routing w) Hpos) as (x & _ & Hv & Hx). unfold F. rewrite Hv.
    pose proof (traded_of_bounds (fun id => w_routing w !! id = Some p) trs Hpos). lia. }
  destruct (world_fills PM VM B0 HP HG _ _ _ _ _ F (Z.max qty 0) Hw ltac:(lia) HV
    (fun p => ext_fills_ok _ _ _ _ _ Htr) HFv) as [Hdef Hport].
  destruct (route_makers_spec P side trs n last (w_routing w) (w_strats w) Hlast HtrP Hr Hdef)
    as (n' & last' & ss' & Er & Hlast' & Hss).
  pose proof (filled_after _ _ _ Hss) as Hfl.
  exists e', n', last', ss'. split; [done|]. split; [by rewrite Et|]. cbv zeta.
  assert (w_routing w !! ab_next_id a = None) as Hfresh.
  { destruct (w_routing w !! ab_next_id a) eqn:En; [|done]. apply Hi in En. lia. }
  split_and!; [..|done|intros ps; by apply (ext_holdings (w_routing w) a side px qty)].
  - apply (placed_world PM B0 HP _ _ _ w a side px qty F); [done..| |by apply Hport].
    intros id p Hid. left. eapply lookup_weaken; [exact Hid|apply ext_routing_subset].
  - apply (change_filled F); [done| |].
    + intros p s pos. rewrite Z.add_0_r. apply ext_exposure; [done|by eapply e_abs_wf|done].
    + intros p s id [Hin Hro]. simpl in Hro. eapply lookup_weaken in Hro; [|apply ext_routing_subset].
      apply aplace_ids in Hin as [Hin|[_ ->]]; [by left; split|congruence|done].
Qed.

(** ** The switch on the event *)

Lemma change_refl (w : W) a : change (fun _ _ => 0) (fun _ _ _ => False) w w a a.
Proof.
  split; [|done|by left]. intros p s Hs. exists s. split_and!; [done..|]. intros side. lia.
Qed.

Lemma apply_tick_ok P V N (r : ReplayState (E := E)) a t :
  wok P V N (rp_world r) a -> Z.abs (t_price t) <= P <= PM -> Z.abs (last_trade_px r) <= P ->
  i64_range (t_qty t) -> V + inflow t <= VM -> N + 1 < UINT64_SIZE ->
  exists r' a', apply_tick t r = Some r' /\ wok P (V + inflow t) (N + 1) (rp_world r') a' /\
    change (fun _ _ => 0) (fun _ _ _ => False) (rp_world r) (rp_world r') a a' /\
    ctxs r' = ctxs r /\ ticks_consumed (stats r') = ticks_consumed (stats r) /\ Z.abs (last_trade_px r') <= P /\
    forall ps, holdings ps (w_strats (rp_world r')) <= holdings ps (w_strats (rp_world r)) + inflow t.
Proof.
  intros Hw Hpx Hl Hq HV HN. assert (0 <= inflow t) by (unfold inflow; lia).
  assert (wok P (V + inflow t) (N + 1) (rp_world r) a) as Hw' by (eapply world_ok_weaken; [done|lia..]).
  unfold apply_tick. destruct (event t =? EventType_Add).
  - destruct (ext_place_ok P V N (rp_world r) a (side_of (t_side t)) (t_price t) (t_qty t)
      (engine_trades (stats r)) (last_trade_px r) Hw Hpx Hl Hq HV HN)
      as (e' & n' & px' & ss' & Ee & Er & Hw1 & Hch & Hl' & Hh).
    rewrite Ee. cbn [mbind option_bind]. rewrite Er. cbn [mbind option_bind]. eexists _, _. by split_and!.
  - destruct (event t =? EventType_Cancel).
    + destruct (ext_to_eng r !! ext_id t) as [id|].
      * destruct (e_cancel_law _ a id (wo_abs _ _ _ _ _ _ _ Hw)) as (e' & Ee & _ & Ha').
        rewrite Ee. cbn [mbind option_bind].
        destruct (filled_same (w_strats (rp_world r)) (w_strats (rp_world r))) as [Hfl Hss].
        { intros p. destruct (w_strats (rp_world r) !! p); by constructor. }
        destruct (cancelled_world PM B0 _ _ _ _ a id e' (w_routing (rp_world r)) _ Hw' Ha' ltac:(done) Hfl Hss)
          as (Hw1 & Hch & _).
        eexists _, _. split_and!; [done..|]. intros ps. simpl. lia.
      * eexists _, a. split_and!; [done..|apply change_refl|done|done|done|]. intros ps. simpl. lia.
    + destruct (event t =? EventType_Trade); eexists _, a; split_and!; try done; try apply change_refl;
        try (simpl; lia); intros ps; simpl; lia.
Qed.

(** ** The state of a strategy *)

(** Bounds on the positions of all strategies together, on what a call of a
    strategy places and moves, and on the distance of its prices from the
    book; the strategies of the run and their settings. *)
Context (ZM C G Sp : Z) (ps : list sptr) (cfg_of : sptr -> MarketMakerConfig + MACrossConfig).

Definition known (w : W) : Prop := Forall (fun p => is_Some (w_strats w !! p)) ps.

Record mm_ok (cfg : MarketMakerConfig) : Prop := {
  co_qty : 0 <= quote_qty cfg /\ 2 * quote_qty cfg <= C /\ 4 * quote_qty cfg <= G;
  co_spread : Z.abs (spread cfg) <= Sp;
  co_limit : 0 <= inventory_limit cfg <= INT64_MAX;
  co_interval : requote_interval cfg <> 0
}.

Record ma_ok (cfg : MACrossConfig) : Prop := {
  ao_windows : 0 <= fast_window cfg /\ 0 <= slow_window cfg;
  ao_sums : PM * (Z.max (fast_window cfg) (slow_window cfg) + 1) <= INT64_MAX;
  ao_target : 0 <= target_position cfg /\ target_position cfg + ZM <= C /\ 2 * target_position cfg <= G;
  ao_slippage : Z.abs (slippage_ticks cfg) <= Sp
}.

Definition settings_ok (c : MarketMakerConfig + MACrossConfig) : Prop :=
  match c with inl cfg => mm_ok cfg | inr cfg => ma_ok cfg end.

Definition quote_id (side : Side) (m : MarketMaker) : OrderId :=
  match side with Buy => bid_id_ m | Sell => ask_id_ m end.

Definition max_inventory (cfg : MarketMakerConfig) : Z := inventory_limit cfg + quote_qty cfg.

(** [p] has data [d], exposures within [lim] and resting orders only among
    [ids]. *)
Definition trader (p : sptr) (d : Derived) (lim : Side -> Z) (ids : Side -> OrderId -> Prop) (w : W) (a : ABook)
    : Prop :=
  exists s, w_strats w !! p = Some s /\ derived s = d /\
    (forall side, exposure side (w_routing w) a p (position_ (portfolio_ s)) <= lim side) /\
    (forall side id, owned w a p side id -> ids side id).

(** Between ticks.  The only orders resting for a market maker are the quotes
    it knows of, and filling them would not take it past its inventory limit by
    more than one quote.  A [MACross] holds the windows of some history of
    bounded prices; its orders stay where they are. *)
Inductive at_rest (P : Z) :
    MarketMakerConfig + MACrossConfig -> Derived -> (Side -> Z) -> (Side -> OrderId -> Prop) -> Prop :=
| rest_mm m : mm_ok (mm_cfg m) -> Z.abs (last_quote_mid_ m) <= P ->
    at_rest P (inl (mm_cfg m)) (DMarketMaker m) (fun _ => max_inventory (mm_cfg m)) (fun side id => id = quote_id side m)
| rest_ma cfg h sgn lim ids : ma_ok cfg -> Forall (fun p => - PM <= p <= PM) h ->
    at_rest P (inr cfg) (DMACross (set_last_sign sgn (ma_after cfg h))) lim ids.

Definition idle (P : Z) (p : sptr) (w : W) (a : ABook) : Prop :=
  exists d lim ids, at_rest P (cfg_of p) d lim ids /\ trader p d lim ids w a.

Lemma at_rest_weaken P P' c d lim ids : at_rest P c d lim ids -> P <= P' -> at_rest P' c d lim ids.
Proof. destruct 1; intros; constructor; try done; lia. Qed.

Lemma trader_change grow new w w' a a' p d lim ids :
  change grow new w w' a a' -> trader p d lim ids w a ->
  trader p d (fun side => lim side + grow p side) (fun side id => ids side id \/ new p side id) w' a'.
Proof.
  intros [Hs _ Hown] (s & Es & Ed & He & Ho). destruct (Hs p s Es) as (s' & Es' & Ed' & He').
  exists s'. split_and!; [done|congruence| |].
  - intros side. specialize (He side). specialize (He' side). lia.
  - intros side id [Hold|Hnew]%Hown; [left; by apply Ho|by right].
Qed.

Lemma known_change grow new w w' a a' : change grow new w w' a a' -> known w -> known w'.
Proof.
  intros Hch Hk. eapply Forall_impl; [exact Hk|]. intros p [s Hs]. destruct (ch_strats _ _ _ _ _ _ Hch p s Hs) as (s' & -> & _). eauto.
Qed.

Lemma trader_weaken p d lim lim' (ids ids' : Side -> OrderId -> Prop) w a :
  trader p d lim ids w a -> (forall side, lim side <= lim' side) -> (forall side id, ids side id -> ids' side id) ->
  trader p d lim' ids' w a.
Proof.
  intros (s & Es & Ed & He & Ho) Hl Hi. exists s. split_and!; [done..| |].
  - intros side. specialize (He side). specialize (Hl side). lia.
  - intros side id Hid. by apply Hi, Ho.
Qed.

(** A call that neither grows a strategy's exposure nor adds orders for it. *)
Lemma idle_change P P' grow new w w' a a' p :
  change grow new w w' a a' -> (forall side, grow p side = 0) -> (forall side id, ~ new p side id) -> P <= P' ->
  idle P p w a -> idle P' p w' a'.
Proof.
  intros Hch Hg Hn HPP (d & lim & ids & Hr & Hm). exists d, lim, ids. split; [by eapply at_rest_weaken|].
  eapply trader_weaken; [by eapply trader_change| |].
  - intros side. simpl. rewrite Hg. lia.
  - intros side id [?|Hnew]; [done|]. by apply Hn in Hnew.
Qed.

(** ** One strategy at work *)

(** While [this] runs: the other strategies are between ticks. *)
Record stage (this : sptr) (P V N U : Z) (d : Derived) (lim : Side -> Z) (ids : Side -> OrderId -> Prop)
    (w : W) (a : ABook) : Prop := {
  sg_world : wok P V N w a;
  sg_this : trader this d lim ids w a;
  sg_others p : p <> this -> is_Some (w_strats w !! p) -> idle P p w a;
  sg_known : known w;
  sg_hold : holdings ps (w_strats w) <= U
}.

Lemma stage_weaken this P V N U V' N' U' d lim lim' (ids ids' : Side -> OrderId -> Prop) w a :
  stage this P V N U d lim ids w a -> V <= V' -> N <= N' -> U <= U' -> (forall side, lim side <= lim' side) ->
  (forall side id, ids side id -> ids' side id) -> stage this P V' N' U' d lim' ids' w a.
Proof.
  intros [Hw Hm Ho Hk Hh] ??? Hl Hi. split; try done; [|by eapply trader_weaken|lia].
  eapply world_ok_weaken; [exact Hw|lia..].
Qed.

Lemma stage_change this P V N U V' N' U' d lim ids grow new w w' a a' :
  stage this P V N U d lim ids w a -> wok P V' N' w' a' -> change grow new w w' a a' ->
  (forall p side, p <> this -> grow p side = 0) -> (forall p side id, p <> this -> ~ new p side id) ->
  holdings ps (w_strats w') <= U' ->
  stage this P V' N' U' d (fun side => lim side + grow this side) (fun side id => ids side id \/ new this side id) w' a'.
Proof.
  intros [Hw Hm Ho Hk _] Hw' Hch Hg Hn Hh. split; [done|by eapply trader_change| |by eapply known_change|done].
  intros p Hp Hs. eapply (idle_change P); [done|by intros; apply Hg|by intros; apply Hn|done|].
  apply Ho; [done|]. by eapply ch_dom.
Qed.

(** Assignments to members of the running strategy. *)
Lemma stage_put this P V N U d d' lim ids w a :
  stage this P V N U d lim ids w a ->
  exists w', put_derived this d' w = Some w' /\ stage this P V N U d' lim ids w' a /\
    position_of this w' = position_of this w.
Proof.
  intros [Hw (s & Es & Ed & He & Hown) Ho Hk Hh]. unfold put_derived, upd_strat. rewrite Es. cbn [mbind option_bind].
  pose proof (same_portfolios_insert (w_strats w) this s (set_derived d' s) Es eq_refl) as Hsp.
  eexists. split; [done|]. split; [split|].
  - destruct w. by eapply world_ok_same.
  - exists (set_derived d' s). split_and!; [apply lookup_insert_eq|done|done|done].
  - intros p Hp Hs. simpl in Hs. rewrite lookup_insert_ne in Hs by done.
    destruct (Ho p Hp Hs) as (m' & lim' & ids' & Hr & s' & Es' & Hrest). exists m', lim', ids'. split; [done|].
    exists s'. split; [simpl; by rewrite lookup_insert_ne by done|done].
  - eapply Forall_impl; [exact Hk|]. intros p Hp. simpl. destruct (decide (p = this)) as [->|].
    + rewrite lookup_insert_eq. eauto.
    + by rewrite lookup_insert_ne by done.
  - simpl. by rewrite (proj1 (same_holdings ps _ _ Hsp)).
  - unfold position_of. simpl. by rewrite lookup_insert_eq, Es.
Qed.

Lemma stage_position this P V N U d lim ids w a :
  stage this P V N U d lim ids w a -> position_of this w = Some (position_at (w_strats w) this).
Proof. intros [_ (s & Es & _) _ _ _]. unfold position_of, position_at. by rewrite Es. Qed.

(** An order of the running strategy. *)
Lemma stage_place this P V N U U' d lim ids w a top side px qty :
  stage this P V N U d lim ids w a -> this ∈ ps ->
  Z.abs px <= P <= PM -> 0 <= qty <= INT64_MAX -> V + qty <= VM -> N + 1 < UINT64_SIZE ->
  (let pos := position_at (w_strats w) this in
   forall x, 0 <= x <= qty -> U - Z.abs pos + Z.abs (pos + signed_qty side x) + x <= U') ->
  exists w', ctx_place_limit (mkContext this top) side px qty w = Some (w', ab_next_id a) /\
    stage this P (V + qty) (N + 1) U' d (fun s => lim s + if decide (s = side) then qty else 0)
      (fun s id => ids s id \/ (s = side /\ id = ab_next_id a)) w' (aplace a side px qty).1.1.
Proof.
  intros Hst Hin Hpx Hq HV HN HH. pose proof Hst as [Hw (s & Es & _) _ _ Hh].
  destruct (place_ok PM VM B0 HP HG _ _ _ (mkContext this top) side px qty w a Hw ltac:(by eexists) Hpx ltac:(lia64)
    ltac:(lia) HN) as (w' & Ew & Hw' & Hch & Hfl).
  destruct (placement_holdings _ a this side px qty ps _ _ (e_abs_wf _ _ (wo_abs _ _ _ _ _ _ _ Hw)) Hin
    ltac:(by eexists) Hfl) as (x & Hx & Hpos & Hx').
  exists w'. split; [done|]. rewrite (Z.max_l qty 0) in * by lia. cbv zeta in HH. specialize (HH x Hx). rewrite Hpos in Hx'.
  eapply stage_weaken; [eapply (stage_change _ _ _ _ _ _ _ U' _ _ _ _ _ _ _ _ _ Hst Hw' Hch)|..]; try done.
  - intros p s0 Hp. simpl. by rewrite decide_False by naive_solver.
  - intros p s0 id Hp [? _]. done.
  - lia.
  - intros s0. simpl. destruct (decide (s0 = side)); case_decide; naive_solver lia.
  - intros s0 id [?|(_ & ? & ?)]; [by left|by right].
Qed.

Lemma stage_cancel this P V N U d lim ids w a top id :
  stage this P V N U d lim ids w a ->
  exists ok w', ctx_cancel (mkContext this top) id w = Some (ok, w') /\
    stage this P V N U d lim (fun s id' => ids s id' /\ id' <> id) w' (acancel a id).2.
Proof.
  intros Hst. pose proof Hst as [Hw (s & Es & _) _ _ Hh].
  destruct (cancel_ok PM B0 _ _ _ (mkContext this top) id w a Hw ltac:(by eexists))
    as (ok & w' & Ew & (Hw' & Hch & Hne) & Hfl).
  exists ok, w'. split; [done|]. rewrite <-(proj1 (idle_holdings ps _ _ Hfl)) in Hh.
  pose proof (stage_change _ _ _ _ _ _ _ _ _ _ _ _ _ _ _ _ _ Hst Hw' Hch ltac:(done) ltac:(by intros ???? []) Hh)
    as [H1 Hm H3 H4 H5].
  split; [done| |done..]. destruct Hm as (s' & Es' & Ed' & He' & Ho'). exists s'. split_and!; [done..| |].
  - intros side. specialize (He' side). simpl in He'. lia.
  - intros side id' Hid. destruct (Ho' _ _ Hid) as [?|[]]. split; [done|]. by eapply Hne.
Qed.

(** ** Re-quoting *)

Abbreviation mm_stage this P V N U m := (stage this P V N U (DMarketMaker m)).

Lemma stage_get this P V N U m lim ids w a : mm_stage this P V N U m lim ids w a -> get_mm this w = Some m.
Proof. intros [_ (s & Es & Ed & _) _ _ _]. unfold get_mm. rewrite Es. cbn [mbind option_bind]. by rewrite Ed. Qed.

Lemma stage_set this P V N U m lim ids w a f :
  mm_stage this P V N U m lim ids w a ->
  exists w', mm_set this f w = Some w' /\ mm_stage this P V N U (f m) lim ids w' a.
Proof.
  intros Hst. unfold mm_set. rewrite (stage_get _ _ _ _ _ _ _ _ _ _ Hst). cbn [mbind option_bind].
  destruct (stage_put _ _ _ _ _ _ (DMarketMaker (f m)) _ _ _ _ Hst) as (w' & Ew & Hst' & _). eauto.
Qed.

Lemma owned_positive P V N (w : W) a p side id : wok P V N w a -> owned w a p side id -> 0 < id.
Proof.
  intros Hw [Hin _]. apply list_elem_of_fmap in Hin as (o & -> & Ho).
  apply (proj1 (Forall_forall _ _) (awf_side _ (e_abs_wf _ _ (wo_abs _ _ _ _ _ _ _ Hw)) side) o Ho).
Qed.

(** [if (id) { ctx.cancel(id); id = 0; }] *)
Lemma cancel_quote f this P V N U m lim ids w a top id :
  mm_stage this P V N U m lim ids w a ->
  exists w' a', (if id =? 0 then Some w else '(_, w) ← ctx_cancel (mkContext this top) id w; mm_set this f w) = Some w' /\
    mm_stage this P V N U (if id =? 0 then m else f m) lim (fun s id' => ids s id' /\ id' <> id) w' a'.
Proof.
  intros Hst. destruct (Z.eqb_spec id 0) as [->|].
  - exists w, a. split; [done|]. destruct Hst as [Hw (s & Es & Ed & He & Hown) Ho Hk Hh]. split; [done| |done..].
    exists s. split_and!; [done..|]. intros side id' Hid. split; [by apply Hown|].
    pose proof (owned_positive _ _ _ _ _ _ _ _ Hw Hid). lia.
  - destruct (stage_cancel _ _ _ _ _ _ _ _ _ _ top id Hst) as (ok & w1 & E1 & Hst1).
    destruct (stage_set _ _ _ _ _ _ _ _ _ _ f Hst1) as (w2 & E2 & Hst2).
    exists w2, (acancel a id).2. rewrite E1. cbn [mbind option_bind]. by split.
Qed.

Lemma cancel_quotes_ok this P V N U m lim w a top :
  mm_stage this P V N U m lim (fun side id => id = quote_id side m) w a ->
  exists w' a', mm_cancel_quotes this (mkContext this top) w = Some w' /\
    mm_stage this P V N U (set_ask_id 0 (set_bid_id 0 m)) lim (fun _ _ => False) w' a'.
Proof.
  intros Hst. unfold mm_cancel_quotes. rewrite (stage_get _ _ _ _ _ _ _ _ _ _ Hst). cbn [mbind option_bind].
  destruct (cancel_quote (set_bid_id 0) _ _ _ _ _ _ _ _ _ _ top (bid_id_ m) Hst) as (w1 & a1 & E1 & Hst1).
  rewrite E1. cbn [mbind option_bind].
  assert ((if bid_id_ m =? 0 then m else set_bid_id 0 m) = set_bid_id 0 m) as Em.
  { destruct (Z.eqb_spec (bid_id_ m) 0) as [E0|]; [|done]. destruct m. unfold set_bid_id. simpl in *. by subst. }
  rewrite Em in Hst1. rewrite (stage_get _ _ _ _ _ _ _ _ _ _ Hst1). cbn [mbind option_bind].
  destruct (cancel_quote (set_ask_id 0) _ _ _ _ _ _ _ _ _ _ top (ask_id_ (set_bid_id 0 m)) Hst1) as (w2 & a2 & E2 & Hst2).
  exists w2, a2. split; [exact E2|]. cbn [ask_id_ set_bid_id] in Hst2.
  assert ((if ask_id_ m =? 0 then set_bid_id 0 m else set_ask_id 0 (set_bid_id 0 m)) = set_ask_id 0 (set_bid_id 0 m)) as Em2.
  { destruct (Z.eqb_spec (ask_id_ m) 0) as [E0|]; [|done]. destruct m. unfold set_ask_id, set_bid_id. simpl in *. by subst. }
  rewrite Em2 in Hst2. eapply stage_weaken; [exact Hst2|done..|]. intros [] id [[-> ?] ?]; done.
Qed.

Lemma unowned_depth (w : W) a p side :
  (forall id, ~ owned w a p side id) -> depth_of (fun id => w_routing w !! id = Some p) (ab_side a side) = 0.
Proof.
  intros Hno. apply depth_of_none, Forall_forall. intros o Ho Hr.
  eapply Hno. split; [|exact Hr]. by apply list_elem_of_fmap_2.
Qed.

(** One quote, when the inventory allows it. *)
Lemma quote_ok f this P V N U m lim ids w a top side z qty (cond : bool) :
  mm_stage this P V N U m lim ids w a -> this ∈ ps -> Z.abs z <= P <= PM -> 0 <= qty <= INT64_MAX -> V + qty <= VM ->
  N + 1 < UINT64_SIZE ->
  exists w' a' id, (if cond then
      px ← i64 z; '(w, id) ← ctx_place_limit (mkContext this top) side px qty w; mm_set this (f id) w
    else Some w) = Some w' /\
    mm_stage this P (V + qty) (N + 1) (U + 2 * qty) (if cond then f id m else m)
      (fun s => lim s + if cond then if decide (s = side) then qty else 0 else 0)
      (fun s id' => ids s id' \/ (cond = true /\ s = side /\ id' = id)) w' a'.
Proof.
  intros Hst Hin Hz Hq HV HN. destruct cond.
  - destruct (stage_place _ _ _ _ _ (U + 2 * qty) _ _ _ _ _ top side z qty Hst Hin Hz Hq HV HN) as (w1 & E1 & Hst1).
    { cbv zeta. intros x Hx. destruct side; simpl; lia. }
    destruct (stage_set _ _ _ _ _ _ _ _ _ _ (f (ab_next_id a)) Hst1) as (w2 & E2 & Hst2).
    exists w2, (aplace a side z qty).1.1, (ab_next_id a). rewrite i64_Some by lia64. cbn [mbind option_bind].
    rewrite E1. cbn [mbind option_bind]. split; [done|]. eapply stage_weaken; [exact Hst2|done..|naive_solver].
  - exists w, a, 0. split; [done|]. eapply stage_weaken; [exact Hst|lia|lia|lia|simpl; lia|naive_solver].
Qed.

(** All the strategies are between ticks. *)
Definition traders_ok (P V N U : Z) (w : W) (a : ABook) : Prop :=
  wok P V N w a /\ known w /\ (forall p, is_Some (w_strats w !! p) -> idle P p w a) /\ holdings ps (w_strats w) <= U.

Lemma traders_weaken P V N U V' N' U' w a :
  traders_ok P V N U w a -> V <= V' -> N <= N' -> U <= U' -> traders_ok P V' N' U' w a.
Proof.
  intros (Hw & Hk & Hi & Hh) ???. split_and!; [|done..|lia]. eapply world_ok_weaken; [exact Hw|lia..].
Qed.

Lemma stage_done this P V N U d lim ids w a :
  stage this P V N U d lim ids w a -> at_rest P (cfg_of this) d lim ids -> traders_ok P V N U w a.
Proof.
  intros [Hw Hm Ho Hk Hh] Hr. split_and!; [done..| |done]. intros p Hp.
  destruct (decide (p = this)) as [->|]; [by exists d, lim, ids|by apply Ho].
Qed.

Lemma stage_start this P V N U w a :
  traders_ok P V N U w a -> is_Some (w_strats w !! this) ->
  exists d lim ids, stage this P V N U d lim ids w a /\ at_rest P (cfg_of this) d lim ids.
Proof.
  intros (Hw & Hk & Hq & Hh) Hs. destruct (Hq this Hs) as (d & lim & ids & Hr & Hm). exists d, lim, ids.
  split; [|done]. split; auto.
Qed.

(** With no order resting, the exposures are the position. *)
Lemma stage_flat this P V N U d lim w a :
  stage this P V N U d lim (fun _ _ => False) w a ->
  exists pos, position_of this w = Some pos /\ signed_qty Buy pos <= lim Buy /\ signed_qty Sell pos <= lim Sell /\
    stage this P V N U d (fun side => signed_qty side pos) (fun _ _ => False) w a.
Proof.
  intros [Hw (s & Es & Ed & He & Hown) Ho Hk Hh]. exists (position_ (portfolio_ s)). unfold position_of. rewrite Es.
  assert (forall side, exposure side (w_routing w) a this (position_ (portfolio_ s)) = signed_qty side (position_ (portfolio_ s))) as Hx.
  { intros side. unfold exposure. rewrite unowned_depth; [lia|]. intros id. exact (Hown side id). }
  pose proof (He Buy). pose proof (He Sell). rewrite !Hx in *. split_and!; [done..|].
  split; [done| |done..]. exists s. split_and!; [done..| |done]. intros side. rewrite Hx. lia.
Qed.

Lemma place_quotes_ok this P V N U m w a top md :
  mm_stage this P V N U m (fun _ => max_inventory (mm_cfg m)) (fun _ _ => False) w a -> this ∈ ps ->
  inl (mm_cfg m) = cfg_of this -> mm_ok (mm_cfg m) -> bid_id_ m = 0 -> ask_id_ m = 0 ->
  Z.abs md + Sp <= P <= PM -> C <= INT64_MAX -> V + C <= VM -> N + 2 < UINT64_SIZE ->
  exists w' a', mm_place_quotes this (mkContext this top) md w = Some w' /\ traders_ok P (V + C) (N + 2) (U + G) w' a'.
Proof.
  intros Hst Hin Hcf Hc Hb0 Ha0 Hmd HC HV HN. pose proof Hc as [Hq Hsp Hlim Hint].
  destruct (stage_flat _ _ _ _ _ _ _ _ _ Hst) as (pos & Epos & Hlb & Hls & Hst1).
  unfold mm_place_quotes. rewrite (stage_get _ _ _ _ _ _ _ _ _ _ Hst), bind_Some_l, Epos, bind_Some_l.
  cbv zeta. rewrite (i64_Some (- _)) by lia64. rewrite bind_Some_l.
  destruct (quote_ok set_bid_id _ _ _ _ _ _ _ _ _ _ top Buy (md - spread (mm_cfg m)) (quote_qty (mm_cfg m))
    (pos <=? inventory_limit (mm_cfg m)) Hst1 Hin) as (w1 & a1 & id1 & E1 & Hst2); [lia..|].
  rewrite E1, bind_Some_l.
  destruct (quote_ok set_ask_id _ _ _ _ _ _ _ _ _ _ top Sell (md + spread (mm_cfg m)) (quote_qty (mm_cfg m))
    (- inventory_limit (mm_cfg m) <=? pos) Hst2 Hin) as (w2 & a2 & id2 & E2 & Hst3); [lia..|].
  rewrite E2, bind_Some_l.
  destruct (stage_set _ _ _ _ _ _ _ _ _ _ (set_last_mid md) Hst3) as (w3 & E3 & Hst4).
  exists w3, a2. split; [done|]. unfold max_inventory in *. simpl in Hlb, Hls.
  apply (traders_weaken P (V + quote_qty (mm_cfg m) + quote_qty (mm_cfg m)) (N + 1 + 1)
    (U + 2 * quote_qty (mm_cfg m) + 2 * quote_qty (mm_cfg m))); [|lia..].
  set (m' := set_last_mid md _) in Hst4. assert (mm_cfg m' = mm_cfg m) as Em.
  { unfold m'. by destruct (pos <=? _), (_ <=? pos). }
  assert (at_rest P (cfg_of this) (DMarketMaker m') (fun _ => max_inventory (mm_cfg m')) (fun side id => id = quote_id side m')) as Hr.
  { rewrite <-Hcf, <-Em. constructor; [by rewrite Em|]. simpl. lia. }
  eapply stage_done; [|exact Hr]. eapply stage_weaken; [exact Hst4|done..| |]; rewrite ?Em; unfold m', max_inventory;
    destruct (Z.leb_spec pos (inventory_limit (mm_cfg m))), (Z.leb_spec (- inventory_limit (mm_cfg m)) pos); try lia.
  1-3: intros []; repeat case_decide; simpl; try done; lia.
  all: intros [] id; simpl; naive_solver.
Qed.

(** ** A tick for one strategy *)

(** The prices a strategy sees are within the bound by its spread. *)
Record top_ok (P : Z) (top : BookTop) : Prop := {
  tp_bid : Z.abs (bid_px top) + Sp <= P;
  tp_ask : Z.abs (ask_px top) + Sp <= P;
  tp_mid : Z.abs (mid top) + Sp <= P
}.

Lemma mm_on_tick_ok this P V N U m w a top t :
  mm_stage this P V N U m (fun _ => max_inventory (mm_cfg m)) (fun side id => id = quote_id side m) w a -> this ∈ ps ->
  inl (mm_cfg m) = cfg_of this -> mm_ok (mm_cfg m) -> Z.abs (last_quote_mid_ m) <= P ->
  top_ok P top -> P <= PM -> C <= INT64_MAX -> V + C <= VM -> N + 2 < UINT64_SIZE ->
  exists w' a', mm_on_tick this (mkContext this top) t w = Some w' /\ traders_ok P (V + C) (N + 2) (U + G) w' a'.
Proof.
  intros Hst Hin Hcf Hc Hlast [_ _ Hmid] HPM HC HV HN. pose proof (co_qty _ Hc). pose proof (co_spread _ Hc).
  assert (forall w m', mm_cfg m' = mm_cfg m -> Z.abs (last_quote_mid_ m') <= P ->
    mm_stage this P V N U m' (fun _ => max_inventory (mm_cfg m')) (fun side id => id = quote_id side m') w a ->
    traders_ok P (V + C) (N + 2) (U + G) w a) as Hweak.
  { intros w0 m' Em Hl Hst'. apply (traders_weaken P V N U); [|lia..]. eapply stage_done; [exact Hst'|].
    rewrite <-Hcf, <-Em. constructor; [by rewrite Em|done]. }
  unfold mm_on_tick. cbn [top_]. destruct (Z.eqb_spec (bid_px top) 0), (Z.eqb_spec (ask_px top) 0); simpl;
    try (exists w, a; by eauto).
  rewrite (stage_get _ _ _ _ _ _ _ _ _ _ Hst). cbn [mbind option_bind].
  destruct (stage_set _ _ _ _ _ _ _ _ _ _ (set_counter (u64 (tick_counter_ m + 1))) Hst) as (w1 & E1 & Hst1).
  rewrite E1. cbn [mbind option_bind]. rewrite (stage_get _ _ _ _ _ _ _ _ _ _ Hst1). cbn [mbind option_bind].
  set (m1 := set_counter _ m) in *.
  assert (exists b, (if last_quote_mid_ m1 =? 0 then Some true
      else d ← i64 (mid top - last_quote_mid_ m1); d ← abs64 d; Some (requote_threshold (mm_cfg m1) <=? d)) = Some b)
    as [moved ->].
  { destruct (_ =? 0); [by eexists|]. change (last_quote_mid_ m1) with (last_quote_mid_ m).
    assert (Z.abs (mid top - last_quote_mid_ m) <= 2 * P) by lia.
    rewrite i64_Some by lia64. cbn [mbind option_bind]. unfold abs64. rewrite i64_Some by lia64. by eexists. }
  cbn [mbind option_bind]. change (mm_cfg m1) with (mm_cfg m). rewrite (proj2 (Z.eqb_neq _ _) (co_interval _ Hc)). cbn [mbind option_bind].
  destruct (_ && _).
  - exists w1, a. split; [done|]. by apply (Hweak w1 m1).
  - destruct (cancel_quotes_ok _ _ _ _ _ _ _ _ _ top Hst1) as (w2 & a2 & E2 & Hst2). rewrite E2. cbn [mbind option_bind].
    by apply (place_quotes_ok _ _ _ _ _ _ _ _ _ _ Hst2).
Qed.

(** The order that brings [MACross] to its target moves the positions by at
    most twice the target, however far from it the strategy is. *)
Lemma ma_trade_ok this P V N U cfg h sgn lim ids w a top sign :
  stage this P V N U (DMACross (set_last_sign sgn (ma_after cfg h))) lim ids w a -> this ∈ ps ->
  inr cfg = cfg_of this -> ma_ok cfg -> Forall (fun p => - PM <= p <= PM) h -> top_ok P top ->
  P <= PM -> U <= ZM -> C <= INT64_MAX -> V + C <= VM -> N + 2 < UINT64_SIZE ->
  forall m, ma_cfg m = cfg ->
  exists w' a', ma_trade this (mkContext this top) sign m w = Some w' /\ traders_ok P (V + C) (N + 2) (U + G) w' a'.
Proof.
  intros Hst Hin Hcf Hc Hh [Hb Ha _] HPM HU HC HV HN m Em. pose proof Hc as [_ _ Ht Hsl].
  pose proof (holdings_nonneg ps (w_strats w)). pose proof (sg_hold _ _ _ _ _ _ _ _ _ _ Hst) as Hhd.
  assert (forall V' N' U' lim' ids' w' a', V' <= V + C -> N' <= N + 2 -> U' <= U + G ->
    stage this P V' N' U' (DMACross (set_last_sign sgn (ma_after cfg h))) lim' ids' w' a' ->
    traders_ok P (V + C) (N + 2) (U + G) w' a') as Hdone.
  { intros V' N' U' lim' ids' w' a' ??? Hst'. apply (traders_weaken P V' N' U'); [|lia..].
    eapply stage_done; [exact Hst'|]. rewrite <-Hcf. by constructor. }
  assert (exists w' a', Some w = Some w' /\ traders_ok P (V + C) (N + 2) (U + G) w' a') as Hnone.
  { exists w, a. split; [done|]. eapply Hdone; [..|exact Hst]; lia. }
  pose proof (position_within ps (w_strats w) this Hin) as Hpos.
  unfold ma_trade. cbn [top_]. destruct (_ || _); [done|]. rewrite Em, (stage_position _ _ _ _ _ _ _ _ _ _ Hst), bind_Some_l.
  set (pos := position_at (w_strats w) this) in *. set (T := target_position cfg) in *.
  assert (forall side px need, Z.abs px <= P -> need = T - signed_qty side pos -> 0 < need ->
    exists w' a', ('(w, _) ← ctx_place_limit (mkContext this top) side px need w; Some w) = Some w' /\
      traders_ok P (V + C) (N + 2) (U + G) w' a') as Hplace.
  { intros side px need Hpx Hneed Hgt. assert (need <= C) by (destruct side; simpl in *; lia).
    destruct (stage_place _ _ _ _ _ (U + G) _ _ _ _ _ top side px need Hst Hin) as (w' & Ew & Hst'); [lia..| |].
    - cbv zeta. fold pos. intros x Hx. destruct side; simpl in *; lia.
    - rewrite Ew. cbn [mbind option_bind]. eexists _, _. split; [done|]. eapply Hdone; [..|exact Hst']; lia. }
  destruct (0 <? sign).
  - rewrite (i64_Some (T - pos)) by lia64. rewrite bind_Some_l. destruct (Z.ltb_spec 0 (T - pos)); [|done].
    rewrite i64_Some by lia64. rewrite bind_Some_l. apply (Hplace Buy); simpl; lia.
  - rewrite (i64_Some (- T)) by lia64. rewrite bind_Some_l. rewrite (i64_Some (pos - - T)) by lia64. rewrite bind_Some_l.
    destruct (Z.ltb_spec 0 (pos - - T)); [|done].
    rewrite i64_Some by lia64. rewrite bind_Some_l. apply (Hplace Sell); simpl; lia.
Qed.

Lemma ma_on_tick_ok this P V N U cfg h sgn lim ids w a top t :
  stage this P V N U (DMACross (set_last_sign sgn (ma_after cfg h))) lim ids w a -> this ∈ ps ->
  inr cfg = cfg_of this -> ma_ok cfg -> Forall (fun p => - PM <= p <= PM) h ->
  top_ok P top -> Z.abs (t_price t) <= P -> 0 <= Sp -> P <= PM -> U <= ZM -> C <= INT64_MAX -> V + C <= VM -> N + 2 < UINT64_SIZE ->
  exists w' a', ma_on_tick this (mkContext this top) t w = Some w' /\ traders_ok P (V + C) (N + 2) (U + G) w' a'.
Proof.
  intros Hst Hin Hcf Hc Hh Htop Htp HSp HPM HU HC HV HN. pose proof Hc as [[Hw1 Hw2] Hsum Ht _].
  pose proof (holdings_nonneg ps (w_strats w)). pose proof (sg_hold _ _ _ _ _ _ _ _ _ _ Hst) as Hhd.
  assert (forall h' sgn' w', Forall (fun p => - PM <= p <= PM) h' ->
    stage this P V N U (DMACross (set_last_sign sgn' (ma_after cfg h'))) lim ids w' a ->
    traders_ok P (V + C) (N + 2) (U + G) w' a) as Hweak.
  { intros h' sgn' w' Hh' Hst'. apply (traders_weaken P V N U); [|lia..].
    eapply stage_done; [exact Hst'|]. rewrite <-Hcf. by constructor. }
  unfold ma_on_tick. cbn [top_].
  assert (get_ma this w = Some (set_last_sign sgn (ma_after cfg h))) as ->.
  { destruct Hst as [_ (s & Es & Ed & _) _ _ _]. unfold get_ma. rewrite Es. cbn [mbind option_bind]. by rewrite Ed. }
  rewrite bind_Some_l. set (signal := if event t =? EventType_Trade then _ else _).
  assert (forall px, signal = Some px -> - PM <= px <= PM) as Hsig.
  { pose proof (tp_mid _ _ Htop). unfold signal. intros px. destruct (event t =? _); [intros [= <-]; lia|].
    destruct (_ =? 0); [done|]. intros [= <-]. lia. }
  destruct signal as [px|]; [|exists w, a; by eauto].
  assert (Forall (fun p => - PM <= p <= PM) (h ++ [px])) as Hh'.
  { apply Forall_app. split; [done|]. apply Forall_singleton. by apply Hsig. }
  rewrite (push_price_after PM) by (done || lia). rewrite bind_Some_l.
  destruct (stage_put _ _ _ _ _ _ (DMACross (set_last_sign sgn (ma_after cfg (h ++ [px])))) _ _ _ _ Hst)
    as (w1 & E1 & Hst1 & _). rewrite E1, bind_Some_l.
  destruct (_ <? _); [exists w1, a; by eauto|]. destruct (_ || _); [exists w1, a; by eauto|].
  change (set_last_sign ?x (set_last_sign _ ?m)) with (set_last_sign x m).
  destruct (stage_put _ _ _ _ _ _ (DMACross (set_last_sign (ma_sign (set_last_sign sgn (ma_after cfg (h ++ [px]))))
    (ma_after cfg (h ++ [px])))) _ _ _ _ Hst1) as (w2 & E2 & Hst2 & _). rewrite E2, bind_Some_l.
  by apply (ma_trade_ok _ _ _ _ _ _ _ _ _ _ _ _ _ _ Hst2).
Qed.

Lemma on_tick_ok this P V N U w a top t :
  traders_ok P V N U w a -> this ∈ ps -> is_Some (w_strats w !! this) ->
  top_ok P top -> Z.abs (t_price t) <= P -> 0 <= Sp -> P <= PM -> U <= ZM -> C <= INT64_MAX -> V + C <= VM -> N + 2 < UINT64_SIZE ->
  exists w' a', on_tick this (mkContext this top) t w = Some w' /\ traders_ok P (V + C) (N + 2) (U + G) w' a'.
Proof.
  intros Hok Hin Hs Htop Htp HSp HPM HU HC HV HN. destruct (stage_start _ _ _ _ _ _ _ Hok Hs) as (d & lim & ids & Hst & Hr).
  unfold on_tick. pose proof Hst as [_ (s & Es & Ed & _) _ _ _]. rewrite Es. cbn [mbind option_bind]. rewrite Ed.
  clear s Es Ed Hs. inversion Hr as [m Hc Hl Hcf|cfg h sgn lim' ids' Hc Hh Hcf]; subst.
  - by apply (mm_on_tick_ok this P V N U m w a).
  - by apply (ma_on_tick_ok this P V N U cfg h sgn lim ids w a).
Qed.

(** ** A tick for all *)

Lemma notify_ok P top t strategies : forall V N U w a cs,
  traders_ok P V N U w a -> Forall (fun p => p ∈ ps) strategies -> owner_ <$> cs = strategies ->
  top_ok P top -> Z.abs (t_price t) <= P -> 0 <= Sp -> P <= PM -> 0 <= C <= INT64_MAX -> 0 <= G ->
  U + G * Z.of_nat (length strategies) <= ZM ->
  V + C * Z.of_nat (length strategies) <= VM -> N + 2 * Z.of_nat (length strategies) < UINT64_SIZE ->
  exists w' a' cs', notify top t cs strategies w = Some (cs', w') /\ owner_ <$> cs' = strategies /\
    traders_ok P (V + C * Z.of_nat (length strategies)) (N + 2 * Z.of_nat (length strategies))
      (U + G * Z.of_nat (length strategies)) w' a'.
Proof.
  induction strategies as [|p strategies IH]; intros V N U w a cs Hok Hps Hcs Htop Htp HSp HPM HC HG0 HU HV HN.
  { exists w, a, []. destruct cs; [|done]. simpl. by rewrite !Z.mul_0_r, !Z.add_0_r. }
  destruct cs as [|[p' top'] cs]; [done|]. csimpl in Hcs. injection Hcs as -> Hcs.
  apply Forall_cons in Hps as [Hp Hps]. cbn [length] in *. rewrite Nat2Z.inj_succ, !Z.mul_succ_r in *.
  assert (is_Some (w_strats w !! p)) as Hs by by apply (proj1 (Forall_forall _ _) (proj1 (proj2 Hok))).
  destruct (on_tick_ok p P V N U w a top t Hok Hp Hs Htop Htp HSp HPM) as (w1 & a1 & E1 & Hok1); [nia|lia|nia|lia|].
  destruct (IH _ _ _ _ _ cs Hok1 Hps Hcs Htop Htp HSp HPM HC HG0) as (w2 & a2 & cs2 & E2 & Hcs2 & Hok2); [lia..|].
  exists w2, a2, (mkContext p top :: cs2). cbn [notify]. unfold set_top. cbn [owner_]. rewrite E1. cbn [mbind option_bind].
  rewrite E2. cbn [mbind option_bind]. csimpl. rewrite Hcs2. split_and!; [done..|].
  eapply traders_weaken; [exact Hok2|lia..].
Qed.

(** ** The run *)

(** What a tick can place, and move of the positions: at most [Q] by the tape,
    and its share by each strategy. *)
Context (Q : Z).
Definition per_tick : Z := Q + C * Z.of_nat (length ps).
Definition hold_per_tick : Z := Q + G * Z.of_nat (length ps).
Definition ids_per_tick : Z := 1 + 2 * Z.of_nat (length ps).

Record tick_within (P0 : Z) (t : Tick) : Prop := {
  tk_price : Z.abs (t_price t) <= P0;
  tk_qty : - INT64_MAX <= t_qty t <= Q
}.

(** The mid is the middle of the book, the side there is, or the last trade. *)
Lemma snapshot_mid (e : E) px top :
  snapshot_top e px = Some top ->
  mid top = Z.quot (bid_px top + ask_px top) 2 \/ mid top = bid_px top \/ mid top = ask_px top \/ mid top = px.
Proof.
  unfold snapshot_top. set (b := if e_best_bid e =? 0 then _ else _). set (k := if e_best_ask e =? _ then _ else _).
  intros Hs. destruct (if b =? 0 then _ else _) as [bq|]; [|done]. cbn [mbind option_bind] in Hs.
  destruct (if k =? 0 then _ else _) as [kq|]; [|done]. cbn [mbind option_bind] in Hs.
  destruct (b =? 0), (k =? 0); simpl in Hs; try (injection Hs as <-; simpl; tauto).
  unfold i64 in Hs. destruct (_ && _); [|done]. injection Hs as <-. simpl. tauto.
Qed.

Lemma snapshot_ok P V N (w : W) a px :
  wok P V N w a -> P <= PM -> V <= VM -> Z.abs px <= P ->
  exists top, snapshot_top (w_engine w) px = Some top /\ top_ok (P + Sp) top.
Proof.
  intros Hw HPM HV Hpx. pose proof (world_ok_flow PM B0 HP _ _ _ _ _ Hw HPM) as Hf.
  destruct (snapshot_defined _ a _ px (wo_abs _ _ _ _ _ _ _ Hw) Hf ltac:(lia)) as (top & Et & Eb & Ea & _).
  exists top. split; [done|].
  pose proof (wo_price _ _ _ _ _ _ _ Hw Buy) as Hpb. pose proof (wo_price _ _ _ _ _ _ _ Hw Sell) as Hps. simpl in Hpb, Hps.
  assert (Z.abs (bid_px top) <= P /\ Z.abs (ask_px top) <= P) as [Hb Ha].
  { rewrite Eb, Ea. split; [destruct Hpb|destruct Hps]; lia. }
  split; [lia..|]. enough (Z.abs (mid top) <= P) by lia.
  destruct (snapshot_mid _ _ _ Et) as [->|[->|[->| ->]]]; try done. apply quot_bound; lia.
Qed.

Lemma replay_tick_ok P V N U (r : ReplayState (E := E)) a t k :
  traders_ok P V N U (rp_world r) a -> owner_ <$> ctxs r = ps -> ticks_consumed (stats r) = u64 k ->
  Z.abs (last_trade_px r) <= P -> tick_within P t -> P + Sp <= PM -> 0 <= Sp -> 0 <= Q <= INT64_MAX ->
  0 <= C <= INT64_MAX -> 0 <= G -> U + hold_per_tick <= ZM -> V + per_tick <= VM -> N + ids_per_tick < UINT64_SIZE ->
  exists r' a', replay_tick ps r t = Some r' /\
    traders_ok (P + Sp) (V + per_tick) (N + ids_per_tick) (U + hold_per_tick) (rp_world r') a' /\
    owner_ <$> ctxs r' = ps /\ ticks_consumed (stats r') = u64 (k + 1) /\ Z.abs (last_trade_px r') <= P.
Proof.
  intros (Hw & Hk & Hi & Hh) Hcs Htc Hl [Hpr Hqt] HPM HSp HQ HC HG0 HU HV HN. unfold per_tick, ids_per_tick, hold_per_tick in *.
  unfold replay_tick. set (r1 := mkReplay _ _ _ _ _). assert (0 <= inflow t <= Q) as Hfl by (unfold inflow; lia).
  assert (0 <= C * Z.of_nat (length ps)) by nia.
  destruct (apply_tick_ok P V N r1 a t Hw) as (r2 & a2 & E2 & Hw2 & Hch & Hcs2 & Htc2 & Hl2 & Hh2); [lia|done|lia64|lia|lia|].
  rewrite E2. cbn [mbind option_bind].
  destruct (snapshot_ok P _ _ _ _ (last_trade_px r2) Hw2) as (top & Et & Htop); [lia|lia|done|].
  rewrite Et. cbn [mbind option_bind].
  assert (traders_ok (P + Sp) (V + Q) (N + 1) (U + Q) (rp_world r2) a2) as Hok2.
  { split_and!; [eapply world_ok_weaken; [exact Hw2|lia..]|by eapply known_change| |].
    - intros p Hp. eapply (idle_change P); [exact Hch|done|by intros ?? []|lia|]. apply Hi. by eapply ch_dom.
    - specialize (Hh2 ps). simpl in Hh2. lia. }
  destruct (notify_ok (P + Sp) top t ps (V + Q) (N + 1) (U + Q) (rp_world r2) a2 (ctxs r2) Hok2) as (w3 & a3 & cs3 & E3 & Hcs3 & Hok3);
    try done; try lia.
  { by apply Forall_forall. } { by rewrite Hcs2. }
  rewrite E3. cbn [mbind option_bind]. eexists _, a3. split; [done|]. simpl. split_and!; [|done| |done].
  - by rewrite <-!Z.add_assoc in Hok3.
  - rewrite Htc2. simpl. rewrite Htc. apply u64_succ.
Qed.

Lemma replay_ticks_ok P0 ticks : forall P V N U (r : ReplayState (E := E)) a k,
  traders_ok P V N U (rp_world r) a -> owner_ <$> ctxs r = ps -> ticks_consumed (stats r) = u64 k ->
  Z.abs (last_trade_px r) <= P -> Forall (tick_within P0) ticks -> P0 <= P -> 0 <= Sp -> 0 <= Q <= INT64_MAX ->
  0 <= C <= INT64_MAX -> 0 <= G ->
  P + Z.of_nat (length ticks) * Sp <= PM -> V + Z.of_nat (length ticks) * per_tick <= VM ->
  U + Z.of_nat (length ticks) * hold_per_tick <= ZM -> N + Z.of_nat (length ticks) * ids_per_tick < UINT64_SIZE ->
  exists r' a', replay_ticks ps ticks r = Some r' /\ ticks_consumed (stats r') = u64 (k + Z.of_nat (length ticks)) /\
    traders_ok (P + Z.of_nat (length ticks) * Sp) (V + Z.of_nat (length ticks) * per_tick)
      (N + Z.of_nat (length ticks) * ids_per_tick) (U + Z.of_nat (length ticks) * hold_per_tick) (rp_world r') a'.
Proof.
  induction ticks as [|t ticks IH]; intros P V N U r a k Hok Hcs Htc Hl Htk HP0 HSp HQ HC HG0 HPM HV HU HN.
  { exists r, a. simpl in *. by rewrite !Z.add_0_r. }
  apply Forall_cons in Htk as [[Hpr Hqt] Htk]. cbn [length] in *. rewrite Nat2Z.inj_succ, !Z.mul_succ_l in *.
  assert (0 <= per_tick /\ 0 < ids_per_tick /\ 0 <= hold_per_tick) as (? & ? & ?)
    by (unfold per_tick, ids_per_tick, hold_per_tick; split_and!; nia).
  assert (0 <= Z.of_nat (length ticks) * Sp /\ 0 <= Z.of_nat (length ticks) * per_tick /\
    0 <= Z.of_nat (length ticks) * ids_per_tick /\ 0 <= Z.of_nat (length ticks) * hold_per_tick) as (? & ? & ? & ?)
    by (split_and!; nia).
  destruct (replay_tick_ok P V N U r a t k Hok Hcs Htc Hl) as (r1 & a1 & E1 & Hok1 & Hcs1 & Htc1 & Hl1); [by split; lia|lia..|].
  destruct (IH _ _ _ _ r1 a1 (k + 1) Hok1 Hcs1 Htc1 ltac:(lia) Htk) as (r2 & a2 & E2 & Htc2 & Hok2); [lia..|].
  exists r2, a2. cbn [replay_ticks]. rewrite E1. cbn [mbind option_bind]. split; [done|].
  split; [rewrite Htc2; f_equal; lia|]. rewrite <-!Z.add_assoc in Hok2.
  by rewrite !(Z.add_comm (Z.of_nat (length ticks) * _)).
Qed.

(** The inventory of a market maker between ticks. *)
Lemma idle_inventory P V N (w : W) a p cfg :
  wok P V N w a -> idle P p w a -> cfg_of p = inl cfg ->
  exists s m, w_strats w !! p = Some s /\ derived s = DMarketMaker m /\ mm_cfg m = cfg /\
    Z.abs (position_ (portfolio_ s)) <= inventory_limit cfg + quote_qty cfg /\
    forall side id, owned w a p side id -> id = quote_id side m.
Proof.
  intros Hw (d & lim & ids & Hr & s & Es & Ed & He & Ho) Hcf. rewrite Hcf in Hr. inversion Hr as [m Hc Hl|]; subst.
  exists s, m. split_and!; [done..| |done].
  pose proof (He Buy) as Hb. pose proof (He Sell) as Hs. unfold exposure, max_inventory in Hb, Hs.
  pose proof (e_abs_wf _ _ (wo_abs _ _ _ _ _ _ _ Hw)) as Hwf.
  pose proof (depth_of_nonneg (fun id => w_routing w !! id = Some p) _ (awf_positive _ Buy Hwf)).
  pose proof (depth_of_nonneg (fun id => w_routing w !! id = Some p) _ (awf_positive _ Sell Hwf)).
  simpl in Hb, Hs. simpl in *. lia.
Qed.

End Makers.

(** A strategy as the backtester creates it. *)
Definition new_strategy (name : string) (c : MarketMakerConfig + MACrossConfig) : Strategy Derived :=
  Strategy_new name
    match c with inl cfg => DMarketMaker (MarketMaker_new cfg) | inr cfg => DMACross (MACross_new cfg) end.

Definition settings_of (ss : gmap sptr (Strategy Derived)) (p : sptr) : MarketMakerConfig + MACrossConfig :=
  match ss !! p with
  | Some s => match derived s with DMarketMaker m => inl (mm_cfg m) | DMACross m => inr (ma_cfg m) end
  | None => inl MarketMakerConfig_default
  end.

Lemma settings_of_new ss p name c : ss !! p = Some (new_strategy name c) -> settings_of ss p = c.
Proof. intros Hs. unfold settings_of. rewrite Hs. by destruct c. Qed.

Section Inventory.
Context {E : Type} `{HE : MatchingEngine E}.

(** Bounds of a run of [n] ticks with the strategies [ps]: prices move by at
    most the spread per tick, the quantity placed is that of the ticks and of
    the strategies, and so is what the positions can move. *)
Record run_bounds (n : nat) (ps : list sptr) (P0 B0 C G Sp Q N : Z) : Prop := {
  rb_price : 1 <= P0 /\ P0 + Z.of_nat n * Sp < 2 ^ 62;
  rb_spread : 0 <= Sp;
  rb_qty : 0 <= Q <= INT64_MAX;
  rb_call : 0 <= C <= INT64_MAX /\ 0 <= G;
  rb_value : 4 * (P0 + Z.of_nat n * Sp) * (2 * (Z.of_nat n * per_tick C ps Q)) <= INT64_MAX;
  rb_depth : B0 + Z.of_nat n * per_tick C ps Q <= INT64_MAX;
  rb_ids : N + Z.of_nat n * ids_per_tick ps < UINT64_SIZE
}.

Lemma traders_start e a ps (ss : gmap sptr (Strategy Derived)) P0 B0 PM ZM C G Sp :
  e_abs e a -> (forall s, Forall (fun o => Z.abs (o_price o) <= P0) (ab_side a s)) ->
  (forall s, depth (ab_side a s) <= B0) -> 0 <= P0 -> 0 <= PM -> Forall (fun p => is_Some (ss !! p)) ps ->
  (forall p s, ss !! p = Some s -> exists name c, s = new_strategy name c /\ settings_ok PM ZM C G Sp c) ->
  traders_ok PM B0 ZM C G Sp ps (settings_of ss) P0 0 (ab_next_id a) 0 (mkWorld e ∅ ss) a.
Proof.
  intros Ha Hp Hd HP0 HPM Hps Hss. split_and!; [|done|..].
  - split; simpl; try done; [intros s; rewrite Z.add_0_r; apply Hd|].
    intros p s (name & c & -> & _)%Hss. split; [|simpl; lia]. split; simpl; lia.
  - intros p [s Hs]. simpl in Hs. destruct (Hss p s Hs) as (name & c & -> & Hc).
    assert (forall lim ids, (forall side, 0 <= lim side) -> trader p (derived (new_strategy name c)) lim ids (mkWorld e ∅ ss) a) as Ht.
    { intros lim ids Hl. eexists. split_and!; [done|done| |by intros side id [_ ?]].
      intros side. specialize (Hl side). unfold exposure. rewrite depth_of_none by (apply Forall_forall; by intros o _).
      destruct side; simpl; lia. }
    unfold idle. rewrite (settings_of_new _ _ _ _ Hs). destruct c as [cfg|cfg].
    + eexists _, _, _. split; [by apply (rest_mm PM ZM C G Sp P0 (MarketMaker_new cfg))|]. apply Ht.
      intros _. destruct Hc. unfold max_inventory. simpl. lia.
    + eexists _, _, _. split; [by apply (rest_ma PM ZM C G Sp P0 cfg [] 0 (fun _ => 0) (fun _ _ => True))|]. by apply Ht.
  - simpl. unfold holdings. replace (_ <$> _) with ((fun _ => 0) <$> remove_dups ps).
    + clear. induction (remove_dups ps); [done|]. rewrite fmap_cons. cbn [sumZ]. done.
    + apply list_fmap_ext. intros _ p _. unfold position_at. destruct (ss !! p) as [s|] eqn:Es; [|done].
      by destruct (Hss p s Es) as (name & c & -> & _).
Qed.

(** A run of any strategies is defined and leaves them between ticks. *)
Lemma replay_run_defined e a ps (ss : gmap sptr (Strategy Derived)) ticks P0 B0 C G Sp Q :
  let n := Z.of_nat (length ticks) in
  let PM := P0 + n * Sp in let VM := n * per_tick C ps Q in let ZM := n * hold_per_tick G ps Q in
  e_abs e a -> (forall s, Forall (fun o => Z.abs (o_price o) <= P0) (ab_side a s)) ->
  (forall s, depth (ab_side a s) <= B0) -> Forall (fun p => is_Some (ss !! p)) ps ->
  (forall p s, ss !! p = Some s -> exists name c, s = new_strategy name c /\ settings_ok PM ZM C G Sp c) ->
  Forall (tick_within Q P0) ticks -> run_bounds (length ticks) ps P0 B0 C G Sp Q (ab_next_id a) ->
  exists st w a', replay_run ps e ss ticks = Some (st, w) /\ ticks_consumed st = u64 n /\
    traders_ok PM B0 ZM C G Sp ps (settings_of ss) PM VM (ab_next_id a + n * ids_per_tick ps) ZM w a'.
Proof.
  intros n PM VM ZM Ha Hp Hd Hps Hss Htk [[HP1 HP2] HSp HQ [HC HG] HV HB HN]. fold n in HP2, HV, HB, HN. fold PM in HP2, HV.
  assert (0 <= n * Sp) by (unfold n; nia). assert (1 <= PM) by (unfold PM; lia).
  pose proof (traders_start e a ps ss P0 B0 PM ZM C G Sp Ha Hp Hd ltac:(lia) ltac:(lia) Hps Hss) as Hok.
  destruct (replay_ticks_ok PM VM B0 ltac:(lia) HV HB ZM C G Sp ps (settings_of ss) Q P0 ticks P0 0
    (ab_next_id a) 0 (replay_init ps e ss) a 0 Hok) as (r & a' & Er & Htc & Hok'); try done.
  { unfold replay_init. simpl. rewrite <-list_fmap_compose. apply list_fmap_id. }
  { simpl. lia. }
  exists (stats r), (rp_world r), a'. unfold replay_run. rewrite Er. cbn [mbind option_bind]. by split_and!.
Qed.

(** (C21) Strategies over a tape: with any number of market makers and moving
    average strategies of any settings on any represented engine, and any tape
    whose prices and quantities are within bounds, the run is defined, consumes
    every tick and leaves the engine represented; each market maker's position
    never exceeds its inventory limit by more than one quote, in either
    direction, and at most one order rests for it on each side, the quote it
    remembers; and the positions of all strategies together stay within what
    the tape and the strategies can have moved. *)
Theorem strategies_over_tape e a ps (ss : gmap sptr (Strategy Derived)) ticks P0 B0 C G Sp Q :
  let n := Z.of_nat (length ticks) in
  e_abs e a -> (forall s, Forall (fun o => Z.abs (o_price o) <= P0) (ab_side a s)) ->
  (forall s, depth (ab_side a s) <= B0) -> Forall (fun p => is_Some (ss !! p)) ps ->
  (forall p s, ss !! p = Some s -> exists name c, s = new_strategy name c /\
     settings_ok (P0 + n * Sp) (n * hold_per_tick G ps Q) C G Sp c) ->
  Forall (tick_within Q P0) ticks -> run_bounds (length ticks) ps P0 B0 C G Sp Q (ab_next_id a) ->
  exists st w a', replay_run ps e ss ticks = Some (st, w) /\ ticks_consumed st = u64 n /\
    e_abs (w_engine w) a' /\
    (forall p name cfg, p ∈ ps -> ss !! p = Some (new_strategy name (inl cfg)) ->
      exists s m, w_strats w !! p = Some s /\ derived s = DMarketMaker m /\ mm_cfg m = cfg /\
        Z.abs (position_ (portfolio_ s)) <= inventory_limit cfg + quote_qty cfg /\
        forall side id, owned w a' p side id -> id = quote_id side m) /\
    holdings ps (w_strats w) <= n * hold_per_tick G ps Q.
Proof.
  intros n Ha Hp Hd Hps Hss Htk Hb.
  destruct (replay_run_defined e a ps ss ticks P0 B0 C G Sp Q Ha Hp Hd Hps Hss Htk Hb) as (st & w & a' & Er & Hn & Hok).
  destruct Hok as (Hw & Hk & Hi & Hh). exists st, w, a'. split_and!; [done|done|apply (wo_abs _ _ _ _ _ _ _ Hw)| |done].
  intros p name cfg Hin Hs. pose proof (proj1 (Forall_forall _ _) Hk p Hin) as Hsome.
  eapply idle_inventory; [exact Hw|by apply Hi|by eapply settings_of_new].
Qed.
End Inventory.

(** The strategies of a small run: two makers and a moving average strategy on
    the demonstration engine, and orders of the tape that hit them. *)
Definition demo_strategies : gmap sptr (Strategy Derived) :=
  {[ 0%nat := new_strategy "a" (inl (mkMMConfig 5 2 1 100 8)); 1%nat := new_strategy "b" (inl (mkMMConfig 3 1 1 1 4));
     2%nat := new_strategy "c" (inr (mkMAConfig 1 2 6 1)) ]}.
Definition strategy_tape : list Tick :=
  [mkTick 1 0 0 0 95 9 7; mkTick 2 0 0 1 104 12 8; mkTick 3 0 2 0 140 1 0; mkTick 4 0 0 1 90 4 9; mkTick 5 0 2 0 150 1 0;
   mkTick 6 0 1 0 0 0 8].

Lemma strategies_over_tape_witness :
  exists st w a', replay_run [0%nat; 1%nat; 2%nat] demo_engine demo_strategies strategy_tape = Some (st, w) /\
    ticks_consumed st = 6 /\ e_abs (w_engine w) a' /\
    (forall p name cfg, p ∈ [0%nat; 1%nat; 2%nat] -> demo_strategies !! p = Some (new_strategy name (inl cfg)) ->
      exists s m, w_strats w !! p = Some s /\ derived s = DMarketMaker m /\ mm_cfg m = cfg /\
        Z.abs (position_ (portfolio_ s)) <= inventory_limit cfg + quote_qty cfg /\
        forall side id, owned w a' p side id -> id = quote_id side m) /\
    holdings [0%nat; 1%nat; 2%nat] (w_strats w) <= 432.
Proof.
  apply (strategies_over_tape demo_engine demo_abook [0%nat; 1%nat; 2%nat] demo_strategies strategy_tape 200 100 450 20 2 12).
  - apply demo_refines.
  - intros s. apply (bool_decide_unpack _). destruct s; vm_compute; exact I.
  - intros s. destruct s; vm_compute; discriminate.
  - repeat constructor; vm_compute; eauto.
  - intros p s Hs. unfold demo_strategies in Hs. apply lookup_insert_Some in Hs as [[<- <-]|[_ Hs]];
      [|apply lookup_insert_Some in Hs as [[<- <-]|[_ Hs]]]; [..|apply lookup_singleton_Some in Hs as [<- <-]];
      (eexists _, _; split; [reflexivity|]; split; vm_compute; repeat split; discriminate).
  - repeat constructor; vm_compute; discriminate.
  - split; vm_compute; repeat split; discriminate.
Defined.

(** The averages cross on the way, and all three strategies trade. *)
Example strategies_trade :
  option_map (fun x => (fun p => position_at (w_strats x.2) p) <$> [0%nat; 1%nat; 2%nat])
    (replay_run [0%nat; 1%nat; 2%nat] demo_engine demo_strategies strategy_tape) = Some [4; 3; -2].
Proof. vm_compute. reflexivity. Qed.

(** The bound is reached: a maker at its limit still quotes, and is filled. *)
Example inventory_reached :
  let cfg := mkMMConfig 5 2 1 100 5 in
  let run ticks := option_map (fun x => (fun s => position_ (portfolio_ s)) <$> (w_strats x.2 !! 0%nat))
    (replay_run [0%nat] demo_engine {[ 0%nat := new_strategy "a" (inl cfg) ]} ticks) in
  run [mkTick 1 0 0 0 50 100 6; mkTick 2 0 0 1 60 100 7; mkTick 3 0 0 1 52 5 8] = Some (Some 10).
Proof. vm_compute. reflexivity. Qed.
