(* ===== verification/Decimal.v ===== *)
(** * Bytes and decimal numbers

    Strings as lists of byte values, and the integer conversions of the
    standard library that the sources use: [std::to_chars], [std::from_chars]
    and the zero-padded [%0wd] of [snprintf]. *)

From S2P Require Import Prelude.
From Stdlib Require Ascii String.

Abbreviation bytes := (list Z).

(** The bytes of a literal. *)
Fixpoint str (s : string) : bytes :=
  match s with
  | String.EmptyString => []
  | String.String c s => Z.of_nat (Ascii.nat_of_ascii c) :: str s
  end.

(** What a C string function sees of an array: the bytes before the first
    zero. *)
Fixpoint until_nul (bs : bytes) : bytes :=
  match bs with
  | [] => []
  | c :: bs => if c =? 0 then [] else c :: until_nul bs
  end.

Definition is_digit (c : Z) : bool := (48 <=? c) && (c <=? 57).

(** The decimal digits of [n], most significant first; twenty digits hold
    every [uint64_t]. *)
Fixpoint digits_go (fuel : nat) (n : Z) (acc : bytes) : bytes :=
  match fuel with
  | O => acc
  | S fuel =>
      let acc := (48 + n mod 10) :: acc in
      if n / 10 =? 0 then acc else digits_go fuel (n / 10) acc
  end.

Definition digits (n : Z) : bytes := digits_go 20 n [].

(** std::to_chars of an integer of at most 64 bits. *)
Definition to_chars (n : Z) : bytes := if n <? 0 then 45 :: digits (- n) else digits n.

(** The value of a digit string, as [from_chars] accumulates it. *)
Definition dec_value (ds : bytes) : Z := foldl (fun v c => 10 * v + (c - 48)) 0 ds.

Fixpoint take_digits (bs : bytes) : bytes :=
  match bs with
  | c :: bs => if is_digit c then c :: take_digits bs else []
  | [] => []
  end.

(** std::from_chars into an unsigned type of maximum [hi]: the longest digit
    prefix, which must not be empty and must fit. *)
Definition from_chars_u (hi : Z) (bs : bytes) : option Z :=
  match take_digits bs with
  | [] => None
  | ds => if dec_value ds <=? hi then Some (dec_value ds) else None
  end.

(** ... into a signed type of range [lo, hi]: an optional minus sign first. *)
Definition from_chars_s (lo hi : Z) (bs : bytes) : option Z :=
  match bs with
  | [] => None
  | c :: bs' =>
      if c =? 45 then
        match take_digits bs' with
        | [] => None
        | ds => if lo <=? - dec_value ds then Some (- dec_value ds) else None
        end
      else from_chars_u hi bs
  end.

(** A text of [snprintf(buf, size, ...)] is cut at [size - 1] bytes and ended by
    a zero byte, but the number returned is its whole length.  What that many
    bytes read from [buf] are: past the buffer the read is undefined. *)
Definition snprintf_read (size : nat) (text : bytes) : option bytes :=
  if (length text <? size)%nat then Some text
  else if (length text =? size)%nat then Some (take (size - 1) text ++ [0]) else None.

Lemma snprintf_read_fits size text : (length text < size)%nat -> snprintf_read size text = Some text.
Proof. intros Hl. unfold snprintf_read. by rewrite (proj2 (Nat.ltb_lt _ _) Hl). Qed.

(** [snprintf("%0wu", n)] *)
Definition pad_left (w : nat) (bs : bytes) : bytes := replicate (w - length bs) 48 ++ bs.
Definition zero_padded (w : nat) (n : Z) : bytes := pad_left w (digits n).

(** ** Round trips *)

Lemma is_digit_spec c : is_digit c = true <-> 48 <= c <= 57.
Proof. unfold is_digit. rewrite andb_true_iff, !Z.leb_le. done. Qed.

Lemma take_digits_app ds rest :
  Forall (fun c => is_digit c = true) ds ->
  (match rest with [] => True | c :: _ => is_digit c = false end) ->
  take_digits (ds ++ rest) = ds.
Proof.
  intros Hd Hr. induction Hd as [|c ds Hc _ IH]; simpl.
  - destruct rest as [|c rest]; simpl; [done|]. by rewrite Hr.
  - by rewrite Hc, IH.
Qed.

Lemma take_digits_all ds : Forall (fun c => is_digit c = true) ds -> take_digits ds = ds.
Proof. intros. rewrite <-(app_nil_r ds) at 1. by apply take_digits_app. Qed.

Lemma dec_value_app a b : forall v,
  foldl (fun v c => 10 * v + (c - 48)) v (a ++ b) =
  foldl (fun v c => 10 * v + (c - 48)) (foldl (fun v c => 10 * v + (c - 48)) v a) b.
Proof. induction a; simpl; intros; auto. Qed.

Lemma digits_go_spec fuel : forall n acc,
  0 <= n < 10 ^ Z.of_nat fuel -> (0 < fuel)%nat ->
  exists ds, digits_go fuel n acc = ds ++ acc /\ ds <> [] /\
    Forall (fun c => is_digit c = true) ds /\ dec_value ds = n /\
    (forall k, (0 < k)%nat -> n < 10 ^ Z.of_nat k -> (length ds <= k)%nat).
Proof.
  induction fuel as [|fuel IH]; intros n acc Hn Hf; [lia|]. cbn [digits_go].
  pose proof (Z.div_mod n 10) as Hdm. pose proof (Z.mod_pos_bound n 10) as Hmb.
  assert (is_digit (48 + n mod 10) = true) as Hdig by (apply is_digit_spec; lia).
  destruct (Z.eqb_spec (n / 10) 0) as [E|E].
  - exists [48 + n mod 10]. split_and!; [done..|by constructor| |simpl; lia].
    unfold dec_value. simpl. lia.
  - assert (0 < n / 10) as Hpos by (pose proof (Z.div_pos n 10); lia).
    assert (0 < fuel)%nat as Hf'.
    { destruct fuel; [|lia]. change (10 ^ Z.of_nat 1) with 10 in Hn. rewrite Z.div_small in E; lia. }
    rewrite Nat2Z.inj_succ, Z.pow_succ_r in Hn by lia.
    destruct (IH (n / 10) ((48 + n mod 10) :: acc)) as (ds & Ed & Hne & Hds & Hv & Hl); [|done|].
    { split; [lia|]. apply Z.div_lt_upper_bound; lia. }
    exists (ds ++ [48 + n mod 10]). rewrite Ed, <-app_assoc. split_and!; [done| | | |].
    + by destruct ds.
    + apply Forall_app. split; [done|by constructor].
    + unfold dec_value in *. rewrite dec_value_app, Hv. simpl. lia.
    + intros k Hk Hnk. rewrite length_app. simpl. destruct k as [|[|k]]; [lia| |].
      * change (10 ^ Z.of_nat 1) with 10 in Hnk. rewrite Z.div_small in E; lia.
      * rewrite Nat2Z.inj_succ, Z.pow_succ_r in Hnk by lia.
        assert (length ds <= S k)%nat; [|lia]. apply Hl; [lia|]. apply Z.div_lt_upper_bound; lia.
Qed.

Lemma u64_twenty n : 0 <= n < UINT64_SIZE -> 0 <= n < 10 ^ Z.of_nat 20.
Proof. change (10 ^ Z.of_nat 20) with 100000000000000000000. lia64. Qed.

Lemma digits_spec n :
  0 <= n < UINT64_SIZE ->
  digits n <> [] /\ Forall (fun c => is_digit c = true) (digits n) /\ dec_value (digits n) = n /\
  (forall k, (0 < k)%nat -> n < 10 ^ Z.of_nat k -> (length (digits n) <= k)%nat).
Proof.
  intros Hn%u64_twenty. destruct (digits_go_spec 20 n [] Hn) as (ds & E & H); [lia|].
  unfold digits. by rewrite E, app_nil_r.
Qed.

Lemma from_chars_u_digits hi ds rest :
  ds <> [] -> Forall (fun c => is_digit c = true) ds ->
  (match rest with [] => True | c :: _ => is_digit c = false end) -> dec_value ds <= hi ->
  from_chars_u hi (ds ++ rest) = Some (dec_value ds).
Proof.
  intros Hne Hd Hr Hv. unfold from_chars_u. rewrite take_digits_app by done.
  destruct ds; [done|]. by rewrite (proj2 (Z.leb_le _ _)).
Qed.

Lemma dec_value_zeros k ds : dec_value (replicate k 48 ++ ds) = dec_value ds.
Proof.
  unfold dec_value. rewrite dec_value_app. f_equal. induction k as [|k IH]; [done|].
  rewrite replicate_S_end, dec_value_app, IH. done.
Qed.

Lemma zero_padded_spec w n :
  (0 < w)%nat -> 0 <= n < UINT64_SIZE -> n < 10 ^ Z.of_nat w ->
  length (zero_padded w n) = w /\ Forall (fun c => is_digit c = true) (zero_padded w n) /\
  dec_value (zero_padded w n) = n.
Proof.
  intros Hw Hn Hlt. destruct (digits_spec n Hn) as (Hne & Hd & Hv & Hl).
  unfold zero_padded, pad_left. rewrite dec_value_zeros, length_app, length_replicate.
  specialize (Hl w Hw Hlt). split_and!; [lia| |done].
  apply Forall_app. split; [|done]. by apply Forall_replicate.
Qed.

(** Printing and parsing integers: what [to_chars] prints, [from_chars]
    reads back, also when other characters follow. *)
Theorem decimal_roundtrip n rest :
  i64_range n -> (match rest with [] => True | c :: _ => is_digit c = false end) ->
  from_chars_s INT64_MIN INT64_MAX (to_chars n ++ rest) = Some n.
Proof.
  intros Hn Hr. unfold to_chars. destruct (Z.ltb_spec n 0).
  - destruct (digits_spec (- n)) as (Hne & Hd & Hv & _); [lia64|].
    cbn [app from_chars_s]. rewrite Z.eqb_refl, take_digits_app by done. destruct (digits (- n)); [done|].
    rewrite Hv, (proj2 (Z.leb_le _ _)) by lia64. f_equal. lia.
  - destruct (digits_spec n) as (Hne & Hd & Hv & _); [lia64|].
    assert (from_chars_u INT64_MAX (digits n ++ rest) = Some n) as Hu.
    { rewrite from_chars_u_digits; [by rewrite Hv|done..|]. rewrite Hv. apply Hn. }
    destruct (digits n) as [|c ds]; [done|]. apply Forall_cons in Hd as [Hc _].
    apply is_digit_spec in Hc. cbn [app] in *. unfold from_chars_s.
    by rewrite (proj2 (Z.eqb_neq _ _)) by lia.
Qed.

Lemma decimal_roundtrip_witness :
  from_chars_s INT64_MIN INT64_MAX (to_chars (-1234567890) ++ [1; 51]) = Some (-1234567890).
Proof.
  apply (decimal_roundtrip (-1234567890) [1; 51]).
  - unfold i64_range. vm_compute. split; discriminate.
  - reflexivity.
Defined.
