(* ===== verification/Float64.v ===== *)
(** * [double]

    IEEE 754 binary64 through the Standard Library's [SpecFloat] (round to
    nearest, ties to even), with the conversions the sources use: [strtod],
    [snprintf("%.nf")] and the casts to and from [int64_t].  The sign of a NaN
    is not represented. *)

From Corelib Require Import SpecFloat.
From S2P Require Import Prelude Decimal.

Abbreviation f64 := spec_float.

Definition f64_of_Z (z : Z) : f64 := binary_normalize 53 1024 z 0 false.
Definition f64_add (x y : f64) : f64 := SFadd 53 1024 x y.
Definition f64_mul (x y : f64) : f64 := SFmul 53 1024 x y.
Definition f64_div (x y : f64) : f64 := SFdiv 53 1024 x y.
Definition f64_le (x y : f64) : bool := SFleb x y.
Definition f64_zero : f64 := S754_zero false.
Definition f64_half : f64 := f64_div (f64_of_Z 1) (f64_of_Z 2).

(** The double nearest to n / d. *)
Definition f64_of_ratio (n d : Z) : f64 :=
  let '(q, e, l) := SFdiv_core_binary 53 1024 n 0 d 0 in binary_round_aux 53 1024 false q e l.

(** The cast to [int64_t]: truncation; [None] (undefined behaviour) when the
    value is not finite or does not fit. *)
Definition f64_to_i64 (x : f64) : option Z :=
  match x with
  | S754_zero _ => Some 0
  | S754_finite s m e =>
      let v := if 0 <=? e then Z.pos m * 2 ^ e else Z.pos m / 2 ^ (- e) in
      i64 (if s : bool then - v else v)
  | _ => None
  end.

(** ** strtod *)

Definition is_space (c : Z) : bool := (c =? 32) || ((9 <=? c) && (c <=? 13)).

Fixpoint skip_spaces (bs : bytes) : bytes :=
  match bs with
  | c :: bs' => if is_space c then skip_spaces bs' else bs
  | [] => []
  end.

(** An optional sign. *)
Definition read_sign (bs : bytes) : bool * bytes :=
  match bs with
  | c :: bs' => if c =? 45 then (true, bs') else if c =? 43 then (false, bs') else (false, bs)
  | [] => (false, [])
  end.

Definition lower (c : Z) : Z := if (65 <=? c) && (c <=? 90) then c + 32 else c.

Definition hex_digit (c : Z) : option Z :=
  if is_digit c then Some (c - 48)
  else if (97 <=? lower c) && (lower c <=? 102) then Some (lower c - 87) else None.

Fixpoint take_hex (bs : bytes) : list Z :=
  match bs with
  | c :: bs => match hex_digit c with Some d => d :: take_hex bs | None => [] end
  | [] => []
  end.

(** The exponent part after the letter [c]; 0 when it is not there. *)
Definition read_exp (c : Z) (bs : bytes) : Z :=
  match bs with
  | x :: bs =>
      if lower x =? c then
        let '(s, bs) := read_sign bs in
        match take_digits bs with
        | [] => 0
        | ds => if s : bool then - dec_value ds else dec_value ds
        end
      else 0
  | [] => 0
  end.

(** The fraction digits after a point, and what follows. *)
Definition split_fraction {A} (taker : bytes -> list A) (bs : bytes) : list A * bytes :=
  match bs with
  | c :: bs' => if c =? 46 then let fp := taker bs' in (fp, drop (length fp) bs') else ([], bs)
  | [] => ([], [])
  end.

(** The double nearest to m * 10^e.  Inputs have fewer than 64 characters, so
    m < 10^64 and the cut-offs on the exponent do not change the result. *)
Definition f64_of_decimal (m e : Z) : f64 :=
  if m =? 0 then f64_zero
  else if 400 <? e then S754_infinity false
  else if e <? -500 then f64_zero
  else if 0 <=? e then f64_of_Z (m * 10 ^ e) else f64_of_ratio m (10 ^ (- e)).

(** ... to m * 2^e. *)
Definition f64_of_binary (m e : Z) : f64 :=
  if m =? 0 then f64_zero
  else if 2000 <? e then S754_infinity false
  else if e <? -2000 then f64_zero
  else binary_normalize 53 1024 m e false.

Definition prefix_ci (p bs : bytes) : bool := bool_decide (take (length p) (lower <$> bs) = p).

(** The unsigned part; [None] when no conversion can be performed. *)
Definition strtod_abs (bs : bytes) : option f64 :=
  if prefix_ci (str "inf") bs then Some (S754_infinity false)
  else if prefix_ci (str "nan") bs then Some S754_nan
  else
    let hex_ip := take_hex (drop 2 bs) in
    let '(hex_fp, hex_rest) := split_fraction take_hex (drop (2 + length hex_ip) bs) in
    if prefix_ci (str "0x") bs && negb (bool_decide (hex_ip ++ hex_fp = [])) then
      let m := foldl (fun v d => 16 * v + d) 0 (hex_ip ++ hex_fp) in
      Some (f64_of_binary m (read_exp 112 hex_rest - 4 * Z.of_nat (length hex_fp)))
    else
      let ip := take_digits bs in
      let '(fp, rest) := split_fraction take_digits (drop (length ip) bs) in
      match ip ++ fp with
      | [] => None
      | ds => Some (f64_of_decimal (dec_value ds) (read_exp 101 rest - Z.of_nat (length fp)))
      end.

Definition strtod (bs : bytes) : option f64 :=
  let '(s, bs) := read_sign (skip_spaces bs) in
  x ← strtod_abs bs; Some (if s : bool then SFopp x else x).

(** ** [snprintf("%.*f", decimals, x)] *)

Definition round_half_even (num den : Z) : Z :=
  let q := num / den in
  let r := num mod den in
  if 2 * r <? den then q
  else if den <? 2 * r then q + 1
  else if Z.even q then q else q + 1.

(** |x| * 10^decimals, rounded to an integer from the exact value. *)
Definition f64_scaled (decimals : nat) (m : positive) (e : Z) : Z :=
  if 0 <=? e then Z.pos m * 2 ^ e * 10 ^ Z.of_nat decimals
  else round_half_even (Z.pos m * 10 ^ Z.of_nat decimals) (2 ^ (- e)).

(** The integer part of a double has at most 309 digits. *)
Definition digits_long (n : Z) : bytes := digits_go 400 n [].

Definition fixed_digits (decimals : nat) (n : Z) : bytes :=
  digits_long (n / 10 ^ Z.of_nat decimals) ++
  (if (decimals =? 0)%nat then []
   else 46 :: pad_left decimals (digits_long (n mod 10 ^ Z.of_nat decimals))).

Definition f64_fixed (decimals : nat) (x : f64) : bytes :=
  match x with
  | S754_nan => str "nan"
  | S754_infinity s => (if s : bool then [45] else []) ++ str "inf"
  | S754_zero s => (if s : bool then [45] else []) ++ fixed_digits decimals 0
  | S754_finite s m e =>
      (if s : bool then [45] else []) ++ fixed_digits decimals (f64_scaled decimals m e)
  end.

Example strtod_examples :
  (f64_fixed 2 <$> strtod (str " 101.255xyz")) = Some (str "101.25") /\
  (f64_fixed 4 <$> strtod (str "-1.5e3")) = Some (str "-1500.0000") /\
  (f64_fixed 0 <$> strtod (str "0x1.8p3")) = Some (str "12") /\
  strtod (str "abc") = None /\
  (x ← strtod (str "100.29"); f64_to_i64 (f64_add (f64_mul x (f64_of_Z 100)) f64_half)) = Some 10029.
Proof. vm_compute. done. Qed.

(** ** Integers of at most 53 bits are represented exactly *)

Lemma digits2_log2 p : Z.pos (digits2_pos p) = Z.log2 (Z.pos p) + 1.
Proof.
  induction p as [p IH|p IH|]; [| |done]; cbn [digits2_pos]; rewrite Pos2Z.inj_succ, IH.
  - rewrite (Pos2Z.inj_xI p), Z.log2_succ_double by lia. lia.
  - rewrite (Pos2Z.inj_xO p), Z.log2_double by lia. lia.
Qed.

Lemma iter_xO p d : Z.pos (Pos.iter xO p d) = Z.pos p * 2 ^ Z.pos d.
Proof.
  induction d as [|d IH] using Pos.peano_ind; [simpl; lia|].
  rewrite Pos.iter_succ, Pos2Z.inj_xO, IH, Pos2Z.inj_succ, Z.pow_succ_r by lia. lia.
Qed.

(** A mantissa with its canonical exponent is not rounded. *)
Lemma binary_round_canonical s m e :
  fexp 53 1024 (Z.pos (digits2_pos m) + e) = e -> e <= 971 ->
  binary_round_aux 53 1024 s (Z.pos m) e loc_Exact = S754_finite s m e.
Proof.
  intros He Hm. unfold binary_round_aux, shr_fexp. cbn [Zdigits2]. rewrite He, Z.sub_diag.
  cbn [shr shr_m shr_record_of_loc loc_of_shr_record round_nearest_even Zdigits2].
  rewrite He, Z.sub_diag. cbn [shr shr_m shr_record_of_loc].
  by rewrite (proj2 (Z.leb_le _ _)) by lia.
Qed.

Lemma binary_round_int s p :
  Z.pos p < 2 ^ 53 ->
  exists m e, binary_round 53 1024 s p 0 = S754_finite s m e /\ e <= 0 /\ Z.pos m = Z.pos p * 2 ^ (- e).
Proof.
  intros Hp. assert (0 <= Z.log2 (Z.pos p) < 53) as Hl.
  { split; [apply Z.log2_nonneg|]. by apply Z.log2_lt_pow2. }
  set (e := Z.log2 (Z.pos p) - 52).
  assert (fexp 53 1024 (Z.pos (digits2_pos p) + 0) = e) as Ef.
  { rewrite digits2_log2. unfold fexp, emin. lia. }
  assert (exists m, shl_align p 0 e = (m, e) /\ Z.pos m = Z.pos p * 2 ^ (- e)) as (m & Es & Em).
  { unfold shl_align. destruct (e - 0) as [|d|d] eqn:Ed; [|lia|].
    - exists p. replace e with 0 by lia. split; [done|]. simpl. lia.
    - eexists. split; [done|]. rewrite iter_xO. do 2 f_equal. lia. }
  exists m, e. split; [|split; [lia|done]]. unfold binary_round. rewrite Ef, Es.
  apply binary_round_canonical; [|lia]. rewrite digits2_log2, Em, Z.log2_mul_pow2 by lia.
  unfold fexp, emin. lia.
Qed.

Lemma f64_to_i64_range x z : f64_to_i64 x = Some z -> i64_range z.
Proof.
  destruct x as [b|b| |b m e]; simpl; intros E; simplify_eq; [lia64|]. by apply i64_inv in E as [-> ?].
Qed.

Lemma f64_of_Z_exact z : Z.abs z < 2 ^ 53 -> f64_to_i64 (f64_of_Z z) = Some z.
Proof.
  intros Hz.
  assert (forall s p, Z.pos p < 2 ^ 53 ->
    f64_to_i64 (binary_round 53 1024 s p 0) = Some (if s : bool then Z.neg p else Z.pos p)) as H.
  { intros s p Hp. destruct (binary_round_int s p Hp) as (m & e & -> & He & Em). cbn [f64_to_i64].
    assert ((if 0 <=? e then Z.pos m * 2 ^ e else Z.pos m / 2 ^ (- e)) = Z.pos p) as ->.
    { rewrite Em. destruct (Z.leb_spec 0 e).
      - replace e with 0 by lia. simpl. lia.
      - apply Z.div_mul. apply Z.pow_nonzero; lia. }
    change (2 ^ 53) with 9007199254740992 in Hp. destruct s; apply i64_Some; lia64. }
  destruct z as [|p|p]; [done|apply (H false)|apply (H true)]; lia.
Qed.

(** [x + a * 0 = x] for a finite [a], as the sum of an integer and a product. *)
Lemma f64_add_mul_zero z s m e :
  Z.abs z < 2 ^ 53 ->
  f64_to_i64 (f64_add (f64_of_Z z) (f64_mul (S754_finite s m e) (f64_of_Z 0))) = Some z.
Proof.
  intros Hz. pose proof (f64_of_Z_exact z Hz) as Hx. change (f64_of_Z 0) with (S754_zero false).
  unfold f64_add, f64_mul. cbn [SFmul].
  destruct (f64_of_Z z) as [[]| | |]; try done; by destruct s.
Qed.
