(* ===== verification/FloatBounds.v ===== *)
(** * Rounding of [double] and representable bounds

    Round to nearest never crosses a representable value: a result whose exact
    value is at most (at least) a number with a 53-bit mantissa is at most (at
    least) that number.  The lemmas state it for the operations of [Float64],
    without real numbers: magnitudes are compared as integers in units of
    2^-4000. *)

From Corelib Require Import SpecFloat.
From S2P Require Import Prelude Decimal Float64.

(** ** Magnitudes *)

Definition pw (e : Z) : Z := 2 ^ (e + 4000).

Lemma pw_pos e : -4000 <= e -> 0 < pw e.
Proof. intros. apply Z.pow_pos_nonneg; lia. Qed.

Lemma pw_add e n : -4000 <= e -> 0 <= n -> pw (e + n) = pw e * 2 ^ n.
Proof. intros. unfold pw. rewrite <-Z.pow_add_r by lia. f_equal. lia. Qed.

Lemma pw_le e1 e2 : e1 <= e2 -> pw e1 <= pw e2.
Proof. intros. apply Z.pow_le_mono_r; lia. Qed.

(** [x] is finite, and |x| is at most, respectively at least, b * 2^j. *)
Definition f64_atmost (x : f64) (b j : Z) : Prop :=
  match x with
  | S754_zero _ => 0 <= b
  | S754_finite _ m e => -1074 <= e /\ Z.pos m * pw e <= b * pw j
  | _ => False
  end.

Definition f64_atleast (x : f64) (b j : Z) : Prop :=
  match x with
  | S754_zero _ => b <= 0
  | S754_finite _ m e => -1074 <= e /\ b * pw j <= Z.pos m * pw e
  | _ => False
  end.

(** ** Shifting right *)

Lemma iter_pos_add {A} (f : A -> A) p : forall x, SpecFloat.iter_pos f p x = Nat.iter (Pos.to_nat p) f x.
Proof.
  induction p as [p IH|p IH|]; intros x; cbn [SpecFloat.iter_pos]; [| |done].
  - rewrite !IH, Pos2Nat.inj_xI, Nat.iter_succ_r, <-Nat.iter_add. f_equal. lia.
  - rewrite !IH, Pos2Nat.inj_xO, <-Nat.iter_add. f_equal. lia.
Qed.

Lemma shr_1_spec m r s :
  0 <= m ->
  shr_m (shr_1 (Build_shr_record m r s)) = m / 2 /\
  (loc_of_shr_record (shr_1 (Build_shr_record m r s)) = loc_Exact <-> m mod 2 = 0 /\ r = false /\ s = false).
Proof.
  intros Hm. destruct m as [|[p|p|]|p]; [| | | |lia]; cbn [shr_1 shr_m].
  - split; [done|]. destruct r, s; naive_solver.
  - rewrite Pos2Z.inj_xI. split; [apply Z.div_unique with 1; lia|].
    rewrite Z.add_comm, Z.mul_comm, Z_mod_plus_full. destruct r, s; naive_solver.
  - rewrite Pos2Z.inj_xO. split; [apply Z.div_unique with 0; lia|].
    rewrite Z.mul_comm, Z.mod_mul by lia. destruct r, s; naive_solver.
  - split; [done|]. destruct r, s; naive_solver.
Qed.

Lemma shr_iter_spec n : forall m r s,
  0 <= m ->
  let t := Nat.iter n shr_1 (Build_shr_record m r s) in
  shr_m t = m / 2 ^ Z.of_nat n /\
  (loc_of_shr_record t = loc_Exact <-> m mod 2 ^ Z.of_nat n = 0 /\ r = false /\ s = false).
Proof.
  induction n as [|n IH]; intros m r s Hm t; subst t.
  - simpl. rewrite Z.div_1_r, Z.mod_1_r. split; [done|]. destruct r, s; naive_solver.
  - rewrite Nat.iter_succ_r.
    destruct (shr_1_spec m r s Hm) as [E1 H1]. destruct (shr_1 _) as [m1 r1 s1]. simpl in E1. subst m1.
    destruct (IH (m / 2) r1 s1) as [E2 H2]; [by apply Z.div_pos|].
    rewrite Nat2Z.inj_succ, Z.pow_succ_r by lia. split; [rewrite E2, Z.div_div by lia; done|].
    assert (0 < 2 ^ Z.of_nat n) by (apply Z.pow_pos_nonneg; lia).
    rewrite H2, Z.rem_mul_r by lia.
    assert (r1 = false /\ s1 = false <-> loc_of_shr_record (Build_shr_record (m / 2) r1 s1) = loc_Exact) as ->
      by (destruct r1, s1; naive_solver).
    rewrite H1. pose proof (Z.mod_pos_bound m 2). pose proof (Z.mod_pos_bound (m / 2) (2 ^ Z.of_nat n)).
    intuition lia.
Qed.

(** A location is 1 when the value is not exact. *)
Definition inexact (l : location) : Z := match l with loc_Exact => 0 | _ => 1 end.

Lemma round_nearest_range m l : m <= round_nearest_even m l <= m + inexact l.
Proof. destruct l as [|[]]; simpl; repeat case_match; lia. Qed.

Lemma loc_of_record m l : loc_of_shr_record (shr_record_of_loc m l) = l.
Proof. by destruct l as [|[]]. Qed.

Lemma shr_m_of_loc m l : shr_m (shr_record_of_loc m l) = m.
Proof. by destruct l as [|[]]. Qed.

(** One shift and rounding by [n] places: between the quotient and the
    smallest multiple above. *)
Definition ceil_div (a b : Z) : Z := - ((- a) / b).

Lemma ceil_div_le a b c : 0 < b -> a <= c * b -> ceil_div a b <= c.
Proof. intros Hb H. unfold ceil_div. assert (- c <= (- a) / b); [|lia]. apply Z.div_le_lower_bound; lia. Qed.

Lemma ceil_div_1 a : ceil_div a 1 = a.
Proof. unfold ceil_div. rewrite Z.div_1_r. lia. Qed.

Lemma ceil_div_mono a c b : 0 < b -> a <= c -> ceil_div a b <= ceil_div c b.
Proof. intros Hb H. unfold ceil_div. assert (- c / b <= - a / b) by (apply Z.div_le_mono; lia). lia. Qed.

Lemma ceil_div_not_exact a b : 0 < b -> a mod b <> 0 -> ceil_div a b = a / b + 1.
Proof. intros Hb Hm. unfold ceil_div. rewrite Z.div_opp_l_nz by lia. lia. Qed.

Lemma ceil_div_succ a b : 0 < b -> 0 <= a -> a / b + 1 <= ceil_div (a + 1) b.
Proof.
  intros Hb Ha. unfold ceil_div. assert ((- (a + 1)) / b < - (a / b)); [|lia].
  apply Z.div_lt_upper_bound; [done|]. pose proof (Z.mul_div_le a b). nia.
Qed.

Lemma shr_round m e l n :
  0 <= m ->
  let '(mrs, e') := shr (shr_record_of_loc m l) e n in
  let m1 := round_nearest_even (shr_m mrs) (loc_of_shr_record mrs) in
  e' = e + Z.max 0 n /\
  m / 2 ^ Z.max 0 n <= m1 <= ceil_div (m + inexact l) (2 ^ Z.max 0 n).
Proof.
  intros Hm.
  assert (forall p : positive, exists r s, shr_record_of_loc m l = Build_shr_record m r s /\
    (r = false /\ s = false <-> l = loc_Exact)) as Hrec.
  { intros _. destruct l as [|[]]; do 2 eexists; (split; [done|]); naive_solver. }
  destruct n as [|p|p]; cbn [shr]; cbv zeta.
  1,3: rewrite loc_of_record, shr_m_of_loc, Z.max_l, Z.pow_0_r, Z.div_1_r, ceil_div_1, Z.add_0_r by lia;
    split; [done|apply round_nearest_range].
  rewrite iter_pos_add. replace (Z.max 0 (Z.pos p)) with (Z.of_nat (Pos.to_nat p)) by lia.
  destruct (Hrec p) as (r & s & -> & Hl). destruct (shr_iter_spec (Pos.to_nat p) m r s Hm) as [E1 H1].
  set (t := Nat.iter _ _ _) in *. set (D := 2 ^ Z.of_nat (Pos.to_nat p)) in *.
  assert (0 < D) as Hpos by (apply Z.pow_pos_nonneg; lia).
  split; [lia|]. rewrite E1. destruct (round_nearest_range (m / D) (loc_of_shr_record t)) as [Hlo Hhi].
  split; [done|]. etransitivity; [exact Hhi|]. destruct (decide (m mod D = 0)) as [Hz|Hz].
  - destruct l as [|c]; cbn [inexact].
    + destruct (proj2 Hl eq_refl) as [-> ->]. rewrite (proj2 H1) by done. cbn [inexact].
      rewrite !Z.add_0_r. unfold ceil_div. rewrite Z.div_opp_l_z by lia. lia.
    + etransitivity; [|by apply ceil_div_succ]. destruct (loc_of_shr_record t); cbn [inexact]; lia.
  - transitivity (ceil_div m D); [|apply ceil_div_mono; [done|]; destruct l; cbn [inexact]; lia].
    rewrite (ceil_div_not_exact m D) by done. destruct (loc_of_shr_record t); cbn [inexact]; lia.
Qed.

(** ** Rounding *)

Lemma digits2_bounds p : 2 ^ (Z.pos (digits2_pos p) - 1) <= Z.pos p < 2 ^ Z.pos (digits2_pos p).
Proof.
  rewrite digits2_log2. destruct (Z.log2_spec (Z.pos p)) as [H1 H2]; [lia|].
  replace (Z.log2 (Z.pos p) + 1 - 1) with (Z.log2 (Z.pos p)) by lia. by rewrite Z.add_1_r.
Qed.

Lemma Zdigits2_le m k : 0 <= k -> 0 <= m < 2 ^ k -> Zdigits2 m <= k.
Proof.
  intros Hk Hm. destruct m as [|p|p]; [simpl; lia| |lia]. cbn [Zdigits2].
  destruct (digits2_bounds p) as [Hlo _]. destruct (Z.le_gt_cases (Z.pos (digits2_pos p)) k); [done|].
  assert (2 ^ k <= 2 ^ (Z.pos (digits2_pos p) - 1)) by (apply Z.pow_le_mono_r; lia). lia.
Qed.

(** The number of places a positive mantissa is shifted by. *)
Definition places (m e : Z) : Z := Z.max 0 (fexp 53 1024 (Zdigits2 m + e) - e).

(** The exponent after the shift, and the mantissa left. *)
Lemma places_spec m e :
  0 <= m -> -3000 <= e ->
  -1074 <= e + places m e /\ m < 2 ^ (53 + places m e) /\
  (-1074 < e + places m e -> 0 < places m e -> 2 ^ (52 + places m e) <= m).
Proof.
  intros Hm He. unfold places, fexp, emin. destruct m as [|p|p]; [|cbn [Zdigits2]|lia].
  { split_and!; [simpl; lia|apply Z.pow_pos_nonneg; lia|simpl; lia]. }
  destruct (digits2_bounds p) as [Hlo Hhi]. set (d := Z.pos (digits2_pos p)) in *. split; [lia|]. split.
  - eapply Z.lt_le_trans; [exact Hhi|]. apply Z.pow_le_mono_r; lia.
  - intros H1 H2. etransitivity; [|exact Hlo]. apply Z.pow_le_mono_r; lia.
Qed.

(** The rounded mantissa [m1], in units of the shifted exponent, determines
    the result; a carry to 54 bits shifts once more without loss. *)
Lemma round_aux_spec s m e l :
  0 <= m -> -3000 <= e ->
  exists m1, let n := places m e in
    m / 2 ^ n <= m1 <= ceil_div (m + inexact l) (2 ^ n) /\
    binary_round_aux 53 1024 s m e l =
      (if m1 =? 0 then S754_zero s
       else
         let '(m2, e2) := if m1 =? 2 ^ 53 then (2 ^ 52, e + n + 1) else (m1, e + n) in
         if e2 <=? 971 then S754_finite s (Z.to_pos m2) e2 else S754_infinity s).
Proof.
  intros Hm He. destruct (places_spec m e Hm He) as (He' & Hlt & _).
  pose proof (shr_round m e l (fexp 53 1024 (Zdigits2 m + e) - e)) as Hr.
  unfold binary_round_aux, shr_fexp at 1. destruct (shr _ _ _) as [mrs e'].
  destruct Hr as [-> [Hlo Hhi]]; [lia|]. fold (places m e) in *. set (n := places m e) in *.
  set (m1 := round_nearest_even _ _) in *. exists m1. split; [done|].
  assert (0 <= n) by (unfold n, places; lia).
  assert (0 < 2 ^ n) by (apply Z.pow_pos_nonneg; lia).
  assert (0 <= m1 <= 2 ^ 53) as Hm1.
  { split; [transitivity (m / 2 ^ n); [apply Z.div_pos; lia|done]|].
    etransitivity; [exact Hhi|]. apply ceil_div_le; [done|].
    rewrite Z.pow_add_r in Hlt by lia. destruct l; cbn [inexact]; lia. }
  unfold shr_fexp. destruct (Z.eqb_spec m1 (2 ^ 53)) as [E|E].
  - rewrite E. change (Zdigits2 (2 ^ 53)) with 54. unfold fexp, emin.
    replace (Z.max (54 + (e + n) - 53) (3 - 1024 - 53) - (e + n)) with 1 by lia. done.
  - destruct (Z.eqb_spec m1 0) as [E0|E0].
    { rewrite E0. change (Zdigits2 0) with 0. unfold fexp, emin.
      destruct (Z.max (0 + (e + n) - 53) (3 - 1024 - 53) - (e + n)) eqn:Ed; [done|lia|done]. }
    assert (Zdigits2 m1 <= 53) by (apply Zdigits2_le; lia).
    assert (fexp 53 1024 (Zdigits2 m1 + (e + n)) - (e + n) <= 0) by (unfold fexp, emin; lia).
    destruct (fexp 53 1024 (Zdigits2 m1 + (e + n)) - (e + n)); cbn [shr]; [|lia|];
      cbn [shr_record_of_loc shr_m]; by destruct m1 as [|q|q]; [done| |lia].
Qed.

Lemma pw_lt_inv e1 e2 : -4000 <= e2 -> pw e1 <= pw e2 -> e1 <= e2.
Proof.
  intros He H. destruct (Z.le_gt_cases e1 e2); [done|].
  assert (pw e2 < pw e1) by (apply Z.pow_lt_mono_r; lia). lia.
Qed.

(** What the case distinction at the end of rounding amounts to. *)
Definition rounded (s : bool) (m1 e1 : Z) : f64 :=
  if m1 =? 0 then S754_zero s
  else
    let '(m2, e2) := if m1 =? 2 ^ 53 then (2 ^ 52, e1 + 1) else (m1, e1) in
    if e2 <=? 971 then S754_finite s (Z.to_pos m2) e2 else S754_infinity s.

Lemma rounded_finite s m1 e1 b j :
  0 < m1 -> -1074 <= e1 -> b <= 2 ^ 53 -> j <= 900 -> m1 * pw e1 <= b * pw j ->
  exists m2 e2, rounded s m1 e1 = S754_finite s m2 e2 /\ -1074 <= e2 /\ Z.pos m2 * pw e2 = m1 * pw e1.
Proof.
  intros Hm He Hb Hj Hle. unfold rounded. rewrite (proj2 (Z.eqb_neq _ _)) by lia.
  assert (exists m2 e2, (if m1 =? 2 ^ 53 then (2 ^ 52, e1 + 1) else (m1, e1)) = (m2, e2) /\ 0 < m2 /\
    e1 <= e2 /\ m2 * pw e2 = m1 * pw e1) as (m2 & e2 & -> & Hm2 & He2 & Hv).
  { destruct (Z.eqb_spec m1 (2 ^ 53)) as [->|]; [|exists m1, e1; split_and!; [done|lia..]]. do 2 eexists. split; [done|].
    split_and!; [done|lia|]. rewrite pw_add by lia. change (2 ^ 53) with (2 ^ 52 * 2). ring. }
  assert (0 < pw e1) by (apply pw_pos; lia). assert (0 < pw e2) by (apply pw_pos; lia).
  assert (0 <= pw j) by (apply Z.pow_nonneg; lia).
  assert (pw e2 <= pw 953) as H953.
  { transitivity (m2 * pw e2); [nia|]. rewrite Hv. etransitivity; [exact Hle|].
    change 953 with (900 + 53). rewrite pw_add by lia.
    assert (pw j <= pw 900) by (apply pw_le; lia). nia. }
  apply pw_lt_inv in H953; [|lia]. rewrite (proj2 (Z.leb_le _ _)) by lia.
  do 2 eexists. split; [done|]. split; [lia|]. by rewrite Z2Pos.id.
Qed.

(** Rounding stays below a representable bound ... *)
Lemma round_atmost s m e l b j :
  0 <= m -> -3000 <= e -> 0 < b <= 2 ^ 53 -> -1074 <= j <= 900 ->
  (m + inexact l) * pw e <= b * pw j -> f64_atmost (binary_round_aux 53 1024 s m e l) b j.
Proof.
  intros Hm He Hb Hj Hle. destruct (places_spec m e Hm He) as (He' & _ & Hfull).
  destruct (round_aux_spec s m e l Hm He) as (m1 & [Hlo Hhi] & ->). fold (rounded s m1 (e + places m e)).
  set (n := places m e) in *. assert (0 <= n) by (unfold n, places; lia).
  assert (0 < 2 ^ n) by (apply Z.pow_pos_nonneg; lia). assert (0 < pw e) by (apply pw_pos; lia).
  assert (pw (e + n) = pw e * 2 ^ n) as Ep by (apply pw_add; lia).
  assert (m1 * pw (e + n) <= b * pw j) as Hv.
  { assert (ceil_div (m + inexact l) (2 ^ n) * pw (e + n) <= b * pw j); [|nia].
    destruct (Z.le_gt_cases (e + n) j) as [Hej|Hej].
    - assert (pw j = pw (e + n) * 2 ^ (j - (e + n))) as Ej by (rewrite <-pw_add by lia; f_equal; lia).
      rewrite Ej in *. assert (ceil_div (m + inexact l) (2 ^ n) <= b * 2 ^ (j - (e + n))); [|nia].
      apply ceil_div_le; [done|]. rewrite Ep in Hle. nia.
    - destruct (decide (n = 0)) as [E0|E0].
      { rewrite E0, ceil_div_1, Z.add_0_r. done. }
      specialize (Hfull ltac:(lia) ltac:(lia)). rewrite Z.pow_add_r in Hfull by lia.
      assert (2 * pw j <= pw (e + n)) as Hj2.
      { transitivity (pw (j + 1)); [rewrite pw_add by lia; lia|apply pw_le; lia]. }
      assert (b * pw j <= 2 ^ 52 * pw (e + n)) by (change (2 ^ 53) with (2 ^ 52 * 2) in Hb; nia).
      assert (0 <= inexact l) by (destruct l; simpl; lia).
      assert (2 ^ 52 * pw (e + n) <= m * pw e) by (rewrite Ep; nia).
      transitivity (2 ^ 52 * pw (e + n)); [|nia]. apply Z.mul_le_mono_nonneg_r; [lia|].
      apply ceil_div_le; [done|]. apply (Z.mul_le_mono_pos_r _ _ (pw e)); [done|]. lia. }
  destruct (Z.eqb_spec m1 0) as [E|E]; [unfold rounded; rewrite E; simpl; lia|].
  destruct (rounded_finite s m1 (e + n) b j) as (m2 & e2 & -> & He2 & Hv2); [|lia..|].
  - assert (0 <= m / 2 ^ n) by (apply Z.div_pos; lia). lia.
  - cbn [f64_atmost]. split; [done|lia].
Qed.

(** ... and above one, when the result does not overflow. *)
Lemma round_atleast s m e l b j b' j' :
  0 < m -> -3000 <= e -> 0 < b <= 2 ^ 53 -> -1074 <= j ->
  b * pw j <= m * pw e ->
  0 < b' <= 2 ^ 53 -> -1074 <= j' <= 900 -> (m + inexact l) * pw e <= b' * pw j' ->
  f64_atleast (binary_round_aux 53 1024 s m e l) b j.
Proof.
  intros Hm He Hb Hj Hge Hb' Hj' Hle.
  assert (0 <= m) as Hm0 by lia. pose proof (round_atmost s m e l b' j' Hm0 He Hb' Hj' Hle) as Hfin.
  destruct (places_spec m e Hm0 He) as (He' & _ & Hfull).
  destruct (round_aux_spec s m e l Hm0 He) as (m1 & [Hlo _] & Er). fold (rounded s m1 (e + places m e)) in Er.
  set (n := places m e) in *. assert (0 <= n) by (unfold n, places; lia).
  assert (0 < 2 ^ n) by (apply Z.pow_pos_nonneg; lia). assert (0 < pw e) by (apply pw_pos; lia).
  assert (pw (e + n) = pw e * 2 ^ n) as Ep by (apply pw_add; lia). assert (0 < pw j) by (apply pw_pos; lia).
  assert (b * pw j <= m1 * pw (e + n)) as Hv.
  { assert (b * pw j <= m / 2 ^ n * pw (e + n)); [|nia]. destruct (Z.le_gt_cases (e + n) j) as [Hej|Hej].
    - assert (pw j = pw (e + n) * 2 ^ (j - (e + n))) as Ej by (rewrite <-pw_add by lia; f_equal; lia).
      assert (b * 2 ^ (j - (e + n)) <= m / 2 ^ n); [|nia].
      apply Z.div_le_lower_bound; [done|]. rewrite Ej, Ep in Hge. nia.
    - destruct (decide (n = 0)) as [E0|E0].
      { rewrite E0, Z.add_0_r, Z.pow_0_r, Z.div_1_r. done. }
      specialize (Hfull ltac:(lia) ltac:(lia)). rewrite Z.pow_add_r in Hfull by lia.
      assert (2 * pw j <= pw (e + n)) as Hj2.
      { transitivity (pw (j + 1)); [rewrite pw_add by lia; lia|apply pw_le; lia]. }
      assert (2 ^ 52 <= m / 2 ^ n) by (apply Z.div_le_lower_bound; lia).
      change (2 ^ 53) with (2 ^ 52 * 2) in Hb. nia. }
  assert (0 < m1) as Hm1.
  { assert (0 < pw (e + n)) by (apply pw_pos; lia). nia. }
  rewrite Er in *. unfold rounded in *. rewrite (proj2 (Z.eqb_neq m1 0)) in * by lia.
  destruct (Z.eqb_spec m1 (2 ^ 53)) as [E|E]; (case_match; [|done]); cbn [f64_atleast]; (split; [lia|]).
  - rewrite E in Hv. change (Z.pos (Z.to_pos (2 ^ 52))) with (2 ^ 52). rewrite pw_add by lia.
    change (2 ^ 53) with (2 ^ 52 * 2) in Hv. lia.
  - by rewrite Z2Pos.id.
Qed.

(** ** Operations *)

Lemma shl_align_val m e e' :
  -4000 <= e -> -4000 <= e' ->
  Z.pos (shl_align m e e').1 * pw (shl_align m e e').2 = Z.pos m * pw e /\
  Z.min e e' <= (shl_align m e e').2.
Proof.
  intros He He'. unfold shl_align. destruct (e' - e) as [|d|d] eqn:Ed; cbn [fst snd]; [split; [done|lia]..|].
  split; [|lia]. rewrite iter_xO. replace e with (e' + Z.pos d) by lia. rewrite pw_add by lia. ring.
Qed.

(** A number given by a mantissa and any exponent is rounded from its value. *)
Lemma binary_round_as_aux s p e :
  -3000 <= e ->
  exists m' e', binary_round 53 1024 s p e = binary_round_aux 53 1024 s (Z.pos m') e' loc_Exact /\
    -3000 <= e' /\ Z.pos m' * pw e' = Z.pos p * pw e.
Proof.
  intros He. unfold binary_round. set (f := fexp _ _ _).
  assert (-1074 <= f) by (unfold f, fexp, emin; lia).
  destruct (shl_align_val p e f) as [Hv Hm]; [lia..|]. destruct (shl_align p e f) as [m' e'].
  cbn [fst snd] in *. exists m', e'. split_and!; [done|lia|done].
Qed.

Lemma normalize_atmost z e sz b j :
  -3000 <= e -> 0 < b <= 2 ^ 53 -> -1074 <= j <= 900 ->
  Z.abs z * pw e <= b * pw j -> f64_atmost (binary_normalize 53 1024 z e sz) b j.
Proof.
  intros He Hb Hj Hle. destruct z as [|p|p]; cbn [binary_normalize]; [simpl; lia| |];
    destruct (binary_round_as_aux false p e He) as (m & e' & E1 & He1 & Hv1);
    destruct (binary_round_as_aux true p e He) as (m2 & e2 & E2 & He2 & Hv2); rewrite ?E1, ?E2;
    (apply round_atmost; [lia|done|done|done|]); cbn [inexact Z.abs] in *; lia.
Qed.

Lemma f64_of_Z_atmost z b j :
  0 < b <= 2 ^ 53 -> 0 <= j <= 900 -> Z.abs z <= b * 2 ^ j -> f64_atmost (f64_of_Z z) b j.
Proof.
  intros Hb Hj Hz. apply normalize_atmost; [lia|done|lia|]. replace j with (0 + j) by lia.
  rewrite pw_add by lia. pose proof (pw_pos 0). nia.
Qed.

Lemma pw_split e1 e2 : -4000 <= e1 -> -4000 <= e2 -> -4000 <= e1 + e2 -> pw (e1 + e2) * pw 0 = pw e1 * pw e2.
Proof. intros. unfold pw. rewrite <-!Z.pow_add_r by lia. f_equal. lia. Qed.

Lemma f64_mul_atmost x y b1 j1 b2 j2 b j :
  f64_atmost x b1 j1 -> f64_atmost y b2 j2 -> -1074 <= j1 -> -1074 <= j2 ->
  0 < b <= 2 ^ 53 -> -1074 <= j <= 900 -> b1 * b2 * pw (j1 + j2) <= b * pw j ->
  f64_atmost (f64_mul x y) b j.
Proof.
  intros Hx Hy Hj1 Hj2 Hb Hj Hle. destruct x as [sx|sx| |sx m1 e1], y as [sy|sy| |sy m2 e2]; try done;
    try (simpl; lia).
  destruct Hx as [He1 Hx], Hy as [He2 Hy]. unfold f64_mul. cbn [SFmul].
  apply round_atmost; [lia|lia|done|done|]. cbn [inexact]. rewrite Z.add_0_r, Pos2Z.inj_mul.
  pose proof (pw_pos 0). pose proof (pw_pos e1). pose proof (pw_pos e2).
  apply (Z.mul_le_mono_pos_r _ _ (pw 0)); [lia|].
  etransitivity; [|apply Z.mul_le_mono_nonneg_r; [lia|exact Hle]].
  rewrite <-!Z.mul_assoc, !pw_split by lia.
  replace (Z.pos m1 * (Z.pos m2 * (pw e1 * pw e2))) with (Z.pos m1 * pw e1 * (Z.pos m2 * pw e2)) by ring.
  replace (b1 * (b2 * (pw j1 * pw j2))) with (b1 * pw j1 * (b2 * pw j2)) by ring.
  apply Z.mul_le_mono_nonneg; nia.
Qed.

Lemma f64_add_atmost x y b1 b2 j :
  f64_atmost x b1 j -> f64_atmost y b2 j -> 0 <= b1 -> 0 <= b2 -> 0 < b1 + b2 <= 2 ^ 53 -> -1074 <= j <= 900 ->
  f64_atmost (f64_add x y) (b1 + b2) j.
Proof.
  intros Hx Hy Hb1 Hb2 Hb Hj. pose proof (pw_pos j).
  destruct x as [sx|sx| |sx m1 e1], y as [sy|sy| |sy m2 e2]; try done; unfold f64_add; cbn [SFadd].
  - destruct sx, sy; simpl; lia.
  - destruct Hy. split; [done|]. nia.
  - destruct Hx. split; [done|]. nia.
  - destruct Hx as [He1 Hx], Hy as [He2 Hy].
    destruct (shl_align_val m1 e1 (Z.min e1 e2)) as [H1 H1'], (shl_align_val m2 e2 (Z.min e1 e2)) as [H2 H2']; [lia..|].
    assert (forall m e, e = e1 \/ e = e2 -> (shl_align m e (Z.min e1 e2)).2 = Z.min e1 e2) as Hs.
    { intros m e Hor. unfold shl_align. destruct (Z.min e1 e2 - e) eqn:Ed; cbn [snd]; lia. }
    rewrite Hs in H1, H2 by auto. apply normalize_atmost; [lia|done|done|].
    transitivity ((Z.pos (shl_align m1 e1 (Z.min e1 e2)).1 + Z.pos (shl_align m2 e2 (Z.min e1 e2)).1) * pw (Z.min e1 e2)).
    + apply Z.mul_le_mono_nonneg_r; [pose proof (pw_pos (Z.min e1 e2)); lia|].
      generalize (shl_align m1 e1 (Z.min e1 e2)).1, (shl_align m2 e2 (Z.min e1 e2)).1. intros p1 p2.
      unfold cond_Zopp. clear. destruct sx, sy; lia.
    + rewrite Z.mul_add_distr_r. lia.
Qed.

Lemma new_location_inexact d r : inexact (new_location d r) = if r =? 0 then 0 else 1.
Proof.
  unfold new_location, new_location_even, new_location_odd. destruct (Z.even d), (Z.eqb_spec r 0); done.
Qed.

Lemma div_core m1 e1 m2 e2 :
  let e' := Z.min (fexp 53 1024 (Z.pos (digits2_pos m1) + e1 - (Z.pos (digits2_pos m2) + e2))) (e1 - e2) in
  let M := Z.pos m1 * 2 ^ (e1 - e2 - e') in
  SFdiv_core_binary 53 1024 (Z.pos m1) e1 (Z.pos m2) e2 =
    (M / Z.pos m2, e', new_location (Z.pos m2) (M mod Z.pos m2)).
Proof.
  intros e' M. unfold SFdiv_core_binary. cbn [Zdigits2]. fold e'.
  assert (0 <= e1 - e2 - e') by lia.
  assert ((match e1 - e2 - e' with Z0 => Z.pos m1 | Z.pos _ => Z.shiftl (Z.pos m1) (e1 - e2 - e') | Z.neg _ => 0 end)
    = M) as ->.
  { unfold M. destruct (e1 - e2 - e') eqn:Es; [simpl; lia|by rewrite Z.shiftl_mul_pow2 by lia|lia]. }
  unfold Z.div, Z.modulo. by destruct (Z.div_eucl M (Z.pos m2)).
Qed.

(** Dividing by a number of magnitude at least one. *)
Lemma f64_div_atmost x y b j b' j' :
  f64_atmost x b j -> f64_atleast y 1 0 -> f64_atmost y b' j' -> b' <= 2 ^ 53 -> j' <= 900 ->
  0 < b <= 2 ^ 53 -> -1074 <= j <= 900 ->
  f64_atmost (f64_div x y) b j.
Proof.
  intros Hx Hy1 Hy Hb' Hj' Hb Hj.
  destruct x as [sx|sx| |sx m1 e1], y as [sy|sy| |sy m2 e2]; try done; try (simpl in *; lia).
  destruct Hx as [He1 Hx], Hy1 as [He2 Hy1], Hy as [_ Hy].
  assert (e2 <= 953) as He2'.
  { assert (0 < pw e2) by (apply pw_pos; lia).
    assert (0 <= pw j') by (apply Z.pow_nonneg; lia). assert (pw j' <= pw 900) by (apply pw_le; lia).
    assert (0 < pw 900) by (apply pw_pos; lia).
    apply pw_lt_inv; [lia|]. change 953 with (900 + 53). rewrite pw_add by lia. nia. }
  unfold f64_div. cbn [SFdiv]. rewrite div_core.
  set (d1 := Z.pos (digits2_pos m1)). set (d2 := Z.pos (digits2_pos m2)).
  set (f := fexp 53 1024 (d1 + e1 - (d2 + e2))). set (e' := Z.min f (e1 - e2)).
  assert (-1074 <= f) by (unfold f, fexp, emin; lia). assert (0 <= e1 - e2 - e') by lia.
  set (M := Z.pos m1 * 2 ^ (e1 - e2 - e')).
  pose proof (Z.div_mod M (Z.pos m2)) as Hq. pose proof (Z.mod_pos_bound M (Z.pos m2)) as Hr.
  set (q := M / Z.pos m2) in *. set (r := M mod Z.pos m2) in *.
  assert (0 < 2 ^ (e1 - e2 - e')) by (apply Z.pow_pos_nonneg; lia).
  assert (0 <= q) as Hq0 by nia.
  assert (0 < pw e') by (apply pw_pos; lia). assert (0 < pw e2) by (apply pw_pos; lia).
  assert (0 < pw 0) by (apply pw_pos; lia). assert (0 < pw j) by (apply pw_pos; lia).
  (* the exact quotient is at most the bound *)
  assert (M * pw e' = Z.pos m1 * pw (e1 - e2)) as EM.
  { unfold M. replace (e1 - e2) with (e' + (e1 - e2 - e')) at 2 by lia. rewrite pw_add by lia. ring. }
  assert (M * pw e' <= b * pw j * Z.pos m2) as HM.
  { rewrite EM. apply (Z.mul_le_mono_pos_r _ _ (pw e2)); [done|].
    replace (Z.pos m1 * pw (e1 - e2) * pw e2) with (Z.pos m1 * pw e1 * pw 0); [nia|].
    rewrite <-!Z.mul_assoc. f_equal. rewrite <-(pw_split (e1 - e2) e2) by lia. do 2 f_equal. lia. }
  apply round_atmost; [done|lia|done|done|]. rewrite new_location_inexact.
  set (qe := q + (if r =? 0 then 0 else 1)).
  destruct (Z.le_gt_cases e' j) as [Hej|Hej].
  - assert (pw j = pw e' * 2 ^ (j - e')) as Ej by (rewrite <-pw_add by lia; f_equal; lia).
    assert (0 < 2 ^ (j - e')) by (apply Z.pow_pos_nonneg; lia).
    assert (M <= b * 2 ^ (j - e') * Z.pos m2) by (rewrite Ej in HM; nia).
    assert (qe <= b * 2 ^ (j - e')); [|nia]. unfold qe. destruct (Z.eqb_spec r 0); nia.
  - exfalso. destruct (digits2_bounds m1) as [Hm1 _], (digits2_bounds m2) as [_ Hm2].
    fold d1 in Hm1. fold d2 in Hm2.
    assert (f = d1 + e1 - (d2 + e2) - 53) as Ef by (unfold f, fexp, emin in *; lia).
    assert (2 * pw j <= pw e') as Hj2.
    { transitivity (pw (j + 1)); [rewrite pw_add by lia; lia|apply pw_le; lia]. }
    assert (b * pw j <= 2 ^ 52 * pw e') as Hbj by (change (2 ^ 53) with (2 ^ 52 * 2) in Hb; nia).
    assert (2 ^ 52 * 2 ^ d2 <= M) as HM2.
    { unfold M. transitivity (2 ^ (d1 - 1) * 2 ^ (e1 - e2 - e')); [|nia].
      rewrite <-!Z.pow_add_r by lia. apply Z.pow_le_mono_r; lia. }
    assert (M * pw e' <= 2 ^ 52 * Z.pos m2 * pw e') by nia. nia.
Qed.

Lemma f64_of_Z_atleast z b :
  0 < b <= 2 ^ 53 -> b <= Z.abs z <= 2 ^ 64 -> f64_atleast (f64_of_Z z) b 0.
Proof.
  intros Hb Hz. unfold f64_of_Z. pose proof (pw_pos 0).
  assert (pw 64 = pw 0 * 2 ^ 64) as E64 by (change 64 with (0 + 64) at 1; by rewrite pw_add).
  assert (forall s p, b <= Z.pos p <= 2 ^ 64 -> f64_atleast (binary_round 53 1024 s p 0) b 0) as H'.
  { intros s p Hp. destruct (binary_round_as_aux s p 0) as (m & e & -> & He & Hv); [lia|].
    apply (round_atleast s (Z.pos m) e loc_Exact b 0 1 64);
      [lia|done|done|lia|rewrite Hv; nia|lia|lia|cbn [inexact]; rewrite Z.add_0_r, Hv, E64; nia]. }
  destruct z as [|p|p]; cbn [binary_normalize Z.abs] in *; [lia|by apply H'..].
Qed.

(** ** The length of a printed number *)

Lemma round_half_even_le num den n : 0 < den -> num <= n * den -> round_half_even num den <= n.
Proof.
  intros Hd Hle. unfold round_half_even. pose proof (Z.div_mod num den). pose proof (Z.mod_pos_bound num den).
  assert (num / den <= n) by (apply Z.div_le_upper_bound; lia).
  destruct (decide (num / den = n)); repeat case_match; rewrite ?Z.ltb_lt, ?Z.ltb_ge in *; nia.
Qed.

Lemma round_half_even_nonneg num den : 0 < den -> 0 <= num -> 0 <= round_half_even num den.
Proof. intros. unfold round_half_even. pose proof (Z.div_pos num den). repeat case_match; lia. Qed.

Lemma f64_scaled_le d m e b j :
  -1074 <= e -> 0 <= j -> Z.pos m * pw e <= b * pw j ->
  0 <= f64_scaled d m e <= b * 2 ^ j * 10 ^ Z.of_nat d.
Proof.
  intros He Hj Hle. unfold f64_scaled. pose proof (pw_pos 0). pose proof (pw_pos e).
  replace j with (0 + j) in Hle by lia. rewrite pw_add in Hle by lia.
  assert (0 < 10 ^ Z.of_nat d) by (apply Z.pow_pos_nonneg; lia).
  destruct (Z.leb_spec 0 e).
  - assert (0 < 2 ^ e) by (apply Z.pow_pos_nonneg; lia).
    replace e with (0 + e) in Hle by lia. rewrite pw_add in Hle by lia. split; [lia|].
    apply Z.mul_le_mono_nonneg_r; [lia|]. nia.
  - assert (0 < 2 ^ (- e)) by (apply Z.pow_pos_nonneg; lia).
    assert (pw 0 = pw e * 2 ^ (- e)) as E0 by (rewrite <-pw_add by lia; f_equal; lia). rewrite E0 in Hle.
    split; [apply round_half_even_nonneg; lia|]. apply round_half_even_le; [done|].
    assert (Z.pos m <= b * 2 ^ j * 2 ^ (- e)) by nia. nia.
Qed.

Lemma digits_long_length n k :
  (0 < k <= 400)%nat -> 0 <= n < 10 ^ Z.of_nat k -> (length (digits_long n) <= k)%nat.
Proof.
  intros Hk Hn. assert (n < 10 ^ Z.of_nat 400).
  { eapply Z.lt_le_trans; [apply Hn|]. apply Z.pow_le_mono_r; lia. }
  destruct (digits_go_spec 400 n []) as (ds & E & _ & _ & _ & Hl); [lia..|].
  unfold digits_long. rewrite E, app_nil_r. apply Hl; [lia|apply Hn].
Qed.

Lemma length_f64_fixed d x b j k :
  f64_atmost x b j -> 0 <= b -> 0 <= j -> (0 < k < 390)%nat -> (d <= 9)%nat -> b * 2 ^ j < 10 ^ Z.of_nat k ->
  (length (f64_fixed d x) <= 2 + k + d)%nat.
Proof.
  intros Hx Hb Hj Hk Hd Hbk.
  assert (0 < 10 ^ Z.of_nat d) as Hpd by (apply Z.pow_pos_nonneg; lia).
  assert (forall n, 0 <= n <= b * 2 ^ j * 10 ^ Z.of_nat d -> (length (fixed_digits d n) <= 1 + k + d)%nat) as Hf.
  { intros n Hn. unfold fixed_digits. rewrite length_app.
    assert (length (digits_long (n / 10 ^ Z.of_nat d)) <= k)%nat as H1.
    { apply digits_long_length; [lia|]. split; [apply Z.div_pos; lia|].
      eapply Z.le_lt_trans; [|exact Hbk]. apply Z.div_le_upper_bound; lia. }
    destruct (Nat.eqb_spec d 0); [simpl; lia|]. cbn [length]. unfold pad_left.
    rewrite length_app, length_replicate.
    assert (length (digits_long (n mod 10 ^ Z.of_nat d)) <= d)%nat; [|lia].
    apply digits_long_length; [lia|]. by apply Z.mod_pos_bound. }
  destruct x as [s|s| |s m e]; [| done..|]; cbn [f64_fixed]; rewrite length_app.
  - specialize (Hf 0). assert (0 <= 2 ^ j) by (apply Z.pow_nonneg; lia).
    destruct s; cbn [length]; specialize (Hf ltac:(nia)); lia.
  - destruct Hx as [He Hx]. specialize (Hf _ (f64_scaled_le d m e b j He Hj Hx)). destruct s; cbn [length]; lia.
Qed.

(** ** Exact printing of integers *)

Lemma digits_go_fuel f1 : forall f2 n acc,
  0 <= n < 10 ^ Z.of_nat f1 -> (0 < f1 <= f2)%nat -> digits_go f1 n acc = digits_go f2 n acc.
Proof.
  induction f1 as [|f1 IH]; intros f2 n acc Hn Hf; [lia|]. destruct f2 as [|f2]; [lia|]. cbn [digits_go].
  destruct (Z.eqb_spec (n / 10) 0) as [|Hz]; [done|].
  rewrite Nat2Z.inj_succ, Z.pow_succ_r in Hn by lia.
  assert (0 <= n / 10 < 10 ^ Z.of_nat f1) by (split; [apply Z.div_pos; lia|apply Z.div_lt_upper_bound; lia]).
  apply IH; [done|]. split; [|lia]. destruct f1; [|lia]. simpl in *. lia.
Qed.

(** [%.0f] prints an integer below 2^53 as its digits. *)
Lemma f64_fixed_int z : 0 <= z < 2 ^ 53 -> f64_fixed 0 (f64_of_Z z) = digits z.
Proof.
  intros Hz. assert (fixed_digits 0 z = digits z) as Hd.
  { unfold fixed_digits, digits_long, digits. change (10 ^ Z.of_nat 0) with 1. cbn [Nat.eqb].
    rewrite Z.div_1_r, app_nil_r. symmetry.
    apply digits_go_fuel; [|lia]. change (10 ^ Z.of_nat 20) with 100000000000000000000. lia. }
  destruct z as [|p|p]; [by rewrite <-Hd| |lia].
  destruct (binary_round_int false p) as (m & e & E & He & Hm); [lia|].
  unfold f64_of_Z. cbn [binary_normalize]. rewrite E. cbn [f64_fixed app]. rewrite <-Hd. f_equal.
  unfold f64_scaled. rewrite Z.pow_0_r, !Z.mul_1_r, Hm. destruct (Z.leb_spec 0 e).
  - replace e with 0 by lia. simpl. lia.
  - assert (0 < 2 ^ (- e)) by (apply Z.pow_pos_nonneg; lia). unfold round_half_even.
    rewrite Z.mod_mul, Z.div_mul by lia. rewrite (proj2 (Z.ltb_lt _ _)) by lia. done.
Qed.

Lemma f64_atmost_mono x b b' j : f64_atmost x b j -> b <= b' -> -4000 <= j -> f64_atmost x b' j.
Proof. intros Hx Hb Hj. pose proof (pw_pos j Hj). destruct x; simpl in *; try done; [lia|]. nia. Qed.
