(* ===== verification/Clock.v ===== *)
(** * [hft::time] (src/mvp/src/time/rdtsc.h)

    The calibrated cycle-counter clock: the counter and the steady clock are
    readings of the environment, the conversion is in [double].  The result of
    a conversion lies between the integers around the exact product of the
    ticks and the calibrated factor. *)

From Corelib Require Import SpecFloat.
From S2P Require Import Prelude Decimal Float64 FloatBounds.

(** ** Values between two bounds *)

(** [x] is not negative and lies between lo * 2^j and hi * 2^j. *)
Definition f64_in (x : f64) (lo hi j : Z) : Prop :=
  match x with
  | S754_zero _ => lo <= 0 <= hi
  | S754_finite false m e => -1074 <= e /\ lo * pw j <= Z.pos m * pw e <= hi * pw j
  | _ => False
  end.

Lemma round_sign s m e l : 0 <= m -> -3000 <= e ->
  match binary_round_aux 53 1024 s m e l with
  | S754_finite s' _ _ | S754_zero s' | S754_infinity s' => s' = s
  | S754_nan => False
  end.
Proof.
  intros Hm He. destruct (round_aux_spec s m e l Hm He) as (m1 & _ & ->).
  destruct (m1 =? 0); [done|]. destruct (m1 =? 2 ^ 53); cbv beta iota; by destruct (_ <=? 971).
Qed.

(** Rounding stays between representable bounds. *)
Lemma round_in m e l lo hi j :
  0 <= m -> -3000 <= e -> 0 <= lo -> 0 < hi <= 2 ^ 53 -> lo <= hi -> -1074 <= j <= 900 ->
  lo * pw j <= m * pw e -> (m + inexact l) * pw e <= hi * pw j ->
  f64_in (binary_round_aux 53 1024 false m e l) lo hi j.
Proof.
  intros Hm He Hlo Hhi Hlh Hj H1 H2. pose proof (round_atmost false m e l hi j Hm He Hhi Hj H2) as Hmost.
  pose proof (round_sign false m e l Hm He) as Hs. pose proof (pw_pos j ltac:(lia)) as Hpj.
  assert (lo <= 0 \/ f64_atleast (binary_round_aux 53 1024 false m e l) lo j) as Hleast.
  { destruct (Z.le_gt_cases lo 0); [by left|]. right.
    assert (0 < m). { pose proof (pw_pos e ltac:(lia)). nia. }
    apply (round_atleast false m e l lo j hi j); [done|done|lia|lia|done|done|done|done]. }
  destruct (binary_round_aux _ _ _ _ _ _) as [s|s| |s m1 e1]; try done; simpl in *.
  - lia.
  - subst s. destruct Hmost as [He1 Hm1]. split; [done|]. split; [|done].
    destruct Hleast as [?|[_ ?]]; [|done]. pose proof (pw_pos e1 ltac:(lia)). nia.
Qed.

Lemma normalize_in z e lo hi j :
  0 <= z -> -3000 <= e -> 0 <= lo -> 0 < hi <= 2 ^ 53 -> lo <= hi -> -1074 <= j <= 900 ->
  lo * pw j <= z * pw e <= hi * pw j -> f64_in (binary_normalize 53 1024 z e false) lo hi j.
Proof.
  intros Hz He Hlo Hhi Hlh Hj [H1 H2]. pose proof (pw_pos j ltac:(lia)).
  destruct z as [|p|p]; cbn [binary_normalize]; [simpl; nia| |lia].
  destruct (binary_round_as_aux false p e He) as (m & e' & -> & He1 & Hv).
  apply round_in; cbn [inexact]; lia.
Qed.

Lemma f64_of_Z_in z : 0 <= z < 2 ^ 53 -> f64_in (f64_of_Z z) z z 0.
Proof.
  intros Hz. destruct (decide (z = 0)) as [->|]; [done|]. apply normalize_in; lia.
Qed.

Lemma f64_mul_in x m2 e2 lo1 hi1 lo hi j :
  f64_in x lo1 hi1 0 -> -1074 <= e2 -> 0 <= lo -> 0 < hi <= 2 ^ 53 -> lo <= hi -> -1074 <= j <= 900 ->
  lo * pw j <= lo1 * (Z.pos m2 * pw e2) -> hi1 * (Z.pos m2 * pw e2) <= hi * pw j ->
  f64_in (f64_mul x (S754_finite false m2 e2)) lo hi j.
Proof.
  intros Hx He2 Hlo Hhi Hlh Hj H1 H2. pose proof (pw_pos 0 ltac:(lia)). pose proof (pw_pos e2 ltac:(lia)).
  pose proof (pw_pos j ltac:(lia)).
  assert (0 < Z.pos m2 * pw e2) as Hv2 by nia. set (v2 := Z.pos m2 * pw e2) in *.
  destruct x as [s|s| |s m1 e1]; try done; [|destruct s; [done|]].
  { unfold f64_in in *. assert (lo1 * v2 <= 0) by (apply Z.mul_nonpos_nonneg; lia).
    assert (lo * pw j <= 0) by lia. split; [nia|lia]. }
  destruct Hx as [He1 [Hx1 Hx2]]. unfold f64_mul. cbn [SFmul xorb]. pose proof (pw_pos e1 ltac:(lia)).
  assert (Z.pos (m1 * m2) * pw (e1 + e2) * pw 0 = Z.pos m1 * pw e1 * v2) as Hv.
  { unfold v2. rewrite Pos2Z.inj_mul, <-Z.mul_assoc, pw_split by lia. ring. }
  apply round_in; cbn [inexact]; [lia|lia|lia|done|done|lia| |]; rewrite ?Z.add_0_r;
    apply (Z.mul_le_mono_pos_r _ _ (pw 0)); try lia; rewrite Hv.
  - transitivity (lo1 * pw 0 * v2); [nia|]. by apply Z.mul_le_mono_nonneg_r; [lia|].
  - transitivity (hi1 * pw 0 * v2); [|nia]. by apply Z.mul_le_mono_nonneg_r; [lia|].
Qed.

Lemma f64_add_in x y lo1 hi1 lo2 hi2 j :
  f64_in x lo1 hi1 j -> f64_in y lo2 hi2 j -> 0 <= lo1 <= hi1 -> 0 <= lo2 <= hi2 -> 0 < hi1 + hi2 <= 2 ^ 53 ->
  -1074 <= j <= 900 -> f64_in (f64_add x y) (lo1 + lo2) (hi1 + hi2) j.
Proof.
  intros Hx Hy H1 H2 Hhi Hj. pose proof (pw_pos j ltac:(lia)).
  destruct x as [sx|sx| |[] m1 e1], y as [sy|sy| |[] m2 e2]; try done; unfold f64_add; cbn [SFadd].
  - destruct sx, sy; simpl in *; lia.
  - destruct Hy as [? ?]. split; [done|]. simpl in Hx. nia.
  - destruct Hx as [? ?]. split; [done|]. simpl in Hy. nia.
  - destruct Hx as [He1 Hx], Hy as [He2 Hy].
    destruct (shl_align_val m1 e1 (Z.min e1 e2)) as [V1 _], (shl_align_val m2 e2 (Z.min e1 e2)) as [V2 _]; [lia..|].
    assert (forall m e, e = e1 \/ e = e2 -> (shl_align m e (Z.min e1 e2)).2 = Z.min e1 e2) as Hs.
    { intros m e Hor. unfold shl_align. destruct (Z.min e1 e2 - e) eqn:Ed; cbn [snd]; lia. }
    rewrite Hs in V1, V2 by auto. cbn [cond_Zopp]. apply normalize_in; [lia|lia|lia|lia|lia|done|].
    rewrite !Z.mul_add_distr_r. lia.
Qed.

Lemma f64_in_mono x lo hi lo' hi' j : f64_in x lo hi j -> lo' <= lo -> hi <= hi' -> -4000 <= j -> f64_in x lo' hi' j.
Proof.
  intros Hx Hl Hh Hj. pose proof (pw_pos j Hj). destruct x as [s|s| |[] m e]; unfold f64_in in *; try done; [lia|].
  destruct Hx as (? & ? & ?). split; [done|]. nia.
Qed.

(** The same bounds in halves. *)
Lemma f64_in_half x lo hi : f64_in x lo hi 0 -> f64_in x (2 * lo) (2 * hi) (-1).
Proof.
  assert (pw 0 = 2 * pw (-1)) as E by (change 0 with (-1 + 1) at 1; rewrite pw_add by lia; lia).
  destruct x as [s|s| |[] m e]; unfold f64_in; [lia|by intros []|by intros []|by intros []|]. rewrite E.
  intros [? ?]. split; [done|]. lia.
Qed.

Lemma f64_half_in : f64_in f64_half 1 1 (-1).
Proof. vm_compute. split; [discriminate|split; discriminate]. Qed.

(** The cast to [uint64_t]: truncation; undefined when the value does not fit. *)
Definition f64_to_u64 (x : f64) : option Z :=
  match x with
  | S754_zero _ => Some 0
  | S754_finite s m e =>
      let v := if 0 <=? e then Z.pos m * 2 ^ e else Z.pos m / 2 ^ (- e) in
      let v := if s : bool then - v else v in
      if (0 <=? v) && (v <? UINT64_SIZE) then Some v else None
  | _ => None
  end.

(** Between two half-integers, truncation gives an integer between them. *)
Lemma f64_to_u64_in x lo hi :
  f64_in x (2 * lo + 1) (2 * hi + 1) (-1) -> 0 <= lo -> hi < UINT64_SIZE ->
  exists n, f64_to_u64 x = Some n /\ lo <= n <= hi.
Proof.
  intros Hx Hlo Hhi. destruct x as [s|s| |[] m e]; unfold f64_in in Hx; try tauto; [lia|].
  destruct Hx as (He & H1 & H2). unfold f64_to_u64. cbv zeta beta iota.
  set (v := if 0 <=? e then _ else _). assert (lo <= v <= hi) as Hv.
  { unfold v. destruct (Z.leb_spec 0 e).
    - assert (pw e = pw (-1) * 2 ^ (e + 1)) as E by (rewrite <-pw_add by lia; f_equal; lia).
      rewrite E in *. rewrite Z.pow_add_r in * by lia. pose proof (pw_pos (-1) ltac:(lia)).
      change (2 ^ 1) with 2 in *. nia.
    - assert (pw (-1) = pw e * 2 ^ (-1 - e)) as E by (rewrite <-pw_add by lia; f_equal; lia).
      rewrite E in *. pose proof (pw_pos e ltac:(lia)).
      assert (2 ^ (- e) = 2 * 2 ^ (-1 - e)) as E2 by (rewrite <-Z.pow_succ_r by lia; f_equal; lia).
      assert (0 < 2 ^ (-1 - e)) by (apply Z.pow_pos_nonneg; lia). set (k := 2 ^ (-1 - e)) in *. rewrite E2.
      assert ((2 * lo + 1) * k <= Z.pos m <= (2 * hi + 1) * k) as [Hm1 Hm2] by nia.
      split; [apply Z.div_le_lower_bound; lia|]. apply Zlt_succ_le, Z.div_lt_upper_bound; lia. }
  exists v. split; [|done]. rewrite (proj2 (Z.leb_le _ _)), (proj2 (Z.ltb_lt _ _)) by lia. done.
Qed.

(** Truncation is the floor of the value. *)
Lemma f64_to_u64_value m e :
  -1074 <= e -> f64_to_u64 (S754_finite false m e) =
    let v := Z.pos m * pw e / pw 0 in if (0 <=? v) && (v <? UINT64_SIZE) then Some v else None.
Proof.
  intros He. unfold f64_to_u64. cbv zeta beta iota.
  replace (if 0 <=? e then Z.pos m * 2 ^ e else Z.pos m / 2 ^ (- e)) with (Z.pos m * pw e / pw 0); [done|].
  destruct (Z.leb_spec 0 e).
  - assert (pw e = 2 ^ e * pw 0) as -> by (rewrite Z.mul_comm, <-pw_add by lia; f_equal; lia).
    rewrite Z.mul_assoc, Z.div_mul; [done|]. pose proof (pw_pos 0). lia.
  - assert (pw 0 = 2 ^ (- e) * pw e) as -> by (rewrite Z.mul_comm, <-pw_add by lia; f_equal; lia).
    pose proof (pw_pos e ltac:(lia)). rewrite Z.div_mul_cancel_r; [done| |lia].
    assert (0 < 2 ^ (- e)) by (apply Z.pow_pos_nonneg; lia). lia.
Qed.

Lemma f64_to_u64_floor m e v :
  -1074 <= e -> f64_to_u64 (S754_finite false m e) = Some v -> v = Z.pos m * pw e / pw 0.
Proof. intros He. rewrite f64_to_u64_value by done. cbv zeta. destruct (_ && _); [|done]. by intros [= <-]. Qed.

(** Between two integers, truncation stays between them. *)
Lemma f64_to_u64_int x lo hi :
  f64_in x lo hi 0 -> 0 <= lo -> hi < UINT64_SIZE -> exists n, f64_to_u64 x = Some n /\ lo <= n <= hi.
Proof.
  intros Hx Hlo Hhi. destruct x as [s|s| |[] m e]; unfold f64_in in Hx; try tauto.
  { exists 0. split; [done|lia]. }
  destruct Hx as (He & H1 & H2). rewrite f64_to_u64_value by done. cbv zeta. pose proof (pw_pos 0 ltac:(lia)).
  assert (lo <= Z.pos m * pw e / pw 0 <= hi) as Hv.
  { split; [apply Z.div_le_lower_bound; lia|apply Z.div_le_upper_bound; lia]. }
  eexists. rewrite (proj2 (Z.leb_le _ _)), (proj2 (Z.ltb_lt _ _)) by lia. by split.
Qed.

(** ** The clock *)

Record Calibration := mkCalibration {
  ns_per_tick : f64;
  tick_at_anchor : Z;          (* uint64_t *)
  ns_at_anchor : Z             (* uint64_t *)
}.

(** [calibration()], from the two readings of the steady clock and of the
    counter. *)
Definition calibration (t0_ns t0_tk t1_ns t1_tk : Z) : option Calibration :=
  d ← i64 (t1_ns - t0_ns);
  let dt_ns := u64 d in
  let dt_tk := u64 (t1_tk - t0_tk) in
  Some (mkCalibration (if 0 <? dt_tk then f64_div (f64_of_Z dt_ns) (f64_of_Z dt_tk) else f64_of_Z 1) t0_tk (u64 t0_ns)).

Definition ticks_to_ns (c : Calibration) (ticks : Z) : option Z :=
  f64_to_u64 (f64_add (f64_mul (f64_of_Z ticks) (ns_per_tick c)) f64_half).

Definition now_ns (c : Calibration) (tk : Z) : option Z :=
  let delta := u64 (tk - tick_at_anchor c) in
  ns ← f64_to_u64 (f64_add (f64_mul (f64_of_Z delta) (ns_per_tick c)) f64_half);
  Some (u64 (ns_at_anchor c + ns)).

(** A usable calibration: the factor is the positive double m * 2^e, e <= 0. *)
Definition factor (c : Calibration) (m : positive) (e : Z) : Prop :=
  ns_per_tick c = S754_finite false m (- e) /\ 0 <= e <= 1074.

(** The value before truncation. *)
Lemma scaled_in m e ticks lo hi :
  0 <= e <= 1074 -> 0 <= ticks < 2 ^ 53 -> 0 <= lo -> hi < 2 ^ 52 ->
  lo * 2 ^ e <= ticks * Z.pos m <= hi * 2 ^ e ->
  f64_in (f64_add (f64_mul (f64_of_Z ticks) (S754_finite false m (- e))) f64_half) (2 * lo + 1) (2 * hi + 1) (-1).
Proof.
  intros He Ht Hlo Hhi [H1 H2].
  assert (0 < 2 ^ e) by (apply Z.pow_pos_nonneg; lia). assert (lo <= hi) as Hlh by nia.
  assert (pw 0 = pw (- e) * 2 ^ e) as E0 by (rewrite <-pw_add by lia; f_equal; lia).
  pose proof (pw_pos (- e) ltac:(lia)).
  destruct (decide (hi = 0)) as [->|Hhi0].
  - clear E0. rewrite Z.mul_0_l in H2. assert (ticks = 0) as -> by nia. assert (lo = 0) as -> by lia.
    change (f64_mul (f64_of_Z 0) (S754_finite false m (- e))) with (S754_zero false).
    apply f64_half_in.
  - apply f64_add_in; [|apply f64_half_in|lia|lia|lia|lia].
    apply f64_in_half. eapply (f64_mul_in _ _ _ ticks ticks); [by apply f64_of_Z_in|lia|lia|lia|lia|lia|nia|nia].
Qed.

Lemma small_hi hi : hi < 2 ^ 52 -> hi < UINT64_SIZE.
Proof. change (2 ^ 52) with 4503599627370496. lia64. Qed.

(** (C38) Conversion of ticks: a delta below 2^53 ticks is converted without
    undefined behaviour, to an integer between the two integers around the
    exact product of the ticks and the calibrated factor, as long as that
    product is below 2^52 ns (52 days): the two roundings in [double] and the
    truncation never move it by a whole nanosecond. *)
Theorem ticks_to_ns_bounds c m e ticks lo hi :
  factor c m e -> 0 <= ticks < 2 ^ 53 -> 0 <= lo -> hi < 2 ^ 52 ->
  lo * 2 ^ e <= ticks * Z.pos m <= hi * 2 ^ e ->
  exists ns, ticks_to_ns c ticks = Some ns /\ lo <= ns <= hi.
Proof.
  intros [Ef He] Ht Hlo Hhi Hp. unfold ticks_to_ns. rewrite Ef.
  apply f64_to_u64_in; [by apply scaled_in|done|by apply small_hi].
Qed.

(** [now_ns] reads the clock forward of the anchor as the anchor plus the
    converted delta. *)
Lemma now_ns_after_anchor c tk :
  0 <= tick_at_anchor c <= tk -> tk < UINT64_SIZE ->
  now_ns c tk = ns ← ticks_to_ns c (tk - tick_at_anchor c); Some (u64 (ns_at_anchor c + ns)).
Proof. intros Ha Ht. unfold now_ns. by rewrite u64_small by lia. Qed.

(** A 3 GHz counter over the 50 ms window. *)
Definition demo_calibration : Calibration :=
  default (mkCalibration f64_zero 0 0) (calibration 1000000000 7000 1050000000 150007000).

Lemma ticks_to_ns_bounds_witness :
  exists ns, ticks_to_ns demo_calibration 3000 = Some ns /\ 999 <= ns <= 1000.
Proof.
  apply (ticks_to_ns_bounds demo_calibration 6004799503160661 54 3000 999 1000).
  - split; [vm_compute; reflexivity|lia].
  - lia.
  - lia.
  - lia.
  - vm_compute. split; discriminate.
Defined.

Example ticks_to_ns_3000 : ticks_to_ns demo_calibration 3000 = Some 1000.
Proof. vm_compute. reflexivity. Qed.

(** A counter that did not advance during the window counts one nanosecond a
    tick. *)
Example calibration_stuck : ns_per_tick <$> calibration 0 5 50000000 5 = Some (f64_of_Z 1).
Proof. vm_compute. reflexivity. Qed.

(** A counter read one tick before the anchor, as on a core whose counter is
    behind: the difference wraps, and with a slow counter (24 MHz) the product
    does not fit the cast. *)
Example now_ns_before_anchor :
  (c ← calibration 1000000000 7000 1050000000 1207000; now_ns c 6999) = None.
Proof. vm_compute. reflexivity. Qed.
