(* ===== verification/FloatRange.v ===== *)
(** * Doubles between integers

    [x] lies between the integers [lo] and [hi], with either sign; rounding to
    nearest does not leave such a range, so the operations of the generator's
    random walk are bounded as those on the reals would be. *)

From Corelib Require Import SpecFloat.
From S2P Require Import Prelude Decimal Float64 FloatBounds Clock.

Definition signed_mantissa (s : bool) (m : positive) : Z := if s then Z.neg m else Z.pos m.

Definition f64_between (x : f64) (lo hi : Z) : Prop :=
  match x with
  | S754_zero _ => lo <= 0 <= hi
  | S754_finite s m e => -1074 <= e /\ lo * pw 0 <= signed_mantissa s m * pw e <= hi * pw 0
  | _ => False
  end.

Lemma f64_between_weaken x lo hi lo' hi' : f64_between x lo hi -> lo' <= lo -> hi <= hi' -> f64_between x lo' hi'.
Proof.
  intros Hx Hl Hh. pose proof (pw_pos 0 ltac:(lia)). destruct x as [s|s| |s m e]; simpl in *; try done; [lia|].
  destruct Hx as (? & ? & ?). split; [done|]. nia.
Qed.

Lemma f64_between_split x lo k hi : f64_between x lo hi -> lo <= k <= hi -> f64_between x lo k \/ f64_between x k hi.
Proof.
  intros Hx Hk. destruct x as [s|s| |s m e]; simpl in *; try done.
  - destruct (Z.le_gt_cases 0 k); [left|right]; lia.
  - destruct Hx as (? & ? & ?). destruct (Z.le_gt_cases (signed_mantissa s m * pw e) (k * pw 0)); [left|right];
      (split; [done|]); lia.
Qed.

(** Rounding keeps the sign, and the magnitude between representable bounds. *)
Lemma round_between s (m : positive) e lo hi :
  -3000 <= e -> Z.abs lo <= 2 ^ 53 -> Z.abs hi <= 2 ^ 53 ->
  lo * pw 0 <= signed_mantissa s m * pw e <= hi * pw 0 ->
  f64_between (binary_round_aux 53 1024 s (Z.pos m) e loc_Exact) lo hi.
Proof.
  intros He Hlo Hhi Hv. pose proof (pw_pos 0 ltac:(lia)) as H0. pose proof (pw_pos e ltac:(lia)) as Hpe.
  assert (forall l h, l * pw 0 <= Z.pos m * pw e <= h * pw 0 -> Z.abs l <= 2 ^ 53 -> Z.abs h <= 2 ^ 53 ->
    match binary_round_aux 53 1024 s (Z.pos m) e loc_Exact with
    | S754_zero _ => l <= 0 <= h
    | S754_finite s' m' e' => s' = s /\ -1074 <= e' /\ l * pw 0 <= Z.pos m' * pw e' <= h * pw 0
    | _ => False
    end) as Hmag.
  { intros l h [H1 H2] Hl Hh. assert (0 < h) by nia.
    pose proof (round_atmost s (Z.pos m) e loc_Exact h 0 ltac:(lia) He ltac:(lia) ltac:(lia)) as Hmost.
    cbn [inexact] in Hmost. rewrite Z.add_0_r in Hmost. specialize (Hmost H2).
    pose proof (round_sign s (Z.pos m) e loc_Exact ltac:(lia) He) as Hs.
    assert (l <= 0 \/ f64_atleast (binary_round_aux 53 1024 s (Z.pos m) e loc_Exact) l 0) as Hleast.
    { destruct (Z.le_gt_cases l 0); [by left|]. right.
      apply (round_atleast s (Z.pos m) e loc_Exact l 0 h 0); cbn [inexact]; lia. }
    destruct (binary_round_aux _ _ _ _ _ _) as [s'|s'| |s' m1 e1]; try done; simpl in *; [lia|].
    subst s'. destruct Hmost as [He1 Hm1]. split_and!; [done|done| |done].
    destruct Hleast as [?|[_ ?]]; [|done]. pose proof (pw_pos e1 ltac:(lia)). nia. }
  destruct s; cbn [signed_mantissa] in Hv.
  - specialize (Hmag (- hi) (- lo) ltac:(lia) ltac:(lia) ltac:(lia)).
    destruct (binary_round_aux _ _ _ _ _ _) as [s'|s'| |s' m1 e1]; try done; simpl in *; [lia|].
    destruct Hmag as (-> & ? & ?). split; [done|]. simpl. lia.
  - specialize (Hmag lo hi ltac:(lia) ltac:(lia) ltac:(lia)).
    destruct (binary_round_aux _ _ _ _ _ _) as [s'|s'| |s' m1 e1]; try done; simpl in *.
    destruct Hmag as (-> & ? & ?). split; [done|]. simpl. lia.
Qed.

Lemma normalize_between z e lo hi sz :
  -3000 <= e -> Z.abs lo <= 2 ^ 53 -> Z.abs hi <= 2 ^ 53 ->
  lo * pw 0 <= z * pw e <= hi * pw 0 -> f64_between (binary_normalize 53 1024 z e sz) lo hi.
Proof.
  intros He Hlo Hhi Hv. pose proof (pw_pos 0 ltac:(lia)).
  destruct z as [|p|p]; cbn [binary_normalize]; [simpl; nia| |].
  - destruct (binary_round_as_aux false p e He) as (m & e' & -> & He1 & Ev).
    apply round_between; try done. simpl. lia.
  - destruct (binary_round_as_aux true p e He) as (m & e' & -> & He1 & Ev).
    apply round_between; try done. simpl. lia.
Qed.

Lemma cond_Zopp_signed s p : cond_Zopp s (Z.pos p) = signed_mantissa s p.
Proof. by destruct s. Qed.

(** Aligning keeps the signed value. *)
Lemma align_signed s m e e1 e2 :
  -1074 <= e1 -> -1074 <= e2 -> e = e1 \/ e = e2 ->
  signed_mantissa s (shl_align m e (Z.min e1 e2)).1 * pw (Z.min e1 e2) = signed_mantissa s m * pw e.
Proof.
  intros H1 H2 Hor. destruct (shl_align_val m e (Z.min e1 e2)) as [V _]; [lia|lia|].
  assert ((shl_align m e (Z.min e1 e2)).2 = Z.min e1 e2) as Hs.
  { unfold shl_align. destruct (Z.min e1 e2 - e) eqn:Ed; cbn [snd]; lia. }
  rewrite Hs in V. destruct s; cbn [signed_mantissa]; lia.
Qed.

Lemma f64_add_between x y lo1 hi1 lo2 hi2 :
  f64_between x lo1 hi1 -> f64_between y lo2 hi2 -> Z.abs (lo1 + lo2) <= 2 ^ 53 -> Z.abs (hi1 + hi2) <= 2 ^ 53 ->
  f64_between (f64_add x y) (lo1 + lo2) (hi1 + hi2).
Proof.
  intros Hx Hy Hlo Hhi. pose proof (pw_pos 0 ltac:(lia)).
  destruct x as [sx|sx| |sx m1 e1], y as [sy|sy| |sy m2 e2]; try done; unfold f64_add; cbn [SFadd].
  - destruct sx, sy; simpl in *; lia.
  - destruct Hy as [? ?]. split; [done|]. simpl in Hx. nia.
  - destruct Hx as [? ?]. split; [done|]. simpl in Hy. nia.
  - destruct Hx as [He1 Hx], Hy as [He2 Hy]. rewrite !cond_Zopp_signed. apply normalize_between; [lia|done|done|].
    rewrite !Z.mul_add_distr_r, !align_signed by auto. lia.
Qed.

Lemma f64_opp_between s m e lo hi :
  f64_between (S754_finite s m e) lo hi -> f64_between (S754_finite (negb s) m e) (- hi) (- lo).
Proof. intros [He Hv]. split; [done|]. destruct s; simpl in *; lia. Qed.

Definition f64_sub (x y : f64) : f64 := SFsub 53 1024 x y.

Lemma f64_sub_between x y lo1 hi1 lo2 hi2 :
  f64_between x lo1 hi1 -> f64_between y lo2 hi2 -> Z.abs (lo1 - hi2) <= 2 ^ 53 -> Z.abs (hi1 - lo2) <= 2 ^ 53 ->
  f64_between (f64_sub x y) (lo1 - hi2) (hi1 - lo2).
Proof.
  intros Hx Hy Hlo Hhi. pose proof (pw_pos 0 ltac:(lia)).
  destruct x as [sx|sx| |sx m1 e1], y as [sy|sy| |sy m2 e2]; try done; unfold f64_sub; cbn [SFsub].
  - destruct sx, sy; simpl in *; lia.
  - apply f64_opp_between in Hy as [? ?]. split; [done|]. simpl in Hx. nia.
  - destruct Hx as [? ?]. split; [done|]. simpl in Hy. nia.
  - destruct Hx as [He1 Hx], Hy as [He2 Hy]. rewrite !cond_Zopp_signed. apply normalize_between; [lia|done|done|].
    rewrite !Z.mul_sub_distr_r, !align_signed by auto. lia.
Qed.

(** Multiplication by a positive constant. *)
Lemma f64_mul_between m1 e1 y lo hi lo' hi' :
  f64_between y lo hi -> -1074 <= e1 -> Z.abs lo' <= 2 ^ 53 -> Z.abs hi' <= 2 ^ 53 ->
  lo' * pw 0 <= lo * (Z.pos m1 * pw e1) -> hi * (Z.pos m1 * pw e1) <= hi' * pw 0 ->
  f64_between (f64_mul (S754_finite false m1 e1) y) lo' hi'.
Proof.
  intros Hy He1 Hlo Hhi H1 H2. pose proof (pw_pos 0 ltac:(lia)) as H0. pose proof (pw_pos e1 ltac:(lia)) as Hp1.
  assert (0 < Z.pos m1 * pw e1) as Hv1 by nia. set (v1 := Z.pos m1 * pw e1) in *.
  destruct y as [s|s| |s m2 e2]; try done; unfold f64_mul; cbn [SFmul xorb].
  { simpl in *. nia. }
  destruct Hy as [He2 Hy]. apply round_between; [lia|done|done|].
  assert (signed_mantissa s (m1 * m2) * pw (e1 + e2) * pw 0 = v1 * (signed_mantissa s m2 * pw e2)) as Ev.
  { rewrite <-Z.mul_assoc, pw_split by lia. unfold v1. destruct s; cbn [signed_mantissa]; rewrite ?Pos2Z.inj_mul; nia. }
  split; apply (Z.mul_le_mono_pos_r _ _ (pw 0)); try done; rewrite Ev; nia.
Qed.

Lemma f64_of_Z_between z : Z.abs z <= 2 ^ 53 -> f64_between (f64_of_Z z) z z.
Proof. intros Hz. unfold f64_of_Z. apply normalize_between; [lia|done|done|lia]. Qed.

(** The integer below a magnitude. *)
Lemma trunc_spec (m : positive) e :
  -1074 <= e -> let v := if 0 <=? e then Z.pos m * 2 ^ e else Z.pos m / 2 ^ (- e) in
  0 <= v /\ v * pw 0 <= Z.pos m * pw e < (v + 1) * pw 0.
Proof.
  intros He v. pose proof (pw_pos 0 ltac:(lia)) as H0. pose proof (pw_pos e ltac:(lia)) as Hpe. unfold v.
  destruct (Z.leb_spec 0 e).
  - assert (pw e = 2 ^ e * pw 0) as -> by (rewrite Z.mul_comm, <-pw_add by lia; f_equal; lia).
    assert (0 < 2 ^ e) by (apply Z.pow_pos_nonneg; lia). nia.
  - assert (pw 0 = 2 ^ (- e) * pw e) as E0 by (rewrite Z.mul_comm, <-pw_add by lia; f_equal; lia).
    assert (0 < 2 ^ (- e)) as Hd by (apply Z.pow_pos_nonneg; lia). rewrite E0.
    pose proof (Z.div_mod (Z.pos m) (2 ^ (- e)) ltac:(lia)). pose proof (Z.mod_pos_bound (Z.pos m) (2 ^ (- e)) Hd).
    set (q := Z.pos m / 2 ^ (- e)) in *. assert (0 <= q) by (apply Z.div_pos; lia). split; [done|].
    split; [|]; nia.
Qed.

(** Truncation of a value between two integers stays between them. *)
Lemma f64_to_i64_within x lo hi :
  f64_between x lo hi -> INT64_MIN <= lo -> hi <= INT64_MAX -> exists n, f64_to_i64 x = Some n /\ lo <= n <= hi.
Proof.
  intros Hx Hlo Hhi. pose proof (pw_pos 0 ltac:(lia)) as H0. destruct x as [s|s| |s m e]; simpl in Hx; try tauto; [by exists 0|].
  destruct Hx as (He & H1 & H2). pose proof (trunc_spec m e He) as (Hv0 & Hv1 & Hv2). unfold f64_to_i64. cbv beta iota zeta.
  set (v := if 0 <=? e then _ else _) in *. assert (lo <= (if s then - v else v) <= hi) as Hb.
  { destruct s; cbn [signed_mantissa] in *; change (Z.neg m) with (- Z.pos m) in *; nia. }
  eexists. rewrite i64_Some by lia64. by split.
Qed.

Lemma f64_to_i64_between x lo hi :
  f64_between x lo hi -> 0 < lo -> hi <= INT64_MAX -> exists n, f64_to_i64 x = Some n /\ lo <= n <= hi.
Proof. intros Hx Hlo Hhi. apply f64_to_i64_within; [done|lia64|done]. Qed.
