(* ===== verification/Pacing.v ===== *)
(** * Replay in real time (src/mvp/src/backtest/replay.{h,cpp})

    With [ReplaySpeed::Realtime] the loop of [Replay] sleeps before each tick
    until its time has come.  The readings of the steady clock are arguments.
    Pacing changes nothing of what a replay does. *)

From Corelib Require Import SpecFloat.
From S2P Require Import Prelude Pool OrderedMap Level OrderBook BookSpec Portfolio Engine Strategy Ticks Strategies Replay ReplayProps Decimal Float64 FloatBounds Clock.

Inductive ReplaySpeed := Max | Realtime.

Record ReplayConfig := mkReplayConfig { speed : ReplaySpeed; realtime_factor : f64 }.

Definition ReplayConfig_default : ReplayConfig := mkReplayConfig Max (f64_of_Z 1).

(** [static_cast<uint64_t>((t.ts_ns - sim_start_ns) / cfg_.realtime_factor)] *)
Definition target_ns (cfg : ReplayConfig) (sim_start : Z) (t : Tick) : option Z :=
  f64_to_u64 (f64_div (f64_of_Z (u64 (ts_ns t - sim_start))) (realtime_factor cfg)).

(** The conversion of a [uint64_t] to the [int64_t] of [nanoseconds]. *)
Definition to_ns (z : Z) : Z := if z <? 2 ^ 63 then z else z - UINT64_SIZE.

(** What the loop sleeps before a tick, [elapsed] nanoseconds into the run. *)
Definition pace (cfg : ReplayConfig) (sim_start elapsed : Z) (t : Tick) : option (list Z) :=
  match speed cfg with
  | Max => Some []
  | Realtime =>
      target ← target_ns cfg sim_start t;
      Some (if u64 elapsed <? target then [to_ns (u64 (target - elapsed))] else [])
  end.

Section Paced.
Context {E : Type} `{EngineOps E}.

(** The loop, with the reading of the clock at each tick, and what it slept. *)
Fixpoint paced_ticks (cfg : ReplayConfig) (sim_start : Z) (strategies : list sptr) (ticks : list (Tick * Z))
    (r : ReplayState (E := E)) : option (ReplayState (E := E) * list Z) :=
  match ticks with
  | [] => Some (r, [])
  | (t, elapsed) :: ticks =>
      sl ← pace cfg sim_start elapsed t;
      r ← replay_tick strategies r t;
      '(r, sls) ← paced_ticks cfg sim_start strategies ticks r;
      Some (r, sl ++ sls)
  end.

Definition sim_start_ns (ticks : list Tick) : Z := match ticks with [] => 0 | t :: _ => ts_ns t end.

Definition paced_run (cfg : ReplayConfig) (strategies : list sptr) (e : E) (ss : gmap sptr (Strategy Derived))
    (ticks : list (Tick * Z)) : option (ReplayStats * World E Derived * list Z) :=
  '(r, sls) ← paced_ticks cfg (sim_start_ns (fst <$> ticks)) strategies ticks (replay_init strategies e ss);
  Some (stats r, rp_world r, sls).

(** ** The time of a tick *)

Lemma round_aux_sign s m e l :
  match binary_round_aux 53 1024 s m e l with
  | S754_finite s' _ _ | S754_zero s' | S754_infinity s' => s' = s
  | S754_nan => True
  end.
Proof.
  unfold binary_round_aux. destruct (shr_fexp 53 1024 m e l) as [mrs e1].
  destruct (shr_fexp _ _ _ e1 _) as [mrs' e2]. destruct (shr_m mrs'); [done| |done]. by destruct (_ <=? _)%Z.
Qed.

(** A speed at least that of the clock. *)
Definition factor_ok (f : f64) : Prop :=
  match f with S754_finite false _ _ => f64_atleast f 1 0 /\ f64_atmost f 1 900 | _ => False end.

Lemma f64_div_in z f : 0 <= z < 2 ^ 53 -> factor_ok f -> f64_in (f64_div (f64_of_Z z) f) 0 z 0.
Proof.
  intros Hz Hf. destruct f as [| | |[] m e]; try done. destruct Hf as [Hl Hm].
  destruct (decide (z = 0)) as [->|]; [by vm_compute|].
  assert (f64_atmost (f64_div (f64_of_Z z) (S754_finite false m e)) z 0) as Hd.
  { apply (f64_div_atmost _ _ _ _ 1 900); [apply f64_of_Z_atmost; lia|done|done|lia|lia|lia|lia]. }
  pose proof (f64_of_Z_in z Hz) as Hx. destruct (f64_of_Z z) as [s|s| |[] m1 e1]; try done; try (unfold f64_in in Hx; lia).
  unfold f64_div in *. cbn [SFdiv xorb] in *. destruct (SFdiv_core_binary _ _ _ _ _ _) as [[mz ez] lz].
  pose proof (round_aux_sign false mz ez lz) as Hs. destruct (binary_round_aux _ _ _ _ _ _) as [s|s| |s m2 e2]; try done.
  subst s. destruct Hd as [He Hle]. split; [done|]. split; [|done]. pose proof (pw_pos e2 ltac:(lia)). nia.
Qed.

(** Before each tick the loop sleeps until the tick is due, at most as long
    after the start as the tape says, and not at all when it is late. *)
Lemma pace_defined f sim_start elapsed t :
  factor_ok f -> 0 <= ts_ns t - sim_start < 2 ^ 53 -> 0 <= elapsed < 2 ^ 63 ->
  exists target sl, target_ns (mkReplayConfig Realtime f) sim_start t = Some target /\
    pace (mkReplayConfig Realtime f) sim_start elapsed t = Some sl /\ 0 <= target <= ts_ns t - sim_start /\
    elapsed + sumZ sl = Z.max elapsed target /\ Forall (fun s => 0 < s) sl.
Proof.
  intros Hf Ht He. change (2 ^ 53) with 9007199254740992 in Ht. change (2 ^ 63) with 9223372036854775808 in He.
  unfold pace, target_ns. cbn [speed realtime_factor]. rewrite (u64_small (_ - _)) by lia64.
  destruct (f64_to_u64_int _ _ _ (f64_div_in _ _ Ht Hf)) as (target & Et & Hb); [lia|lia64|].
  rewrite Et, bind_Some_l. eexists target, _. split_and!; [done|done|lia|lia| |]; rewrite (u64_small elapsed) by lia64;
    destruct (Z.ltb_spec elapsed target); unfold to_ns; rewrite ?u64_small by lia64;
    change (2 ^ 63) with 9223372036854775808; rewrite ?(proj2 (Z.ltb_lt _ _)) by lia; simpl; repeat constructor; lia.
Qed.

End Paced.

Section Equivalence.
Context {E : Type} `{EngineOps E}.

(** The clock is never behind, and the tape fits its range. *)
Definition clock_ok (sim_start : Z) (x : Tick * Z) : Prop :=
  0 <= ts_ns x.1 - sim_start < 2 ^ 53 /\ 0 <= x.2 < 2 ^ 63.

Lemma paced_ticks_same cfg sim_start strategies ticks : forall (r : ReplayState (E := E)),
  (speed cfg = Max \/ factor_ok (realtime_factor cfg)) -> Forall (clock_ok sim_start) ticks ->
  exists sls, paced_ticks cfg sim_start strategies ticks r =
    r ← replay_ticks strategies (fst <$> ticks) r; Some (r, sls).
Proof.
  induction ticks as [|[t el] ticks IH]; intros r Hc Ht; [by exists []|].
  apply Forall_cons in Ht as [[Ht Hel] Hts]. simpl in Ht, Hel.
  assert (exists sl, pace cfg sim_start el t = Some sl) as [sl Esl].
  { destruct cfg as [[] f]; [by eexists|]. destruct Hc as [?|Hf]; [done|].
    destruct (pace_defined f sim_start el t Hf Ht Hel) as (target & sl & _ & Esl & _). eauto. }
  cbn [paced_ticks]. rewrite Esl, bind_Some_l. rewrite fmap_cons. cbn [replay_ticks fst].
  destruct (replay_tick strategies r t) as [r1|]; [|by exists []]. rewrite !bind_Some_l.
  destruct (IH r1 Hc Hts) as (sls & E1). exists (sl ++ sls). rewrite E1.
  by destruct (replay_ticks strategies (fst <$> ticks) r1).
Qed.

(** Pacing does not change a replay: at any speed at least that of the clock,
    on a tape of at most 2^53 nanoseconds whose times are not before its
    first, and for any readings of the clock, the run with sleeps has the
    statistics, the engine and the strategies of the run without them. *)
Theorem paced_run_same cfg strategies e ss (ticks : list (Tick * Z)) :
  (speed cfg = Max \/ factor_ok (realtime_factor cfg)) ->
  Forall (clock_ok (sim_start_ns (fst <$> ticks))) ticks ->
  option_map fst (paced_run cfg strategies e ss ticks) = replay_run strategies e ss (fst <$> ticks).
Proof.
  intros Hc Ht. unfold paced_run, replay_run.
  destruct (paced_ticks_same cfg _ strategies ticks (replay_init strategies e ss) Hc Ht) as (sls & ->).
  by destruct (replay_ticks _ _ _).
Qed.

End Equivalence.

(** Twice as fast as the clock: the second tick, 1000 ns later, is due after
    500 ns, of which 120 have passed; the third is late. *)
Definition paced_tape : list (Tick * Z) :=
  [(mkTick 5000 0 0 0 100 5 1, 0); (mkTick 6000 0 0 1 110 5 2, 120); (mkTick 6100 0 0 1 103 2 3, 700)].

Lemma paced_run_same_witness :
  option_map fst (paced_run (mkReplayConfig Realtime (f64_of_Z 2)) [] demo_engine ∅ paced_tape) =
    replay_run [] demo_engine ∅ (fst <$> paced_tape).
Proof.
  apply (paced_run_same (mkReplayConfig Realtime (f64_of_Z 2)) [] demo_engine ∅ paced_tape).
  - right. vm_compute. repeat split; discriminate.
  - repeat constructor; vm_compute; discriminate.
Defined.

Example paced_sleeps :
  option_map snd (paced_run (mkReplayConfig Realtime (f64_of_Z 2)) [] demo_engine ∅ paced_tape) = Some [380].
Proof. vm_compute. reflexivity. Qed.

(** A factor of zero divides zero by zero at the first tick, and a tape that
    goes back in time at half speed is due beyond [uint64_t]: the casts are
    undefined. *)
Example pacing_undefined :
  paced_run (mkReplayConfig Realtime f64_zero) [] demo_engine ∅ paced_tape = None /\
  paced_run (mkReplayConfig Realtime f64_half) [] demo_engine ∅ [(mkTick 5 0 2 0 100 1 0, 0); (mkTick 4 0 2 0 100 1 0, 0)] = None.
Proof. vm_compute. split; reflexivity. Qed.
