(* ===== verification/Affinity.v ===== *)
(** * CPU pinning (src/mvp/src/core/affinity.h)

    [pin_thread_to_cpu] and [set_realtime_priority] on the three kinds of
    platform.  The scheduler is the environment: the result of the call, and
    the mask or the tag it was given. *)

From stdpp Require Import gmap.
From S2P Require Import Prelude.

Inductive Platform := Linux | Apple | Other.

Definition KERN_SUCCESS : Z := 0.
Definition KERN_NOT_SUPPORTED : Z := 46.

(** A cpu_set_t holds the CPUs 0 to 1023; [CPU_SET] outside that range writes
    nothing (glibc checks the index). *)
Definition CPU_SETSIZE : Z := 1024.
Definition cpu_set (cpu : Z) : gset Z := if (0 <=? cpu) && (cpu <? CPU_SETSIZE) then {[cpu]} else ∅.

(** What a call asks the system for. *)
Inductive SchedCall :=
  | SetAffinity (mask : gset Z)
  | SetPolicyTag (tag : Z)
  | SetFifo (prio : Z).

(** The calls made, whether an error was printed, and the result. *)
Record SchedResult := mkSched { sc_calls : list SchedCall; sc_logged : bool; sc_ok : bool }.

(** [rc]: what the system answers.  [cpu + 1] is computed in [int]. *)
Definition pin_thread_to_cpu (p : Platform) (rc cpu : Z) : option SchedResult :=
  match p with
  | Linux => Some (mkSched [SetAffinity (cpu_set cpu)] (negb (rc =? 0)) (rc =? 0))
  | Apple =>
      if cpu =? 2147483647 then None
      else Some (mkSched [SetPolicyTag (cpu + 1)]
             (negb (rc =? KERN_SUCCESS) && negb (rc =? KERN_NOT_SUPPORTED)) (rc =? KERN_SUCCESS))
  | Other => Some (mkSched [] false false)
  end.

Definition set_realtime_priority (p : Platform) (rc prio : Z) : SchedResult :=
  match p with
  | Linux => mkSched [SetFifo prio] false (rc =? 0)
  | _ => mkSched [] false false
  end.

(** A thread reported as pinned on Linux was given a mask with that one CPU. *)
Lemma pinned_one_cpu rc cpu r :
  0 <= cpu < CPU_SETSIZE -> pin_thread_to_cpu Linux rc cpu = Some r -> sc_ok r = true ->
  sc_calls r = [SetAffinity {[cpu]}] /\ rc = 0 /\ sc_logged r = false.
Proof.
  intros Hc [= <-] Hok. simpl in *. apply Z.eqb_eq in Hok as ->. unfold cpu_set.
  rewrite (proj2 (Z.leb_le _ _)), (proj2 (Z.ltb_lt _ _)) by lia. done.
Qed.

(** Distinct CPUs get distinct affinity tags on macOS, never the null tag. *)
Lemma affinity_tags_distinct rc1 rc2 c1 c2 r1 r2 :
  0 <= c1 -> 0 <= c2 ->
  pin_thread_to_cpu Apple rc1 c1 = Some r1 -> pin_thread_to_cpu Apple rc2 c2 = Some r2 ->
  (sc_calls r1 = sc_calls r2 <-> c1 = c2) /\ sc_calls r1 <> [SetPolicyTag 0].
Proof.
  intros H1 H2 E1 E2. unfold pin_thread_to_cpu in *. repeat case_match; simplify_eq/=.
  split; [|intros [= ?]; lia]. split; [intros [= ?]; lia|by intros ->].
Qed.

(** An unsupported request is not logged, any other failure is. *)
Lemma apple_failure_logged rc cpu r :
  pin_thread_to_cpu Apple rc cpu = Some r -> sc_ok r = false -> sc_logged r = negb (rc =? KERN_NOT_SUPPORTED).
Proof.
  unfold pin_thread_to_cpu. case_match; [done|]. intros [= <-]. simpl. by intros ->.
Qed.
