(* ===== verification/Bench.v ===== *)
(** * The microbenchmark (src/mvp/bench/bench.cpp)

    The placements the benchmark makes, the conversion of the measured ticks,
    and the percentiles it prints.  The random draws and the counter readings
    are the environment. *)

From Corelib Require Import SpecFloat.
From stdpp Require Import sorting.
From S2P Require Import Prelude Pool OrderedMap Level OrderBook BookSpec BookRun Engine Decimal Float64 FloatBounds Clock.

(** ** Truncation and order *)

(** A value below a bound and one above it are truncated in that order. *)
Lemma f64_to_u64_mono x y lo t hi j v w :
  f64_in x lo t j -> f64_in y t hi j -> -1074 <= j -> 0 <= t ->
  f64_to_u64 x = Some v -> f64_to_u64 y = Some w -> v <= w.
Proof.
  intros Hx Hy Hj Ht Ev Ew. pose proof (pw_pos j ltac:(lia)) as Hpj. pose proof (pw_pos 0 ltac:(lia)) as Hp0.
  assert (exists a, v = a / pw 0 /\ a <= t * pw j) as (a & -> & Ha).
  { destruct x as [s|s| |[] m e]; unfold f64_in in Hx; try tauto.
    - injection Ev as <-. exists 0. split; [by rewrite Z.div_0_l by lia|nia].
    - destruct Hx as (He & _ & H2). eexists. split; [exact (f64_to_u64_floor _ _ _ He Ev)|exact H2]. }
  assert (exists b, w = b / pw 0 /\ t * pw j <= b) as (b & -> & Hb).
  { destruct y as [s|s| |[] m e]; unfold f64_in in Hy; try tauto.
    - injection Ew as <-. exists 0. split; [by rewrite Z.div_0_l by lia|]. assert (t = 0) as -> by lia. lia.
    - destruct Hy as (He & H2 & _). eexists. split; [exact (f64_to_u64_floor _ _ _ He Ew)|exact H2]. }
  apply Z.div_le_mono; lia.
Qed.

(** Between two products that differ by one part in a thousand there is a
    double. *)
Lemma separator a c :
  0 < a -> a * 1025 <= c * 1024 ->
  exists b j, 0 < b <= 2 ^ 52 /\ 0 <= j /\ a <= b * 2 ^ j <= c.
Proof.
  intros Ha Hac. destruct (Z.le_gt_cases a (2 ^ 52)) as [Hs|Hl].
  { exists a, 0. rewrite Z.pow_0_r. lia. }
  set (j := Z.log2 a - 51). destruct (Z.log2_spec a Ha) as [H1 H2].
  assert (52 <= Z.log2 a) as Hlog by (apply Z.log2_le_pow2; lia).
  assert (2 ^ Z.log2 a = 2 ^ 51 * 2 ^ j) as E by (rewrite <-Z.pow_add_r by lia; f_equal; lia).
  rewrite Z.pow_succ_r, E in H2 by lia. rewrite E in H1. assert (0 < 2 ^ j) by (apply Z.pow_pos_nonneg; lia).
  exists (ceil_div a (2 ^ j)), j. unfold ceil_div.
  pose proof (Z.div_mod (- a) (2 ^ j) ltac:(lia)). pose proof (Z.mod_pos_bound (- a) (2 ^ j) ltac:(lia)).
  set (q := - a / 2 ^ j) in *. set (r := (- a) mod 2 ^ j) in *. set (k := 2 ^ j) in *.
  assert (a <= - q * k < a + k) as Hq by lia. split; [|split; [lia|]].
  - split; [nia|]. change (2 ^ 52) with (2 * 2 ^ 51). nia.
  - split; [lia|]. change (2 ^ 51) with 2251799813685248 in *. lia.
Qed.

(** ** Percentiles *)

(** The fractions of the source. *)
Definition P50 : f64 := f64_of_ratio 50 100.
Definition P90 : f64 := f64_of_ratio 90 100.
Definition P99 : f64 := f64_of_ratio 99 100.
Definition P999 : f64 := f64_of_ratio 999 1000.

(** [(size_t)((lat_ns.size() - 1) * p)] *)
Definition pct_index (size : nat) (p : f64) : option Z :=
  f64_to_u64 (f64_mul (f64_of_Z (u64 (Z.of_nat size - 1))) p).

(** [lat_ns[...]]; out of range is undefined. *)
Definition pct (lat_ns : list Z) (p : f64) : option Z :=
  i ← pct_index (length lat_ns) p; lat_ns !! Z.to_nat i.

Record LatencyReport := mkLatency { p50 : Z; p90 : Z; p99 : Z; p999 : Z; pmax : Z }.

(** [std::sort] *)
Definition sort_ns (lat : list Z) : list Z := merge_sort Z.le lat.

Definition latency_report (lat_ns : list Z) : option LatencyReport :=
  let lat_ns := sort_ns lat_ns in
  a ← pct lat_ns P50; b ← pct lat_ns P90; c ← pct lat_ns P99; d ← pct lat_ns P999; m ← last lat_ns;
  Some (mkLatency a b c d m).

(** A fraction in [1/2, 1): m * 2^-53. *)
Definition fraction (p : f64) (m : Z) : Prop :=
  p = S754_finite false (Z.to_pos m) (-53) /\ 2 ^ 52 <= m < 2 ^ 53.

Lemma fractions : fraction P50 4503599627370496 /\ fraction P90 8106479329266893 /\
  fraction P99 8917127262193582 /\ fraction P999 8998192055486251.
Proof. unfold fraction. split_and!; (reflexivity || lia). Qed.

(** Where an index falls: at most the last one. *)
Lemma index_product x m p lo hi j :
  fraction p m -> 0 <= x < 2 ^ 53 -> 0 <= lo <= hi -> 0 < hi <= 2 ^ 53 -> 0 <= j <= 900 ->
  lo * 2 ^ j <= x * m <= hi * 2 ^ j -> f64_in (f64_mul (f64_of_Z x) p) lo hi (j - 53).
Proof.
  intros [-> Hm] Hx Hlo Hhi Hj [H1 H2].
  assert (pw (j - 53) = pw (-53) * 2 ^ j) as E by (rewrite <-pw_add by lia; f_equal; lia).
  pose proof (pw_pos (-53) ltac:(lia)).
  apply (f64_mul_in _ _ _ x x); [by apply f64_of_Z_in|lia|lia|done|lia|lia|..]; rewrite Z2Pos.id, E by lia; nia.
Qed.

Lemma index_total size p m :
  fraction p m -> (0 < size)%nat -> Z.of_nat size < 2 ^ 53 ->
  exists i, pct_index size p = Some i /\ 0 <= i < Z.of_nat size.
Proof.
  intros Hp Hs Hn. unfold pct_index. change (2 ^ 53) with 9007199254740992 in Hn.
  rewrite u64_small by lia64. set (x := Z.of_nat size - 1).
  destruct (decide (x = 0)) as [Ex|Ex].
  { exists 0. rewrite Ex. destruct Hp as [-> _]. split; [reflexivity|lia]. }
  assert (f64_in (f64_mul (f64_of_Z x) p) 0 x 0) as Hin.
  { change 0 with (53 - 53) at 2. apply (index_product x m p 0 x 53 Hp); destruct Hp as [_ Hm];
      change (2 ^ 52) with 4503599627370496 in Hm; change (2 ^ 53) with 9007199254740992 in *; [lia..|nia]. }
  destruct (f64_to_u64_int _ _ _ Hin) as (i & Ei & Hi); [lia|lia64|]. exists i. split; [done|lia].
Qed.

(** A larger fraction gives an index that is not smaller. *)
Lemma index_mono size p1 m1 p2 m2 i1 i2 :
  fraction p1 m1 -> fraction p2 m2 -> m1 * 1025 <= m2 * 1024 -> (0 < size)%nat -> Z.of_nat size < 2 ^ 53 ->
  pct_index size p1 = Some i1 -> pct_index size p2 = Some i2 -> i1 <= i2.
Proof.
  intros H1 H2 Hm Hs Hn E1 E2. unfold pct_index in *. change (2 ^ 53) with 9007199254740992 in Hn.
  rewrite u64_small in E1, E2 by lia64. set (x := Z.of_nat size - 1) in *.
  destruct (decide (x = 0)) as [Ex|Ex].
  { rewrite Ex in *. destruct H1 as [-> _], H2 as [-> _]. injection E1 as <-. injection E2 as <-. lia. }
  assert (0 < x < 9007199254740992) as Hx by lia.
  pose proof H1 as [_ Hm1]. pose proof H2 as [_ Hm2].
  change (2 ^ 52) with 4503599627370496 in Hm1, Hm2. change (2 ^ 53) with 9007199254740992 in Hm1, Hm2.
  destruct (separator (x * m1) (x * m2)) as (b & j & Hb & Hj & Hle); [nia|nia|].
  assert (j <= 106) as Hj'.
  { destruct (Z.le_gt_cases j 106) as [|Hgt]; [done|]. assert (2 ^ 106 <= 2 ^ j) by (apply Z.pow_le_mono_r; lia).
    assert (x * m2 < 9007199254740992 * 9007199254740992) by nia.
    change (2 ^ 106) with 81129638414606681695789005144064 in *. nia. }
  eapply (f64_to_u64_mono _ _ 0 b (2 ^ 53)); [| |..|exact E1|exact E2].
  - apply (index_product x m1 p1 0 b j); [done|lia|lia|lia|lia|lia].
  - apply (index_product x m2 p2 b (2 ^ 53) j); [done|lia|lia|lia|lia|]. split; [lia|].
    assert (0 < 2 ^ j) by (apply Z.pow_pos_nonneg; lia). change (2 ^ 53) with (2 * 2 ^ 52).
    assert (b * 2 ^ j <= 2 ^ 52 * 2 ^ j) by (apply Z.mul_le_mono_nonneg_r; lia). nia.
  - lia.
  - lia.
Qed.

(** Truncation of a value between two multiples of 2^-s. *)
Lemma f64_to_u64_scaled x lo hi s n :
  f64_in x lo hi (- s) -> 0 <= s <= 1000 -> 0 <= lo -> f64_to_u64 x = Some n -> lo / 2 ^ s <= n <= hi / 2 ^ s.
Proof.
  intros Hx Hs Hlo Hn. assert (0 < 2 ^ s) as H2 by (apply Z.pow_pos_nonneg; lia).
  assert (pw 0 = 2 ^ s * pw (- s)) as E0 by (rewrite Z.mul_comm, <-pw_add by lia; f_equal; lia).
  pose proof (pw_pos (- s) ltac:(lia)) as Hps.
  destruct x as [b|b| |[] m e]; unfold f64_in in Hx; try tauto.
  - simpl in Hn. injection Hn as <-. assert (lo = 0) as -> by lia. rewrite Z.div_0_l by lia.
    split; [lia|]. apply Z.div_pos; lia.
  - destruct Hx as (He & Hl & Hh). apply f64_to_u64_floor in Hn as ->; [|done]. rewrite E0. set (v := Z.pos m * pw e) in *. split.
    + rewrite <-(Z.div_mul_cancel_r lo (2 ^ s) (pw (- s))) by lia. apply Z.div_le_mono; [nia|done].
    + rewrite <-(Z.div_mul_cancel_r hi (2 ^ s) (pw (- s))) by lia. apply Z.div_le_mono; [nia|done].
Qed.

(** The index is the rank that the fraction [num / den] asks for, rounded down;
    where the double is below the fraction, it may be the one before. *)
Definition rank_of (size : nat) (num den slack : Z) (i : Z) : Prop :=
  let k := (Z.of_nat size - 1) * num / den in k - slack <= i <= k.

Lemma rank_product x m num den slack k :
  0 <= x < 2 ^ 40 -> 0 < den <= 1000 -> slack = 0 \/ slack = 1 ->
  num * 2 ^ 53 - slack * den <= m * den <= num * 2 ^ 53 + den -> k * den <= x * num < (k + 1) * den ->
  (k * 4096 - slack) * 2 ^ 41 <= x * m <= ((k + 1) * 4096 - 1) * 2 ^ 41.
Proof.
  change (2 ^ 40) with 1099511627776. change (2 ^ 53) with 9007199254740992. change (2 ^ 41) with 2199023255552.
  intros Hx Hd Hs [Hm1 Hm2] Hk.
  pose proof (Z.mul_le_mono_nonneg_l _ _ x ltac:(lia) Hm1) as H1. pose proof (Z.mul_le_mono_nonneg_l _ _ x ltac:(lia) Hm2) as H2.
  assert (x * den <= 1099511627776 * den) as H3 by (apply Z.mul_le_mono_nonneg_r; lia).
  split; apply (Z.mul_le_mono_pos_r _ _ den); [lia| |lia|]; destruct Hs as [-> | ->]; lia.
Qed.

Lemma index_rank size p m num den slack i :
  fraction p m -> 0 < num < den -> den <= 1000 -> 0 <= slack <= 1 ->
  num * 2 ^ 53 - slack * den <= m * den <= num * 2 ^ 53 + den ->
  (0 < size)%nat -> Z.of_nat size <= 2 ^ 40 -> pct_index size p = Some i -> rank_of size num den slack i.
Proof.
  intros Hp Hnd Hden Hsl Hm Hs Hn Hi. unfold rank_of. change (2 ^ 40) with 1099511627776 in Hn.
  unfold pct_index in Hi. rewrite u64_small in Hi by lia64. set (x := Z.of_nat size - 1) in *.
  destruct (decide (x = 0)) as [Ex|Ex].
  { rewrite Ex in *. destruct Hp as [-> _]. injection Hi as <-. rewrite Z.div_0_l by lia. lia. }
  set (k := x * num / den). pose proof (Z.div_mod (x * num) den ltac:(lia)) as Hdm.
  pose proof (Z.mod_pos_bound (x * num) den ltac:(lia)) as Hmod. fold k in Hdm.
  assert (0 <= k < 1099511627776) as Hk by (split; [apply Z.div_pos; nia|apply Z.div_lt_upper_bound; nia]).
  pose proof (rank_product x m num den slack k ltac:(lia) ltac:(lia) ltac:(lia) Hm ltac:(lia)) as Hpr.
  change (2 ^ 53) with 9007199254740992 in *. change (2 ^ 41) with 2199023255552 in Hpr.
  assert (0 <= x * m) as Hxm by (destruct Hp as [_ [Hm0 _]]; apply Z.mul_nonneg_nonneg; lia).
  assert (f64_in (f64_mul (f64_of_Z x) p) (Z.max 0 (k * 4096 - slack)) ((k + 1) * 4096 - 1) (- (12))) as Hin.
  { change (- (12)) with (41 - 53). apply (index_product x m p _ _ 41 Hp); change (2 ^ 53) with 9007199254740992;
      change (2 ^ 41) with 2199023255552; [lia..|]. split.
    - destruct (Z.le_ge_cases 0 (k * 4096 - slack)); [rewrite Z.max_r by lia; apply Hpr|rewrite Z.max_l by lia; lia].
    - apply Hpr. }
  apply (f64_to_u64_scaled _ _ _ 12 _ Hin) in Hi; [|lia|lia]. change (2 ^ 12) with 4096 in Hi.
  rewrite <-(Z.div_unique ((k + 1) * 4096 - 1) 4096 k 4095) in Hi by lia. split; [|apply Hi].
  transitivity (Z.max 0 (k * 4096 - slack) / 4096); [|apply Hi]. apply Z.div_le_lower_bound; lia.
Qed.

Lemma pct_total lat p m :
  fraction p m -> lat <> [] -> Z.of_nat (length lat) < 2 ^ 53 ->
  exists i x, pct_index (length lat) p = Some i /\ 0 <= i < Z.of_nat (length lat) /\
    lat !! Z.to_nat i = Some x /\ pct lat p = Some x.
Proof.
  intros Hp Hl Hn. destruct (index_total (length lat) p m Hp) as (i & Ei & Hi); [by destruct lat; [|simpl; lia]|done|].
  destruct (lookup_lt_is_Some_2 lat (Z.to_nat i) ltac:(lia)) as [x Hx]. exists i, x. unfold pct.
  rewrite Ei, bind_Some_l. split_and!; (done || lia).
Qed.

Lemma sorted_lookup lat i j x y :
  StronglySorted Z.le lat -> (i <= j)%nat -> lat !! i = Some x -> lat !! j = Some y -> x <= y.
Proof.
  intros Hs. revert i j. induction Hs as [|z lat _ IH Hz]; intros i j Hij Hx Hy; [done|].
  destruct j as [|j]; [destruct i; [simplify_eq/=; lia|lia]|]. destruct i as [|i]; simpl in *; [|by eapply IH; [|done|done]; lia].
  simplify_eq. rewrite Forall_lookup in Hz. eauto.
Qed.

(** What the report says of the latencies: its percentiles are the elements of
    the sorted latencies at the ranks of their fractions, its maximum the last
    element. *)
Record report_of (lat : list Z) (r : LatencyReport) : Prop := {
  ro_sorted : exists srt, srt ≡ₚ lat /\ StronglySorted Z.le srt /\
    (exists i, rank_of (length lat) 1 2 0 i /\ srt !! Z.to_nat i = Some (p50 r)) /\
    (exists i, rank_of (length lat) 9 10 0 i /\ srt !! Z.to_nat i = Some (p90 r)) /\
    (exists i, rank_of (length lat) 99 100 1 i /\ srt !! Z.to_nat i = Some (p99 r)) /\
    (exists i, rank_of (length lat) 999 1000 1 i /\ srt !! Z.to_nat i = Some (p999 r)) /\
    srt !! pred (length lat) = Some (pmax r);
  ro_50_90 : p50 r <= p90 r;
  ro_90_99 : p90 r <= p99 r;
  ro_99_999 : p99 r <= p999 r;
  ro_999_max : p999 r <= pmax r;
  ro_max : Forall (fun x => x <= pmax r) lat
}.

(** The printed percentiles: for any measured latencies, at least one and at
    most 2^40, the report is defined and on the sorted latencies; the
    floating-point index never leaves the array. *)
Lemma percentiles_ranked lat :
  lat <> [] -> Z.of_nat (length lat) <= 2 ^ 40 ->
  exists r, latency_report lat = Some r /\ report_of lat r.
Proof.
  intros Hne H40. assert (Z.of_nat (length lat) < 2 ^ 53) as Hn
    by (change (2 ^ 40) with 1099511627776 in H40; change (2 ^ 53) with 9007199254740992; lia).
  pose proof (merge_sort_Permutation Z.le lat) as Hp. fold (sort_ns lat) in Hp.
  pose proof (StronglySorted_merge_sort Z.le lat) as Hs. fold (sort_ns lat) in Hs.
  unfold latency_report. set (srt := sort_ns lat) in *.
  assert (length srt = length lat) as Hlen by by rewrite Hp.
  assert (srt <> []) as Hne' by (intros E; rewrite E in Hlen; by destruct lat).
  rewrite <-Hlen in Hn, H40. destruct fractions as (F1 & F2 & F3 & F4).
  destruct (pct_total srt P50 _ F1 Hne' Hn) as (i1 & x1 & E1 & B1 & L1 & ->).
  destruct (pct_total srt P90 _ F2 Hne' Hn) as (i2 & x2 & E2 & B2 & L2 & ->).
  destruct (pct_total srt P99 _ F3 Hne' Hn) as (i3 & x3 & E3 & B3 & L3 & ->).
  destruct (pct_total srt P999 _ F4 Hne' Hn) as (i4 & x4 & E4 & B4 & L4 & ->).
  assert (0 < length srt)%nat as H0 by (by destruct srt; [|simpl; lia]).
  destruct (last srt) as [m|] eqn:Em; [|by apply last_None in Em]. rewrite last_lookup in Em.
  exists (mkLatency x1 x2 x3 x4 m). split; [done|].
  assert (forall i j x y, i <= j -> srt !! Z.to_nat i = Some x -> srt !! Z.to_nat j = Some y -> x <= y) as Hle.
  { intros i j x y Hij. apply sorted_lookup; [done|lia]. }
  split; cbn [p50 p90 p99 p999 pmax].
  - exists srt. rewrite <-Hlen. split_and!; [done|done| | | | |done].
    + exists i1. split; [|done]. by apply (index_rank _ _ _ _ _ _ _ F1).
    + exists i2. split; [|done]. by apply (index_rank _ _ _ _ _ _ _ F2).
    + exists i3. split; [|done]. by apply (index_rank _ _ _ _ _ _ _ F3).
    + exists i4. split; [|done]. by apply (index_rank _ _ _ _ _ _ _ F4).
  - apply (Hle i1 i2); [|done|done]. eapply (index_mono (length srt)); [exact F1|exact F2|lia|done|done|done|done].
  - apply (Hle i2 i3); [|done|done]. eapply (index_mono (length srt)); [exact F2|exact F3|lia|done|done|done|done].
  - apply (Hle i3 i4); [|done|done]. eapply (index_mono (length srt)); [exact F3|exact F4|lia|done|done|done|done].
  - apply (sorted_lookup srt (Z.to_nat i4) (pred (length srt))); [done|lia|done|done].
  - apply Forall_forall. intros x Hx. rewrite <-Hp in Hx. apply list_elem_of_lookup_1 in Hx as [i Hi].
    apply (sorted_lookup srt i (pred (length srt))); [done| |done|done]. apply lookup_lt_Some in Hi. lia.
Qed.

(** With no measurement the index is out of range of the empty vector: asking
    the benchmark for 0 operations is undefined. *)
Example percentiles_of_nothing : latency_report [] = None.
Proof.
  unfold latency_report, pct. change (sort_ns []) with (@nil Z). by destruct (pct_index (length []) P50).
Qed.

(** ** The measured loop *)

(** A placement the generator draws, and the readings around it. *)
Record Draw := mkDraw { d_buy : bool; d_px : Z; d_qty : Z; d_before : Z; d_after : Z }.

(** The distributions: [px_d(9990, 10010)], [qty_d(1, 10)]. *)
Definition draw_ok (d : Draw) : Prop := 9990 <= d_px d <= 10010 /\ 1 <= d_qty d <= 10.

Section Loop.
Context {E : Type} `{HE : MatchingEngine E}.

(** The two loops: placements, with the tick differences of the second. *)
Fixpoint bench_loop (draws : list Draw) (e : E) : option (E * list Z) :=
  match draws with
  | [] => Some (e, [])
  | d :: draws =>
      '(e, _) ← e_place e (if d_buy d then Buy else Sell) (d_px d) (d_qty d);
      '(e, lat) ← bench_loop draws e;
      Some (e, u64 (d_after d - d_before d) :: lat)
  end.

(** The bulk conversion. *)
Fixpoint convert (c : Calibration) (ticks : list Z) : option (list Z) :=
  match ticks with
  | [] => Some []
  | t :: ticks => n ← ticks_to_ns c t; ns ← convert c ticks; Some (n :: ns)
  end.

Definition bench_main (c : Calibration) (warmup draws : list Draw) (e : E) : option (E * LatencyReport) :=
  '(e, _) ← bench_loop warmup e;
  '(e, lat_ticks) ← bench_loop draws e;
  lat_ns ← convert c lat_ticks;
  r ← latency_report lat_ns;
  Some (e, r).

Definition draw_op (d : Draw) : BookOp := OpPlace (if d_buy d then Buy else Sell) (d_px d) (d_qty d).

Lemma bench_loop_total draws : forall e a,
  e_abs e a -> Forall draw_ok draws -> ab_next_id a + Z.of_nat (length draws) < UINT64_SIZE ->
  exists e', bench_loop draws e = Some (e', (fun d => u64 (d_after d - d_before d)) <$> draws) /\
    e_abs e' (arun_ops a (draw_op <$> draws)).1 /\
    ab_next_id (arun_ops a (draw_op <$> draws)).1 = ab_next_id a + Z.of_nat (length draws).
Proof.
  induction draws as [|d draws IH]; intros e a Ha Hd Hn; [exists e; simpl; split_and!; [done|done|lia]|].
  apply Forall_cons in Hd as [[Hpx Hq] Hd]. cbn [length] in Hn.
  destruct (e_place_law e a (if d_buy d then Buy else Sell) (d_px d) (d_qty d) Ha) as (e1 & E1 & _ & Ha1); [lia|lia64|].
  pose proof (aplace_next_id a (if d_buy d then Buy else Sell) (d_px d) (d_qty d)) as Hid.
  pose proof (awf_next_id _ (e_abs_wf _ _ Ha)). rewrite u64_small in Hid by lia.
  destruct (aplace a _ _ _) as [[a1 id] trs] eqn:Ea. simpl in Ha1, Hid.
  destruct (IH e1 a1 Ha1 Hd) as (e' & E' & Ha' & Hid'); [lia|].
  exists e'. cbn [bench_loop]. rewrite E1, bind_Some_l, E', bind_Some_l. rewrite fmap_cons. split; [done|].
  rewrite fmap_cons. unfold draw_op at 1 3. cbn [arun_ops abook_step]. rewrite Ea. cbv beta iota.
  destruct (arun_ops a1 (draw_op <$> draws)) as [a2 outs]. simpl in *. split; [done|lia].
Qed.

Lemma convert_total c m e ticks :
  factor c m e -> Forall (fun t => 0 <= t < 2 ^ 53 /\ t * Z.pos m < (2 ^ 52 - 1) * 2 ^ e) ticks ->
  exists ns, convert c ticks = Some ns /\ length ns = length ticks.
Proof.
  intros Hc. induction 1 as [|t ticks [Ht Hp] _ (ns & E1 & Hl)]; [by exists []|].
  assert (0 < 2 ^ e) by (apply Z.pow_pos_nonneg; destruct Hc as [_ ?]; lia).
  destruct (f64_to_u64_in (f64_add (f64_mul (f64_of_Z t) (ns_per_tick c)) f64_half) 0 (2 ^ 52 - 1)) as (n & En & _).
  { destruct Hc as [-> He]. apply scaled_in; [done|done|lia|lia|nia]. }
  { lia. }
  { apply small_hi. lia. }
  fold (ticks_to_ns c t) in En.
  exists (n :: ns). cbn [convert length]. rewrite En, bind_Some_l, E1, bind_Some_l, Hl. done.
Qed.
Lemma arun_ops_app ops1 ops2 : forall a,
  (arun_ops a (ops1 ++ ops2)).1 = (arun_ops (arun_ops a ops1).1 ops2).1.
Proof.
  induction ops1 as [|op ops1 IH]; intros a; [done|]. simpl. destruct (abook_step a op) as [a1 o].
  specialize (IH a1). destruct (arun_ops a1 (ops1 ++ ops2)), (arun_ops a1 ops1). done.
Qed.

(** The benchmark measures what it says: on any engine and any draws of
    its distributions, at least one of them measured, the run is defined, the
    engine has made exactly the warm-up and the measured placements, and the
    report is on the converted latencies: every percentile is the element of
    its rank among them, sorted, p50 <= p90 <= p99 <= p99.9 <= max, and the
    maximum bounds them all; the floating-point index never leaves the array. *)
Theorem bench_main_correct c m sh warmup draws e a :
  factor c m sh -> e_abs e a -> Forall draw_ok warmup -> Forall draw_ok draws -> draws <> [] ->
  Z.of_nat (length draws) <= 2 ^ 40 ->
  ab_next_id a + Z.of_nat (length warmup) + Z.of_nat (length draws) < UINT64_SIZE ->
  Forall (fun d => 0 <= u64 (d_after d - d_before d) < 2 ^ 53 /\
    u64 (d_after d - d_before d) * Z.pos m < (2 ^ 52 - 1) * 2 ^ sh) draws ->
  exists e' r ns, bench_main c warmup draws e = Some (e', r) /\
    e_abs e' (arun_ops a (draw_op <$> warmup ++ draws)).1 /\
    convert c ((fun d => u64 (d_after d - d_before d)) <$> draws) = Some ns /\
    length ns = length draws /\ report_of ns r.
Proof.
  intros Hc Ha Hw Hd Hne Hn Hid Ht. unfold bench_main.
  destruct (bench_loop_total warmup e a Ha Hw) as (e1 & E1 & Ha1 & Hid1); [lia|]. rewrite E1, bind_Some_l.
  destruct (bench_loop_total draws e1 _ Ha1 Hd) as (e2 & E2 & Ha2 & _); [lia|]. rewrite E2, bind_Some_l.
  destruct (convert_total c m sh ((fun d => u64 (d_after d - d_before d)) <$> draws) Hc) as (ns & E3 & Hl).
  { by apply Forall_fmap. }
  rewrite length_fmap in Hl. rewrite E3, bind_Some_l.
  destruct (percentiles_ranked ns) as (r & E4 & Hr); [by intros ->; destruct draws|by rewrite Hl|].
  rewrite E4, bind_Some_l. exists e2, r, ns. rewrite fmap_app, arun_ops_app. by split_and!.
Qed.
End Loop.

Definition demo_draws : list Draw := [mkDraw true 10000 5 100 220; mkDraw false 9995 7 300 390; mkDraw false 9990 1 400 1000].

Lemma bench_main_correct_witness :
  exists e' r ns, bench_main demo_calibration [mkDraw true 9990 3 0 0] demo_draws demo_engine = Some (e', r) /\
    e_abs e' (arun_ops demo_abook (draw_op <$> [mkDraw true 9990 3 0 0] ++ demo_draws)).1 /\
    convert demo_calibration ((fun d => u64 (d_after d - d_before d)) <$> demo_draws) = Some ns /\
    length ns = 3%nat /\ report_of ns r.
Proof.
  apply (bench_main_correct demo_calibration 6004799503160661 54 [mkDraw true 9990 3 0 0] demo_draws demo_engine demo_abook).
  - split; [vm_compute; reflexivity|lia].
  - apply demo_refines.
  - repeat constructor; simpl; lia.
  - repeat constructor; simpl; lia.
  - discriminate.
  - vm_compute. discriminate.
  - vm_compute. reflexivity.
  - repeat constructor; vm_compute; discriminate.
Defined.

