(* ===== verification/Scanf.v ===== *)
(** * [std::sscanf]

    The directives that the sources use: decimal integers of a given width,
    [%c], literal characters and white space.  The result is the list of the
    converted values, so that its length is the number that [sscanf] returns
    (an input that ends before the first conversion gives the empty list; the
    sources compare the number with that of the whole format only).  [None]
    is undefined behaviour: a number that does not fit its type. *)

From S2P Require Import Prelude Decimal Float64.

Inductive Directive :=
| DSpace                    (* white space in the format *)
| DLit (c : Z)              (* an ordinary character *)
| DChar                     (* %c *)
| DUnsigned (size : Z)      (* %u, %llu: an unsigned type of [size] values *)
| DLongLong.                (* %lld *)

(** The value of an integer conversion from a sign and digits; an unsigned
    conversion negates modulo its size. *)
Definition int_value (d : Directive) (neg : bool) (v : Z) : option Z :=
  match d with
  | DUnsigned size => if v <? size then Some (if neg then (- v) mod size else v) else None
  | _ => i64 (if neg then - v else v)
  end.

Definition conversion (d : Directive) : bool :=
  match d with DUnsigned _ | DLongLong => true | _ => false end.

Fixpoint sscanf (fmt : list Directive) (bs : bytes) : option (list Z) :=
  match fmt with
  | [] => Some []
  | DSpace :: fmt => sscanf fmt (skip_spaces bs)
  | DLit c :: fmt =>
      match bs with
      | b :: bs => if b =? c then sscanf fmt bs else Some []
      | [] => Some []
      end
  | DChar :: fmt =>
      match bs with
      | b :: bs => vs ← sscanf fmt bs; Some (b :: vs)
      | [] => Some []
      end
  | d :: fmt =>
      let '(neg, bs) := read_sign (skip_spaces bs) in
      match take_digits bs with
      | [] => Some []
      | ds =>
          v ← int_value d neg (dec_value ds);
          vs ← sscanf fmt (drop (length ds) bs);
          Some (v :: vs)
      end
  end.

(** A format as it is written: blanks match white space. *)
Definition lits (s : string) : list Directive :=
  (fun c => if is_space c then DSpace else DLit c) <$> str s.

Example sscanf_examples :
  sscanf (lits "T=" ++ [DLongLong; DLit 44; DUnsigned 4294967296; DChar]) (str "T= -12,7x") =
    Some [-12; 7; 120] /\
  sscanf (lits "T=" ++ [DLongLong; DLit 44; DUnsigned 4294967296; DChar]) (str "T=5;7x") = Some [5] /\
  sscanf [DUnsigned 4294967296] (str "-1") = Some [4294967295] /\
  sscanf [DUnsigned 4294967296] (str "4294967296") = None.
Proof. by vm_compute. Qed.

(** ** Reading back printed text *)

(** Characters of a printed number. *)
Definition num_char (c : Z) : Prop := c = 45 \/ 48 <= c <= 57.

Lemma to_chars_chars n : - UINT64_SIZE < n < UINT64_SIZE -> Forall num_char (to_chars n).
Proof.
  intros Hn. assert (forall m, 0 <= m < UINT64_SIZE -> Forall num_char (digits m)) as Hd.
  { intros m Hm. destruct (digits_spec m Hm) as (_ & Hd & _).
    eapply Forall_impl; [exact Hd|]. intros c Hc%is_digit_spec. by right. }
  unfold to_chars. destruct (Z.ltb_spec n 0); [constructor; [by left|]|]; apply Hd; lia.
Qed.

Definition no_digit_ahead (bs : bytes) : Prop :=
  match bs with [] => True | c :: _ => is_digit c = false end.

(** The sign and the digits of a printed number, whatever follows it. *)
Lemma read_printed n rest :
  - UINT64_SIZE < n < UINT64_SIZE -> no_digit_ahead rest ->
  exists ds, read_sign (skip_spaces (to_chars n ++ rest)) = (n <? 0, ds ++ rest) /\
    ds <> [] /\ take_digits (ds ++ rest) = ds /\ dec_value ds = Z.abs n.
Proof.
  intros Hn Hr. exists (digits (Z.abs n)). destruct (digits_spec (Z.abs n)) as (Hne & Hds & Hval & _); [lia|].
  split_and!; [|done|by apply take_digits_app|done].
  unfold to_chars. destruct (Z.ltb_spec n 0) as [Hneg|Hpos].
  - by rewrite <-Z.abs_neq by lia.
  - rewrite Z.abs_eq in * by lia. destruct (digits n) as [|c ds]; [done|].
    apply Forall_cons in Hds as [Hc%is_digit_spec _]. cbn [app skip_spaces].
    assert (is_space c = false) as ->.
    { unfold is_space. rewrite (proj2 (Z.eqb_neq _ _)), (proj2 (Z.leb_gt c 13)), andb_false_r by lia. done. }
    cbn [read_sign]. rewrite !(proj2 (Z.eqb_neq c _)) by lia. done.
Qed.

(** A conversion reads back the number printed before it and stops there. *)
Lemma sscanf_number d fmt n rest :
  conversion d = true -> - UINT64_SIZE < n < UINT64_SIZE ->
  int_value d (n <? 0) (Z.abs n) = Some n -> no_digit_ahead rest ->
  sscanf (d :: fmt) (to_chars n ++ rest) = vs ← sscanf fmt rest; Some (n :: vs).
Proof.
  intros Hd Hn Hv Hr. destruct (read_printed n rest Hn Hr) as (ds & Es & Hne & Et & Ev).
  destruct d; try done; cbn [sscanf]; rewrite Es, Et;
    (destruct ds as [|c ds]; [done|]); rewrite Ev, Hv, drop_app_length; done.
Qed.

Lemma sscanf_signed fmt n rest :
  i64_range n -> no_digit_ahead rest ->
  sscanf (DLongLong :: fmt) (to_chars n ++ rest) = vs ← sscanf fmt rest; Some (n :: vs).
Proof.
  intros Hn Hr. apply sscanf_number; [done|lia64| |done]. cbn [int_value].
  rewrite <-(i64_Some n) by done. f_equal. destruct (Z.ltb_spec n 0); lia.
Qed.

Lemma sscanf_unsigned size fmt n rest :
  0 <= n < size -> size <= UINT64_SIZE -> no_digit_ahead rest ->
  sscanf (DUnsigned size :: fmt) (to_chars n ++ rest) = vs ← sscanf fmt rest; Some (n :: vs).
Proof.
  intros Hn Hs Hr. apply sscanf_number; [done|lia64| |done]. cbn [int_value].
  rewrite (proj2 (Z.ltb_ge n 0)), Z.abs_eq, (proj2 (Z.ltb_lt _ _)) by lia. done.
Qed.

Lemma sscanf_lit c fmt rest : sscanf (DLit c :: fmt) (c :: rest) = sscanf fmt rest.
Proof. cbn [sscanf]. by rewrite Z.eqb_refl. Qed.

Lemma sscanf_char c fmt rest : sscanf (DChar :: fmt) (c :: rest) = vs ← sscanf fmt rest; Some (c :: vs).
Proof. done. Qed.

Lemma until_nul_id bs : 0 ∉ bs -> until_nul bs = bs.
Proof.
  induction bs as [|c bs IH]; [done|]. intros [Hc Hn]%not_elem_of_cons. simpl.
  by rewrite (proj2 (Z.eqb_neq _ _)), IH by done.
Qed.

Lemma length_to_chars n : i64_range n -> (length (to_chars n) <= 20)%nat.
Proof.
  intros Hn. assert (forall m, 0 <= m <= 2 ^ 63 -> (length (digits m) <= 19)%nat) as H.
  { intros m Hm. destruct (digits_spec m) as (_ & _ & _ & Hl); [lia64|].
    apply Hl; [lia|]. change (10 ^ Z.of_nat 19) with 10000000000000000000. lia. }
  unfold to_chars. case_match; cbn [length]; [apply le_n_S|transitivity 19%nat; [|lia]];
    apply H; change (2 ^ 63) with 9223372036854775808; lia64.
Qed.
