(* ===== verification/Text.v ===== *)
(** * Reading arguments and printing text

    The library functions the programs read their command lines with,
    [std::strtoull], [std::atoi] and extraction from a string stream, and the
    padding of [printf]. *)

From S2P Require Import Prelude Decimal Float64 Scanf.

(** ** Numbers *)

(** The sign and the digits a conversion reads; [false, []] when there are
    none. *)
Definition scan_int (bs : bytes) : bool * bytes :=
  let '(neg, bs) := read_sign (skip_spaces (until_nul bs)) in (neg, take_digits bs).

(** [std::strtoull(s, nullptr, 10)]: a negative number is negated modulo 2^64,
    a number that does not fit gives the largest value, no number gives 0. *)
Definition strtoull10 (bs : bytes) : Z :=
  let '(neg, ds) := scan_int bs in
  let v := dec_value ds in
  if UINT64_SIZE <=? v then UINT64_SIZE - 1 else if neg then u64 (- v) else v.

(** [std::atoi]: [None] when the value is not one of [int], which the standard
    leaves undefined. *)
Definition INT_MAX : Z := 2147483647.
Definition atoi (bs : bytes) : option Z :=
  let '(neg, ds) := scan_int bs in
  let v := if neg then - dec_value ds else dec_value ds in
  if (- INT_MAX - 1 <=? v) && (v <=? INT_MAX) then Some v else None.

(** A printed number is read back, whatever text follows it. *)
Lemma scan_int_printed n rest :
  - UINT64_SIZE < n < UINT64_SIZE -> no_digit_ahead (until_nul rest) ->
  exists ds, scan_int (to_chars n ++ rest) = (n <? 0, ds) /\ dec_value ds = Z.abs n.
Proof.
  intros Hn Hr. assert (until_nul (to_chars n ++ rest) = to_chars n ++ until_nul rest) as Hnul.
  { pose proof (to_chars_chars n Hn) as Hch. induction Hch as [|c bs Hc _ IH]; [done|]. simpl.
    unfold num_char in Hc. by rewrite (proj2 (Z.eqb_neq c 0)), IH by lia. }
  unfold scan_int. rewrite Hnul. destruct (read_printed n _ Hn Hr) as (ds & -> & _ & -> & Hv). by exists ds.
Qed.

Lemma strtoull10_printed n rest :
  0 <= n < UINT64_SIZE -> no_digit_ahead (until_nul rest) -> strtoull10 (to_chars n ++ rest) = n.
Proof.
  intros Hn Hr. destruct (scan_int_printed n rest ltac:(lia) Hr) as (ds & E & Hv). unfold strtoull10. rewrite E, Hv.
  rewrite (proj2 (Z.leb_gt _ _)) by lia. rewrite (proj2 (Z.ltb_ge _ _)) by lia. lia.
Qed.

Lemma atoi_printed n rest :
  - INT_MAX - 1 <= n <= INT_MAX -> no_digit_ahead (until_nul rest) -> atoi (to_chars n ++ rest) = Some n.
Proof.
  unfold INT_MAX. intros Hn Hr. destruct (scan_int_printed n rest ltac:(lia64) Hr) as (ds & E & Hv). unfold atoi, INT_MAX. rewrite E, Hv.
  assert ((if n <? 0 then - Z.abs n else Z.abs n) = n) as -> by (destruct (Z.ltb_spec n 0); lia).
  rewrite (proj2 (Z.leb_le _ _)), (proj2 (Z.leb_le _ _)) by lia. done.
Qed.

Example number_examples :
  strtoull10 (str "250000") = 250000 /\ strtoull10 (str " +12x") = 12 /\ strtoull10 (str "-1") = UINT64_SIZE - 1 /\
  strtoull10 (str "99999999999999999999") = UINT64_SIZE - 1 /\ strtoull10 (str "all") = 0 /\
  atoi (str "-3") = Some (-3) /\ atoi (str "cpu2") = Some 0 /\ atoi (str "2147483648") = None.
Proof. by vm_compute. Qed.

(** ** Words *)

(** [while (iss >> tok) out.push_back(tok)]: the words between white space;
    [word] is the one being read. *)
Fixpoint words_from (word : bytes) (bs : bytes) : list bytes :=
  let flush := match word with [] => [] | _ => [word] end in
  match bs with
  | [] => flush
  | c :: bs => if is_space c then flush ++ words_from [] bs else words_from (word ++ [c]) bs
  end.
Definition words (bs : bytes) : list bytes := words_from [] bs.

Definition is_word (w : bytes) : Prop := w <> [] /\ Forall (fun c => is_space c = false) w.

Lemma words_from_words bs : forall word,
  Forall (fun c => is_space c = false) word -> Forall is_word (words_from word bs).
Proof.
  assert (forall word, Forall (fun c => is_space c = false) word ->
    Forall is_word (match word with [] => [] | _ => [word] end)) as Hf.
  { intros [|c word] Hw; [constructor|]. by constructor. }
  induction bs as [|c bs IH]; intros word Hw; cbn [words_from]; [by apply Hf|].
  destruct (is_space c) eqn:Ec.
  - apply Forall_app. split; [by apply Hf|by apply IH].
  - apply IH, Forall_app. split; [done|by constructor].
Qed.

Lemma words_from_word w rest : forall word,
  Forall (fun c => is_space c = false) w -> words_from word (w ++ rest) = words_from (word ++ w) rest.
Proof.
  induction w as [|c w IH]; intros word Hw; [by rewrite app_nil_r|].
  apply Forall_cons in Hw as [Hc Hw]. cbn. rewrite Hc, IH by done. by rewrite <-app_assoc.
Qed.

(** Words joined by blanks. *)
Definition unwords (ws : list bytes) : bytes := mjoin ((fun w => w ++ [32]) <$> ws).

(** Splitting finds exactly the words that were joined. *)
Lemma words_unwords ws : Forall is_word ws -> words (unwords ws) = ws.
Proof.
  induction 1 as [|w ws [Hne Hw] _ IH]; [done|]. unfold words, unwords in *. rewrite fmap_cons. cbn [mjoin list_join].
  rewrite <-app_assoc, words_from_word by done. destruct w as [|c w]; [done|]. simpl. f_equal. exact IH.
Qed.
