(* ===== verification/TickFile.v ===== *)
(** * Tick files (src/mvp/src/backtest/replay.{h,cpp})

    [load_csv], [save_csv], [load_binary] and [save_binary].  The contents of
    the file that is read are an argument, [None] when it cannot be opened;
    what is written is the result.  An exception is the value [Thrown]; the
    outer [option] is undefined behaviour as elsewhere. *)

From S2P Require Import Prelude Pool OrderedMap Level Decimal Float64 Scanf Ticks.

Inductive Outcome (A : Type) :=
| Returned (a : A)
| Thrown (what : bytes).
Arguments Returned {A} _.
Arguments Thrown {A} _.

(** ** Text *)

(** The lines that successive [std::getline] calls deliver; a last line need
    not end in a newline. *)
Fixpoint getlines_go (line bs : bytes) : list bytes :=
  match bs with
  | [] => match line with [] => [] | _ => [line] end
  | c :: bs => if c =? 10 then line :: getlines_go [] bs else getlines_go (line ++ [c]) bs
  end.
Definition getlines (bs : bytes) : list bytes := getlines_go [] bs.

(** [line.find(pat) != npos] *)
Fixpoint contains (pat bs : bytes) : bool :=
  bool_decide (pat `prefix_of` bs) || match bs with [] => false | _ :: bs => contains pat bs end.

(** "%llu,%u,%c,%c,%lld,%lld,%llu" *)
Definition csv_format : list Directive :=
  [DUnsigned UINT64_SIZE; DLit 44; DUnsigned 4294967296; DLit 44; DChar; DLit 44; DChar; DLit 44;
   DLongLong; DLit 44; DLongLong; DLit 44; DUnsigned UINT64_SIZE].

(** One line; the inner [None] is a line that is skipped. *)
Definition csv_tick (line : bytes) : option (option Tick) :=
  vals ← sscanf csv_format (until_nul line);
  Some match vals with
       | [ts; sym; ev; sd; px; qy; ext] =>
           Some {| ts_ns := ts; symbol := sym;
                   event := if ev =? 67 then EventType_Cancel
                            else if ev =? 84 then EventType_Trade else EventType_Add;
                   t_side := if sd =? 83 then 1 else 0;
                   t_price := px; t_qty := qy; ext_id := ext |}
       | _ => None
       end.

Fixpoint load_lines (lines : list bytes) (out : list Tick) : option (list Tick) :=
  match lines with
  | [] => Some out
  | [] :: lines => load_lines lines out
  | line :: lines =>
      t ← csv_tick line;
      load_lines lines (match t with Some t => out ++ [t] | None => out end)
  end.

Definition load_csv (path : bytes) (file : option bytes) : option (Outcome (list Tick)) :=
  match file with
  | None => Some (Thrown (str "load_csv: cannot open " ++ path))
  | Some bs =>
      let lines := getlines bs in
      let lines :=
        match lines with
        | first :: rest => if contains (str "ts_ns") first then rest else lines
        | [] => []
        end in
      out ← load_lines lines []; Some (Returned out)
  end.

Definition csv_line (t : Tick) : bytes :=
  let ev := if event t =? EventType_Cancel then 67 else if event t =? EventType_Trade then 84 else 65 in
  let sd := if t_side t =? 1 then 83 else 66 in
  to_chars (ts_ns t) ++ 44 :: to_chars (symbol t) ++ 44 :: ev :: 44 :: sd :: 44 ::
  to_chars (t_price t) ++ 44 :: to_chars (t_qty t) ++ 44 :: to_chars (ext_id t).

Definition save_csv (path : bytes) (opens : bool) (ticks : list Tick) : Outcome bytes :=
  if opens then
    Returned (str "ts_ns,symbol,event,side,price,qty,ext_id" ++ 10 ::
              mjoin ((fun t => csv_line t ++ [10]) <$> ticks))
  else Thrown (str "save_csv: cannot open " ++ path).

(** ** Binary: the structs as they lie in memory

    Little-endian fields at offsets 0, 8, 12, 13, 16, 24 and 32 with two bytes
    of padding at 14, of unspecified contents. *)

Definition sizeof_Tick : nat := 40.

Fixpoint to_le (w : nat) (n : Z) : bytes :=
  match w with O => [] | S w => n mod 256 :: to_le w (n / 256) end.

Definition of_le (bs : bytes) : Z := foldr (fun b v => b + 256 * v) 0 bs.

(** Two's complement. *)
Definition as_i64 (z : Z) : Z := if z <=? INT64_MAX then z else z - UINT64_SIZE.

Definition tick_bytes (pad : Z * Z) (t : Tick) : bytes :=
  to_le 8 (ts_ns t) ++ to_le 4 (symbol t) ++ to_le 1 (event t) ++ to_le 1 (t_side t) ++
  to_le 1 pad.1 ++ to_le 1 pad.2 ++ to_le 8 (t_price t) ++ to_le 8 (t_qty t) ++ to_le 8 (ext_id t).

Definition field_at (off w : nat) (bs : bytes) : Z := of_le (take w (drop off bs)).

Definition tick_of_bytes (bs : bytes) : Tick :=
  {| ts_ns := field_at 0 8 bs; symbol := field_at 8 4 bs; event := field_at 12 1 bs;
     t_side := field_at 13 1 bs; t_price := as_i64 (field_at 16 8 bs);
     t_qty := as_i64 (field_at 24 8 bs); ext_id := field_at 32 8 bs |}.

Fixpoint read_ticks (n : nat) (bs : bytes) : list Tick :=
  match n with
  | O => []
  | S n => tick_of_bytes bs :: read_ticks n (drop sizeof_Tick bs)
  end.

Definition load_binary (path : bytes) (file : option bytes) : Outcome (list Tick) :=
  match file with
  | None => Thrown (str "load_binary: cannot open " ++ path)
  | Some bs =>
      if negb (length bs mod sizeof_Tick =? 0)%nat then
        Thrown (str "load_binary: size not multiple of Tick")
      else Returned (read_ticks (length bs / sizeof_Tick) bs)
  end.

Definition save_binary (path : bytes) (opens : bool) (pads : list (Z * Z)) (ticks : list Tick)
    : Outcome bytes :=
  if opens then Returned (mjoin (zip_with tick_bytes pads ticks))
  else Thrown (str "save_binary: cannot open " ++ path).

(** ** Round trips *)

(** The fields are values of their types. *)
Record tick_ok (t : Tick) : Prop := {
  tk_ts : 0 <= ts_ns t < UINT64_SIZE;
  tk_symbol : 0 <= symbol t < 4294967296;
  tk_event : 0 <= event t < 256;
  tk_side : 0 <= t_side t < 256;
  tk_price : i64_range (t_price t);
  tk_qty : i64_range (t_qty t);
  tk_ext : 0 <= ext_id t < UINT64_SIZE
}.

(** What the text form keeps of a tick: unknown events become placements and
    every side but 1 a buy. *)
Definition csv_norm (t : Tick) : Tick :=
  {| ts_ns := ts_ns t; symbol := symbol t;
     event := if event t =? EventType_Cancel then EventType_Cancel
              else if event t =? EventType_Trade then EventType_Trade else EventType_Add;
     t_side := if t_side t =? 1 then 1 else 0;
     t_price := t_price t; t_qty := t_qty t; ext_id := ext_id t |}.

Lemma csv_line_chars t : tick_ok t -> Forall (fun c => 44 <= c) (csv_line t) /\ csv_line t <> [].
Proof.
  intros [????? ? ?]. unfold csv_line.
  assert (forall n, - UINT64_SIZE < n < UINT64_SIZE -> Forall (fun c => 44 <= c) (to_chars n)) as Hn.
  { intros n Hn. eapply Forall_impl; [by apply to_chars_chars|]. intros c [->|]; lia. }
  split; [|by destruct (to_chars (ts_ns t))].
  repeat first [apply Forall_app_2 | apply Forall_cons_2 | apply Hn; lia64]; repeat case_match; lia.
Qed.

Lemma csv_tick_line t : tick_ok t -> csv_tick (csv_line t) = Some (Some (csv_norm t)).
Proof.
  intros Ht. destruct (csv_line_chars t Ht) as [Hc _]. unfold csv_tick. rewrite until_nul_id; cycle 1.
  { intros Hz. rewrite Forall_forall in Hc. apply Hc in Hz. lia. }
  destruct Ht. unfold csv_line, csv_format.
  rewrite <-(app_nil_r (to_chars (ext_id t))).
  repeat first [rewrite sscanf_unsigned by (done || lia64) | rewrite sscanf_signed by (done || lia64)
               | rewrite sscanf_lit | rewrite sscanf_char].
  cbn. unfold csv_norm. do 3 f_equal; repeat case_match; done.
Qed.

Lemma getlines_line line bs : 10 ∉ line -> getlines (line ++ 10 :: bs) = line :: getlines bs.
Proof.
  unfold getlines. intros Hl.
  assert (forall acc, getlines_go acc (line ++ 10 :: bs) = (acc ++ line) :: getlines_go [] bs) as H;
    [|apply (H [])].
  induction line as [|c line IH]; intros acc; simpl; [by rewrite app_nil_r|].
  apply not_elem_of_cons in Hl as [Hc Hl]. rewrite (proj2 (Z.eqb_neq _ _)) by done.
  rewrite IH by done. by rewrite <-app_assoc.
Qed.

Lemma load_lines_saved ts : forall out,
  Forall tick_ok ts ->
  load_lines (getlines (mjoin ((fun t => csv_line t ++ [10]) <$> ts))) out = Some (out ++ (csv_norm <$> ts)).
Proof.
  induction ts as [|t ts IH]; intros out Hts; simpl; [by rewrite app_nil_r|].
  apply Forall_cons in Hts as [Ht Hts]. destruct (csv_line_chars t Ht) as [Hc Hne].
  rewrite <-app_assoc. simpl. rewrite getlines_line; cycle 1.
  { intros Hz. rewrite Forall_forall in Hc. apply Hc in Hz. lia. }
  simpl. rewrite csv_tick_line by done. destruct (csv_line t); [done|]. simpl.
  rewrite IH by done. by rewrite <-app_assoc.
Qed.

Lemma load_csv_saved path ts file :
  Forall tick_ok ts -> save_csv path true ts = Returned file ->
  load_csv path (Some file) = Some (Returned (csv_norm <$> ts)).
Proof.
  intros Hts Hf. unfold save_csv in Hf. apply (f_equal (fun o => match o with Returned f => f | Thrown _ => [] end)) in Hf.
  cbv beta iota in Hf. subst file. cbn [load_csv]. rewrite getlines_line by (vm_compute; set_solver).
  change (contains _ _) with true. cbv iota. by rewrite load_lines_saved.
Qed.

(** Known events and sides are kept. *)
Lemma csv_norm_known ts :
  Forall tick_ok ts -> Forall (fun t => event t <= 2 /\ t_side t <= 1) ts -> (csv_norm <$> ts) = ts.
Proof.
  intros Hts Hk. rewrite <-(list_fmap_id ts) at 2. apply list_fmap_ext. intros i t Hi.
  rewrite Forall_lookup in Hts, Hk. destruct (Hts _ _ Hi), (Hk _ _ Hi). destruct t; simpl in *.
  unfold csv_norm, EventType_Cancel, EventType_Trade, EventType_Add; simpl.
  f_equal; repeat case_match; lia.
Qed.

(** (C30) The text form round trips: loading what [save_csv] writes is defined
    and gives back the ticks in order, with unknown events read as placements
    and unknown sides as buys; so ticks with known events and sides come back
    unchanged. *)
Theorem csv_roundtrip path ts :
  Forall tick_ok ts ->
  exists file, save_csv path true ts = Returned file /\
    load_csv path (Some file) = Some (Returned (csv_norm <$> ts)) /\
    (Forall (fun t => event t <= 2 /\ t_side t <= 1) ts -> (csv_norm <$> ts) = ts).
Proof.
  intros Hts. eexists. split; [done|]. split; [by eapply load_csv_saved|by apply csv_norm_known].
Qed.

Lemma csv_roundtrip_witness :
  exists file, save_csv [] true [mkTick 5 0 1 1 (-100) 7 9; mkTick 6 0 9 0 100 7 0] = Returned file /\
    load_csv [] (Some file) =
      Some (Returned [mkTick 5 0 1 1 (-100) 7 9; mkTick 6 0 0 0 100 7 0]) /\
    (Forall (fun t => event t <= 2 /\ t_side t <= 1) [mkTick 5 0 1 1 (-100) 7 9; mkTick 6 0 9 0 100 7 0] ->
     csv_norm <$> [mkTick 5 0 1 1 (-100) 7 9; mkTick 6 0 9 0 100 7 0] =
       [mkTick 5 0 1 1 (-100) 7 9; mkTick 6 0 9 0 100 7 0]).
Proof.
  apply (csv_roundtrip [] [mkTick 5 0 1 1 (-100) 7 9; mkTick 6 0 9 0 100 7 0]).
  repeat constructor; vm_compute; discriminate || done.
Defined.

(** ** The binary form *)

Lemma length_to_le w : forall n, length (to_le w n) = w.
Proof. induction w; intros; simpl; auto. Qed.

Lemma of_le_to_le w : forall n, of_le (to_le w n) = n mod 256 ^ Z.of_nat w.
Proof.
  unfold of_le. induction w as [|w IH]; intros n; cbn [to_le foldr].
  - by rewrite Z.mod_1_r.
  - rewrite IH, Nat2Z.inj_succ, Z.pow_succ_r by lia. rewrite Z.rem_mul_r by lia. done.
Qed.

Lemma as_i64_mod z : i64_range z -> as_i64 (z mod 256 ^ Z.of_nat 8) = z.
Proof.
  intros Hz. change (256 ^ Z.of_nat 8) with UINT64_SIZE. unfold as_i64. destruct (Z.ltb_spec z 0).
  - rewrite <-(Z_mod_plus_full z 1), Z.mod_small by lia64. case_match; lia64.
  - rewrite Z.mod_small by lia64. case_match; lia64.
Qed.

Lemma length_tick_bytes pad t : length (tick_bytes pad t) = sizeof_Tick.
Proof. unfold tick_bytes. by rewrite !length_app, !length_to_le. Qed.

Lemma tick_of_tick_bytes pad t rest : tick_ok t -> tick_of_bytes (tick_bytes pad t ++ rest) = t.
Proof.
  intros []. unfold tick_of_bytes.
  change (field_at 0 8 _) with (of_le (to_le 8 (ts_ns t))).
  change (field_at 8 4 _) with (of_le (to_le 4 (symbol t))).
  change (field_at 12 1 _) with (of_le (to_le 1 (event t))).
  change (field_at 13 1 _) with (of_le (to_le 1 (t_side t))).
  change (field_at 16 8 _) with (of_le (to_le 8 (t_price t))).
  change (field_at 24 8 _) with (of_le (to_le 8 (t_qty t))).
  change (field_at 32 8 _) with (of_le (to_le 8 (ext_id t))).
  rewrite !of_le_to_le, !as_i64_mod by done. change (256 ^ Z.of_nat 8) with UINT64_SIZE.
  change (256 ^ Z.of_nat 4) with 4294967296. change (256 ^ Z.of_nat 1) with 256.
  rewrite !Z.mod_small by lia. by destruct t.
Qed.

Lemma length_save pads ts :
  length pads = length ts ->
  length (mjoin (zip_with tick_bytes pads ts)) = (length ts * sizeof_Tick)%nat.
Proof.
  revert ts. induction pads as [|pad pads IH]; intros [|t ts] Hl; try done.
  cbn [zip_with length mjoin list_join] in *. rewrite length_app, length_tick_bytes, IH; lia.
Qed.

Lemma read_ticks_saved pads ts :
  length pads = length ts -> Forall tick_ok ts ->
  read_ticks (length ts) (mjoin (zip_with tick_bytes pads ts)) = ts.
Proof.
  revert ts. induction pads as [|pad pads IH]; intros [|t ts] Hl Hts; try done.
  apply Forall_cons in Hts as [Ht Hts]. cbn [zip_with length mjoin list_join read_ticks] in *.
  rewrite tick_of_tick_bytes by done. f_equal.
  rewrite <-(length_tick_bytes pad t) at 1. rewrite drop_app_length. apply IH; [lia|done].
Qed.

(** The binary form round trips whatever the padding bytes are, and a file
    that ends inside a tick is rejected with an exception. *)
Theorem binary_roundtrip path pads ts :
  length pads = length ts -> Forall tick_ok ts ->
  exists file, save_binary path true pads ts = Returned file /\
    load_binary path (Some file) = Returned ts /\
    (forall n, (n < length file)%nat -> (n mod sizeof_Tick <> 0)%nat ->
       load_binary path (Some (take n file)) = Thrown (str "load_binary: size not multiple of Tick")).
Proof.
  intros Hl Hts. eexists. split; [done|]. unfold load_binary. split.
  - rewrite length_save by done. rewrite Nat.Div0.mod_mul, Nat.div_mul by done.
    cbn [negb Nat.eqb]. by rewrite read_ticks_saved.
  - intros n Hn Hm. rewrite length_take_le by lia. by rewrite (proj2 (Nat.eqb_neq _ _)).
Qed.

Lemma binary_roundtrip_witness :
  exists file, save_binary [] true [(1, 2)] [mkTick 5 0 1 1 (-100) 7 9] = Returned file /\
    load_binary [] (Some file) = Returned [mkTick 5 0 1 1 (-100) 7 9] /\
    (forall n, (n < length file)%nat -> (n mod sizeof_Tick <> 0)%nat ->
       load_binary [] (Some (take n file)) = Thrown (str "load_binary: size not multiple of Tick")).
Proof.
  apply (binary_roundtrip [] [(1, 2)] [mkTick 5 0 1 1 (-100) 7 9]); [done|].
  repeat constructor; vm_compute; discriminate || done.
Defined.
