(* ===== verification/GenTicks.v ===== *)
(** * The tick generator (src/mvp/bench/gen_ticks.cpp)

    The generator of synthetic tapes.  What the random engine draws is the
    environment: the quantities of the seeding rounds and a list of draws for
    the iterations of the main loop; the mid is a [double] updated as in the
    source.  The theorem says what a generated tape is, whatever noise the
    normal distribution delivers: well-formed ticks with increasing times and
    fresh ids, whose cancels name orders that were added and not cancelled
    before.  That distribution has no bound, so a bound on its draws is an
    assumption of its own ([small_noise]), under which the generator is shown
    to return and its prices to stay near the anchor. *)

From Corelib Require Import SpecFloat.
From S2P Require Import Prelude Pool OrderedMap Level OrderBook BookSpec Flow Ticks Decimal Float64 FloatBounds Clock FloatRange TickFile ReplayProps.

(** What one iteration draws: [pow(100.0, u)] for the uniform [u], the noise,
    the event, and what the branch taken reads; [gd_pick n] is the draw of
    [pick(0, n - 1)]. *)
Record GenDraw := mkGenDraw {
  gd_pow : f64;
  gd_noise : f64;
  gd_roll : Z;
  gd_side : Z;
  gd_off : Z;
  gd_roll2 : Z;
  gd_qty : Z;
  gd_pick : nat -> nat
}.

Record Gen := mkGen {
  g_mid : f64;
  g_ts : Z;               (* uint64_t *)
  g_next_ext : Z;         (* uint64_t *)
  g_live : list Z;        (* live_ext_ids *)
  g_ticks : list Tick
}.

Definition anchor : f64 := f64_of_Z 10000.
Definition Gen_start : Gen := mkGen anchor 1000000000 1 [] [].

(** One round of the seeding loop: a bid and an offer of the same quantity. *)
Definition seed_round (i : nat) (qty : Z) (g : Gen) : option Gen :=
  m ← f64_to_i64 (g_mid g);
  bid ← i64 (m - 1 - Z.of_nat (i mod 10));
  ask ← i64 (m + 1 + Z.of_nat (i mod 10));
  let ts1 := u64 (g_ts g + 1) in
  let ext1 := u64 (g_next_ext g + 1) in
  let tA := mkTick (g_ts g) 0 EventType_Add 0 bid qty (g_next_ext g) in
  let tS := mkTick ts1 0 EventType_Add 1 ask qty ext1 in
  Some (mkGen (g_mid g) (u64 (ts1 + 1)) (u64 (ext1 + 1)) (g_live g) (g_ticks g ++ [tA; tS])).

(** Rounds [i], [i + 1], ... of the loop; [qty i] is what [qty_dist] draws in
    round [i]. *)
Fixpoint seed_loop (rounds i : nat) (qty : nat -> Z) (g : Gen) : option Gen :=
  match rounds with
  | O => Some g
  | S rounds => g ← seed_round i (qty i) g; seed_loop rounds (S i) qty g
  end.

Definition kSeedRounds : nat := 200.

(** [live[idx] = live.back(); live.pop_back();] *)
Definition swap_remove (idx : nat) (live : list Z) : list Z :=
  match last live with
  | Some x => take (length live - 1) (<[idx := x]> live)
  | None => []
  end.

Definition next_mid (mid noise : f64) : f64 :=
  f64_add mid (f64_add noise (f64_mul (f64_of_ratio 1 100) (f64_sub anchor mid))).

(** One iteration of the main loop; [false] when it starts over ([--i]). *)
Definition gen_step (d : GenDraw) (g : Gen) : option (Gen * bool) :=
  gap_ns ← f64_to_u64 (f64_mul (f64_of_Z 100) (gd_pow d));
  let ts := u64 (g_ts g + gap_ns) in
  let mid := next_mid (g_mid g) (gd_noise d) in
  if gd_roll d <? 70 then
    m ← f64_to_i64 mid;
    let buy := gd_side d =? 0 in
    let toward := if gd_roll2 d <? 15 then buy else negb buy in
    px ← i64 (if toward then m + gd_off d else m - gd_off d);
    let t := mkTick ts 0 EventType_Add (gd_side d) px (gd_qty d) (g_next_ext g) in
    Some (mkGen mid ts (u64 (g_next_ext g + 1)) (g_live g ++ [g_next_ext g]) (g_ticks g ++ [t]), true)
  else if gd_roll d <? 90 then
    m ← f64_to_i64 mid;
    Some (mkGen mid ts (g_next_ext g) (g_live g) (g_ticks g ++ [mkTick ts 0 EventType_Trade (gd_side d) m (gd_qty d) 0]), true)
  else
    match g_live g with
    | [] => Some (mkGen mid ts (g_next_ext g) [] (g_ticks g), false)
    | live =>
        let idx := gd_pick d (length live) in
        ext ← live !! idx;
        Some (mkGen mid ts (g_next_ext g) (swap_remove idx live)
                (g_ticks g ++ [mkTick ts 0 EventType_Cancel 0 0 0 ext]), true)
    end.

(** The main loop until [n] ticks are written; [None] when the draws run out. *)
Fixpoint gen_loop (draws : list GenDraw) (n : nat) (g : Gen) : option Gen :=
  match n, draws with
  | O, _ => Some g
  | S _, [] => None
  | S n', d :: draws => '(g, emitted) ← gen_step d g; gen_loop draws (if emitted : bool then n' else n) g
  end.

Definition gen_main (qty : nat -> Z) (draws : list GenDraw) (n : nat) : option (list Tick) :=
  g ← seed_loop kSeedRounds 0 qty Gen_start;
  g ← gen_loop draws n g;
  Some (g_ticks g).

(** ** The draws *)

(** Within the ranges of the uniform distributions; [pow(100, u)] is between 1
    and 100.  Nothing is said of the noise. *)
Definition draw_ok (d : GenDraw) : Prop :=
  f64_in (gd_pow d) 1 100 0 /\ 0 <= gd_roll d <= 99 /\ 0 <= gd_side d <= 1 /\
  1 <= gd_off d <= 5 /\ 1 <= gd_qty d <= 20 /\ (forall n, (0 < n)%nat -> (gd_pick d n < n)%nat).

(** An assumption on the draws of [normal_distribution(0.0, 0.4)], which is not
    a property of that distribution: within twenty standard deviations. *)
Definition small_noise (d : GenDraw) : Prop := f64_between (gd_noise d) (-8) 8.

(** ** The walk of the mid *)

Definition mid_ok (mid : f64) : Prop := f64_between mid 8000 12000.

Lemma anchor_ok : mid_ok anchor.
Proof. vm_compute. repeat split; discriminate. Qed.

(** A step from a part of the range: the pull towards the anchor is between
    [c] and [d]. *)
Lemma next_mid_from mid noise lo hi c d :
  f64_between mid lo hi -> f64_between noise (-8) 8 -> 8000 <= lo <= hi -> hi <= 12000 -> -30 <= c <= d -> d <= 30 ->
  f64_between (f64_mul (f64_of_ratio 1 100) (f64_sub anchor mid)) c d ->
  f64_between (next_mid mid noise) (lo + (-8 + c)) (hi + (8 + d)).
Proof.
  intros Hm Hn Hlo Hhi Hc Hd Hp. change (2 ^ 53) with 9007199254740992.
  apply f64_add_between; [done|by apply f64_add_between; [done..|lia|lia]|lia|lia].
Qed.

Lemma pull_between mid lo hi c d :
  f64_between mid lo hi -> Z.abs (10000 - hi) <= 2 ^ 53 -> Z.abs (10000 - lo) <= 2 ^ 53 -> Z.abs c <= 2 ^ 53 -> Z.abs d <= 2 ^ 53 ->
  c * pw 0 <= (10000 - hi) * (5764607523034235 * pw (-59)) -> (10000 - lo) * (5764607523034235 * pw (-59)) <= d * pw 0 ->
  f64_between (f64_mul (f64_of_ratio 1 100) (f64_sub anchor mid)) c d.
Proof.
  intros Hm Hhi Hlo Hc Hd H1 H2. change (f64_of_ratio 1 100) with (S754_finite false 5764607523034235 (-59)).
  eapply f64_mul_between; [|lia|done|done|exact H1|exact H2].
  apply f64_sub_between; [|done|done|done]. vm_compute. repeat split; discriminate.
Qed.

(** The mid never leaves its range: far from the anchor the pull outweighs the
    noise. *)
Lemma next_mid_ok mid noise : mid_ok mid -> f64_between noise (-8) 8 -> mid_ok (next_mid mid noise).
Proof.
  unfold mid_ok. intros Hm Hn.
  destruct (f64_between_split _ _ 9000 _ Hm ltac:(lia)) as [Hlow|Hup];
    [|destruct (f64_between_split _ _ 11000 _ Hup ltac:(lia)) as [Hmid|Hhigh]].
  - apply (f64_between_weaken _ (8000 + (-8 + 9)) (9000 + (8 + 21))); [|lia|lia].
    apply next_mid_from; [done|done|lia|lia|lia|lia|]. apply (pull_between _ 8000 9000); [exact Hlow|vm_compute; discriminate..].
  - apply (f64_between_weaken _ (9000 + (-8 + -11)) (11000 + (8 + 11))); [|lia|lia].
    apply next_mid_from; [done|done|lia|lia|lia|lia|]. apply (pull_between _ 9000 11000); [exact Hmid|vm_compute; discriminate..].
  - apply (f64_between_weaken _ (11000 + (-8 + -21)) (12000 + (8 + -9))); [|lia|lia].
    apply next_mid_from; [done|done|lia|lia|lia|lia|]. apply (pull_between _ 11000 12000); [exact Hhigh|vm_compute; discriminate..].
Qed.

(** ** Swap and pop *)

Lemma swap_remove_perm idx live x :
  live !! idx = Some x -> live ≡ₚ x :: swap_remove idx live.
Proof.
  intros Hx. unfold swap_remove. destruct (last live) as [y|] eqn:Hl; [|by apply last_None in Hl; subst].
  apply last_Some in Hl as [l ->]. rewrite length_app, Nat.add_sub.
  destruct (decide (idx = length l)) as [->|Hne].
  - rewrite lookup_app_r, Nat.sub_diag in Hx by done. simplify_eq/=.
    rewrite insert_app_r_alt, Nat.sub_diag, take_app_length by done. by rewrite (comm (++)).
  - apply lookup_lt_Some in Hx as Hlt. rewrite length_app in Hlt. simpl in Hlt.
    rewrite lookup_app_l in Hx by lia. rewrite insert_app_l by lia.
    rewrite <-(length_insert l idx y), take_app_length.
    rewrite (insert_take_drop l idx y) by lia. rewrite <-(take_drop_middle l idx x Hx) at 1.
    solve_Permutation.
Qed.

(** ** What a tape is *)

Definition id_of (ev : Z) (t : Tick) : option Z := if event t =? ev then Some (ext_id t) else None.
Definition add_ids (ticks : list Tick) : list Z := omap (id_of EventType_Add) ticks.
Definition cancel_ids (ticks : list Tick) : list Z := omap (id_of EventType_Cancel) ticks.

(** A tick the file formats keep. *)
Definition gen_tick_ok (t : Tick) : Prop :=
  tick_ok t /\ event t <= 2 /\ t_side t <= 1 /\ 0 <= t_qty t <= 20.

(** Its price is near the anchor. *)
Definition near_anchor (t : Tick) : Prop := 0 <= t_price t <= 12005.

(** Well-formed ticks in the order of their times, none after [ts]. *)
Record tape_inv (ts : Z) (ticks : list Tick) : Prop := {
  tp_ok : Forall gen_tick_ok ticks;
  tp_sorted : StronglySorted Z.lt (ts_ns <$> ticks);
  tp_past : Forall (fun t => ts_ns t <= ts) ticks
}.

(** Ids 1, 2, ... below [next]; each cancelled at most once, after it was
    added; those of [live] added and not cancelled. *)
Record ids_inv (next : Z) (live : list Z) (ticks : list Tick) : Prop := {
  di_next : 1 <= next;
  di_adds : add_ids ticks = seqZ 1 (next - 1);
  di_once : NoDup (cancel_ids ticks ++ live);
  di_known : Forall (fun x => x ∈ add_ids ticks) (cancel_ids ticks ++ live);
  di_after i t : ticks !! i = Some t -> event t = EventType_Cancel -> ext_id t ∈ add_ids (take i ticks)
}.

Lemma sorted_snoc (l : list Z) x : StronglySorted Z.lt l -> Forall (fun y => y < x) l -> StronglySorted Z.lt (l ++ [x]).
Proof.
  induction 1 as [|y l Hs IH Hy]; intros Hf; simpl; [by constructor; [constructor|]|].
  apply Forall_cons in Hf as [Hyx Hf]. constructor; [by apply IH|]. apply Forall_app. split; [done|by constructor].
Qed.

Lemma tape_inv_snoc ts ts' ticks t :
  tape_inv ts ticks -> gen_tick_ok t -> ts < ts' -> ts_ns t = ts' -> tape_inv ts' (ticks ++ [t]).
Proof.
  intros [Hok Hs Hp] Ht Hlt <-. constructor.
  - apply Forall_app. split; [done|by constructor].
  - rewrite fmap_app. apply sorted_snoc; [done|]. apply Forall_fmap. eapply Forall_impl; [done|]. simpl. lia.
  - apply Forall_app. split; [eapply Forall_impl; [done|]; simpl; lia|by constructor].
Qed.

Lemma tape_inv_weaken ts ts' ticks : tape_inv ts ticks -> ts <= ts' -> tape_inv ts' ticks.
Proof. intros [? ? Hp] Hle. constructor; [done..|]. eapply Forall_impl; [done|]. simpl. lia. Qed.

Lemma ids_fresh next live ticks : ids_inv next live ticks -> next ∉ cancel_ids ticks ++ live.
Proof.
  intros [Hn Ha _ Hk _] Hin. rewrite Forall_forall in Hk. apply Hk in Hin. rewrite Ha in Hin.
  apply elem_of_seqZ in Hin. lia.
Qed.

Lemma ids_after_snoc ticks t :
  (forall i t', ticks !! i = Some t' -> event t' = EventType_Cancel -> ext_id t' ∈ add_ids (take i ticks)) ->
  (event t = EventType_Cancel -> ext_id t ∈ add_ids ticks) ->
  forall i t', (ticks ++ [t]) !! i = Some t' -> event t' = EventType_Cancel -> ext_id t' ∈ add_ids (take i (ticks ++ [t])).
Proof.
  intros H1 H2 i t' Hi He. apply lookup_app_Some in Hi as [Hi|[Hlen Hi]].
  - rewrite take_app_le; [by eapply H1|]. apply lookup_lt_Some in Hi. lia.
  - apply list_lookup_singleton_Some in Hi as [Hi <-]. rewrite take_app_ge by done. unfold add_ids.
    rewrite omap_app. apply elem_of_app. left. by apply H2.
Qed.

Lemma ids_inv_add next live live' ticks t :
  ids_inv next live ticks -> event t = EventType_Add -> ext_id t = next -> live' = live \/ live' = live ++ [next] ->
  ids_inv (next + 1) live' (ticks ++ [t]).
Proof.
  intros Hi He Hx Hl. pose proof (ids_fresh _ _ _ Hi) as Hf. destruct Hi as [Hn Ha Ho Hk Hr].
  assert (add_ids (ticks ++ [t]) = add_ids ticks ++ [next]) as Ea.
  { unfold add_ids. rewrite omap_app. simpl. unfold id_of at 2. by rewrite He, Hx. }
  assert (cancel_ids (ticks ++ [t]) = cancel_ids ticks) as Ec.
  { unfold cancel_ids. rewrite omap_app. simpl. unfold id_of at 2. by rewrite He, app_nil_r. }
  constructor; rewrite ?Ea, ?Ec.
  - lia.
  - rewrite Ha. replace (next + 1 - 1) with (next - 1 + 1) by lia. rewrite seqZ_app by lia.
    f_equal. rewrite seqZ_cons, seqZ_nil by lia. f_equal. lia.
  - destruct Hl as [->| ->]; [done|]. rewrite app_assoc. apply NoDup_app. split; [done|].
    split; [|apply NoDup_singleton]. intros x Hin ->%list_elem_of_singleton. done.
  - assert (Forall (fun x => x ∈ add_ids ticks ++ [next]) (cancel_ids ticks ++ live)) as Hk'.
    { eapply Forall_impl; [done|]. intros x ?. by apply elem_of_app; left. }
    destruct Hl as [->| ->]; [done|]. rewrite app_assoc. apply Forall_app. split; [done|]. constructor; [|done].
    apply elem_of_app. right. by left.
  - apply ids_after_snoc; [done|]. rewrite He. done.
Qed.

Lemma ids_inv_trade next live ticks t :
  ids_inv next live ticks -> event t = EventType_Trade -> ids_inv next live (ticks ++ [t]).
Proof.
  intros [Hn Ha Ho Hk Hr] He. 
  assert (add_ids (ticks ++ [t]) = add_ids ticks) as Ea.
  { unfold add_ids. rewrite omap_app. simpl. unfold id_of at 2. by rewrite He, app_nil_r. }
  assert (cancel_ids (ticks ++ [t]) = cancel_ids ticks) as Ec.
  { unfold cancel_ids. rewrite omap_app. simpl. unfold id_of at 2. by rewrite He, app_nil_r. }
  constructor; rewrite ?Ea, ?Ec; [done..|]. apply ids_after_snoc; [done|]. by rewrite He.
Qed.

Lemma ids_inv_cancel next live live' ticks t :
  ids_inv next live ticks -> event t = EventType_Cancel -> live ≡ₚ ext_id t :: live' ->
  ids_inv next live' (ticks ++ [t]).
Proof.
  intros [Hn Ha Ho Hk Hr] He Hp.
  assert (add_ids (ticks ++ [t]) = add_ids ticks) as Ea.
  { unfold add_ids. rewrite omap_app. simpl. unfold id_of at 2. by rewrite He, app_nil_r. }
  assert (cancel_ids (ticks ++ [t]) = cancel_ids ticks ++ [ext_id t]) as Ec.
  { unfold cancel_ids. rewrite omap_app. simpl. unfold id_of at 2. by rewrite He. }
  constructor; rewrite ?Ea, ?Ec, <-?app_assoc; simpl; rewrite <-?Hp; [done..|]. apply ids_after_snoc; [done|].
  intros _. rewrite Forall_forall in Hk. apply Hk, elem_of_app. right. rewrite Hp. by left.
Qed.

(** ** The generator keeps it *)

Record gen_inv (g : Gen) : Prop := {
  gi_tape : tape_inv (g_ts g) (g_ticks g);
  gi_ids : ids_inv (g_next_ext g) (g_live g) (g_ticks g);
  gi_ts : 0 <= g_ts g
}.

(** Near the anchor. *)
Record walk_inv (g : Gen) : Prop := {
  wi_mid : mid_ok (g_mid g);
  wi_prices : Forall near_anchor (g_ticks g)
}.

Lemma gap_range d : draw_ok d ->
  exists gap, f64_to_u64 (f64_mul (f64_of_Z 100) (gd_pow d)) = Some gap /\ 100 <= gap <= 10000.
Proof.
  intros [Hp _]. apply f64_to_u64_int; [|lia|lia64].
  destruct (gd_pow d) as [s|s| |[] m e]; unfold f64_in in Hp; try tauto; [lia|]. destruct Hp as (He & H1 & H2).
  apply (f64_mul_in _ _ _ 100 100); [by apply f64_of_Z_in|done|lia|lia|lia|lia|lia|lia].
Qed.

Lemma gen_tick_fields ts ev side px qty ext :
  0 <= ts < UINT64_SIZE -> 0 <= ev <= 2 -> 0 <= side <= 1 -> i64_range px -> 0 <= qty <= 20 -> 0 <= ext < UINT64_SIZE ->
  gen_tick_ok (mkTick ts 0 ev side px qty ext).
Proof.
  intros Ht Hv Hs Hp Hq He. unfold gen_tick_ok. simpl.
  split_and!; try lia. split; simpl; try done; lia || lia64.
Qed.

(** Whatever the noise, an iteration that is defined keeps the tape in order. *)
Lemma gen_step_keeps d g g' b :
  gen_inv g -> draw_ok d -> g_ts g + 10000 < UINT64_SIZE -> g_next_ext g + 1 < UINT64_SIZE ->
  gen_step d g = Some (g', b) ->
  gen_inv g' /\ g_ts g' <= g_ts g + 10000 /\ g_next_ext g' <= g_next_ext g + 1 /\
    length (g_ticks g') = (length (g_ticks g) + if b then 1 else 0)%nat /\ (gd_roll d < 90 -> b = true).
Proof.
  intros [Ht Hi H0] Hd Hts Hne. destruct (gap_range d Hd) as (gap & Eg & Hg).
  destruct Hd as (_ & Hr & Hs & Ho & Hq & Hpk). unfold gen_step. rewrite Eg, bind_Some_l.
  rewrite u64_small by lia. pose proof (di_next _ _ _ Hi).
  assert (forall t, gen_tick_ok t -> ts_ns t = g_ts g + gap -> tape_inv (g_ts g + gap) (g_ticks g ++ [t])) as Hsnoc.
  { intros t Hok Et. apply (tape_inv_snoc (g_ts g)); [done|done|lia|done]. }
  destruct (Z.ltb_spec (gd_roll d) 70) as [H7|H7]; [|destruct (Z.ltb_spec (gd_roll d) 90) as [H9|H9]].
  - destruct (f64_to_i64 _) as [m|]; [|done]. rewrite bind_Some_l. cbv zeta.
    destruct (i64 _) as [px|] eqn:Epx; [|done]. rewrite bind_Some_l. intros [= <- <-]. apply i64_inv in Epx as [Epx Hpx]; rewrite <-Epx in Hpx.
    simpl. rewrite u64_small by lia. split_and!; try done; try lia; [|by rewrite length_app].
    constructor; simpl; [|by eapply ids_inv_add; eauto|lia]. apply Hsnoc; [|done].
    apply gen_tick_fields; [lia|done|lia|done|lia|lia].
  - destruct (f64_to_i64 _) as [m|] eqn:Em; [|done]. rewrite bind_Some_l. apply f64_to_i64_range in Em.
    intros [= <- <-]. simpl. split_and!; try done; try lia; [|by rewrite length_app].
    constructor; simpl; [|by eapply ids_inv_trade; eauto|lia]. apply Hsnoc; [|done].
    apply gen_tick_fields; [lia|done|lia|done|lia|lia64].
  - destruct (g_live g) as [|x live] eqn:El.
    + intros [= <- <-]. simpl. split_and!; try done; try lia.
      constructor; simpl; [by eapply tape_inv_weaken; [done|lia]|done|lia].
    + cbv zeta. destruct ((x :: live) !! gd_pick d (length (x :: live))) as [ext|] eqn:Hx; [|done].
      rewrite bind_Some_l. intros [= <- <-]. simpl g_mid. simpl g_ts. simpl g_next_ext. simpl g_ticks.
      split_and!; try done; try lia; [|by rewrite length_app].
      constructor; simpl g_ts; simpl g_ticks; simpl g_next_ext; simpl g_live; [| |lia].
      * apply Hsnoc; [|done]. apply gen_tick_fields; [lia|done|lia|lia64|lia|].
        destruct Hi as [_ Ha _ Hk _]. rewrite Forall_forall in Hk.
        assert (ext ∈ add_ids (g_ticks g)) as Hin.
        { apply Hk, elem_of_app. right. by eapply list_elem_of_lookup_2. }
        rewrite Ha in Hin. apply elem_of_seqZ in Hin. lia.
      * eapply ids_inv_cancel; [done|done|]. by apply swap_remove_perm.
Qed.

(** With little noise it is defined, and stays near the anchor. *)
Lemma gen_step_defined d g :
  walk_inv g -> draw_ok d -> small_noise d -> exists g' b, gen_step d g = Some (g', b) /\ walk_inv g'.
Proof.
  intros [Hmid Hpr] Hd Hno. destruct (gap_range d Hd) as (gap & Eg & Hg).
  destruct Hd as (_ & Hr & Hs & Ho & Hq & Hpk). unfold gen_step. rewrite Eg, bind_Some_l.
  pose proof (next_mid_ok _ _ Hmid Hno) as Hmid'. destruct (f64_to_i64_between _ _ _ Hmid') as (m & Em & Hm); [lia|lia64|].
  destruct (gd_roll d <? 70); [|destruct (gd_roll d <? 90)].
  - rewrite Em, bind_Some_l. cbv zeta. match goal with |- context [i64 ?x] => set (px := x) end.
    assert (m - 5 <= px <= m + 5) as Hpx by (unfold px; repeat case_match; lia).
    rewrite i64_Some by lia64. rewrite bind_Some_l. do 2 eexists. split; [done|]. split; [done|]. simpl.
    apply Forall_app. split; [done|]. constructor; [|done]. unfold near_anchor. simpl. lia.
  - rewrite Em, bind_Some_l. do 2 eexists. split; [done|]. split; [done|]. simpl.
    apply Forall_app. split; [done|]. constructor; [|done]. unfold near_anchor. simpl. lia.
  - destruct (g_live g) as [|x live] eqn:El; [by do 2 eexists|]. cbv zeta.
    destruct (lookup_lt_is_Some_2 (x :: live) (gd_pick d (length (x :: live)))) as [ext Hx]; [apply Hpk; simpl; lia|].
    rewrite Hx, bind_Some_l. do 2 eexists. split; [done|]. split; [done|]. simpl g_ticks.
    apply Forall_app. split; [done|]. constructor; [|done]. unfold near_anchor. simpl. lia.
Qed.

Lemma gen_loop_keeps draws : forall n g g',
  gen_inv g -> Forall draw_ok draws ->
  g_ts g + 10000 * Z.of_nat (length draws) < UINT64_SIZE ->
  g_next_ext g + Z.of_nat (length draws) < UINT64_SIZE ->
  gen_loop draws n g = Some g' -> gen_inv g' /\ length (g_ticks g') = (length (g_ticks g) + n)%nat.
Proof.
  induction draws as [|d draws IH]; intros n g g' Hg Hd Ht Hx.
  { destruct n; intros [= <-]. split; [done|lia]. }
  destruct n as [|n]; [intros [= <-]; split; [done|lia]|].
  apply Forall_cons in Hd as [Hd Hds]. cbn [length] in Ht, Hx. cbn [gen_loop].
  destruct (gen_step d g) as [[g1 b]|] eqn:E1; [|done]. rewrite bind_Some_l.
  destruct (gen_step_keeps d g g1 b Hg Hd) as (Hg1 & Hts1 & Hx1 & Hlen & _); [lia|lia|done|].
  intros Hl. destruct (IH _ _ _ Hg1 Hds ltac:(lia) ltac:(lia) Hl) as [Hg' Hlen']. split; [done|].
  rewrite Hlen', Hlen. destruct b; lia.
Qed.

Lemma gen_loop_defined draws : forall n g,
  gen_inv g -> walk_inv g -> Forall draw_ok draws -> Forall small_noise draws ->
  g_ts g + 10000 * Z.of_nat (length draws) < UINT64_SIZE ->
  g_next_ext g + Z.of_nat (length draws) < UINT64_SIZE ->
  (n <= length (filter (fun d => gd_roll d < 90)%Z draws))%nat ->
  exists g', gen_loop draws n g = Some g' /\ walk_inv g'.
Proof.
  induction draws as [|d draws IH]; intros n g Hg Hw Hd Hno Ht Hx Hn.
  { destruct n; [|simpl in Hn; lia]. by exists g. }
  destruct n as [|n]; [by exists g|].
  apply Forall_cons in Hd as [Hd Hds], Hno as [Hno Hnos]. cbn [length] in Ht, Hx.
  destruct (gen_step_defined d g Hw Hd Hno) as (g1 & b & E1 & Hw1).
  destruct (gen_step_keeps d g g1 b Hg Hd) as (Hg1 & Hts1 & Hx1 & _ & Hb); [lia|lia|done|].
  cbn [gen_loop]. rewrite E1, bind_Some_l. apply IH; [done..|lia|lia|].
  rewrite filter_cons in Hn. case_decide as Hr; [rewrite (Hb Hr); simpl in Hn; lia|destruct b; lia].
Qed.

(** During seeding every time written is before the next one. *)
Record seed_inv (g : Gen) : Prop := {
  si_mid : g_mid g = anchor;
  si_tape : tape_inv (g_ts g - 1) (g_ticks g);
  si_ids : ids_inv (g_next_ext g) (g_live g) (g_ticks g);
  si_ts : 0 <= g_ts g;
  si_prices : Forall near_anchor (g_ticks g)
}.

Lemma seed_round_inv i q g :
  seed_inv g -> 1 <= q <= 20 -> g_ts g + 2 < UINT64_SIZE -> g_next_ext g + 2 < UINT64_SIZE ->
  exists g', seed_round i q g = Some g' /\ seed_inv g' /\ g_ts g' = g_ts g + 2 /\ g_next_ext g' = g_next_ext g + 2 /\
    length (g_ticks g') = (length (g_ticks g) + 2)%nat.
Proof.
  intros [Hm Ht Hi H0 Hpr] Hq Hts Hx. pose proof (di_next _ _ _ Hi). unfold seed_round. rewrite Hm.
  change (f64_to_i64 anchor) with (Some 10000). rewrite bind_Some_l.
  assert (0 <= Z.of_nat (i mod 10) < 10) as Hmod by (pose proof (Nat.mod_upper_bound i 10); lia).
  set (k := Z.of_nat (i mod 10)) in *. rewrite !i64_Some by lia64. rewrite !bind_Some_l.
  rewrite (u64_small (g_ts g + 1)), (u64_small (g_next_ext g + 1)), !u64_small by lia.
  eexists. split; [done|]. simpl.
  match goal with |- context [?l ++ [?x; ?y]] => replace (l ++ [x; y]) with ((l ++ [x]) ++ [y]) by (by rewrite <-app_assoc) end.
  split_and!; try lia; [|rewrite !length_app; simpl; lia]. constructor; simpl; [done| | |lia|].
  - replace (g_ts g + 1 + 1 - 1) with (g_ts g + 1) by lia.
    apply (tape_inv_snoc (g_ts g)); [apply (tape_inv_snoc (g_ts g - 1)); [done| |lia|done]| |lia|done].
    + apply gen_tick_fields; [lia|done|lia|lia64|lia|lia].
    + apply gen_tick_fields; [lia|done|lia|lia64|lia|lia].
  - eapply ids_inv_add; [eapply ids_inv_add; [done|done|done|by left]|done|done|by left].
  - rewrite !Forall_app. split_and!; [done|constructor; [|done]..]; unfold near_anchor; simpl; lia.
Qed.

Lemma seed_loop_inv qty rounds : forall i g,
  seed_inv g -> (forall i, 1 <= qty i <= 20) -> g_ts g + 2 * Z.of_nat rounds < UINT64_SIZE ->
  g_next_ext g + 2 * Z.of_nat rounds < UINT64_SIZE ->
  exists g', seed_loop rounds i qty g = Some g' /\ seed_inv g' /\ g_ts g' = g_ts g + 2 * Z.of_nat rounds /\
    g_next_ext g' = g_next_ext g + 2 * Z.of_nat rounds /\
    length (g_ticks g') = (length (g_ticks g) + 2 * rounds)%nat.
Proof.
  induction rounds as [|rounds IH]; intros i g Hg Hq Ht Hx; [exists g; simpl; split_and!; (done || lia)|].
  destruct (seed_round_inv i (qty i) g Hg (Hq i)) as (g1 & E1 & Hg1 & Ht1 & Hx1 & Hl1); [lia|lia|].
  destruct (IH (S i) g1 Hg1 Hq) as (g' & E' & Hg' & Ht' & Hx' & Hl'); [lia|lia|].
  exists g'. cbn [seed_loop]. rewrite E1, bind_Some_l. split_and!; (done || lia).
Qed.

Lemma seed_inv_start : seed_inv Gen_start.
Proof.
  constructor; [done| | |simpl; lia|constructor].
  - constructor; simpl; constructor.
  - constructor; simpl; [lia|done|constructor|constructor|]. intros i t Hi. done.
Qed.

(** The 400 ticks of the seeding, and where the main loop starts. *)
Lemma seeding qty :
  (forall i, 1 <= qty i <= 20) ->
  exists g, seed_loop kSeedRounds 0 qty Gen_start = Some g /\ gen_inv g /\ walk_inv g /\
    g_ts g = 1000000400 /\ g_next_ext g = 401 /\ length (g_ticks g) = 400%nat.
Proof.
  intros Hq. destruct (seed_loop_inv qty kSeedRounds 0 Gen_start seed_inv_start Hq) as (g & Es & [Hm Ht Hi H0 Hp] & Hts & Hx & Hl);
    [vm_compute; reflexivity..|].
  exists g. split_and!; [done| | |by rewrite Hts|by rewrite Hx|by rewrite Hl].
  - constructor; [by eapply tape_inv_weaken; [done|lia]|done|done].
  - split; [|done]. rewrite Hm. apply anchor_ok.
Qed.

(** What a generated tape is: 400 ticks of the seeding and [n] more, each a
    value of its types, at increasing times; the orders added are numbered
    1, 2, 3, ..., no order is cancelled twice, and every cancel names an order
    added before it. *)
Record well_formed (n : nat) (ticks : list Tick) : Prop := {
  wf_length : length ticks = (400 + n)%nat;
  wf_ticks : Forall gen_tick_ok ticks;
  wf_sorted : StronglySorted Z.lt (ts_ns <$> ticks);
  wf_adds : add_ids ticks = seqZ 1 (Z.of_nat (length (add_ids ticks)));
  wf_once : NoDup (cancel_ids ticks);
  wf_after i t : ticks !! i = Some t -> event t = EventType_Cancel -> ext_id t ∈ add_ids (take i ticks)
}.

Lemma gen_main_keeps qty draws n ticks :
  (forall i, 1 <= qty i <= 20) -> Forall draw_ok draws -> Z.of_nat (length draws) <= 10 ^ 14 ->
  gen_main qty draws n = Some ticks -> well_formed n ticks.
Proof.
  intros Hq Hd Hnd. change (10 ^ 14) with 100000000000000 in Hnd.
  destruct (seeding qty Hq) as (g & Es & Hg & _ & Hts & Hx & Hl). unfold gen_main. rewrite Es, bind_Some_l.
  destruct (gen_loop draws n g) as [g'|] eqn:Eg; [|done]. intros [= <-].
  destruct (gen_loop_keeps draws n g g' Hg Hd) as [[[Hok Hsort _] [Hn' Ha Ho _ Hr] _] Hl']; [lia64|lia64|done|].
  constructor; [by rewrite Hl', Hl|done|done| |by apply NoDup_app in Ho as [? _]|done].
  rewrite Ha, length_seqZ. f_equal. lia.
Qed.

Lemma gen_main_defined qty draws n :
  (forall i, 1 <= qty i <= 20) -> Forall draw_ok draws -> Forall small_noise draws -> Z.of_nat (length draws) <= 10 ^ 14 ->
  (n <= length (filter (fun d => gd_roll d < 90)%Z draws))%nat ->
  exists ticks, gen_main qty draws n = Some ticks /\ Forall near_anchor ticks.
Proof.
  intros Hq Hd Hno Hnd Hn. change (10 ^ 14) with 100000000000000 in Hnd.
  destruct (seeding qty Hq) as (g & Es & Hg & Hw & Hts & Hx & Hl). unfold gen_main. rewrite Es, bind_Some_l.
  destruct (gen_loop_defined draws n g Hg Hw Hd Hno) as (g' & Eg & Hw'); [lia64|lia64|done|].
  rewrite Eg, bind_Some_l. exists (g_ticks g'). split; [done|]. apply Hw'.
Qed.

(** (C34) The generated tape.  Whatever noise is drawn, and with the other draws
    in the ranges of their distributions, a tape the generator writes has 400
    ticks of the seeding and [n] more, each a value of its types, with strictly
    increasing times; the orders added are numbered 1, 2, 3, ..., no order is
    cancelled twice, and every cancel names an order added before it.  If
    moreover no draw of the noise exceeds 8 (an assumption: the distribution
    has no bound) and enough draws are at hand, the generator does write a
    tape, without overflow or an undefined cast, and all its prices are between
    0 and 12005. *)
Theorem generated_tape_wellformed qty draws n :
  (forall i, 1 <= qty i <= 20) -> Forall draw_ok draws -> Z.of_nat (length draws) <= 10 ^ 14 ->
  (forall ticks, gen_main qty draws n = Some ticks -> well_formed n ticks) /\
  (Forall small_noise draws -> (n <= length (filter (fun d => gd_roll d < 90)%Z draws))%nat ->
   exists ticks, gen_main qty draws n = Some ticks /\ well_formed n ticks /\ Forall near_anchor ticks).
Proof.
  intros Hq Hd Hnd. pose proof (gen_main_keeps qty draws n) as Hk. split; [by intros; apply Hk|].
  intros Hno Hn. destruct (gen_main_defined qty draws n Hq Hd Hno Hnd Hn) as (ticks & Eg & Hp). exists ticks. auto.
Qed.

(** An add, a cancel of it, a cancel with nothing to cancel (which starts over)
    and a print. *)
Definition demo_gen_draw (roll : Z) : GenDraw := mkGenDraw (f64_of_Z 10) f64_zero roll 0 2 50 7 (fun _ => 0%nat).
Definition demo_draws : list GenDraw := demo_gen_draw <$> [10; 95; 99; 80].
Definition demo_qty (i : nat) : Z := 1 + Z.of_nat (i mod 20).

Lemma demo_qty_ok i : 1 <= demo_qty i <= 20.
Proof. unfold demo_qty. pose proof (Nat.mod_upper_bound i 20). lia. Qed.

Lemma demo_gen_draw_ok roll : 0 <= roll <= 99 -> draw_ok (demo_gen_draw roll) /\ small_noise (demo_gen_draw roll).
Proof.
  intros Hr. split.
  - unfold draw_ok. split; [|simpl; split_and!; (lia || intros; lia)].
    apply (f64_in_mono (f64_of_Z 10) 10 10); [by apply f64_of_Z_in|lia|lia|lia].
  - unfold small_noise. simpl. lia.
Qed.

Lemma demo_draws_ok : Forall draw_ok demo_draws /\ Forall small_noise demo_draws.
Proof. split; unfold demo_draws; do 4 (apply Forall_cons_2; [apply demo_gen_draw_ok; lia|]); constructor. Qed.

Lemma generated_tape_wellformed_witness :
  (forall ticks, gen_main demo_qty demo_draws 2 = Some ticks -> well_formed 2 ticks) /\
  exists ticks, gen_main demo_qty demo_draws 2 = Some ticks /\ well_formed 2 ticks /\ Forall near_anchor ticks.
Proof.
  destruct (generated_tape_wellformed demo_qty demo_draws 2 demo_qty_ok (proj1 demo_draws_ok)) as [H1 H2]; [simpl; lia|].
  split; [exact H1|]. apply H2; [apply demo_draws_ok|vm_compute; lia].
Defined.

(** The noise of one draw alone can take the mid out of the range of [int64_t],
    where the cast is undefined. *)
Example unbounded_noise :
  gen_main demo_qty [mkGenDraw (f64_of_Z 10) (f64_mul (f64_of_Z INT64_MAX) (f64_of_Z 2)) 10 0 2 50 7 (fun _ => 0%nat)] 1 = None.
Proof. vm_compute. reflexivity. Qed.
