(* ===== verification/Backtest.v ===== *)
(** * The backtest program (src/mvp/bench/backtest_main.cpp)

    Load a tape, run the two strategies over it, mark the positions and print
    the statistics.  Theorems: the mark is within the book, a run over any
    bounded tape returns, and a generated tape goes through its file. *)

From stdpp Require Import gmap strings.
From S2P Require Import Prelude Pool OrderedMap Level OrderBook BookSpec BookRefine BookQuery BookRun Flow Portfolio PortfolioProps Engine Strategy Ticks Strategies Replay ReplayProps Exposure Holdings Trading Decimal Float64 TickFile Clock GenTicks.

Section Backtest.
Context {E : Type} `{EngineOps E}.

(** The mark: the mid of a two-sided book, else the side there is. *)
Definition final_mark (e : E) : option Price :=
  let mark := e_best_bid e in
  let ask := e_best_ask e in
  if negb (mark =? 0) && negb (ask =? 0) && negb (ask =? INT64_MAX) then
    s ← i64 (mark + ask); Some (Z.quot s 2)
  else if negb (ask =? INT64_MAX) && negb (ask =? 0) then Some ask
  else Some mark.

(** The line [print_strategy] prints. *)
Record StrategyLine := mkLine {
  ln_name : string;
  ln_submitted : Z;
  ln_filled : Z;
  ln_canceled : Z;
  ln_position : Quantity;
  ln_avg_cost : Price;
  ln_realized : Z;
  ln_unrealized : Z;
  ln_total : Z;
  ln_volume : Quantity
}.

Definition print_strategy (s : Strategy Derived) (mark : Price) : option StrategyLine :=
  let p := portfolio_ s in
  un ← unrealized_pnl p mark;
  tot ← total_pnl p mark;
  Some (mkLine (name_ s) (orders_submitted s) (orders_filled s) (orders_canceled s) (position_ p) (avg_cost_ p)
    (realized_pnl_ p) un tot (gross_volume_ p)).

Definition fill_rate (s : Strategy Derived) : f64 :=
  if orders_submitted s =? 0 then f64_zero
  else f64_div (f64_mul (f64_of_Z 100) (f64_of_Z (orders_filled s))) (f64_of_Z (orders_submitted s)).

(** The strategies of the program, at addresses 0 and 1. *)
Definition backtest_strategies : gmap sptr (Strategy Derived) :=
  <[0%nat := Strategy_new "market_maker" (DMarketMaker (MarketMaker_new (mkMMConfig 5 2 1 100 50)))]>
  (<[1%nat := Strategy_new "ma_cross" (DMACross (MACross_new (mkMAConfig 20 100 20 1)))]> ∅).

(** [main], on the contents of the file; a file that cannot be opened throws
    out of [main]. *)
Definition backtest_main (path : bytes) (file : option bytes) (e : E)
    : option (Outcome (ReplayStats * Price * list StrategyLine * list f64)) :=
  r ← load_csv path file;
  match r with
  | Thrown what => Some (Thrown what)
  | Returned ticks =>
      '(st, w) ← replay_run [0%nat; 1%nat] e backtest_strategies ticks;
      mark ← final_mark (w_engine w);
      mm ← w_strats w !! 0%nat;
      mac ← w_strats w !! 1%nat;
      l1 ← print_strategy mm mark;
      l2 ← print_strategy mac mark;
      Some (Returned (st, mark, [l1; l2], [fill_rate mm; fill_rate mac]))
  end.

End Backtest.

(** ** The mark *)

Section Mark.
Context {E : Type} `{HE : MatchingEngine E}.

(** The mark of a book: half the sum of the best prices, else the one there
    is, else 0; the price 0 counts as none. *)
Definition book_mark (a : ABook) : Price :=
  let bid := match ab_bids a with [] => 0 | o :: _ => o_price o end in
  let ask := match ab_asks a with [] => 0 | o :: _ => o_price o end in
  if (bid =? 0) || (ask =? 0) then if ask =? 0 then bid else ask else Z.quot (bid + ask) 2.

(** [main] marks at the mark of the book it has. *)
Lemma final_mark_book P (e : E) a :
  e_abs e a -> (forall s, Forall (fun o => Z.abs (o_price o) <= P) (ab_side a s)) -> 0 <= P < 2 ^ 62 ->
  final_mark e = Some (book_mark a) /\ Z.abs (book_mark a) <= P.
Proof.
  intros Ha Hp HP. change (2 ^ 62) with 4611686018427387904 in HP. unfold final_mark, book_mark.
  rewrite (e_best_bid_law _ _ Ha), (e_best_ask_law _ _ Ha).
  set (b := match ab_bids a with [] => 0 | o :: _ => o_price o end).
  set (k := match ab_asks a with [] => INT64_MAX | o :: _ => o_price o end).
  set (k' := match ab_asks a with [] => 0 | o :: _ => o_price o end).
  assert (Z.abs b <= P) as Hb.
  { unfold b. pose proof (Hp Buy) as Hpb. simpl in Hpb. destruct Hpb; [lia|done]. }
  assert ((k = INT64_MAX /\ k' = 0) \/ (k = k' /\ Z.abs k' <= P)) as Hk.
  { unfold k, k'. pose proof (Hp Sell) as Hps. simpl in Hps. destruct Hps; [by left|by right]. }
  clearbody b k k'. destruct Hk as [[-> ->]|[-> Hk]].
  { rewrite Z.eqb_refl, orb_true_r, !andb_false_r. done. }
  rewrite (proj2 (Z.eqb_neq k' INT64_MAX)) by lia64. rewrite !andb_true_r. cbn [negb].
  destruct (Z.eqb_spec b 0), (Z.eqb_spec k' 0); simpl; try done.
  rewrite i64_Some by lia64. split; [done|]. apply quot_bound; lia.
Qed.

(** ** From the generator through the file to the replayer *)

Lemma inflow_bound ticks : Forall gen_tick_ok ticks -> sumZ (inflow <$> ticks) <= 20 * Z.of_nat (length ticks).
Proof.
  induction 1 as [|t ticks (_ & _ & _ & Hq) _ IH]; [done|]. rewrite fmap_cons. cbn [sumZ length]. unfold inflow at 1. lia.
Qed.

(** What the replayer needs of the ticks of a generated tape. *)
Lemma gen_ticks_within ticks : Forall gen_tick_ok ticks -> Forall near_anchor ticks ->
  Forall tape_ok ticks /\ Forall (tick_within 20 100000) ticks.
Proof.
  intros Hok Hp. induction Hok as [|t ticks (Htk & _ & _ & Hq) _ IH]; [by split|].
  apply Forall_cons in Hp as [Hp Hps]. destruct (IH Hps). unfold near_anchor in Hp.
  split; constructor; try done.
  - split; [apply Htk|]. unfold price_ok. change (2 ^ 62) with 4611686018427387904. lia.
  - split; lia64.
Qed.

(** A tape is written to a CSV file and the file loads back as the same ticks. *)
Lemma tape_file_roundtrip path ticks :
  Forall gen_tick_ok ticks ->
  exists file, save_csv path true ticks = Returned file /\ load_csv path (Some file) = Some (Returned ticks).
Proof.
  intros Hok. assert (Forall tick_ok ticks) as Htk by (eapply Forall_impl; [exact Hok|]; by intros t [? _]).
  assert (exists file, save_csv path true ticks = Returned file) as [file Ef] by by eexists.
  exists file. split; [done|]. rewrite (load_csv_saved path ticks _ Htk Ef). rewrite (csv_norm_known ticks Htk); [done|].
  eapply Forall_impl; [exact Hok|]. by intros t (_ & ? & ? & _).
Qed.

(** A generated tape is written to a CSV file, the file loads back as the same
    ticks, and replaying them on any represented engine is defined, consumes
    every tick and leaves the engine on the book the specification of the tape
    reaches. *)
Theorem generated_tape_replays qty draws n path (e : E) a B :
  (forall i, 1 <= qty i <= 20) -> Forall draw_ok draws -> Forall small_noise draws -> Z.of_nat (length draws) <= 10 ^ 14 ->
  (n <= length (filter (fun d => gd_roll d < 90)%Z draws))%nat ->
  e_abs e a -> flow_ok B a -> ab_next_id a <= 10 ^ 18 -> B <= 10 ^ 18 ->
  exists ticks file st w,
    gen_main qty draws n = Some ticks /\ save_csv path true ticks = Returned file /\
    load_csv path (Some file) = Some (Returned ticks) /\
    replay_run [] e ∅ ticks = Some (st, w) /\ ticks_consumed st = Z.of_nat (400 + n) /\
    e_abs (w_engine w) (atape a ticks).1.1.
Proof.
  intros Hs Hd Hno Hnd Hn Ha Hf Hid HB.
  destruct (gen_main_defined qty draws n Hs Hd Hno Hnd Hn) as (ticks & Eg & Hp).
  destruct (gen_main_keeps qty draws n ticks Hs Hd Hnd Eg) as [Hl Hok _ _ _ _].
  destruct (tape_file_roundtrip path ticks Hok) as (file & Ef & El). destruct (gen_ticks_within ticks Hok Hp) as [Htp _].
  assert (length (filter (fun d => gd_roll d < 90)%Z draws) <= length draws)%nat as Hfl by apply length_filter.
  assert (Z.of_nat (length ticks) <= 10 ^ 15) as Hlen.
  { rewrite Hl. change (10 ^ 15) with 1000000000000000. change (10 ^ 14) with 100000000000000 in *. lia. }
  change (10 ^ 15) with 1000000000000000 in Hlen. change (10 ^ 18) with 1000000000000000000 in *.
  pose proof (inflow_bound ticks Hok) as Hin.
  pose proof (replay_ticks_tape ∅ ticks B (replay_init [] e ∅) [] a ∅ []) as Hr.
  exists ticks, file. unfold atape. destruct (foldl atape_step (a, ∅, []) ticks) as [[a' ext'] ts'].
  destruct Hr as (r & E' & [Ha' Hro Hss He Htr Hk _ _ _ Hc Hf']); [by constructor|done|lia64|lia64|].
  exists (stats r), (rp_world r). unfold replay_run. rewrite E'.
  split; [exact Eg|]. split; [exact Ef|]. split; [exact El|]. split; [reflexivity|]. split; [|exact Ha'].
  cbn [app] in Hk. rewrite Hk, u64_small, Hl by lia64. reflexivity.
Qed.

(** ** The program *)

(** What a printed line says: the counters and the portfolio of its strategy,
    and the profit at the mark. *)
Definition line_of (mark : Price) (s : Strategy Derived) (l : StrategyLine) : Prop :=
  let p := portfolio_ s in
  l = mkLine (name_ s) (orders_submitted s) (orders_filled s) (orders_canceled s) (position_ p) (avg_cost_ p)
        (realized_pnl_ p) ((mark - avg_cost_ p) * position_ p)
        (realized_pnl_ p + (mark - avg_cost_ p) * position_ p) (gross_volume_ p).

Lemma print_strategy_defined (s : Strategy Derived) mark v :
  total_pnl (portfolio_ s) mark = Some v -> exists l, print_strategy s mark = Some l /\ line_of mark s l.
Proof.
  intros Ht. unfold print_strategy, line_of. pose proof Ht as Ht'. unfold total_pnl in Ht'.
  destruct (unrealized_pnl (portfolio_ s) mark) as [u|] eqn:Eu; [|done]. cbn [mbind option_bind] in Ht'.
  rewrite bind_Some_l, Ht, bind_Some_l. eexists. split; [done|]. apply i64_inv in Ht' as [-> _].
  by apply unrealized_spec in Eu as ->.
Qed.

(** Per call, a strategy of the program places at most two quotes, or the
    target and what the positions can have moved in [n] ticks. *)
Definition bt_call (n : nat) (Q : Z) : Z := 20 + Z.of_nat n * hold_per_tick 40 [0%nat; 1%nat] Q.

Lemma backtest_settings n P0 Q p (s : Strategy Derived) :
  0 <= Q -> (P0 + Z.of_nat n * 2) * 101 <= INT64_MAX -> backtest_strategies !! p = Some s ->
  exists name c, s = new_strategy name c /\
    settings_ok (P0 + Z.of_nat n * 2) (Z.of_nat n * hold_per_tick 40 [0%nat; 1%nat] Q) (bt_call n Q) 40 2 c.
Proof.
  intros HQ Hsum Hs. unfold bt_call. assert (0 <= Z.of_nat n * hold_per_tick 40 [0%nat; 1%nat] Q) as Hh.
  { unfold hold_per_tick. simpl. nia. }
  unfold backtest_strategies in Hs. apply lookup_insert_Some in Hs as [[<- <-]|[_ Hs]].
  { eexists _, (inl _). split; [done|]. split; simpl; lia64. }
  apply lookup_insert_Some in Hs as [[<- <-]|[_ Hs]]; [|done].
  eexists _, (inr _). split; [done|]. split; simpl; lia64.
Qed.

(** What the program prints after a run that leaves the strategies [s0] and [s1]
    and a book [a']: the statistics of the run, the mark of that book, a line
    and a fill rate for each strategy. *)
Record run_report (e : E) (ticks : list Tick) (st : ReplayStats) (w : World E Derived) (a' : ABook)
    (s0 s1 : Strategy Derived) (mark : Price) (mm mac : StrategyLine) : Prop := {
  rr_run : replay_run [0%nat; 1%nat] e backtest_strategies ticks = Some (st, w);
  rr_book : e_abs (w_engine w) a';
  rr_first : w_strats w !! 0%nat = Some s0;
  rr_second : w_strats w !! 1%nat = Some s1;
  rr_mark : mark = book_mark a';
  rr_mm : line_of mark s0 mm;
  rr_mac : line_of mark s1 mac
}.

(** The run of the two strategies, and what it leaves to print. *)
Lemma backtest_returns path file ticks (e : E) a P0 Q B0 :
  let n := length ticks in
  load_csv path (Some file) = Some (Returned ticks) -> Forall (tick_within Q P0) ticks ->
  e_abs e a -> (forall s, Forall (fun o => Z.abs (o_price o) <= P0) (ab_side a s)) ->
  (forall s, depth (ab_side a s) <= B0) ->
  run_bounds n [0%nat; 1%nat] P0 B0 (bt_call n Q) 40 2 Q (ab_next_id a) -> (P0 + Z.of_nat n * 2) * 101 <= INT64_MAX ->
  exists st w a' s0 s1 mark mm mac,
    run_report e ticks st w a' s0 s1 mark mm mac /\
    backtest_main path (Some file) e = Some (Returned (st, mark, [mm; mac], [fill_rate s0; fill_rate s1])) /\
    ticks_consumed st = u64 (Z.of_nat n) /\
    Z.abs (ln_position mm) <= 55 /\ Z.abs (ln_position mac) <= Z.of_nat n * (Q + 80).
Proof.
  intros n Hl Htk Ha Hp Hd Hb Hsum. pose proof Hb as [HP _ HQ _ HV _ _].
  destruct (replay_run_defined e a [0%nat; 1%nat] backtest_strategies ticks P0 B0 (bt_call n Q) 40 2 Q Ha Hp Hd)
    as (st & w & a' & Er & Hn & Hw & Hk & Hi & Hh); [|by intros; eapply backtest_settings; eauto; lia|done|done|].
  { repeat constructor; eauto. }
  assert (1 <= P0 + Z.of_nat n * 2) as HPM by lia.
  destruct (final_mark_book _ _ _ (wo_abs _ _ _ _ _ _ _ Hw) (wo_price _ _ _ _ _ _ _ Hw)) as [Em Hm]; [lia|].
  assert (forall p, p ∈ [0%nat; 1%nat] -> exists s l, w_strats w !! p = Some s /\ print_strategy s (book_mark a') = Some l /\
      line_of (book_mark a') s l) as Hprint.
  { intros p Hin. destruct (proj1 (Forall_forall _ _) Hk p Hin) as [s Es].
    destruct (wo_portfolio _ _ _ _ _ _ _ Hw p s Es) as [Hbd Hg].
    destruct (print_strategy_defined s _ _ (total_pnl_defined _ _ HPM HV _ _ Hbd Hg Hm)) as (l & El & Hln). eauto. }
  destruct (Hprint 0%nat ltac:(by left)) as (s0 & mm & E0 & Epr0 & Hl0).
  destruct (Hprint 1%nat ltac:(by right; left)) as (s1 & mac & E1 & Epr1 & Hl1).
  exists st, w, a', s0, s1, (book_mark a'), mm, mac. split; [by constructor; try apply Hw|].
  unfold backtest_main. rewrite Hl, bind_Some_l.
  rewrite Er. cbn [mbind option_bind]. rewrite Em, bind_Some_l, E0, bind_Some_l, E1, bind_Some_l, Epr0, bind_Some_l, Epr1, bind_Some_l.
  rewrite Hl0, Hl1. cbn [ln_position]. split_and!; [done|done| |].
  - destruct (idle_inventory _ _ _ _ _ _ _ _ _ _ _ _ _ (mkMMConfig 5 2 1 100 50) Hw (Hi 0%nat ltac:(eauto)) eq_refl)
      as (s & m & Es & _ & _ & Hpos & _). rewrite E0 in Es. injection Es as <-. simpl in Hpos. lia.
  - pose proof (position_within [0%nat; 1%nat] (w_strats w) 1%nat ltac:(by right; left)) as Hpos.
    unfold position_at in Hpos. rewrite E1 in Hpos. unfold hold_per_tick in Hh. simpl in Hh. fold n in Hh. lia.
Qed.

(** The bounds of a run hold for tapes of the size [gen_ticks] writes. *)
Lemma tape_size_bounds n B0 N :
  Z.of_nat n <= 100400 -> B0 <= 10 ^ 18 -> N <= 10 ^ 18 ->
  run_bounds n [0%nat; 1%nat] 100000 B0 (bt_call n 20) 40 2 20 N /\ (100000 + Z.of_nat n * 2) * 101 <= INT64_MAX.
Proof.
  intros Hn HB HN. change (10 ^ 18) with 1000000000000000000 in *. set (k := Z.of_nat n) in *.
  assert (0 <= k) by lia.
  assert (0 <= k * (20 + (20 + k * (20 + 40 * 2)) * 2) <= 100400 * 20080060) as HV by nia.
  assert (0 <= (100000 + k * 2) * (k * (20 + (20 + k * (20 + 40 * 2)) * 2)) <= 300800 * (100400 * 20080060)) as HPV by nia.
  unfold bt_call. split; [|lia64]. split; unfold bt_call, per_tick, hold_per_tick, ids_per_tick; cbn [length];
    change (Z.of_nat 2) with 2; fold k; change (2 ^ 62) with 4611686018427387904; try lia64.
Qed.

(** (C22) The backtest program runs: on any file whose tape has at most
    100 400 ticks (what [gen_ticks] writes), of prices within 100 000 and
    quantities up to 20, and on any represented engine, nothing overflows in the
    engine, the strategies or the portfolios.  What it prints is the report of
    the run of both strategies over the tape: the statistics of that run, with
    every tick consumed; the mark, which is half the sum of the best prices of
    the final book, or the best price there is; for the first and for the second
    strategy a line of its own counters and portfolio as the run leaves them,
    with the profit at that mark, and its fill rate.  The market maker ends
    within its inventory limit and one quote, and the position of the moving
    average strategy is bounded by what the tape and the strategies move. *)
Theorem backtest_main_total path file ticks (e : E) a B0 :
  load_csv path (Some file) = Some (Returned ticks) -> Z.of_nat (length ticks) <= 100400 ->
  Forall (tick_within 20 100000) ticks ->
  e_abs e a -> (forall s, Forall (fun o => Z.abs (o_price o) <= 100000) (ab_side a s)) ->
  (forall s, depth (ab_side a s) <= B0) -> B0 <= 10 ^ 18 -> ab_next_id a <= 10 ^ 18 ->
  exists st w a' s0 s1 mark mm mac,
    run_report e ticks st w a' s0 s1 mark mm mac /\
    backtest_main path (Some file) e = Some (Returned (st, mark, [mm; mac], [fill_rate s0; fill_rate s1])) /\
    ticks_consumed st = Z.of_nat (length ticks) /\
    Z.abs (ln_position mm) <= 55 /\ Z.abs (ln_position mac) <= 100 * Z.of_nat (length ticks).
Proof.
  intros Hl Hn Htk Ha Hp Hd HB HN. destruct (tape_size_bounds (length ticks) B0 (ab_next_id a) Hn HB HN) as [Hb Hs].
  destruct (backtest_returns path file ticks e a 100000 20 B0 Hl Htk Ha Hp Hd Hb Hs)
    as (st & w & a' & s0 & s1 & mark & mm & mac & Hr & E1 & E2 & H1 & H2).
  exists st, w, a', s0, s1, mark, mm, mac. split_and!; [done|done| |done|lia]. rewrite E2. apply u64_small. lia64.
Qed.

(** A generated tape goes through its file unchanged and is within the bounds
    of a run. *)
Lemma generated_tape_file qty draws n path :
  (forall i, 1 <= qty i <= 20) -> Forall draw_ok draws -> Forall small_noise draws -> Z.of_nat (length draws) <= 10 ^ 14 ->
  (n <= length (filter (fun d => gd_roll d < 90)%Z draws))%nat ->
  exists ticks file, gen_main qty draws n = Some ticks /\ save_csv path true ticks = Returned file /\
    load_csv path (Some file) = Some (Returned ticks) /\ length ticks = (400 + n)%nat /\
    Forall (tick_within 20 100000) ticks.
Proof.
  intros Hs Hd Hno Hnd Hlen. destruct (gen_main_defined qty draws n Hs Hd Hno Hnd Hlen) as (ticks & Eg & Hp).
  destruct (gen_main_keeps qty draws n ticks Hs Hd Hnd Eg) as [Hl Hok _ _ _ _].
  destruct (tape_file_roundtrip path ticks Hok) as (file & Ef & El). destruct (gen_ticks_within ticks Hok Hp) as [_ Hw].
  exists ticks, file. exact (conj Eg (conj Ef (conj El (conj Hl Hw)))).
Qed.

End Mark.

Lemma generated_tape_replays_witness :
  exists ticks file st w,
    gen_main demo_qty demo_draws 2 = Some ticks /\ save_csv [] true ticks = Returned file /\
    load_csv [] (Some file) = Some (Returned ticks) /\
    replay_run [] demo_engine ∅ ticks = Some (st, w) /\ ticks_consumed st = 402 /\
    e_abs (w_engine w) (atape demo_abook ticks).1.1.
Proof.
  apply (generated_tape_replays demo_qty demo_draws 2 [] demo_engine demo_abook 100).
  - apply demo_qty_ok.
  - apply demo_draws_ok.
  - apply demo_draws_ok.
  - simpl. lia.
  - vm_compute. lia.
  - apply demo_refines.
  - apply demo_flow.
  - vm_compute. discriminate.
  - vm_compute. discriminate.
Defined.

Lemma demo_small s :
  Forall (fun o => Z.abs (o_price o) <= 100000) (ab_side demo_abook s) /\ depth (ab_side demo_abook s) <= 100.
Proof. split; [apply (bool_decide_unpack _)|]; destruct s; vm_compute; (exact I || discriminate). Qed.

(** A small tape through the whole program: the market maker quotes both sides
    of the book and the mark is its mid. *)
Definition demo_tape : list Tick :=
  [mkTick 1 0 0 0 100 5 1; mkTick 2 0 0 1 110 5 2; mkTick 3 0 0 1 103 2 3].

Definition demo_backtest : option (Outcome (ReplayStats * Price * list StrategyLine * list f64)) :=
  match save_csv [] true demo_tape with
  | Returned file => backtest_main [] (Some file) (Engine_with (OrderBook_new 16))
  | Thrown w => Some (Thrown w)
  end.

Example backtest_demo :
  demo_backtest = Some (Returned (mkStats 3 3 0 0 1, 105,
    [mkLine "market_maker" 2 1 0 2 103 0 4 4 2; mkLine "ma_cross" 0 0 0 0 0 0 0 0 0],
    [f64_of_Z 50; f64_zero])).
Proof. vm_compute. reflexivity. Qed.

Lemma backtest_main_total_witness :
  exists file, save_csv [] true demo_tape = Returned file /\
  exists st w a' s0 s1 mark mm mac,
    run_report demo_engine demo_tape st w a' s0 s1 mark mm mac /\
    backtest_main [] (Some file) demo_engine = Some (Returned (st, mark, [mm; mac], [fill_rate s0; fill_rate s1])) /\
    ticks_consumed st = 3 /\ Z.abs (ln_position mm) <= 55 /\ Z.abs (ln_position mac) <= 300.
Proof.
  eexists. split; [reflexivity|]. apply (backtest_main_total [] _ demo_tape demo_engine demo_abook 100).
  - vm_compute. reflexivity.
  - simpl. lia.
  - repeat constructor; vm_compute; discriminate.
  - apply demo_refines.
  - apply demo_small.
  - apply demo_small.
  - lia.
  - vm_compute. discriminate.
Defined.

(** A missing file throws out of the program. *)
Example backtest_no_file :
  backtest_main (str "t.csv") None (Engine_with (OrderBook_new 16)) = Some (Thrown (str "load_csv: cannot open t.csv")).
Proof. vm_compute. reflexivity. Qed.
