(* ===== verification/FixParser.v ===== *)
(** * The FIX tag=value codec (src/mvp/src/fix/parser.{h,cpp})

    Framing of a byte stream ([split_frame]), parsing of a frame into fields
    ([parse_frame]), the accessors of [Message] and the [Builder] that emits
    frames.  A [string_view] is the bytes it denotes. *)

From S2P Require Import Prelude Decimal Float64.

Definition SOH : Z := 1.

(** enum Tag: the tags used below. *)
Definition MsgType : Z := 35.
Definition SenderCompID : Z := 49.
Definition TargetCompID : Z := 56.
Definition MsgSeqNum : Z := 34.
Definition ClOrdID : Z := 11.
Definition OrderID : Z := 37.
Definition ExecID : Z := 17.
Definition ExecType : Z := 150.
Definition OrdStatus : Z := 39.
Definition Symbol : Z := 55.
Definition SideTag : Z := 54.
Definition OrderQty : Z := 38.
Definition CumQty : Z := 14.
Definition LeavesQty : Z := 151.
Definition LastQty : Z := 32.
Definition LastPx : Z := 31.
Definition PriceTag : Z := 44.
Definition AvgPx : Z := 6.
Definition MDReqID : Z := 262.
Definition NoMDEntries : Z := 268.
Definition MDEntryType : Z := 269.
Definition MDEntryPx : Z := 270.
Definition MDEntrySize : Z := 271.
Definition EncryptMethod : Z := 98.
Definition HeartBtInt : Z := 108.
Definition Text : Z := 58.

Definition Field : Type := Z * bytes.
Definition Message : Type := list Field.

Definition INT_MAX : Z := 2147483647.
Definition UINT64_MAX : Z := UINT64_SIZE - 1.

(** ** Message accessors *)

Fixpoint get (m : Message) (tag : Z) : bytes :=
  match m with
  | [] => []
  | (t, v) :: m => if t =? tag then v else get m tag
  end.

Fixpoint has (m : Message) (tag : Z) : bool :=
  match m with
  | [] => false
  | (t, _) :: m => if t =? tag then true else has m tag
  end.

Definition get_int (m : Message) (tag def : Z) : Z :=
  match get m tag with
  | [] => def
  | v => default def (from_chars_s INT64_MIN INT64_MAX v)
  end.

(** The value is copied to a buffer of 64 bytes with its terminator. *)
Definition get_double (m : Message) (tag : Z) (def : f64) : f64 :=
  match get m tag with
  | [] => def
  | v => if (64 <=? length v)%nat then def else default def (strtod v)
  end.

Definition msg_type (m : Message) : Z :=
  match get m MsgType with [] => 0 | c :: _ => c end.

(** ** Framing *)

(** The [uint32_t] sum of the bytes, reduced to its low byte. *)
Definition checksum (bs : bytes) : Z := Z.land (foldl (fun s c => u32 (s + c)) 0 bs) 255.

Inductive FrameStatus :=
| Ok (frame : bytes) (consumed : nat)
| Incomplete
| Malformed.

Definition kBegin : bytes := str "8=FIX.4.4" ++ [SOH].

(** The loop over the body-length digits: how many there are before the SOH,
    the end of the buffer, or a character that is not a digit. *)
Inductive Scan := ScanSOH (n : nat) | ScanEnd | ScanBad.

Fixpoint scan_len (bs : bytes) (n : nat) : Scan :=
  match bs with
  | [] => ScanEnd
  | c :: bs => if c =? SOH then ScanSOH n else if is_digit c then scan_len bs (S n) else ScanBad
  end.

(** The checksum digits, accumulated in a [uint8_t]. *)
Definition u8 (z : Z) : Z := z mod 256.
Fixpoint read_checksum (bs : bytes) (got : Z) : option Z :=
  match bs with
  | [] => Some got
  | c :: bs => if is_digit c then read_checksum bs (u8 (got * 10 + (c - 48))) else None
  end.

(** [buf[i] == c] *)
Definition byte_at (buf : bytes) (i : nat) (c : Z) : bool :=
  match buf !! i with Some x => x =? c | None => false end.

Definition split_frame (buf : bytes) : FrameStatus :=
  if (length buf <? length kBegin)%nat then Incomplete
  else if negb (bool_decide (take (length kBegin) buf = kBegin)) then Malformed
  else
    let pos := length kBegin in
    if (length buf <? pos + 2)%nat then Incomplete
    else if negb (byte_at buf pos 57 && byte_at buf (pos + 1) 61) then Malformed
    else
      let len_start := (pos + 2)%nat in
      match scan_len (drop len_start buf) 0 with
      | ScanBad => Malformed
      | ScanEnd => Incomplete
      | ScanSOH n =>
          match from_chars_u UINT64_MAX (take n (drop len_start buf)) with
          | None => Malformed
          | Some body_len =>
              if 2 ^ 20 <? body_len then Malformed
              else
                let pos := (len_start + n + 1)%nat in
                let body_end := (pos + Z.to_nat body_len)%nat in
                let total := (body_end + 7)%nat in
                if (length buf <? total)%nat then Incomplete
                else if negb (byte_at buf body_end 49 && byte_at buf (body_end + 1) 48 &&
                              byte_at buf (body_end + 2) 61 && byte_at buf (total - 1) SOH)
                then Malformed
                else
                  match read_checksum (take 3 (drop (body_end + 3) buf)) 0 with
                  | None => Malformed
                  | Some got =>
                      if got =? checksum (take body_end buf) then Ok (take total buf) total
                      else Malformed
                  end
          end
      end.

(** ** Fields *)

(** The tag digits up to the '='; [None] when a character is not a digit or
    the frame ends. *)
Fixpoint scan_tag (bs : bytes) (acc : bytes) : option (bytes * bytes) :=
  match bs with
  | [] => None
  | c :: bs =>
      if c =? 61 then Some (acc, bs)
      else if is_digit c then scan_tag bs (acc ++ [c]) else None
  end.

(** The value up to the SOH. *)
Fixpoint scan_value (bs : bytes) (acc : bytes) : option (bytes * bytes) :=
  match bs with
  | [] => None
  | c :: bs => if c =? SOH then Some (acc, bs) else scan_value bs (acc ++ [c])
  end.

Inductive ParseResult := ParseOk (m : Message) | ParseFail.

(** The outer loop; [None] when the fuel is used up. *)
Fixpoint parse_fields (fuel : nat) (bs : bytes) (out : Message) : option ParseResult :=
  match bs with
  | [] => Some (ParseOk out)
  | _ =>
      match fuel with
      | O => None
      | S fuel =>
          match scan_tag bs [] with
          | None => Some ParseFail
          | Some (ds, bs) =>
              match from_chars_u INT_MAX ds with
              | None => Some ParseFail
              | Some tag =>
                  match scan_value bs [] with
                  | None => Some ParseFail
                  | Some (v, bs) => parse_fields fuel bs (out ++ [(tag, v)])
                  end
              end
          end
      end
  end.

Definition parse_frame (frame : bytes) : option ParseResult :=
  parse_fields (length frame) frame [].

(** ** Builder *)

Record Builder := mkBuilder {
  buf_ : bytes;
  body_start_ : nat;
  body_len_slot_ : nat
}.

Definition Builder_new : Builder := mkBuilder [] 0 0.

Definition append (bs : bytes) (b : Builder) : Builder :=
  mkBuilder (buf_ b ++ bs) (body_start_ b) (body_len_slot_ b).

Definition add_str (tag : Z) (v : bytes) (b : Builder) : Builder :=
  append [SOH] (append v (append [61] (append (to_chars tag) b))).

Definition add_int (tag : Z) (v : Z) (b : Builder) : Builder :=
  append [SOH] (append (to_chars v) (append [61] (append (to_chars tag) b))).

Definition add_char (tag : Z) (c : Z) (b : Builder) : Builder :=
  append [SOH] (append [c] (append [61] (append (to_chars tag) b))).

(** [vbuf] has 64 bytes; what [snprintf] returns is the length appended. *)
Definition add_double (tag : Z) (v : f64) (decimals : nat) (b : Builder) : option Builder :=
  vbuf ← snprintf_read 64 (f64_fixed decimals v);
  Some (append [SOH] (append vbuf (append [61] (append (to_chars tag) b)))).

Definition begin (msg_type : Z) (sender_comp target_comp : bytes) (seq_num : Z) : Builder :=
  let buf := str "8=FIX.4.4" ++ [SOH] ++ str "9=" in
  let slot := length buf in
  let buf := buf ++ str "000000" ++ [SOH] in
  let b := mkBuilder buf (length buf) slot in
  add_int MsgSeqNum seq_num
    (add_str TargetCompID target_comp
       (add_str SenderCompID sender_comp (add_char MsgType msg_type b))).

(** [memcpy(&buf[i], src, n)] within the buffer. *)
Definition patch (i : nat) (src buf : bytes) : bytes :=
  take i buf ++ src ++ drop (i + length src) buf.

(** [snprintf(lenbuf, 7, "%06zu")] keeps six characters. *)
Definition finalize (b : Builder) : Builder :=
  let body_len := Z.of_nat (length (buf_ b) - body_start_ b) in
  let lenbuf := take 6 (zero_padded 6 body_len) in
  let buf := patch (body_len_slot_ b) lenbuf (buf_ b) in
  let cs := checksum buf in
  mkBuilder (buf ++ str "10=" ++ zero_padded 3 cs ++ [SOH]) (body_start_ b) (body_len_slot_ b).

Example logon_frame :
  (fun s => match s with
            | Ok f n => (n, parse_frame f)
            | _ => (0%nat, None)
            end) (split_frame (buf_ (finalize (add_int 108 30
              (begin 65 (str "ENGINE") (str "CLIENT1") 1))) ++ str "8=FIX")) =
  (64%nat, Some (ParseOk
    [(8, str "FIX.4.4"); (9, str "000038"); (35, str "A"); (49, str "ENGINE");
     (56, str "CLIENT1"); (34, str "1"); (108, str "30"); (10, str "180")])).
Proof. vm_compute. reflexivity. Qed.
