(* ===== verification/FixProps.v ===== *)
(** * Properties of the FIX codec *)

From S2P Require Import Prelude Decimal FixParser.

(** ** Bytes in range, checksum *)

Lemma checksum_mod bs : checksum bs = sumZ bs mod 256.
Proof.
  unfold checksum. rewrite (Z.land_ones _ 8) by lia. change (2 ^ 8) with 256.
  assert (forall s, foldl (fun s c => u32 (s + c)) s bs mod 256 = (s + sumZ bs) mod 256) as H.
  { induction bs as [|c bs IH]; intros s; simpl; [by rewrite Z.add_0_r|]. rewrite IH.
    unfold u32. rewrite <-Zplus_mod_idemp_l, Z.mod_mod_divide, Zplus_mod_idemp_l
      by (by exists 16777216). f_equal. lia. }
  by rewrite H.
Qed.

Lemma checksum_range bs : 0 <= checksum bs < 256.
Proof. rewrite checksum_mod. by apply Z.mod_pos_bound. Qed.

Lemma read_checksum_spec ds : forall got,
  Forall (fun c => is_digit c = true) ds ->
  read_checksum ds (u8 got) = Some (u8 (foldl (fun v c => 10 * v + (c - 48)) got ds)).
Proof.
  induction ds as [|c ds IH]; intros got Hd; simpl; [done|].
  apply Forall_cons in Hd as [Hc Hd]. rewrite Hc.
  assert (u8 (u8 got * 10 + (c - 48)) = u8 (10 * got + (c - 48))) as ->.
  { unfold u8. rewrite <-Zplus_mod_idemp_l, Zmult_mod_idemp_l, Zplus_mod_idemp_l. f_equal. lia. }
  by apply IH.
Qed.

(** ** Well-formed frames *)

(** The bytes of a frame from its body-length digits, body and checksum
    digits. *)
Definition frame_prefix (lenbuf body : bytes) : bytes :=
  kBegin ++ str "9=" ++ lenbuf ++ [SOH] ++ body.
Definition frame_of (lenbuf body cs : bytes) : bytes :=
  frame_prefix lenbuf body ++ str "10=" ++ cs ++ [SOH].

Record frame_ok (lenbuf body cs : bytes) : Prop := {
  fk_len : lenbuf <> [] /\ Forall (fun c => is_digit c = true) lenbuf;
  fk_body : dec_value lenbuf = Z.of_nat (length body) /\ (Z.of_nat (length body) <= 2 ^ 20);
  fk_cs : length cs = 3%nat /\ Forall (fun c => is_digit c = true) cs;
  fk_sum : u8 (dec_value cs) = checksum (frame_prefix lenbuf body)
}.

Lemma scan_len_digits ds rest : forall n,
  Forall (fun c => is_digit c = true) ds ->
  scan_len (ds ++ SOH :: rest) n = ScanSOH (n + length ds).
Proof.
  induction ds as [|c ds IH]; intros n Hd; simpl; [by rewrite Nat.add_0_r|].
  apply Forall_cons in Hd as [Hc Hd]. rewrite Hc.
  assert ((c =? SOH) = false) as -> by (apply Z.eqb_neq; apply is_digit_spec in Hc; unfold SOH; lia).
  rewrite IH by done. f_equal. lia.
Qed.

Lemma scan_len_inv bs : forall n m,
  scan_len bs n = ScanSOH m -> exists ds rest, bs = ds ++ SOH :: rest /\
    m = (n + length ds)%nat /\ Forall (fun c => is_digit c = true) ds.
Proof.
  induction bs as [|c bs IH]; intros n m; simpl; [done|].
  destruct (Z.eqb_spec c SOH) as [->|].
  - intros [= <-]. exists [], bs. split_and!; [done|simpl; lia|constructor].
  - destruct (is_digit c) eqn:Hc; [|done]. intros (ds & rest & -> & -> & Hd)%IH.
    exists (c :: ds), rest. split_and!; [done|simpl; lia|by constructor].
Qed.

Lemma byte_at_app l c r : byte_at (l ++ c :: r) (length l) c = true.
Proof. unfold byte_at. by rewrite list_lookup_middle, Z.eqb_refl. Qed.

Lemma byte_at_inv buf i c : byte_at buf i c = true -> buf !! i = Some c.
Proof. unfold byte_at. destruct (buf !! i) as [x|]; [|done]. by intros ->%Z.eqb_eq. Qed.

Lemma kBegin_length : length kBegin = 10%nat.
Proof. done. Qed.

Lemma drop_app_len {A} (l k : list A) n : n = length l -> drop n (l ++ k) = k.
Proof. intros ->. apply drop_app_length. Qed.

Lemma take_app_len {A} (l k : list A) n : n = length l -> take n (l ++ k) = l.
Proof. intros ->. apply take_app_length. Qed.

Lemma byte_at_len l c r i : i = length l -> byte_at (l ++ c :: r) i c = true.
Proof. intros ->. apply byte_at_app. Qed.

(** Where things are in a buffer that starts with a frame. *)
Record layout (lenbuf body cs rest buf : bytes) : Prop := {
  ly_head : take 10 buf = kBegin;
  ly_tag : byte_at buf 10 57 && byte_at buf 11 61 = true;
  ly_len : drop 12 buf = lenbuf ++ SOH :: body ++ str "10=" ++ cs ++ SOH :: rest;
  ly_prefix : buf = frame_prefix lenbuf body ++ str "10=" ++ cs ++ SOH :: rest;
  ly_size : length (frame_prefix lenbuf body) = (12 + length lenbuf + 1 + length body)%nat
}.

Lemma frame_layout lenbuf body cs rest :
  layout lenbuf body cs rest (frame_of lenbuf body cs ++ rest).
Proof.
  assert (frame_of lenbuf body cs ++ rest =
    kBegin ++ 57 :: 61 :: lenbuf ++ SOH :: body ++ str "10=" ++ cs ++ SOH :: rest) as E.
  { unfold frame_of, frame_prefix. by repeat (rewrite <-app_assoc; simpl). }
  rewrite E. constructor; [done..| |].
  - unfold frame_prefix. by repeat (rewrite <-app_assoc; simpl).
  - unfold frame_prefix. simpl. rewrite !length_app. simpl. lia.
Qed.

(** The trailer check of [split_frame]. *)
Lemma trailer_ok lenbuf body cs rest buf :
  layout lenbuf body cs rest buf -> length cs = 3%nat ->
  let body_end := length (frame_prefix lenbuf body) in
  byte_at buf body_end 49 && byte_at buf (body_end + 1) 48 &&
  byte_at buf (body_end + 2) 61 && byte_at buf (body_end + 7 - 1) SOH = true /\
  take 3 (drop (body_end + 3) buf) = cs /\ take body_end buf = frame_prefix lenbuf body /\
  take (body_end + 7) buf = frame_of lenbuf body cs /\ (body_end + 7 <= length buf)%nat.
Proof.
  intros [_ _ _ Hp _] Hc body_end. destruct cs as [|c1 [|c2 [|c3 [|]]]]; try done.
  assert (forall i, buf !! (body_end + i)%nat = (str "10=" ++ [c1; c2; c3] ++ SOH :: rest) !! i) as Hat.
  { intros i. rewrite Hp, lookup_app_r by lia. f_equal. lia. }
  unfold byte_at. rewrite <-(Nat.add_0_r body_end) at 1. rewrite !Hat.
  replace (body_end + 7 - 1)%nat with (body_end + 6)%nat by lia. rewrite Hat. split; [done|].
  rewrite Hp. unfold body_end. split_and!.
  - by rewrite drop_app_add.
  - apply take_app_length.
  - rewrite take_app_add. unfold frame_of. done.
  - rewrite length_app. simpl. lia.
Qed.

(** A frame at the front of the buffer is found whatever follows. *)
Lemma split_frame_complete lenbuf body cs rest :
  frame_ok lenbuf body cs ->
  split_frame (frame_of lenbuf body cs ++ rest) =
    Ok (frame_of lenbuf body cs) (length (frame_of lenbuf body cs)).
Proof.
  intros [[Hl1 Hl2] [Hb1 Hb2] [Hc1 Hc2] Hs].
  pose proof (frame_layout lenbuf body cs rest) as Hly. set (buf := frame_of lenbuf body cs ++ rest) in *.
  destruct (trailer_ok _ _ _ _ _ Hly Hc1) as (Ht1 & Ht2 & Ht3 & Ht4 & Ht5).
  destruct Hly as [Hh Htag Hlen _ Hsz]. clearbody buf.
  unfold split_frame. rewrite kBegin_length, Hh, bool_decide_true by done. change (10 + 1)%nat with 11%nat.
  change (10 + 2)%nat with 12%nat. rewrite Htag, Hlen.
  rewrite !(proj2 (Nat.ltb_ge _ _)) by lia. cbn [negb].
  rewrite scan_len_digits by done. change (0 + length lenbuf)%nat with (length lenbuf). rewrite take_app_length.
  rewrite <-(app_nil_r lenbuf) at 1.
  rewrite from_chars_u_digits by (done || (rewrite Hb1; unfold UINT64_MAX; change (2 ^ 20) with 1048576 in Hb2; lia64)).
  rewrite Hb1, (proj2 (Z.ltb_ge _ _)), Nat2Z.id, <-Hsz by done.
  rewrite (proj2 (Nat.ltb_ge _ _)), Ht1, Ht2, Ht3, Ht4 by done. cbn [negb].
  change 0 with (u8 0). rewrite read_checksum_spec by done. change (foldl _ 0 cs) with (dec_value cs).
  rewrite Hs, Z.eqb_refl. f_equal. rewrite <-Ht4, length_take. lia.
Qed.

Lemma drop_lookup_2 (buf : bytes) i x y :
  buf !! i = Some x -> buf !! (i + 1)%nat = Some y -> drop i buf = x :: y :: drop (i + 2) buf.
Proof.
  intros Hx Hy. rewrite (drop_S _ _ _ Hx). rewrite Nat.add_1_r in Hy. rewrite (drop_S _ _ _ Hy).
  by rewrite (Nat.add_comm i 2).
Qed.

Lemma from_chars_u_all hi ds v :
  Forall (fun c => is_digit c = true) ds -> from_chars_u hi ds = Some v ->
  ds <> [] /\ v = dec_value ds /\ dec_value ds <= hi.
Proof.
  intros Hd. unfold from_chars_u. rewrite take_digits_all by done. destruct ds as [|c ds]; [done|].
  destruct (Z.leb_spec (dec_value (c :: ds)) hi); [|done]. by intros [= <-].
Qed.

Lemma dec_value_nonneg ds : Forall (fun c => is_digit c = true) ds -> 0 <= dec_value ds.
Proof.
  intros Hd. unfold dec_value.
  assert (forall v, 0 <= v -> 0 <= foldl (fun v c => 10 * v + (c - 48)) v ds) as H; [|by apply H].
  induction Hd as [|c ds Hc Hd IH]; intros v Hv; simpl; [done|].
  apply IH. apply is_digit_spec in Hc. lia.
Qed.

Lemma read_checksum_inv bs : forall got v,
  read_checksum bs got = Some v -> Forall (fun c => is_digit c = true) bs.
Proof.
  induction bs as [|c bs IH]; intros got v; simpl; [constructor|].
  destruct (is_digit c) eqn:Hc; [|done]. intros ?%IH. by constructor.
Qed.

(** The seven bytes after the body. *)
Lemma trailer_inv (tl : bytes) :
  (7 <= length tl)%nat -> byte_at tl 0 49 = true -> byte_at tl 1 48 = true ->
  byte_at tl 2 61 = true -> byte_at tl 6 SOH = true ->
  tl = str "10=" ++ take 3 (drop 3 tl) ++ SOH :: drop 7 tl.
Proof.
  intros Hl. destruct tl as [|a [|b [|c [|d [|e [|f [|g tl]]]]]]]; simpl in Hl; try lia.
  unfold byte_at. simpl. by intros ->%Z.eqb_eq ->%Z.eqb_eq ->%Z.eqb_eq ->%Z.eqb_eq.
Qed.

Lemma byte_at_drop buf k i c : byte_at buf (k + i) c = byte_at (drop k buf) i c.
Proof. unfold byte_at. by rewrite lookup_drop. Qed.

(** The checks an accepted buffer has passed. *)
Record accepted (buf ds r0 : bytes) (body_end : nat) : Prop := {
  ac_head : take 10 buf = kBegin;
  ac_tag : drop 10 buf = 57 :: 61 :: ds ++ SOH :: r0;
  ac_len : ds <> [] /\ Forall (fun c => is_digit c = true) ds /\ dec_value ds <= 2 ^ 20;
  ac_end : body_end = (12 + length ds + 1 + Z.to_nat (dec_value ds))%nat;
  ac_size : (body_end + 7 <= length buf)%nat;
  ac_trailer : byte_at buf body_end 49 = true /\ byte_at buf (body_end + 1) 48 = true /\
    byte_at buf (body_end + 2) 61 = true /\ byte_at buf (body_end + 7 - 1) SOH = true;
  ac_sum : read_checksum (take 3 (drop (body_end + 3) buf)) 0 = Some (checksum (take body_end buf))
}.

Lemma split_frame_accepted buf f n :
  split_frame buf = Ok f n -> exists ds r0 body_end, accepted buf ds r0 body_end /\
    f = take (body_end + 7) buf /\ n = (body_end + 7)%nat.
Proof.
  unfold split_frame. rewrite kBegin_length. intros H.
  destruct (_ <? _)%nat; [done|]. case_bool_decide as Hh; cbn [negb] in H; [|done].
  destruct (_ <? _)%nat; [done|]. destruct (byte_at buf 10 57 && _) eqn:Ht; cbn [negb] in H; [|done].
  apply andb_true_iff in Ht as [Ht1%byte_at_inv Ht2%byte_at_inv].
  change (10 + 2)%nat with 12%nat in H. pose proof (drop_lookup_2 _ _ _ _ Ht1 Ht2) as Hd10.
  destruct (scan_len (drop 12 buf) 0) as [k| |] eqn:Hsc; [|done..].
  apply scan_len_inv in Hsc as (ds & r0 & Hd12 & -> & Hds). change (0 + length ds)%nat with (length ds) in H.
  change (10 + 2)%nat with 12%nat in Hd10. rewrite Hd12 in Hd10.
  rewrite Hd12, take_app_length in H. destruct (from_chars_u _ ds) as [bl|] eqn:Hfc; [|done].
  apply from_chars_u_all in Hfc as (Hne & -> & _); [|done].
  destruct (Z.ltb_spec (2 ^ 20) (dec_value ds)) as [|Hcap]; [done|].
  destruct (Nat.ltb_spec (length buf) (12 + length ds + 1 + Z.to_nat (dec_value ds) + 7)) as [|Hlen]; [done|].
  destruct (byte_at buf _ 49 && _ && _ && _) eqn:Htr; cbn [negb] in H; [|done].
  rewrite !andb_true_iff in Htr. destruct Htr as [[[T1 T2] T3] T4].
  destruct (read_checksum _ 0) as [got|] eqn:Hrc; [|done].
  destruct (Z.eqb_spec got (checksum (take (12 + length ds + 1 + Z.to_nat (dec_value ds)) buf))) as [->|]; [|done].
  simplify_eq. by eexists ds, r0, _.
Qed.

(** What [split_frame] accepts is a frame with the announced body length and
    a matching checksum. *)
Lemma split_frame_sound buf f n :
  split_frame buf = Ok f n -> exists lenbuf body cs rest,
    buf = frame_of lenbuf body cs ++ rest /\ f = frame_of lenbuf body cs /\ n = length f /\
    frame_ok lenbuf body cs.
Proof.
  intros (ds & r0 & body_end & [Hh Hd (Hne & Hds & Hcap) Hbe Hlen (T1 & T2 & T3 & T4) Hrc] & -> & ->)%split_frame_accepted.
  pose proof (dec_value_nonneg ds Hds) as Hnn. set (k := Z.to_nat (dec_value ds)) in *.
  assert (drop body_end buf = drop k r0) as Edr.
  { replace body_end with (10 + (2 + (length ds + (1 + k))))%nat by lia.
    rewrite <-!drop_drop, Hd. cbn [drop]. by rewrite drop_0, drop_app_length. }
  assert (k + 7 <= length r0)%nat as Hr0.
  { apply (f_equal length) in Edr. rewrite !length_drop in Edr. lia. }
  set (cs := take 3 (drop (body_end + 3) buf)) in *. set (body := take k r0). set (rest := drop 7 (drop body_end buf)).
  assert (drop body_end buf = str "10=" ++ cs ++ SOH :: rest) as Etl.
  { unfold cs, rest. rewrite <-drop_drop. apply trailer_inv; rewrite <-?byte_at_drop, ?Nat.add_0_r; try done.
    - rewrite length_drop. lia.
    - by replace (body_end + 6)%nat with (body_end + 7 - 1)%nat by lia. }
  assert (length body = k) as Hbl by (unfold body; rewrite length_take; lia).
  assert (buf = frame_of ds body cs ++ rest) as Eb.
  { unfold frame_of, frame_prefix. rewrite <-(take_drop 10 buf), Hh, Hd, <-(take_drop k r0). fold body.
    rewrite <-Edr, Etl. by repeat (rewrite <-app_assoc; simpl). }
  pose proof (frame_layout ds body cs rest) as Hly. rewrite <-Eb in Hly.
  assert (length cs = 3%nat) as Hc3 by (unfold cs; rewrite length_take, length_drop; lia).
  destruct (trailer_ok _ _ _ _ _ Hly Hc3) as (_ & _ & E3 & E4 & _).
  assert (length (frame_prefix ds body) = body_end) as Epl by (rewrite (ly_size _ _ _ _ _ Hly); lia).
  rewrite Epl in E3, E4. exists ds, body, cs, rest.
  pose proof (read_checksum_inv _ _ _ Hrc) as Hcd.
  change 0 with (u8 0) in Hrc. rewrite read_checksum_spec in Hrc by done.
  split_and!; [done|done|rewrite length_take; lia|].
  constructor; [done|lia|done|]. rewrite <-E3. by injection Hrc.
Qed.

(** ** Streaming *)

Lemma byte_at_app_l buf m i c : (i < length buf)%nat -> byte_at (buf ++ m) i c = byte_at buf i c.
Proof. intros. unfold byte_at. by rewrite lookup_app_l. Qed.

Lemma scan_len_app bs m : forall n,
  scan_len bs n <> ScanEnd -> scan_len (bs ++ m) n = scan_len bs n.
Proof.
  induction bs as [|c bs IH]; intros n H; simpl in *; [done|].
  destruct (c =? SOH); [done|]. destruct (is_digit c); [by apply IH|done].
Qed.

Lemma scan_len_bound bs n k : scan_len bs n = ScanSOH (n + k) -> (k < length bs)%nat.
Proof.
  intros (ds & rest & -> & E & _)%scan_len_inv. rewrite length_app. simpl. lia.
Qed.

Lemma split_frame_malformed buf m : split_frame buf = Malformed -> split_frame (buf ++ m) = Malformed.
Proof.
  unfold split_frame. rewrite kBegin_length, length_app. intros H.
  destruct (Nat.ltb_spec (length buf) 10); [done|].
  rewrite (proj2 (Nat.ltb_ge _ _)) by lia. rewrite take_app_le by lia.
  case_bool_decide; cbn [negb] in *; [|done].
  destruct (Nat.ltb_spec (length buf) (10 + 2)); [done|].
  rewrite (proj2 (Nat.ltb_ge _ _)) by lia. rewrite !byte_at_app_l by lia.
  destruct (negb _); [done|]. change (10 + 2)%nat with 12%nat in *. rewrite drop_app_le by lia.
  destruct (scan_len (drop 12 buf) 0) as [k| |] eqn:Hsc; [|done|].
  - rewrite scan_len_app, Hsc by congruence. pose proof (scan_len_bound _ 0 k Hsc) as Hk.
    rewrite take_app_le by lia. destruct (from_chars_u _ _) as [bl|]; [|done].
    destruct (2 ^ 20 <? bl); [done|]. rewrite length_drop in Hk.
    destruct (Nat.ltb_spec (length buf) (12 + k + 1 + Z.to_nat bl + 7)); [done|].
    rewrite (proj2 (Nat.ltb_ge _ _)) by lia. rewrite !byte_at_app_l by lia.
    destruct (negb _); [done|]. rewrite drop_app_le, take_app_le, take_app_le by (rewrite ?length_drop; lia).
    destruct (read_checksum _ _) as [got|]; [|done]. by destruct (got =? _).
  - by rewrite scan_len_app, Hsc by congruence.
Qed.

(** Framing does not depend on how the stream is cut: once [split_frame]
    has accepted or rejected the bytes received, more bytes do not change the
    verdict. *)
Theorem split_frame_stream buf more :
  split_frame buf <> Incomplete -> split_frame (buf ++ more) = split_frame buf.
Proof.
  destruct (split_frame buf) as [f n| |] eqn:E; [|done|]; intros _.
  - apply split_frame_sound in E as (l & b & c & rest & -> & -> & -> & Hok).
    rewrite <-app_assoc. by apply split_frame_complete.
  - by apply split_frame_malformed.
Qed.

Definition demo_frame : bytes :=
  buf_ (finalize (add_int 108 30 (begin 65 (str "ENGINE") (str "CLIENT1") 1))).

Lemma split_frame_stream_witness :
  split_frame (demo_frame ++ [56; 61]) = Ok demo_frame 64.
Proof. apply (split_frame_stream demo_frame [56; 61]). vm_compute. discriminate. Defined.

(** (C13) Soundness of framing: an accepted frame is a prefix of the buffer with
    the begin string, a body of exactly the announced length (at most 1 MiB)
    and three checksum digits whose value modulo 256 is the byte sum of
    everything before the trailer; [consumed] is its length. *)
Theorem split_frame_accepts buf f n :
  split_frame buf = Ok f n -> exists lenbuf body cs,
    f = frame_of lenbuf body cs /\ f `prefix_of` buf /\ n = length f /\
    dec_value lenbuf = Z.of_nat (length body) /\ Z.of_nat (length body) <= 2 ^ 20 /\
    length cs = 3%nat /\ dec_value cs mod 256 = sumZ (frame_prefix lenbuf body) mod 256.
Proof.
  intros (l & b & c & rest & -> & -> & -> & [_ [? ?] [? _] Hs])%split_frame_sound.
  rewrite checksum_mod in Hs. exists l, b, c. split_and!; try done. by eexists.
Qed.

Lemma split_frame_accepts_witness : exists lenbuf body cs,
  demo_frame = frame_of lenbuf body cs /\ demo_frame `prefix_of` (demo_frame ++ [56]) /\
  64%nat = length demo_frame /\
  dec_value lenbuf = Z.of_nat (length body) /\ Z.of_nat (length body) <= 2 ^ 20 /\
  length cs = 3%nat /\ dec_value cs mod 256 = sumZ (frame_prefix lenbuf body) mod 256.
Proof. apply (split_frame_accepts (demo_frame ++ [56]) demo_frame 64). vm_compute. reflexivity. Defined.

(** The checksum comparison is modulo 256: the trailer 10=436 is accepted
    for a frame whose checksum is 180. *)
Theorem checksum_out_of_range_accepted :
  let forged := take 57 demo_frame ++ str "10=436" ++ [SOH] in
  checksum (take 57 demo_frame) = 180 /\ split_frame forged = Ok forged 64.
Proof. vm_compute. done. Qed.

(** ** Parsing *)

Lemma scan_tag_digits ds rest : forall acc,
  Forall (fun c => is_digit c = true) ds -> scan_tag (ds ++ 61 :: rest) acc = Some (acc ++ ds, rest).
Proof.
  induction ds as [|c ds IH]; intros acc Hd; simpl; [by rewrite app_nil_r|].
  apply Forall_cons in Hd as [Hc Hd]. rewrite Hc.
  assert ((c =? 61) = false) as -> by (apply Z.eqb_neq; apply is_digit_spec in Hc; lia).
  rewrite IH by done. by rewrite <-app_assoc.
Qed.

Lemma scan_value_spec v rest : forall acc,
  Forall (fun c => c <> SOH) v -> scan_value (v ++ SOH :: rest) acc = Some (acc ++ v, rest).
Proof.
  induction v as [|c v IH]; intros acc Hv; simpl; [by rewrite app_nil_r|].
  apply Forall_cons in Hv as [Hc Hv]. rewrite (proj2 (Z.eqb_neq _ _)) by done.
  rewrite IH by done. by rewrite <-app_assoc.
Qed.

Lemma scan_tag_length bs : forall acc ds rest,
  scan_tag bs acc = Some (ds, rest) -> (length rest < length bs)%nat.
Proof.
  induction bs as [|c bs IH]; intros acc ds rest; simpl; [done|].
  destruct (c =? 61); [intros [= <- <-]; lia|]. destruct (is_digit c); [|done]. intros ?%IH. lia.
Qed.

Lemma scan_value_length bs : forall acc v rest,
  scan_value bs acc = Some (v, rest) -> (length rest < length bs)%nat.
Proof.
  induction bs as [|c bs IH]; intros acc v rest; simpl; [done|].
  destruct (c =? SOH); [intros [= <- <-]; lia|]. intros ?%IH. lia.
Qed.

(** The parser terminates on every input: the fuel of one step per byte is
    enough. *)
Theorem parse_frame_total frame : is_Some (parse_frame frame).
Proof.
  unfold parse_frame. cut (forall fuel bs out, (length bs <= fuel)%nat -> is_Some (parse_fields fuel bs out)).
  { intros H. by apply H. }
  induction fuel as [|fuel IH]; intros bs out Hl.
  - destruct bs; [by eexists|simpl in Hl; lia].
  - destruct bs as [|c bs]; [by eexists|]. cbn [parse_fields].
    destruct (scan_tag _ _) as [[ds r]|] eqn:Et; [|by eexists]. apply scan_tag_length in Et.
    destruct (from_chars_u _ _); [|by eexists].
    destruct (scan_value _ _) as [[v r']|] eqn:Ev; [|by eexists]. apply scan_value_length in Ev.
    apply IH. simpl in *. lia.
Qed.

(** A field as it is written on the wire. *)
Definition encode (f : Field) : bytes := to_chars f.1 ++ 61 :: f.2 ++ [SOH].

Definition field_ok (f : Field) : Prop := 0 <= f.1 <= INT_MAX /\ Forall (fun c => c <> SOH) f.2.

#[global] Instance field_ok_dec f : Decision (field_ok f).
Proof. unfold field_ok. apply _. Defined.

Lemma tag_digits t : 0 <= t <= INT_MAX ->
  to_chars t = digits t /\ digits t <> [] /\ Forall (fun c => is_digit c = true) (digits t) /\
  from_chars_u INT_MAX (digits t) = Some t.
Proof.
  intros Ht. assert (0 <= t < UINT64_SIZE) as Hu by (unfold INT_MAX in Ht; lia64).
  destruct (digits_spec t Hu) as (Hne & Hd & Hv & _). split_and!; try done.
  - unfold to_chars. by rewrite (proj2 (Z.ltb_ge _ _)) by lia.
  - rewrite <-(app_nil_r (digits t)), from_chars_u_digits; [by rewrite Hv|done..|rewrite Hv; lia].
Qed.

Lemma encode_length fs : (length fs <= length (mjoin (encode <$> fs)))%nat.
Proof.
  induction fs as [|f fs IH]; csimpl; [lia|]. rewrite length_app.
  assert (0 < length (encode f))%nat; [|lia]. unfold encode. rewrite length_app. simpl. lia.
Qed.

Lemma parse_fields_encode fs : forall fuel out,
  Forall field_ok fs -> (length fs <= fuel)%nat ->
  parse_fields fuel (mjoin (encode <$> fs)) out = Some (ParseOk (out ++ fs)).
Proof.
  induction fs as [|[t v] fs IH]; intros fuel out Hok Hf.
  - simpl. rewrite app_nil_r. by destruct fuel.
  - apply Forall_cons in Hok as [[Ht Hv] Hok]. simpl in Hf, Ht, Hv. destruct fuel as [|fuel]; [lia|].
    destruct (tag_digits t Ht) as (Et & Hne & Hd & Hfc). csimpl.
    assert (encode (t, v) ++ mjoin (encode <$> fs) = digits t ++ 61 :: v ++ SOH :: mjoin (encode <$> fs)) as ->.
    { unfold encode. simpl. rewrite Et. by repeat (rewrite <-app_assoc; simpl). }
    destruct (digits t) as [|c ds] eqn:Edt; [done|]. cbn [parse_fields app].
    change (c :: ds ++ ?r) with ((c :: ds) ++ r).
    rewrite scan_tag_digits by done. cbn [app]. rewrite Hfc, scan_value_spec by done. cbn [app].
    rewrite IH by (done || lia). by rewrite <-app_assoc.
Qed.

(** ** The builder *)

(** A message under construction with body fields [fs]. *)
Definition built (fs : list Field) : Builder :=
  mkBuilder (kBegin ++ str "9=000000" ++ SOH :: mjoin (encode <$> fs)) 19 12.

Lemma add_str_built fs t v : add_str t v (built fs) = built (fs ++ [(t, v)]).
Proof.
  unfold add_str, append, built. simpl. f_equal. rewrite fmap_app, join_app. simpl.
  unfold encode. simpl. rewrite app_nil_r. by repeat (rewrite <-app_assoc; simpl).
Qed.

Definition header (mt : Z) (sender target : bytes) (seq_num : Z) : list Field :=
  [(MsgType, [mt]); (SenderCompID, sender); (TargetCompID, target); (MsgSeqNum, to_chars seq_num)].

Lemma begin_built mt sender target seq_num :
  begin mt sender target seq_num = built (header mt sender target seq_num).
Proof.
  transitivity (add_str MsgSeqNum (to_chars seq_num) (add_str TargetCompID target
    (add_str SenderCompID sender (add_str MsgType [mt] (built []))))); [reflexivity|].
  by rewrite !add_str_built.
Qed.

(** A message: [begin] and then its fields. *)
Definition build (mt : Z) (sender target : bytes) (seq_num : Z) (fs : list Field) : bytes :=
  buf_ (finalize (foldl (fun b '(t, v) => add_str t v b) (begin mt sender target seq_num) fs)).

Lemma build_built mt sender target seq_num fs :
  build mt sender target seq_num fs = buf_ (finalize (built (header mt sender target seq_num ++ fs))).
Proof.
  unfold build. f_equal. f_equal. rewrite begin_built. generalize (header mt sender target seq_num).
  induction fs as [|[t v] fs IH]; intros hd; simpl; [by rewrite app_nil_r|].
  rewrite add_str_built, IH. by rewrite <-app_assoc.
Qed.

Lemma finalize_frame fs :
  let body := mjoin (encode <$> fs) in
  let lenbuf := zero_padded 6 (Z.of_nat (length body)) in
  (Z.of_nat (length body) <= 999999) ->
  let cs := zero_padded 3 (checksum (frame_prefix lenbuf body)) in
  buf_ (finalize (built fs)) = frame_of lenbuf body cs /\ frame_ok lenbuf body cs.
Proof.
  intros body lenbuf Hb cs.
  destruct (zero_padded_spec 6 (Z.of_nat (length body))) as (Hl & Hld & Hlv); [lia|lia64|simpl; lia|].
  pose proof (checksum_range (frame_prefix lenbuf body)) as Hcr.
  destruct (zero_padded_spec 3 (checksum (frame_prefix lenbuf body))) as (Hc & Hcd & Hcv);
    [lia|lia64|simpl; lia|].
  fold lenbuf in Hl, Hld, Hlv. fold cs in Hc, Hcd, Hcv. split.
  - assert (length (buf_ (built fs)) - 19 = length body)%nat as Hlen.
    { unfold built. cbn [buf_]. rewrite !length_app. simpl. fold body. lia. }
    unfold finalize. change (body_start_ (built fs)) with 19%nat. change (body_len_slot_ (built fs)) with 12%nat.
    rewrite Hlen. fold lenbuf. rewrite (take_ge lenbuf) by lia. cbn [buf_].
    assert (patch 12 lenbuf (buf_ (built fs)) = frame_prefix lenbuf body) as ->; [|done].
    unfold patch. rewrite Hl. unfold built, frame_prefix. cbn [buf_]. fold body. simpl. done.
  - constructor; [| |done|].
    + split; [|done]. intros E. by rewrite E in Hl.
    + split; [done|lia].
    + rewrite Hcv. unfold u8. by rewrite Z.mod_small by lia.
Qed.

Lemma frame_encode lenbuf body cs fs :
  body = mjoin (encode <$> fs) ->
  frame_of lenbuf body cs = mjoin (encode <$> [(8, str "FIX.4.4"); (9, lenbuf)] ++ fs ++ [(10, cs)]).
Proof.
  intros ->. unfold frame_of, frame_prefix. rewrite !fmap_app, !join_app. csimpl.
  change (encode (8, str "FIX.4.4")) with kBegin.
  change (encode (9, lenbuf)) with (str "9=" ++ lenbuf ++ [SOH]).
  change (encode (10, cs)) with (str "10=" ++ cs ++ [SOH]).
  by repeat (rewrite <-app_assoc || rewrite app_nil_r; simpl).
Qed.

(** The bytes of the message with body fields [fields], what the other side
    parses them to, and that it does. *)
Definition wire (fields : list Field) : bytes := buf_ (finalize (built fields)).

Lemma wire_length fields : (4 <= length (wire fields))%nat.
Proof. unfold wire, finalize. cbn [buf_]. rewrite !length_app. cbn [length str]. lia. Qed.

Definition parsed (fields : list Field) : Message :=
  let body := mjoin (encode <$> fields) in
  let lenbuf := zero_padded 6 (Z.of_nat (length body)) in
  [(8, str "FIX.4.4"); (9, lenbuf)] ++ fields ++ [(10, zero_padded 3 (checksum (frame_prefix lenbuf body)))].

Lemma wire_roundtrip fields rest :
  Forall field_ok fields -> Z.of_nat (length (mjoin (encode <$> fields))) <= 999999 ->
  split_frame (wire fields ++ rest) = Ok (wire fields) (length (wire fields)) /\
  parse_frame (wire fields) = Some (ParseOk (parsed fields)).
Proof.
  intros Hok Hb. unfold wire, parsed. set (body := mjoin (encode <$> fields)) in *.
  destruct (finalize_frame fields Hb) as [E Hf]. fold body in E, Hf.
  set (lenbuf := zero_padded 6 _) in *. rewrite E. split; [by apply split_frame_complete|].
  unfold parse_frame. rewrite (frame_encode _ _ _ fields eq_refl).
  destruct Hf as [[_ Hl] _ [_ Hc] _]. rewrite parse_fields_encode; [done| |].
  - assert (forall v, Forall (fun c => is_digit c = true) v -> Forall (fun c => c <> SOH) v) as Hdig.
    { intros v Hv. eapply Forall_impl; [done|]. intros c ?%is_digit_spec. unfold SOH. lia. }
    apply Forall_app. split; [|apply Forall_app; split; [done|]].
    + constructor; [|constructor; [|constructor]]; (split; [unfold INT_MAX; simpl; lia|]); simpl.
      * apply (bool_decide_unpack _). vm_compute. exact I.
      * by apply Hdig.
    + constructor; [|constructor]. split; [unfold INT_MAX; simpl; lia|]. by apply Hdig.
  - apply encode_length.
Qed.

(** (C12) Build, frame, parse: a message built from fields without SOH, with a
    body below a million bytes, is extracted whole from a stream that starts
    with it, whatever follows, and parses back to its header, its fields in
    order, the body length and the checksum. *)
Theorem fix_roundtrip mt sender target seq_num fs rest :
  let fields := header mt sender target seq_num ++ fs in
  let body := mjoin (encode <$> fields) in
  let lenbuf := zero_padded 6 (Z.of_nat (length body)) in
  let msg := build mt sender target seq_num fs in
  Forall field_ok fields -> Z.of_nat (length body) <= 999999 ->
  split_frame (msg ++ rest) = Ok msg (length msg) /\
  parse_frame msg = Some (ParseOk ([(8, str "FIX.4.4"); (9, lenbuf)] ++ fields ++
    [(10, zero_padded 3 (checksum (frame_prefix lenbuf body)))])).
Proof.
  intros fields body lenbuf msg Hok Hb.
  assert (msg = wire fields) as -> by apply build_built. by apply wire_roundtrip.
Qed.

Lemma fix_roundtrip_witness :
  let msg := build 68 (str "CLIENT1") (str "ENGINE") 7 [(11, str "ord=1"); (55, str "ACME"); (38, str "100")] in
  split_frame (msg ++ [56; 61; 70]) = Ok msg (length msg) /\
  parse_frame msg = Some (ParseOk
    [(8, str "FIX.4.4"); (9, str "000055"); (35, str "D"); (49, str "CLIENT1"); (56, str "ENGINE");
     (34, str "7"); (11, str "ord=1"); (55, str "ACME"); (38, str "100"); (10, str "205")]).
Proof.
  apply (fix_roundtrip 68 (str "CLIENT1") (str "ENGINE") 7
    [(11, str "ord=1"); (55, str "ACME"); (38, str "100")] [56; 61; 70]).
  - apply (bool_decide_unpack _). vm_compute. exact I.
  - vm_compute. discriminate.
Defined.
