(* ===== verification/Feed.v ===== *)
(** * [hft::md::Feed] (src/mvp/src/md/feed.{h,cpp})

    The top-of-book publisher: the sequence number and the datagrams it hands
    to the socket.  Opening and closing the socket are in
    [GatewayLife]; the result of [sendto] is an argument. *)

From S2P Require Import Prelude Decimal Float64.

Record Feed := mkFeed {
  feed_open : bool;              (* fd_ >= 0 *)
  seq_ : Z;                      (* uint64_t *)
  published_ : Z;                (* uint64_t *)
  datagrams : list bytes         (* what was passed to sendto *)
}.

Definition feed_close (f : Feed) : Feed := mkFeed false (seq_ f) (published_ f) (datagrams f).

(** The text record; the symbol is cut at 31 bytes, and [%s] stops at a zero
    byte. *)
Definition l1_record (seq : Z) (symbol : bytes) (bid_px bid_sz ask_px ask_sz : f64) : bytes :=
  str "L1|" ++ digits seq ++ str "|" ++ until_nul (take 31 symbol) ++ str "|" ++
  f64_fixed 2 bid_px ++ str "|" ++ f64_fixed 0 bid_sz ++ str "|" ++
  f64_fixed 2 ask_px ++ str "|" ++ f64_fixed 0 ask_sz ++ [10].

(** [buf] has 256 bytes; [sendto] is given the length [snprintf] returns. *)
Definition publish_l1 (sendto : Z -> Z) (f : Feed) (symbol : bytes) (bid_px bid_sz ask_px ask_sz : f64)
    : option (Feed * Z) :=
  if negb (feed_open f) then Some (f, -1)
  else
    let seq := u64 (seq_ f + 1) in
    buf ← snprintf_read 256 (l1_record seq symbol bid_px bid_sz ask_px ask_sz);
    let sent := sendto (Z.of_nat (length buf)) in
    let published := if 0 <? sent then u64 (published_ f + 1) else published_ f in
    Some (mkFeed true seq published (datagrams f ++ [buf]), sent).
