(* ===== verification/Gateway.v ===== *)
(** * [hft::fix::Gateway] (src/mvp/src/fix/gateway.{h,cpp})

    Sessions and protocol handlers: received bytes are framed, parsed and
    dispatched; orders go to the engine (under the engine mutex, so each engine
    access is one atomic step) and execution reports come back through the
    session's builder and socket.  The engine is any [EngineOps].  The results
    of [send] and [sendto] are given by functions of the call number and the
    length.  This is one session at a time; [GatewayThreads]
    runs sessions in parallel and [GatewayLife] accepts and stops. *)

From S2P Require Import Prelude Pool OrderedMap Level OrderBook BookSpec Engine Decimal Float64 FixParser Feed.

(** ExecType and OrdStatus values. *)
Definition EX_NEW : Z := 48.
Definition EX_PARTIAL_FILL : Z := 49.
Definition EX_FILL : Z := 50.
Definition EX_CANCELED : Z := 52.
Definition EX_REJECTED : Z := 56.
Definition OS_NEW : Z := 48.
Definition OS_PARTIAL_FILL : Z := 49.
Definition OS_FILLED : Z := 50.
Definition OS_CANCELED : Z := 52.
Definition OS_REJECTED : Z := 56.

Record Session := mkSession {
  sender_comp : bytes;
  out_seq : Z;               (* uint32_t *)
  in_seq : Z;                (* uint32_t *)
  logged_on : bool;
  builder : Builder;
  rx_buf : bytes;
  running : bool;
  sent : bytes;              (* bytes the socket has taken *)
  send_calls : nat
}.

Definition Session_new : Session := mkSession [] 1 0 false Builder_new [] true [] 0.

Definition set_builder (b : Builder) (s : Session) : Session :=
  mkSession (sender_comp s) (out_seq s) (in_seq s) (logged_on s) b (rx_buf s) (running s) (sent s) (send_calls s).
Definition set_running (r : bool) (s : Session) : Session :=
  mkSession (sender_comp s) (out_seq s) (in_seq s) (logged_on s) (builder s) (rx_buf s) r (sent s) (send_calls s).
Definition set_rx (rx : bytes) (s : Session) : Session :=
  mkSession (sender_comp s) (out_seq s) (in_seq s) (logged_on s) (builder s) rx (running s) (sent s) (send_calls s).
Definition inc_in_seq (s : Session) : Session :=
  mkSession (sender_comp s) (out_seq s) (u32 (in_seq s + 1)) (logged_on s) (builder s) (rx_buf s) (running s) (sent s) (send_calls s).
Definition inc_out_seq (s : Session) : Session :=
  mkSession (sender_comp s) (u32 (out_seq s + 1)) (in_seq s) (logged_on s) (builder s) (rx_buf s) (running s) (sent s) (send_calls s).
Definition log_on (comp : bytes) (s : Session) : Session :=
  mkSession comp (out_seq s) (in_seq s) true (builder s) (rx_buf s) (running s) (sent s) (send_calls s).
Definition transmit (bs : bytes) (s : Session) : Session :=
  mkSession (sender_comp s) (out_seq s) (in_seq s) (logged_on s) (builder s) (rx_buf s) (running s)
    (sent s ++ bs) (S (send_calls s)).

Section Gateway.
Context {E : Type} `{EngineOps E}.
(** The operating system: the result of the n-th [send] and of [sendto]. *)
Variable sock_send : nat -> Z -> Z.
Variable sock_sendto : Z -> Z.
Variable comp_id : bytes.

Record Gateway := mkGateway {
  engine_ : E;
  feed_ : option Feed;
  orders_ : Z;               (* std::atomic<uint64_t> *)
  execs_ : Z;
  next_exec_id_ : Z
}.

Definition set_engine (e : E) (g : Gateway) : Gateway :=
  mkGateway e (feed_ g) (orders_ g) (execs_ g) (next_exec_id_ g).
Definition set_feed (f : option Feed) (g : Gateway) : Gateway :=
  mkGateway (engine_ g) f (orders_ g) (execs_ g) (next_exec_id_ g).

(** ** Outbound *)

(** The loop of [send_raw]; each successful call takes at least one byte. *)
Fixpoint send_loop (fuel : nat) (bs : bytes) (s : Session) : option Session :=
  match bs with
  | [] => Some s
  | _ =>
      match fuel with
      | O => None
      | S fuel =>
          let n := sock_send (send_calls s) (Z.of_nat (length bs)) in
          if n <=? 0 then Some (set_running false (transmit [] s))
          else send_loop fuel (drop (Z.to_nat n) bs) (transmit (take (Z.to_nat n) bs) s)
      end
  end.

Definition send_raw (bs : bytes) (s : Session) : option Session := send_loop (length bs) bs s.

(** Finish the message in the builder and send it. *)
Definition send_built (b : Builder) (s : Session) : option Session :=
  let b := finalize b in send_raw (buf_ b) (set_builder b s).

Definition send_logon_ack (s : Session) : option Session :=
  let b := begin 65 comp_id (sender_comp s) (out_seq s) in
  send_built (add_int HeartBtInt 30 (add_int EncryptMethod 0 b)) (inc_out_seq s).

Definition send_logout (text : bytes) (s : Session) : option Session :=
  let b := begin 53 comp_id (sender_comp s) (out_seq s) in
  send_built (match text with [] => b | _ => add_str Text text b end) (inc_out_seq s).

Record ExecReport := mkReport {
  r_cl_ord_id : bytes;
  r_order_id : Z;
  r_exec_type : Z;
  r_ord_status : Z;
  r_side : Z;
  r_symbol : bytes;
  r_order_qty : f64;
  r_cum_qty : f64;
  r_leaves_qty : f64;
  r_last_qty : f64;
  r_last_px : f64;
  r_avg_px : f64
}.

(** The message of a report with execution id [eid], built and sent. *)
Definition emit_report (r : ExecReport) (eid : Z) (s : Session) : option Session :=
  let b := begin 56 comp_id (sender_comp s) (out_seq s) in
  let b := add_str OrderID (digits (r_order_id r)) b in
  let b := add_str ClOrdID (r_cl_ord_id r) b in
  let b := add_str ExecID (69 :: digits eid) b in
  let b := add_char ExecType (r_exec_type r) b in
  let b := add_char OrdStatus (r_ord_status r) b in
  let b := add_str Symbol (r_symbol r) b in
  let b := add_char SideTag (r_side r) b in
  b ← add_double OrderQty (r_order_qty r) 0 b;
  b ← add_double CumQty (r_cum_qty r) 0 b;
  b ← add_double LeavesQty (r_leaves_qty r) 0 b;
  b ← add_double LastQty (r_last_qty r) 0 b;
  b ← add_double LastPx (r_last_px r) 2 b;
  b ← add_double AvgPx (r_avg_px r) 4 b;
  send_built b (inc_out_seq s).

Definition send_exec_report (r : ExecReport) (g : Gateway) (s : Session) : option (Gateway * Session) :=
  let eid := next_exec_id_ g in
  s ← emit_report r eid s;
  Some (mkGateway (engine_ g) (feed_ g) (orders_ g) (u64 (execs_ g + 1)) (u64 (eid + 1)), s).

Fixpoint send_reports (rs : list ExecReport) (g : Gateway) (s : Session) : option (Gateway * Session) :=
  match rs with
  | [] => Some (g, s)
  | r :: rs => '(g, s) ← send_exec_report r g s; send_reports rs g s
  end.

Definition send_md_snapshot (md_req_id symbol : bytes) (bid_px bid_sz ask_px ask_sz : f64) (s : Session)
    : option Session :=
  let b := begin 87 comp_id (sender_comp s) (out_seq s) in
  let b := match md_req_id with [] => b | _ => add_str MDReqID md_req_id b end in
  let b := add_str Symbol symbol b in
  let b := add_int NoMDEntries 2 b in
  let b := add_char MDEntryType 48 b in
  b ← add_double MDEntryPx bid_px 2 b;
  b ← add_double MDEntrySize bid_sz 0 b;
  let b := add_char MDEntryType 49 b in
  b ← add_double MDEntryPx ask_px 2 b;
  b ← add_double MDEntrySize ask_sz 0 b;
  send_built b (inc_out_seq s).

(** ** Handlers *)

(** The first byte of tag 54, '1' when it is absent. *)
Definition side_char (m : Message) : Z := match get m SideTag with [] => 49 | c :: _ => c end.

(** Best prices and the quantities there, as the handlers read them. *)
Definition read_l1 (e : E) : option (Price * Quantity * Price * Quantity) :=
  let bid := e_best_bid e in
  let ask := e_best_ask e in
  bid_sz ← (if 0 <? bid then e_qty_at e Buy bid else Some 0);
  ask_sz ← (if ask <? INT64_MAX then e_qty_at e Sell ask else Some 0);
  Some (bid, bid_sz, ask, ask_sz).

Definition hundred : f64 := f64_of_Z 100.
Definition ask_double (ask : Price) : f64 :=
  if ask <? INT64_MAX then f64_div (f64_of_Z ask) hundred else f64_zero.

(** The loop over the trades: one report per trade, with the cumulative
    quantity and the average price. *)
Fixpoint fill_reports (cl_ord_id symbol : bytes) (side_c order_id qty : Z) (trs : list Trade)
    (cum : Z) (notional : f64) : option (list ExecReport) :=
  match trs with
  | [] => Some []
  | t :: trs =>
      cum ← i64 (cum + tr_qty t);
      let px := f64_div (f64_of_Z (tr_price t)) hundred in
      let notional := f64_add notional (f64_mul px (f64_of_Z (tr_qty t))) in
      let avg := f64_div notional (f64_of_Z cum) in
      lv ← i64 (qty - cum);
      let final_fill := (match trs with [] => true | _ => false end) && (lv =? 0) in
      rs ← fill_reports cl_ord_id symbol side_c order_id qty trs cum notional;
      Some (mkReport cl_ord_id order_id (if final_fill then EX_FILL else EX_PARTIAL_FILL)
              (if final_fill then OS_FILLED else OS_PARTIAL_FILL) side_c symbol
              (f64_of_Z qty) (f64_of_Z cum) (f64_of_Z lv) (f64_of_Z (tr_qty t)) px avg :: rs)
  end.

Fixpoint sum_fills (trs : list Trade) (filled : Quantity) : option Quantity :=
  match trs with
  | [] => Some filled
  | t :: trs => f ← i64 (filled + tr_qty t); sum_fills trs f
  end.

(** The reports of an accepted order. *)
Definition order_reports (cl_ord_id symbol : bytes) (side_c order_id qty : Z) (trs : list Trade)
    : option (list ExecReport) :=
  filled ← sum_fills trs 0;
  leaves ← i64 (qty - filled);
  match trs with
  | [] =>
      Some [mkReport cl_ord_id order_id EX_NEW OS_NEW side_c symbol (f64_of_Z qty) f64_zero
              (f64_of_Z leaves) f64_zero f64_zero f64_zero]
  | _ =>
      rs ← fill_reports cl_ord_id symbol side_c order_id qty trs 0 f64_zero;
      Some (rs ++ if 0 <? leaves then
        [mkReport cl_ord_id order_id EX_NEW OS_PARTIAL_FILL side_c symbol (f64_of_Z qty)
           (f64_of_Z filled) (f64_of_Z leaves) f64_zero f64_zero f64_zero] else [])
  end.

Definition on_new_order (m : Message) (g : Gateway) (s : Session) : option (Gateway * Session) :=
  let g := mkGateway (engine_ g) (feed_ g) (u64 (orders_ g + 1)) (execs_ g) (next_exec_id_ g) in
  let cl_ord_id := get m ClOrdID in
  let symbol := get m Symbol in
  let side_c := side_char m in
  let order_qty := get_double m OrderQty f64_zero in
  let price := get_double m PriceTag f64_zero in
  if f64_le order_qty f64_zero || f64_le price f64_zero ||
     (negb (side_c =? 49) && negb (side_c =? 50)) then
    send_exec_report (mkReport cl_ord_id 0 EX_REJECTED OS_REJECTED side_c symbol order_qty
      f64_zero f64_zero f64_zero f64_zero f64_zero) g s
  else
    let side := if side_c =? 49 then Buy else Sell in
    px_ticks ← f64_to_i64 (f64_add (f64_mul price hundred) f64_half);
    qty ← f64_to_i64 order_qty;
    '(e, order_id) ← e_place (engine_ g) side px_ticks qty;
    let trades := e_last_trades e in
    '(bid_px, bid_sz, ask_px, ask_sz) ← read_l1 e;
    let g := set_engine e g in
    rs ← order_reports cl_ord_id symbol side_c order_id qty trades;
    '(g, s) ← send_reports rs g s;
    match feed_ g with
    | None => Some (g, s)
    | Some f =>
        '(f, _) ← publish_l1 sock_sendto f symbol (f64_div (f64_of_Z bid_px) hundred) (f64_of_Z bid_sz)
                    (ask_double ask_px) (f64_of_Z ask_sz);
        Some (set_feed (Some f) g, s)
    end.

Definition on_cancel (m : Message) (g : Gateway) (s : Session) : option (Gateway * Session) :=
  let oid := u64 (get_int m OrderID 0) in
  '(ok, e) ← e_cancel (engine_ g) oid;
  send_exec_report (mkReport (get m ClOrdID) oid (if ok : bool then EX_CANCELED else EX_REJECTED)
    (if ok : bool then OS_CANCELED else OS_REJECTED) (side_char m) (get m Symbol)
    f64_zero f64_zero f64_zero f64_zero f64_zero f64_zero) (set_engine e g) s.

Definition on_md_request (m : Message) (g : Gateway) (s : Session) : option (Gateway * Session) :=
  '(bid_px, bid_sz, ask_px, ask_sz) ← read_l1 (engine_ g);
  s ← send_md_snapshot (get m MDReqID) (get m Symbol) (f64_div (f64_of_Z bid_px) hundred) (f64_of_Z bid_sz)
        (ask_double ask_px) (f64_of_Z ask_sz) s;
  Some (g, s).

Definition on_logon (m : Message) (g : Gateway) (s : Session) : option (Gateway * Session) :=
  s ← send_logon_ack (log_on (get m SenderCompID) s); Some (g, s).

Definition on_logout (g : Gateway) (s : Session) : option (Gateway * Session) :=
  s ← send_logout (str "bye") s; Some (g, set_running false s).

Definition handle_message (m : Message) (g : Gateway) (s : Session) : option (Gateway * Session) :=
  let mt := msg_type m in
  if negb (logged_on s) && negb (mt =? 65) then
    s ← send_logout (str "not logged on") s; Some (g, set_running false s)
  else if mt =? 65 then on_logon m g s
  else if mt =? 53 then on_logout g s
  else if mt =? 48 then Some (g, s)
  else if mt =? 68 then on_new_order m g s
  else if mt =? 70 then on_cancel m g s
  else if mt =? 86 then on_md_request m g s
  else Some (g, s).

(** ** The session loop *)

(** One round of the loop over the receive buffer, and whether another one
    follows. *)
Definition drain_iter (g : Gateway) (s : Session) : option (Gateway * Session * bool) :=
  match split_frame (rx_buf s) with
  | Incomplete => Some (g, s, false)
  | Malformed => s ← send_logout (str "malformed FIX frame") s; Some (g, set_running false s, false)
  | Ok frame consumed =>
      r ← parse_frame frame;
      match r with
      | ParseFail => s ← send_logout (str "parse failed") s; Some (g, set_running false s, false)
      | ParseOk m =>
          '(g, s) ← handle_message m g (inc_in_seq s);
          Some (g, set_rx (drop consumed (rx_buf s)) s, true)
      end
  end.

(** The loop as it is written, with no bound: [drain_eval g s r] when it ends,
    with [None] when one of its rounds is undefined.  A loop that goes on for
    ever has no [r]. *)
Inductive drain_eval : Gateway -> Session -> option (Gateway * Session) -> Prop :=
  | drain_undefined g s : drain_iter g s = None -> drain_eval g s None
  | drain_ends g s g' s' : drain_iter g s = Some (g', s', false) -> drain_eval g s (Some (g', s'))
  | drain_again g s g' s' r : drain_iter g s = Some (g', s', true) -> drain_eval g' s' r -> drain_eval g s r.

(** The loop with a bound on its rounds, which [drain_terminates] shows to be
    enough: every frame has at least one byte. *)
Fixpoint drain (fuel : nat) (g : Gateway) (s : Session) : option (Gateway * Session) :=
  match fuel with
  | O => None
  | S fuel => '(g, s, more) ← drain_iter g s; if more : bool then drain fuel g s else Some (g, s)
  end.

(** One iteration of the loop: a received chunk. *)
Definition on_chunk (chunk : bytes) (g : Gateway) (s : Session) : option (Gateway * Session) :=
  let rx := rx_buf s ++ chunk in drain (S (length rx)) g (set_rx rx s).

(** [session_loop] on the chunks that [recv] returns; an empty chunk is the
    end of the connection. *)
Fixpoint session_loop (chunks : list bytes) (g : Gateway) (s : Session) : option (Gateway * Session) :=
  match chunks with
  | [] => Some (g, s)
  | chunk :: chunks =>
      if running s then
        match chunk with
        | [] => Some (g, s)
        | _ => '(g, s) ← on_chunk chunk g s; session_loop chunks g s
        end
      else Some (g, s)
  end.

End Gateway.
Arguments Gateway : clear implicits.
