(* ===== verification/GatewayProps.v ===== *)
(** * Properties of the FIX gateway, one session at a time *)

From Corelib Require Import SpecFloat.
From S2P Require Import Prelude Pool OrderedMap Level OrderBook BookSpec Engine Decimal Float64 FixParser FixProps Feed Gateway.

Section Props.
Context {E : Type} `{EngineOps E}.
Context (sock_send : nat -> Z -> Z) (sock_sendto : Z -> Z) (comp_id : bytes).

(** ** Sending terminates *)

Lemma send_loop_total fuel : forall bs s,
  (length bs <= fuel)%nat -> exists s', send_loop sock_send fuel bs s = Some s' /\
    rx_buf s' = rx_buf s /\ logged_on s' = logged_on s /\
    exists tx, sent s' = sent s ++ tx /\ tx `prefix_of` bs /\ (running s' = true -> tx = bs).
Proof.
  induction fuel as [|fuel IH]; intros bs s Hl.
  - destruct bs; [|simpl in Hl; lia]. exists s. split_and!; [done..|]. exists []. by rewrite app_nil_r.
  - destruct bs as [|c bs]; [exists s; split_and!; [done..|]; exists []; by rewrite app_nil_r|].
    cbn [send_loop]. set (n := sock_send _ _). destruct (Z.leb_spec n 0).
    + eexists. split_and!; [done..|]. exists []. simpl. split_and!; [done|apply prefix_nil|done].
    + destruct (IH (drop (Z.to_nat n) (c :: bs)) (transmit (take (Z.to_nat n) (c :: bs)) s))
        as (s' & Es & Hrx & Hlog & tx & Htx & [k Hp] & Hr).
      { rewrite length_drop. simpl in *. lia. }
      exists s'. split_and!; [done..|]. exists (take (Z.to_nat n) (c :: bs) ++ tx). split_and!.
      * rewrite Htx. simpl. by rewrite <-app_assoc.
      * exists k. by rewrite <-app_assoc, <-Hp, take_drop.
      * intros Hrun. by rewrite Hr, take_drop.
Qed.

Lemma send_built_total b s : exists s', send_built sock_send b s = Some s' /\
  rx_buf s' = rx_buf s /\ logged_on s' = logged_on s /\
  exists tx, sent s' = sent s ++ tx /\ tx `prefix_of` buf_ (finalize b) /\
    (running s' = true -> tx = buf_ (finalize b)).
Proof. apply (send_loop_total _ (buf_ (finalize b)) (set_builder (finalize b) s)). lia. Qed.

Lemma send_logout_total text s : exists s', send_logout sock_send comp_id text s = Some s' /\
  rx_buf s' = rx_buf s /\ logged_on s' = logged_on s.
Proof.
  unfold send_logout. destruct (send_built_total (match text with
    | [] => begin 53 comp_id (sender_comp s) (out_seq s)
    | _ => add_str Text text (begin 53 comp_id (sender_comp s) (out_seq s)) end) (inc_out_seq s))
    as (s' & E1 & Hrx & Hl & _). exists s'. by rewrite E1.
Qed.

(** (C15) Nothing but a logon is served before logon: any other message makes
    the gateway answer and end the session, whatever the socket does, and the
    engine, the feed and the counters are untouched. *)
Theorem logon_required m (g : Gateway E) s :
  logged_on s = false -> msg_type m <> 65 ->
  exists s', handle_message sock_send sock_sendto comp_id m g s = Some (g, s') /\
    running s' = false /\ logged_on s' = false.
Proof.
  intros Hl Hm. unfold handle_message. rewrite Hl, (proj2 (Z.eqb_neq _ _)) by done. cbn [negb andb].
  destruct (send_logout_total (str "not logged on") s) as (s' & E1 & _ & Hl'). rewrite E1.
  eexists. split; [done|]. simpl. by rewrite Hl'.
Qed.

(** ** The drain loop *)

(** The handlers do not touch the receive buffer. *)
Lemma send_built_rx b s s' : send_built sock_send b s = Some s' -> rx_buf s' = rx_buf s.
Proof. intros Es. destruct (send_built_total b s) as (s2 & E2 & Hrx & _). congruence. Qed.

Lemma emit_report_rx r eid s s' : emit_report sock_send comp_id r eid s = Some s' -> rx_buf s' = rx_buf s.
Proof. unfold emit_report. intros Hs. run_bind Hs. by apply send_built_rx in Hs. Qed.

Lemma send_exec_report_rx r (g : Gateway E) s g' s' :
  send_exec_report sock_send comp_id r g s = Some (g', s') -> rx_buf s' = rx_buf s.
Proof.
  unfold send_exec_report. intros Hs. run_bind Hs. simplify_eq.
  match goal with Hb : emit_report _ _ _ _ _ = Some _ |- _ => by apply emit_report_rx in Hb end.
Qed.

Lemma send_reports_rx rs : forall (g : Gateway E) s g' s',
  send_reports sock_send comp_id rs g s = Some (g', s') -> rx_buf s' = rx_buf s.
Proof.
  induction rs as [|r rs IH]; intros g s g' s' Hs; simpl in Hs; [by simplify_eq|].
  destruct (send_exec_report _ _ _ _ _) as [[g1 s1]|] eqn:E1; [|done]. cbn [mbind option_bind] in Hs.
  apply IH in Hs. rewrite Hs. by eapply send_exec_report_rx.
Qed.

Lemma on_new_order_rx m (g : Gateway E) s g' s' :
  on_new_order sock_send sock_sendto comp_id m g s = Some (g', s') -> rx_buf s' = rx_buf s.
Proof.
  unfold on_new_order. destruct (_ || _); [apply send_exec_report_rx|]. intros Hs.
  run_bind Hs. destruct r1 as [e id]. run_bind Hs. destruct r1 as [[[bp bs] ap] as_]. run_bind Hs.
  destruct r2 as [g1 s1]. destruct (feed_ g1) as [f|].
  - run_bind Hs. destruct r2 as [f' ?]. simplify_eq. by eapply send_reports_rx.
  - simplify_eq. by eapply send_reports_rx.
Qed.

Lemma send_logout_rx text s s' :
  send_logout sock_send comp_id text s = Some s' -> rx_buf s' = rx_buf s.
Proof. intros Hs. destruct (send_logout_total text s) as (s2 & E2 & Hrx & _). congruence. Qed.

Lemma on_cancel_rx m (g : Gateway E) s g' s' :
  on_cancel sock_send comp_id m g s = Some (g', s') -> rx_buf s' = rx_buf s.
Proof. unfold on_cancel. intros Hs. run_bind Hs. destruct r as [ok e]. by eapply send_exec_report_rx. Qed.

Lemma on_md_request_rx m (g : Gateway E) s g' s' :
  on_md_request sock_send comp_id m g s = Some (g', s') -> rx_buf s' = rx_buf s.
Proof.
  unfold on_md_request. intros Hs. run_bind Hs. destruct r as [[[bp bs] ap] as_]. run_bind Hs.
  simplify_eq. unfold send_md_snapshot in E1. run_bind E1. by apply send_built_rx in E1.
Qed.

Lemma handle_message_rx m (g : Gateway E) s g' s' :
  handle_message sock_send sock_sendto comp_id m g s = Some (g', s') -> rx_buf s' = rx_buf s.
Proof.
  unfold handle_message. destruct (_ && _).
  { intros Hs. run_bind Hs. simplify_eq. by apply send_logout_rx in E0. }
  destruct (_ =? 65).
  { unfold on_logon, send_logon_ack. intros Hs. run_bind Hs. simplify_eq. by apply send_built_rx in E0. }
  destruct (_ =? 53).
  { unfold on_logout. intros Hs. run_bind Hs. simplify_eq. by apply send_logout_rx in E0. }
  destruct (_ =? 48); [by intros [= _ <-]|]. destruct (_ =? 68); [apply on_new_order_rx|].
  destruct (_ =? 70); [apply on_cancel_rx|]. destruct (_ =? 86); [apply on_md_request_rx|].
  by intros [= _ <-].
Qed.

Lemma split_frame_consumed buf f n : split_frame buf = Ok f n -> (0 < n <= length buf)%nat.
Proof.
  intros (l & b & c & rest & -> & -> & -> & _)%split_frame_sound.
  rewrite length_app. unfold frame_of, frame_prefix. simpl. lia.
Qed.

(** One step of the loop. *)
Definition drain_body (rec : Gateway E -> Session -> option (Gateway E * Session))
    (g : Gateway E) (s : Session) : option (Gateway E * Session) :=
  match split_frame (rx_buf s) with
  | Incomplete => Some (g, s)
  | Malformed =>
      s ← send_logout sock_send comp_id (str "malformed FIX frame") s; Some (g, set_running false s)
  | Ok frame consumed =>
      r ← parse_frame frame;
      match r with
      | ParseFail => s ← send_logout sock_send comp_id (str "parse failed") s; Some (g, set_running false s)
      | ParseOk m =>
          '(g, s) ← handle_message sock_send sock_sendto comp_id m g (inc_in_seq s);
          rec g (set_rx (drop consumed (rx_buf s)) s)
      end
  end.

Lemma drain_S fuel g s :
  drain sock_send sock_sendto comp_id (S fuel) g s =
  drain_body (drain sock_send sock_sendto comp_id fuel) g s.
Proof.
  cbn [drain]. unfold drain_iter, drain_body. destruct (split_frame (rx_buf s)) as [f k| |]; [|reflexivity|by destruct (send_logout _ _ _ s)].
  destruct (parse_frame f) as [[m|]|]; [|by destruct (send_logout _ _ _ s)|reflexivity]. cbn [mbind option_bind].
  by destruct (handle_message _ _ _ _ _ _) as [[g1 s1]|].
Qed.

(** The recursive calls of a step are on shorter buffers. *)
Lemma drain_body_ext rec1 rec2 g s :
  (forall g' s', (length (rx_buf s') < length (rx_buf s))%nat -> rec1 g' s' = rec2 g' s') ->
  drain_body rec1 g s = drain_body rec2 g s.
Proof.
  intros Hrec. unfold drain_body. destruct (split_frame (rx_buf s)) as [f k| |] eqn:Es; [|reflexivity|reflexivity].
  apply split_frame_consumed in Es as Hk.
  apply bind_ext. intros [m|] _; [|reflexivity].
  apply bind_ext. intros [g1 s1] Eh. apply handle_message_rx in Eh. apply Hrec. cbn [rx_buf set_rx]. rewrite Eh, length_drop. simpl. lia.
Qed.

Lemma drain_fuel fuel (g : Gateway E) s :
  (length (rx_buf s) < fuel)%nat ->
  drain sock_send sock_sendto comp_id fuel g s =
  drain sock_send sock_sendto comp_id (S (length (rx_buf s))) g s.
Proof.
  remember (length (rx_buf s)) as n eqn:En. revert fuel g s En.
  induction (lt_wf n) as [n _ IH]. intros fuel g s -> Hf. destruct fuel as [|fuel]; [lia|].
  rewrite !drain_S. apply drain_body_ext. intros g' s' Hlt.
  rewrite (IH _ Hlt fuel g' s' eq_refl) by lia. symmetry. by apply (IH _ Hlt).
Qed.

#[local] Abbreviation drain_iter := (drain_iter (E := E) sock_send sock_sendto comp_id).
#[local] Abbreviation drain_eval := (drain_eval (E := E) sock_send sock_sendto comp_id).

(** A round that is followed by another has shortened the buffer. *)
Lemma drain_iter_shorter g s g' s' :
  drain_iter g s = Some (g', s', true) -> (length (rx_buf s') < length (rx_buf s))%nat.
Proof.
  unfold Gateway.drain_iter. intros Hi. destruct (split_frame (rx_buf s)) as [f k| |] eqn:Es; [|done|by destruct (send_logout _ _ _ s)].
  apply split_frame_consumed in Es. destruct (parse_frame f) as [[m|]|]; [|by destruct (send_logout _ _ _ s)|done]. cbn [mbind option_bind] in Hi.
  destruct (handle_message _ _ _ _ _ _) as [[g1 s1]|] eqn:Eh; [|done]. apply handle_message_rx in Eh. simplify_eq/=.
  rewrite Eh, length_drop. simpl. lia.
Qed.

Lemma drain_eval_det g s r1 r2 : drain_eval g s r1 -> drain_eval g s r2 -> r1 = r2.
Proof.
  intros H1. revert r2. induction H1 as [g s Hi|g s g' s' Hi|g s g' s' r Hi _ IH]; intros r2 H2;
    destruct H2; simplify_eq; auto.
Qed.

(** (C16) The drain loop ends.  The loop as it is written, with no bound, stops
    on every receive buffer, after at most one round per byte and one more,
    with exactly one outcome: a gateway and a session, or the undefined
    behaviour of one of its rounds.  That outcome is what the bounded loop
    computes, with any bound above the number of bytes. *)
Theorem drain_terminates (g : Gateway E) s :
  exists r, drain_eval g s r /\ (forall r', drain_eval g s r' -> r' = r) /\
    forall fuel, (length (rx_buf s) < fuel)%nat -> drain sock_send sock_sendto comp_id fuel g s = r.
Proof.
  set (r := drain sock_send sock_sendto comp_id (S (length (rx_buf s))) g s).
  assert (drain_eval g s r) as Hr.
  { subst r. remember (length (rx_buf s)) as n eqn:En. revert g s En.
    induction (lt_wf n) as [n _ IH]. intros g s ->. cbn [drain]. destruct (drain_iter g s) as [[[g' s'] []]|] eqn:Ei.
    - pose proof (drain_iter_shorter _ _ _ _ Ei) as Hlt. apply (drain_again _ _ _ g s g' s'); [done|].
      cbn [mbind option_bind]. rewrite drain_fuel by done. by apply (IH _ Hlt).
    - by apply drain_ends.
    - by apply drain_undefined. }
  exists r. split; [done|]. split; [by intros r' Hr'; eapply drain_eval_det|]. intros fuel. apply drain_fuel.
Qed.

(** ** Undefined inputs *)

Lemma add_double_too_long t x d b : (64 < length (f64_fixed d x))%nat -> add_double t x d b = None.
Proof.
  intros Hl. unfold add_double, snprintf_read. by rewrite (proj2 (Nat.ltb_ge _ _)), (proj2 (Nat.eqb_neq _ _)) by lia.
Qed.

(** (C39) Orders that any logged-on client can send and that are undefined
    behaviour, on every gateway and session: a quantity that is not a number
    with a price and a side that are accepted (it passes the rejection test,
    which compares with 0, and is cast to an integer), and a rejected order
    whose quantity takes more than 64 characters (the report of the rejection
    is read past the end of its buffer). *)
Theorem undefined_orders m (g : Gateway E) s :
  logged_on s = true -> msg_type m = 68 ->
  let qty := get_double m OrderQty f64_zero in let price := get_double m PriceTag f64_zero in
  qty = S754_nan /\ f64_le price f64_zero = false /\ (side_char m = 49 \/ side_char m = 50) \/
  f64_le qty f64_zero = true /\ (64 < length (f64_fixed 0 qty))%nat ->
  handle_message sock_send sock_sendto comp_id m g s = None.
Proof.
  intros Hl Hm qty price Hbad. unfold handle_message. rewrite Hl, Hm. cbn [negb andb Z.eqb Pos.eqb].
  unfold on_new_order. fold qty price. destruct Hbad as [(Hq & Hp & Hs)|[Hq Hlen]].
  - rewrite Hq, Hp. assert (negb (side_char m =? 49) && negb (side_char m =? 50) = false) as -> by (destruct Hs as [-> | ->]; done).
    cbn [f64_le SFleb orb]. cbv zeta. by destruct (f64_to_i64 (f64_add _ _)).
  - rewrite Hq. cbn [orb]. unfold send_exec_report, emit_report. cbn [r_order_qty].
    rewrite (add_double_too_long OrderQty qty) by exact Hlen. reflexivity.
Qed.

(** ** Execution reports *)

Lemma traded_app ts1 ts2 : traded (ts1 ++ ts2) = traded ts1 + traded ts2.
Proof. unfold traded. by rewrite fmap_app, sumZ_app. Qed.

Lemma sum_fills_spec trs : forall acc,
  Forall (fun t => 0 < tr_qty t) trs -> 0 <= acc -> acc + traded trs <= INT64_MAX ->
  sum_fills trs acc = Some (acc + traded trs).
Proof.
  induction trs as [|t trs IH]; intros acc Hp Ha Hm; simpl.
  - unfold traded. simpl. f_equal. lia.
  - apply Forall_cons in Hp as [Ht Hp]. rewrite traded_cons in *. pose proof (traded_nonneg _ Hp).
    rewrite i64_Some by lia64. cbn [mbind option_bind]. rewrite IH by (done || lia). f_equal. lia.
Qed.

(** What the report of one trade must say, [cum] being filled with it. *)
Definition fill_report_ok (qty cum : Z) (t : Trade) (r : ExecReport) : Prop :=
  r_last_qty r = f64_of_Z (tr_qty t) /\ r_cum_qty r = f64_of_Z cum /\
  r_leaves_qty r = f64_of_Z (qty - cum) /\ r_order_qty r = f64_of_Z qty /\
  (r_ord_status r = OS_FILLED <-> cum = qty) /\
  (r_exec_type r = if decide (cum = qty) then EX_FILL else EX_PARTIAL_FILL).

Lemma fill_reports_spec cl sym sc oid qty trs : forall cum notional,
  Forall (fun t => 0 < tr_qty t) trs -> 0 <= cum -> cum + traded trs <= qty -> qty <= INT64_MAX ->
  exists rs, fill_reports cl sym sc oid qty trs cum notional = Some rs /\ length rs = length trs /\
    forall i t, trs !! i = Some t ->
      exists r, rs !! i = Some r /\ fill_report_ok qty (cum + traded (take (S i) trs)) t r.
Proof.
  induction trs as [|t trs IH]; intros cum notional Hp Hc Hle Hq; [by exists []|].
  apply Forall_cons in Hp as [Ht Hp]. rewrite traded_cons in Hle. pose proof (traded_nonneg _ Hp).
  cbn [fill_reports]. rewrite i64_Some by lia64. cbn [mbind option_bind].
  rewrite i64_Some by lia64. cbn [mbind option_bind].
  edestruct (IH (cum + tr_qty t)) as (rs & Ers & Hl & Hr); [done|lia|lia|done|].
  rewrite Ers. cbn [mbind option_bind]. eexists. split; [done|]. split; [simpl; lia|].
  intros [|i] x Hx; simpl in Hx; simplify_eq.
  - eexists. split; [done|]. cbn [take]. rewrite traded_cons. unfold traded. simpl. rewrite Z.add_0_r.
    assert ((match trs with [] => true | _ => false end) && (qty - (cum + tr_qty x) =? 0) =
      bool_decide (cum + tr_qty x = qty)) as Hf.
    { destruct trs as [|t2 trs].
      - rewrite andb_true_l. case_bool_decide; [apply Z.eqb_eq|apply Z.eqb_neq]; lia.
      - apply Forall_cons in Hp as [H2 Hp]. rewrite traded_cons in Hle. pose proof (traded_nonneg _ Hp).
        rewrite bool_decide_false by lia. done. }
    unfold fill_report_ok. simpl. rewrite Hf.
    case_bool_decide as Hd; (split_and!; [done..| |]); [done|by rewrite decide_True|done|by rewrite decide_False].
  - destruct (Hr i x Hx) as (r & Hr1 & Hr2). exists r. split; [done|].
    change (take (S (S i)) (t :: trs)) with (t :: take (S i) trs). by rewrite traded_cons, Z.add_assoc.
Qed.

(** Accounting of execution reports: for an order of [qty] whose trades are
    positive and do not exceed it there is one report per trade, in order, with
    that trade's quantity, the cumulative and the leaves quantity adding up to
    the order, marked filled exactly when the order is complete; an order with
    a remainder gets one more report with the leaves, an order without trades
    a single new report. *)
Theorem order_reports_accounting cl sym sc oid qty trs :
  Forall (fun t => 0 < tr_qty t) trs -> traded trs <= qty -> 0 < qty <= INT64_MAX ->
  exists rs, order_reports cl sym sc oid qty trs = Some rs /\
    length rs = (length trs + if decide (traded trs < qty)%Z then 1 else 0)%nat /\
    (forall i t, trs !! i = Some t ->
       exists r, rs !! i = Some r /\ fill_report_ok qty (traded (take (S i) trs)) t r) /\
    (traded trs < qty -> exists r, last rs = Some r /\ r_exec_type r = EX_NEW /\
       r_leaves_qty r = f64_of_Z (qty - traded trs)).
Proof.
  intros Hp Hle Hq. pose proof (traded_nonneg _ Hp). unfold order_reports.
  rewrite sum_fills_spec by (done || lia64). rewrite Z.add_0_l. cbn [mbind option_bind].
  rewrite i64_Some by lia64. cbn [mbind option_bind]. destruct trs as [|t trs].
  - eexists. split; [done|]. unfold traded in *. simpl in *. rewrite decide_True by lia.
    split_and!; [done|done|]. intros _. by eexists.
  - edestruct (fill_reports_spec cl sym sc oid qty (t :: trs) 0 f64_zero) as (rs & Ers & Hl & Hr); [done|lia|lia|lia|].
    rewrite Ers. cbn [mbind option_bind]. eexists. split; [done|].
    assert (forall i x, (t :: trs) !! i = Some x -> forall k, exists r, (rs ++ k) !! i = Some r /\
      fill_report_ok qty (traded (take (S i) (t :: trs))) x r) as Hr'.
    { intros i x Hx k. destruct (Hr i x Hx) as (r & Hr1 & Hr2). exists r.
      split; [by apply lookup_app_l_Some|done]. }
    destruct (Z.ltb_spec 0 (qty - traded (t :: trs))).
    + rewrite decide_True by lia. split_and!; [rewrite length_app, Hl; done|by intros; apply Hr'|].
      intros _. rewrite last_snoc. by eexists.
    + rewrite decide_False by lia. split_and!; [rewrite length_app, Hl; done|by intros; apply Hr'|lia].
Qed.

End Props.

(** ** A concrete gateway: a socket that takes everything, a small book *)

Definition all_sent (calls : nat) (n : Z) : Z := n.
Definition demo_gateway : Gateway Engine :=
  mkGateway (Engine_with (OrderBook_new 4)) (Some (mkFeed true 0 0 [])) 0 0 1.

Definition msg_logon : bytes := build 65 (str "CLIENT1") (str "ENGINE") 1 [(98, str "0"); (108, str "30")].
Definition msg_logout : bytes := build 53 (str "CLIENT1") (str "ENGINE") 2 [].
Definition msg_order (qty px : bytes) : bytes :=
  build 68 (str "CLIENT1") (str "ENGINE") 3
    [(ClOrdID, str "c1"); (Symbol, str "ACME"); (SideTag, str "1"); (OrderQty, qty); (PriceTag, px)].
Definition msg_cancel (id : bytes) : bytes :=
  build 70 (str "CLIENT1") (str "ENGINE") 4
    [(ClOrdID, str "c2"); (Symbol, str "ACME"); (SideTag, str "1"); (OrderID, id)].

Definition run_session (g : Gateway Engine) (chunks : list bytes) : option (Gateway Engine * Session) :=
  session_loop all_sent (fun n => n) (str "ENGINE") chunks g Session_new.

Lemma logon_required_witness :
  exists s', handle_message all_sent (fun n => n) (str "ENGINE") [(MsgType, str "D")] demo_gateway Session_new
    = Some (demo_gateway, s') /\ running s' = false /\ logged_on s' = false.
Proof.
  apply (logon_required all_sent (fun n => n) (str "ENGINE") [(MsgType, str "D")] demo_gateway Session_new).
  - reflexivity.
  - discriminate.
Defined.

Lemma order_reports_accounting_witness :
  exists rs, order_reports (str "c1") (str "ACME") 49 9 10 [mkTrade 9 1 100 4; mkTrade 9 2 101 5] = Some rs /\
    length rs = 3%nat /\
    (forall i t, [mkTrade 9 1 100 4; mkTrade 9 2 101 5] !! i = Some t ->
       exists r, rs !! i = Some r /\
         fill_report_ok 10 (traded (take (S i) [mkTrade 9 1 100 4; mkTrade 9 2 101 5])) t r) /\
    (9 < 10 -> exists r, last rs = Some r /\ r_exec_type r = EX_NEW /\ r_leaves_qty r = f64_of_Z 1).
Proof.
  apply (order_reports_accounting (str "c1") (str "ACME") 49 9 10 [mkTrade 9 1 100 4; mkTrade 9 2 101 5]).
  - repeat constructor.
  - vm_compute. discriminate.
  - split; [reflexivity|vm_compute; discriminate].
Defined.

Lemma undefined_orders_witness :
  handle_message all_sent (fun n => n) (str "ENGINE")
    [(MsgType, str "D"); (OrderQty, str "nan"); (PriceTag, str "101.25"); (SideTag, str "1")] demo_gateway
    (log_on (str "CLIENT1") Session_new) = None.
Proof.
  apply (undefined_orders all_sent (fun n => n) (str "ENGINE")
    [(MsgType, str "D"); (OrderQty, str "nan"); (PriceTag, str "101.25"); (SideTag, str "1")]).
  - reflexivity.
  - reflexivity.
  - left. split; [vm_compute; reflexivity|]. split; [vm_compute; reflexivity|]. left. reflexivity.
Defined.

(** Two such inputs as bytes on a connection; an ordinary order on the same
    session is answered. *)
Example gateway_undefined_inputs :
  run_session demo_gateway [msg_logon; msg_order (str "nan") (str "101.25")] = None /\
  run_session demo_gateway [msg_logon; msg_order (str "-1e300") (str "101.25")] = None /\
  is_Some (run_session demo_gateway [msg_logon; msg_order (str "100") (str "101.25")]).
Proof. vm_compute. split; [done|]. split; [done|]. by eexists. Qed.

(** Orders are served after a logout that arrives in the same read: the
    session has stopped, yet the order behind the logout is in the book. *)
Theorem order_after_logout_executed :
  (fun '(g, s) => (running s, book_size (book_ (engine_ g)), orders_ g)) <$>
    run_session demo_gateway [msg_logon ++ msg_logout ++ msg_order (str "100") (str "101.25")]
  = Some (false, 1%nat, 1).
Proof. vm_compute. done. Qed.

(** The exchange of a session that rests an order and cancels it: one report
    each, and one market-data update, for the placement only. *)
Example cancel_publishes_nothing :
  (fun '(g, s) => (book_size (book_ (engine_ g)), execs_ g, length <$> (datagrams <$> feed_ g))) <$>
    run_session demo_gateway [msg_logon; msg_order (str "100") (str "101.25"); msg_cancel (str "1")]
  = Some (0%nat, 2, Some 1%nat).
Proof. vm_compute. done. Qed.

(** The message after the first frame of a transmission. *)
Definition second_message (bs : bytes) : Message :=
  match split_frame bs with
  | Ok _ n => match parse_frame (drop n bs) with Some (ParseOk m) => m | _ => [] end
  | _ => []
  end.

(** On an exhausted pool the order is reported new and is not in the book. *)
Example dropped_order_reported_new :
  (fun '(g, s) => (book_size (book_ (engine_ g)),
     let m := second_message (sent s) in (get m OrderID, get m ExecType, get m LeavesQty))) <$>
    run_session (mkGateway (Engine_with (OrderBook_new 0)) None 0 0 1) [msg_logon; msg_order (str "100") (str "101.25")]
  = Some (0%nat, (str "1", [EX_NEW], str "100")).
Proof. vm_compute. done. Qed.
