(* ===== verification/GatewayStream.v ===== *)
(** * The byte stream of a session

    TCP delivers a stream in pieces of any size.  A session that is still open
    at the end is in the same state, has sent the same bytes and has changed
    the engine, the feed and the counters in the same way however the bytes it
    received were cut. *)

From S2P Require Import Prelude Pool OrderedMap Level OrderBook BookSpec Engine Decimal Float64 FixParser FixProps Feed Gateway GatewayProps.

(** ** What handlers do not read *)

(** A change to a session that its handlers neither read nor undo. *)
Class Unread (k : Session -> Session) : Prop := {
  ur_send_calls s : send_calls (k s) = send_calls s;
  ur_sender s : sender_comp (k s) = sender_comp s;
  ur_out_seq s : out_seq (k s) = out_seq s;
  ur_logged_on s : logged_on (k s) = logged_on s;
  ur_transmit bs s : transmit bs (k s) = k (transmit bs s);
  ur_builder b s : set_builder b (k s) = k (set_builder b s);
  ur_inc_out s : inc_out_seq (k s) = k (inc_out_seq s);
  ur_inc_in s : inc_in_seq (k s) = k (inc_in_seq s);
  ur_log_on c s : log_on c (k s) = k (log_on c s);
  ur_stop s : set_running false (k s) = k (set_running false s)
}.

(** The bytes waiting to be framed, and that the session has ended. *)
#[global] Instance unread_rx rx : Unread (set_rx rx).
Proof. by split. Qed.
#[global] Instance unread_stop : Unread (set_running false).
Proof. by split. Qed.

Lemma bind_frame {A B C} (m : option A) (f : A -> option C) (g : A -> option B) (h : B -> C) :
  (forall x, f x = h <$> g x) -> m ≫= f = h <$> (m ≫= g).
Proof. intros Hx. destruct m; [apply Hx|done]. Qed.

Lemma fmap_frame {A B C} (m : option A) (q : A -> A) (f : A -> option C) (g : A -> option B) (h : B -> C) :
  (forall x, f (q x) = h <$> g x) -> (q <$> m) ≫= f = h <$> (m ≫= g).
Proof. intros Hx. destruct m; [apply Hx|done]. Qed.

Section Unread.
Context {E : Type} `{EngineOps E}.
Context (sock_send : nat -> Z -> Z) (sock_sendto : Z -> Z) (comp_id : bytes).

Context (k : Session -> Session) `{!Unread k}.
Abbreviation on_session := (prod_map (@id (Gateway E)) k).

Lemma send_loop_frame fuel : forall bs s,
  send_loop sock_send fuel bs (k s) = k <$> send_loop sock_send fuel bs s.
Proof.
  induction fuel as [|fuel IH]; intros [|c bs] s; try done. cbn [send_loop]. rewrite ur_send_calls, !ur_transmit, ur_stop.
  destruct (_ <=? 0); [done|]. apply IH.
Qed.

Lemma send_built_frame b s : send_built sock_send b (k s) = k <$> send_built sock_send b s.
Proof. unfold send_built. rewrite ur_builder. apply send_loop_frame. Qed.

Lemma send_logout_frame text s :
  send_logout sock_send comp_id text (k s) = k <$> send_logout sock_send comp_id text s.
Proof. unfold send_logout. rewrite ur_sender, ur_out_seq, ur_inc_out. apply send_built_frame. Qed.

Lemma emit_report_frame r eid s :
  emit_report sock_send comp_id r eid (k s) = k <$> emit_report sock_send comp_id r eid s.
Proof.
  unfold emit_report. cbv zeta. rewrite ur_sender, ur_out_seq, ur_inc_out.
  repeat (apply bind_frame; intros ?). apply send_built_frame.
Qed.

Lemma send_exec_report_frame r (g : Gateway E) s :
  send_exec_report sock_send comp_id r g (k s) = on_session <$> send_exec_report sock_send comp_id r g s.
Proof. unfold send_exec_report. rewrite emit_report_frame. by apply fmap_frame. Qed.

Lemma send_reports_frame rs : forall (g : Gateway E) s,
  send_reports sock_send comp_id rs g (k s) = on_session <$> send_reports sock_send comp_id rs g s.
Proof.
  induction rs as [|r rs IH]; intros g s; [done|]. cbn [send_reports]. rewrite send_exec_report_frame.
  apply fmap_frame. intros [g1 s1]. apply IH.
Qed.

Lemma on_new_order_frame m (g : Gateway E) s :
  on_new_order sock_send sock_sendto comp_id m g (k s) =
  on_session <$> on_new_order sock_send sock_sendto comp_id m g s.
Proof.
  unfold on_new_order. cbv zeta. destruct (_ || _); [apply send_exec_report_frame|].
  do 2 (apply bind_frame; intros ?). apply bind_frame. intros [e id]. apply bind_frame. intros [[[bp bs] ap] as_].
  apply bind_frame. intros rs. rewrite send_reports_frame. apply fmap_frame. intros [g1 s1]. simpl.
  destruct (feed_ g1); [|done]. apply bind_frame. by intros [f' ?].
Qed.

Lemma on_cancel_frame m (g : Gateway E) s :
  on_cancel sock_send comp_id m g (k s) = on_session <$> on_cancel sock_send comp_id m g s.
Proof. unfold on_cancel. cbv zeta. apply bind_frame. intros [ok e]. apply send_exec_report_frame. Qed.

Lemma on_md_request_frame m (g : Gateway E) s :
  on_md_request sock_send comp_id m g (k s) = on_session <$> on_md_request sock_send comp_id m g s.
Proof.
  unfold on_md_request. apply bind_frame. intros [[[bp bs] ap] as_].
  assert (forall a b c d e f, send_md_snapshot sock_send comp_id a b c d e f (k s) =
    k <$> send_md_snapshot sock_send comp_id a b c d e f s) as ->.
  { intros. unfold send_md_snapshot. cbv zeta. rewrite ur_sender, ur_out_seq, ur_inc_out.
    repeat (apply bind_frame; intros ?). apply send_built_frame. }
  by apply fmap_frame.
Qed.

Lemma handle_message_frame m (g : Gateway E) s :
  handle_message sock_send sock_sendto comp_id m g (k s) =
  on_session <$> handle_message sock_send sock_sendto comp_id m g s.
Proof.
  unfold handle_message. rewrite ur_logged_on. destruct (_ && _).
  { rewrite send_logout_frame. apply fmap_frame. intros s1. by rewrite ur_stop. }
  destruct (_ =? 65).
  { unfold on_logon, send_logon_ack. cbv zeta.
    rewrite ur_log_on, ur_sender, ur_out_seq, ur_inc_out, send_built_frame. by apply fmap_frame. }
  destruct (_ =? 53).
  { unfold on_logout. rewrite send_logout_frame. apply fmap_frame. intros s1. by rewrite ur_stop. }
  destruct (_ =? 48); [done|]. destruct (_ =? 68); [apply on_new_order_frame|].
  destruct (_ =? 70); [apply on_cancel_frame|]. by destruct (_ =? 86); [apply on_md_request_frame|].
Qed.

End Unread.

Section Stream.
Context {E : Type} `{EngineOps E}.
Context (sock_send : nat -> Z -> Z) (sock_sendto : Z -> Z) (comp_id : bytes).

Abbreviation handle := (handle_message (E := E) sock_send sock_sendto comp_id).
Abbreviation drain := (drain (E := E) sock_send sock_sendto comp_id).
Abbreviation on_chunk := (on_chunk (E := E) sock_send sock_sendto comp_id).
Abbreviation session_loop := (session_loop (E := E) sock_send sock_sendto comp_id).

Lemma handle_rx rx m g s g' s' : handle m g s = Some (g', s') -> handle m g (set_rx rx s) = Some (g', set_rx rx s').
Proof. intros Hh. by rewrite (handle_message_frame sock_send sock_sendto comp_id (set_rx rx)), Hh. Qed.

(** No handler reopens a session. *)
Lemma handle_running m g s g' s' : handle m g s = Some (g', s') -> running s' = true -> running s = true.
Proof.
  intros Hh Hr. destruct (running s) eqn:Es; [done|]. assert (s = set_running false s) as Eq.
  { destruct s. simpl in Es. by subst. }
  rewrite Eq, (handle_message_frame sock_send sock_sendto comp_id (set_running false)) in Hh.
  destruct (handle m g s) as [[g1 s1]|]; [|done]. by injection Hh as <- <-.
Qed.

(** ** The loop over frames *)

(** One step that leaves the session open: no more frames, or one message. *)
Lemma drain_open fuel g s g1 s1 :
  drain (S fuel) g s = Some (g1, s1) -> running s1 = true ->
  (split_frame (rx_buf s) = Incomplete /\ g1 = g /\ s1 = s) \/
  exists f n m g2 s2, split_frame (rx_buf s) = Ok f n /\ parse_frame f = Some (ParseOk m) /\
    handle m g (inc_in_seq s) = Some (g2, s2) /\ rx_buf s2 = rx_buf s /\
    drain fuel g2 (set_rx (drop n (rx_buf s)) s2) = Some (g1, s1).
Proof.
  intros Hd Hr. rewrite drain_S in Hd. unfold drain_body in Hd.
  assert (forall text, (s' ← send_logout sock_send comp_id text s; Some (g, set_running false s')) <> Some (g1, s1)) as Hend.
  { intros text He. destruct (send_logout sock_send comp_id text s) as [s'|]; [|discriminate He].
    injection He as _ <-. discriminate Hr. }
  destruct (split_frame (rx_buf s)) as [f n| |] eqn:Es.
  - right. destruct (parse_frame f) as [[m|]|] eqn:Ep; rewrite ?bind_Some_l in Hd; [|by apply Hend in Hd|discriminate Hd].
    destruct (handle m g (inc_in_seq s)) as [[g2 s2]|] eqn:Eh; [|discriminate Hd]. rewrite bind_Some_l in Hd.
    pose proof (handle_message_rx _ _ _ _ _ _ _ _ Eh : _ = rx_buf s) as Hrx. rewrite Hrx in Hd.
    by exists f, n, m, g2, s2.
  - left. by injection Hd as <- <-.
  - by apply Hend in Hd.
Qed.

Lemma drain_step fuel g s f n m g2 s2 :
  split_frame (rx_buf s) = Ok f n -> parse_frame f = Some (ParseOk m) -> handle m g (inc_in_seq s) = Some (g2, s2) ->
  drain (S fuel) g s = drain fuel g2 (set_rx (drop n (rx_buf s)) s2).
Proof.
  intros Es Ep Eh. rewrite drain_S. unfold drain_body. rewrite Es, Ep. cbn [mbind option_bind]. rewrite Eh. cbn [mbind option_bind].
  pose proof (handle_message_rx _ _ _ _ _ _ _ _ Eh) as Hrx. simpl in Hrx. by rewrite Hrx.
Qed.

Lemma drain_running fuel : forall g s g1 s1, drain fuel g s = Some (g1, s1) -> running s1 = true -> running s = true.
Proof.
  induction fuel as [|fuel IH]; intros g s g1 s1 Hd Hr; [done|].
  destruct (drain_open _ _ _ _ _ Hd Hr) as [(_ & _ & ->)|(f & n & m & g2 & s2 & _ & _ & Eh & _ & Hd')]; [done|].
  apply IH in Hd'; [|done]. by apply handle_running in Eh.
Qed.

(** More bytes after those a session has drained: as if they had come with
    them. *)
Lemma drain_app more fuel : forall g s g1 s1,
  drain fuel g s = Some (g1, s1) -> running s1 = true -> (length (rx_buf s) < fuel)%nat ->
  drain (S (length (rx_buf s ++ more))) g (set_rx (rx_buf s ++ more) s) =
  drain (S (length (rx_buf s1 ++ more))) g1 (set_rx (rx_buf s1 ++ more) s1).
Proof.
  induction fuel as [|fuel IH]; intros g s g1 s1 Hd Hr Hl; [lia|].
  destruct (drain_open _ _ _ _ _ Hd Hr) as [(_ & -> & ->)|(f & n & m & g2 & s2 & Es & Ep & Eh & Hrx & Hd')]; [done|].
  pose proof (split_frame_consumed _ _ _ Es) as Hn.
  rewrite (drain_step _ _ (set_rx (rx_buf s ++ more) s) f n m g2 (set_rx (rx_buf s ++ more) s2)); [|..|done|].
  - cbn [rx_buf set_rx]. rewrite drop_app_le by lia. rewrite <-(IH _ _ _ _ Hd' Hr).
    + cbn [rx_buf set_rx]. apply (drain_fuel sock_send sock_sendto comp_id). cbn [rx_buf set_rx].
      rewrite !length_app, length_drop. lia.
    + cbn [rx_buf set_rx]. rewrite length_drop. lia.
  - cbn [rx_buf set_rx]. rewrite split_frame_stream by congruence. done.
  - exact (handle_rx (rx_buf s ++ more) _ _ _ _ _ Eh).
Qed.

(** The first part of bytes that leave a session open leaves it open. *)
Lemma drain_prefix more n : forall fuel g s g1 s1,
  drain fuel g (set_rx (rx_buf s ++ more) s) = Some (g1, s1) -> running s1 = true -> (length (rx_buf s) < n)%nat ->
  exists g' s', drain n g s = Some (g', s') /\ running s' = true.
Proof.
  induction n as [|n IH]; intros fuel g s g1 s1 Hd Hr Hl; [lia|].
  pose proof (drain_running _ _ _ _ _ Hd Hr) as Hs. destruct fuel as [|fuel]; [done|].
  destruct (split_frame (rx_buf s)) as [f k| |] eqn:Es.
  - destruct (drain_open _ _ _ _ _ Hd Hr) as [(Ei & _)|(f' & k' & m & g2 & s2 & Es' & Ep & Eh & Hrx & Hd')].
    { cbn [rx_buf set_rx] in Ei. rewrite split_frame_stream in Ei by congruence. congruence. }
    cbn [rx_buf set_rx] in Es'. rewrite split_frame_stream, Es in Es' by congruence. injection Es' as <- <-.
    apply (handle_rx (rx_buf s)) in Eh.
    assert (set_rx (rx_buf s) (inc_in_seq (set_rx (rx_buf s ++ more) s)) = inc_in_seq s) as Eq by by destruct s.
    rewrite Eq in Eh. rewrite (drain_step _ _ _ f k m g2 (set_rx (rx_buf s) s2) Es Ep Eh).
    pose proof (split_frame_consumed _ _ _ Es) as Hk.
    eapply (IH fuel _ (set_rx (drop k (rx_buf s)) (set_rx (rx_buf s) s2)) g1 s1); [|done|].
    + cbn [rx_buf set_rx] in *. by rewrite drop_app_le in Hd' by lia.
    + cbn [rx_buf set_rx]. rewrite length_drop. lia.
  - exists g, s. rewrite drain_S. unfold drain_body. by rewrite Es.
  - rewrite drain_S in Hd. unfold drain_body in Hd. cbn [rx_buf set_rx] in Hd.
    rewrite split_frame_stream, Es in Hd by congruence. run_bind Hd. by simplify_eq.
Qed.

(** ** Chunks *)

Lemma on_chunk_app c1 c2 g s g1 s1 :
  on_chunk c1 g s = Some (g1, s1) -> running s1 = true -> on_chunk (c1 ++ c2) g s = on_chunk c2 g1 s1.
Proof.
  unfold Gateway.on_chunk. intros Hd Hr. pose proof (drain_app c2 _ _ _ _ _ Hd Hr) as Ha.
  cbn [rx_buf set_rx] in Ha. rewrite <-!app_assoc in Ha. apply Ha. lia.
Qed.

Lemma on_chunk_prefix c1 c2 g s g1 s1 :
  on_chunk (c1 ++ c2) g s = Some (g1, s1) -> running s1 = true ->
  exists g' s', on_chunk c1 g s = Some (g', s') /\ running s' = true.
Proof.
  unfold Gateway.on_chunk. intros Hd Hr.
  eapply (drain_prefix c2 _ _ g (set_rx (rx_buf s ++ c1) s)); [|exact Hr|simpl; lia].
  cbn [rx_buf set_rx]. rewrite <-app_assoc. exact Hd.
Qed.

(** A stream that leaves the session open, in pieces or at once. *)
Lemma session_loop_whole cs : forall c g s g1 s1,
  Forall (fun c => c <> []) (c :: cs) -> running s1 = true ->
  session_loop (c :: cs) g s = Some (g1, s1) <-> on_chunk (mjoin (c :: cs)) g s = Some (g1, s1).
Proof.
  induction cs as [|c2 cs IH]; intros c g s g1 s1 [Hc Hcs]%Forall_cons Hr.
  - cbn [mjoin list_join]. rewrite app_nil_r. cbn [Gateway.session_loop]. split.
    + destruct (running s) eqn:Es; [|intros [= -> ->]; congruence]. destruct c; [done|].
      destruct (on_chunk _ g s) as [[g' s']|]; done.
    + intros Ho. pose proof (drain_running _ _ _ _ _ Ho Hr) as Hs. simpl in Hs. rewrite Hs. destruct c; [done|].
      by rewrite Ho.
  - change (mjoin (c :: c2 :: cs)) with (c ++ mjoin (c2 :: cs)). split.
    + intros Hl. cbn [Gateway.session_loop] in Hl. destruct (running s) eqn:Es; [|simplify_eq; congruence].
      destruct c as [|x c]; [done|]. destruct (on_chunk (x :: c) g s) as [[g' s']|] eqn:Eo; [|done]. cbn [mbind option_bind] in Hl.
      assert (running s' = true) as Hs'.
      { destruct (running s') eqn:Es'; [done|]. simplify_eq. congruence. }
      rewrite (on_chunk_app _ _ _ _ _ _ Eo Hs'). by apply IH.
    + intros Ho. destruct (on_chunk_prefix _ _ _ _ _ _ Ho Hr) as (g' & s' & Eo & Hs').
      rewrite (on_chunk_app _ _ _ _ _ _ Eo Hs') in Ho. apply IH in Ho; [|done..].
      pose proof (drain_running _ _ _ _ _ Eo Hs') as Hs. simpl in Hs.
      cbn [Gateway.session_loop] in Ho |- *. rewrite Hs. destruct c as [|x c]; [done|]. by rewrite Eo.
Qed.

(** (C14) The cuts of the stream do not matter: when the bytes of a session
    reach the gateway in two different sequences of non-empty chunks and the
    session is open after one of them, it is open after the other, in the same
    state, with the same bytes sent and the same engine, feed and counters. *)
Theorem stream_segmentation cs cs' g s g1 s1 :
  cs <> [] -> cs' <> [] -> Forall (fun c => c <> []) cs -> Forall (fun c => c <> []) cs' -> mjoin cs = mjoin cs' ->
  session_loop cs g s = Some (g1, s1) -> running s1 = true -> session_loop cs' g s = Some (g1, s1).
Proof.
  intros Hn Hn' Hf Hf' Heq Hl Hr. destruct cs as [|c cs]; [done|]. destruct cs' as [|c' cs']; [done|].
  apply session_loop_whole; [done..|]. rewrite <-Heq. by apply session_loop_whole.
Qed.

End Stream.

(** A logon and an order, in one piece and cut in the middle of the logon and
    of the order. *)
Definition demo_stream : bytes := msg_logon ++ msg_order (str "100") (str "101.25").
Definition demo_cuts : list bytes := [take 20 demo_stream; take 90 (drop 20 demo_stream); drop 110 demo_stream].

Lemma stream_segmentation_witness :
  exists g1 s1, run_session demo_gateway demo_cuts = Some (g1, s1) /\ orders_ g1 = 1 /\ logged_on s1 = true.
Proof.
  eexists _, _. split.
  - apply (stream_segmentation all_sent (fun n => n) (str "ENGINE") [demo_stream] demo_cuts).
    + discriminate.
    + discriminate.
    + repeat constructor. vm_compute. discriminate.
    + repeat constructor; vm_compute; discriminate.
    + vm_compute. reflexivity.
    + vm_compute. reflexivity.
    + vm_compute. reflexivity.
  - vm_compute. split; reflexivity.
Defined.

(** A session that ends is another matter: a frame after the logout is served
    when it comes in the same chunk, and not when it comes in the next. *)
Example cuts_matter_after_logout :
  let order := msg_order (str "100") (str "101.25") in
  let placed r := option_map (fun gs => orders_ (gs.1 : Gateway Engine)) r in
  placed (run_session demo_gateway [msg_logon ++ msg_logout ++ order]) = Some 1 /\
  placed (run_session demo_gateway [msg_logon ++ msg_logout; order]) = Some 0.
Proof. vm_compute. split; reflexivity. Qed.
