(* ===== verification/GatewayOrder.v ===== *)
(** * A new order, from the message to the reports on the wire

    What [on_new_order] does for an accepted order, end to end: the engine
    makes the placement of the specification, nothing is undefined, and the
    bytes sent are frames that the FIX codec reads back as one execution report
    per trade, with consecutive sequence and execution numbers and exact
    quantities. *)

From Corelib Require Import SpecFloat.
From S2P Require Import Prelude Pool OrderedMap Level OrderBook BookSpec BookRefine BookQuery BookRun Flow Engine Decimal Float64 FloatBounds Scanf FixParser FixProps Feed Gateway GatewayProps.

(** ** The builder on fields *)

Lemma add_int_built fs t v : add_int t v (built fs) = built (fs ++ [(t, to_chars v)]).
Proof. apply add_str_built. Qed.

Lemma add_char_built fs t c : add_char t c (built fs) = built (fs ++ [(t, [c])]).
Proof. apply (add_str_built fs t [c]). Qed.

Lemma add_double_built fs t v d :
  (length (f64_fixed d v) < 64)%nat ->
  add_double t v d (built fs) = Some (built (fs ++ [(t, f64_fixed d v)])).
Proof.
  intros Hl. unfold add_double. rewrite snprintf_read_fits by done. cbn [mbind option_bind]. f_equal. apply add_str_built.
Qed.

(** ** Fields of a report *)

Definition report_fields (r : ExecReport) (eid : Z) : list Field :=
  [(OrderID, digits (r_order_id r)); (ClOrdID, r_cl_ord_id r); (ExecID, 69 :: digits eid);
   (ExecType, [r_exec_type r]); (OrdStatus, [r_ord_status r]); (Symbol, r_symbol r);
   (SideTag, [r_side r]); (OrderQty, f64_fixed 0 (r_order_qty r)); (CumQty, f64_fixed 0 (r_cum_qty r));
   (LeavesQty, f64_fixed 0 (r_leaves_qty r)); (LastQty, f64_fixed 0 (r_last_qty r));
   (LastPx, f64_fixed 2 (r_last_px r)); (AvgPx, f64_fixed 4 (r_avg_px r))].

(** Every number of the report fits its buffer. *)
Definition fits (d : nat) (x : f64) : Prop := (length (f64_fixed d x) < 64)%nat.

Definition printable (r : ExecReport) : Prop :=
  fits 0 (r_order_qty r) /\ fits 0 (r_cum_qty r) /\ fits 0 (r_leaves_qty r) /\ fits 0 (r_last_qty r) /\
  fits 2 (r_last_px r) /\ fits 4 (r_avg_px r).

(** Text without a separator, and short. *)
Definition text_ok (v : bytes) : Prop := Forall (fun c => c <> SOH) v /\ (length v <= 1000)%nat.

#[global] Instance text_ok_dec v : Decision (text_ok v).
Proof. unfold text_ok. apply _. Defined.

Definition report_ok (r : ExecReport) : Prop :=
  printable r /\ text_ok (r_cl_ord_id r) /\ text_ok (r_symbol r) /\ 0 <= r_order_id r < UINT64_SIZE /\
  r_exec_type r <> SOH /\ r_ord_status r <> SOH /\ r_side r <> SOH.

Lemma digits_text n : 0 <= n < UINT64_SIZE -> text_ok (digits n).
Proof.
  intros Hn. destruct (digits_spec n Hn) as (_ & Hd & _ & Hl). split.
  - eapply Forall_impl; [exact Hd|]. intros c Hc%is_digit_spec. unfold SOH. lia.
  - transitivity 20%nat; [|lia]. apply Hl; [lia|]. by apply u64_twenty.
Qed.

Lemma digits_go_chars fuel : forall n acc,
  Forall (fun c => c <> SOH) acc -> Forall (fun c => c <> SOH) (digits_go fuel n acc).
Proof.
  induction fuel as [|fuel IH]; intros n acc Ha; simpl; [done|].
  assert (Forall (fun c => c <> SOH) ((48 + n mod 10) :: acc)) as Hc.
  { constructor; [|done]. pose proof (Z.mod_pos_bound n 10). unfold SOH. lia. }
  case_match; auto.
Qed.

Lemma fixed_digits_chars d n : Forall (fun c => c <> SOH) (fixed_digits d n).
Proof.
  unfold fixed_digits, digits_long, pad_left. apply Forall_app_2; [by apply digits_go_chars|].
  case_match; [done|]. constructor; [done|]. apply Forall_app_2; [|by apply digits_go_chars].
  by apply Forall_replicate.
Qed.

Lemma f64_fixed_chars d x : Forall (fun c => c <> SOH) (f64_fixed d x).
Proof.
  assert (forall s : bool, Forall (fun c => c <> SOH) (if s then [45] else [])) as Hs
    by (intros []; repeat constructor; discriminate).
  destruct x as [s|s| |s m e]; cbn [f64_fixed]; try apply Forall_app_2; try apply Hs;
    try apply fixed_digits_chars; apply (bool_decide_unpack _); vm_compute; exact I.
Qed.

Lemma report_fields_ok r eid :
  report_ok r -> 0 <= eid < UINT64_SIZE ->
  Forall field_ok (report_fields r eid) /\ Forall (fun f => (length f.2 <= 1001)%nat) (report_fields r eid).
Proof.
  intros (Hp & [Hc Hcl] & [Hs Hsl] & Ho & Ht & Hst & Hsd) He.
  destruct Hp as (? & ? & ? & ? & ? & ?). unfold fits in *. destruct (digits_text _ Ho), (digits_text _ He).
  split; unfold report_fields; repeat apply Forall_cons_2; try apply Forall_nil_2; cbn [fst snd length];
    try lia; (split; [unfold INT_MAX; vm_compute; by split|]); cbn [fst snd]; try done;
    try apply f64_fixed_chars; try (by repeat constructor).
Qed.

(** The body of a message with [n] such fields. *)
Lemma body_length fs :
  Forall field_ok fs -> Forall (fun f => (length f.2 <= 1001)%nat) fs ->
  Z.of_nat (length (mjoin (encode <$> fs))) <= 1030 * Z.of_nat (length fs).
Proof.
  induction fs as [|[t v] fs IH]; intros Hok Hl; csimpl; [lia|].
  apply Forall_cons in Hok as [[Ht _] Hok], Hl as [Hv Hl]. specialize (IH Hok Hl). cbn [fst snd] in *.
  rewrite length_app. unfold encode at 1. cbn [fst snd]. rewrite length_app. cbn [length]. rewrite length_app. cbn [length].
  assert (length (to_chars t) <= 20)%nat by (apply length_to_chars; unfold INT_MAX in Ht; lia64). lia.
Qed.

(** ** Sending over a connection that takes bytes *)

Section Order.
Context {E : Type} `{HE : MatchingEngine E}.
Context (sock_send : nat -> Z -> Z) (sock_sendto : Z -> Z) (comp_id : bytes).
(** [send] on an open connection takes at least one of the bytes offered. *)
Hypothesis send_ok : forall k n, 0 < n -> 0 < sock_send k n <= n.
Hypothesis comp_id_ok : text_ok comp_id.

(** [k] messages with the bytes [bs] have been sent; nothing else changed. *)
Record advanced (k : nat) (bs : bytes) (s s' : Session) : Prop := {
  adv_comp : sender_comp s' = sender_comp s;
  adv_seq : out_seq s' = u32 (out_seq s + Z.of_nat k);
  adv_in_seq : in_seq s' = in_seq s;
  adv_logged : logged_on s' = logged_on s;
  adv_rx : rx_buf s' = rx_buf s;
  adv_running : running s' = running s;
  adv_sent : sent s' = sent s ++ bs
}.

Lemma send_loop_sent fuel : forall bs s,
  (length bs <= fuel)%nat ->
  exists s', send_loop sock_send fuel bs s = Some s' /\ sender_comp s' = sender_comp s /\
    out_seq s' = out_seq s /\ in_seq s' = in_seq s /\ logged_on s' = logged_on s /\ rx_buf s' = rx_buf s /\
    running s' = running s /\ sent s' = sent s ++ bs.
Proof.
  induction fuel as [|fuel IH]; intros bs s Hl.
  - destruct bs; [|simpl in Hl; lia]. exists s. by rewrite app_nil_r.
  - destruct bs as [|c bs]; [exists s; by rewrite app_nil_r|]. cbn [send_loop].
    pose proof (send_ok (send_calls s) (Z.of_nat (length (c :: bs))) ltac:(simpl; lia)) as Hn.
    set (n := sock_send _ _) in *. rewrite (proj2 (Z.leb_gt n 0)) by lia.
    destruct (IH (drop (Z.to_nat n) (c :: bs)) (transmit (take (Z.to_nat n) (c :: bs)) s))
      as (s' & Es & H1 & H2 & H3 & H4 & H5 & H6 & H7); [rewrite length_drop; simpl in *; lia|].
    exists s'. split_and!; try done. rewrite H7. cbn [sent transmit]. by rewrite <-app_assoc, take_drop.
Qed.

Lemma send_built_sent fs s :
  0 <= out_seq s < 4294967295 ->
  exists s', send_built sock_send (built fs) (inc_out_seq s) = Some s' /\ advanced 1 (wire fs) s s'.
Proof.
  intros Hq. unfold send_built, send_raw, wire.
  destruct (send_loop_sent (length (buf_ (finalize (built fs)))) (buf_ (finalize (built fs)))
    (set_builder (finalize (built fs)) (inc_out_seq s))) as (s' & Es & H1 & H2 & H3 & H4 & H5 & H6 & H7); [done|].
  exists s'. by split.
Qed.

Lemma send_exec_report_sent r (g : Gateway E) s :
  printable r -> 0 <= out_seq s < 4294967295 ->
  exists s', send_exec_report sock_send comp_id r g s =
      Some (mkGateway (engine_ g) (feed_ g) (orders_ g) (u64 (execs_ g + 1)) (u64 (next_exec_id_ g + 1)), s') /\
    advanced 1 (wire (header 56 comp_id (sender_comp s) (out_seq s) ++ report_fields r (next_exec_id_ g))) s s'.
Proof.
  intros (H1 & H2 & H3 & H4 & H5 & H6) Hq. unfold fits in *.
  destruct (send_built_sent (header 56 comp_id (sender_comp s) (out_seq s) ++ report_fields r (next_exec_id_ g)) s Hq)
    as (s' & Es & Ha). exists s'. split; [|exact Ha].
  unfold send_exec_report, emit_report. cbv zeta.
  rewrite begin_built, !add_str_built, !add_char_built, !add_str_built, !add_char_built.
  do 6 (rewrite add_double_built by assumption; rewrite bind_Some_l). rewrite <-!app_assoc.
  unfold report_fields in Es. cbn [app] in *. refine (eq_trans (f_equal (fun o => o ≫= _) Es) _). reflexivity.
Qed.

#[local] Opaque wire.

(** The frames of a list of reports. *)
Definition report_wire (sender : bytes) (seq eid : Z) (i : nat) (r : ExecReport) : list Field :=
  header 56 comp_id sender (seq + Z.of_nat i) ++ report_fields r (eid + Z.of_nat i).

Lemma report_wire_0 sender seq eid r :
  report_wire sender seq eid 0 r = header 56 comp_id sender seq ++ report_fields r eid.
Proof. unfold report_wire. by rewrite !Z.add_0_r. Qed.

Lemma imap_report_wire_S sender seq eid rs :
  imap (fun i => report_wire sender seq eid (S i)) rs = imap (report_wire sender (seq + 1) (eid + 1)) rs.
Proof.
  apply imap_ext. intros i r _. unfold report_wire.
  by replace (seq + 1 + Z.of_nat i) with (seq + Z.of_nat (S i)) by lia;
    replace (eid + 1 + Z.of_nat i) with (eid + Z.of_nat (S i)) by lia.
Qed.

Lemma imap_shift {A B} (f : nat -> A -> B) (x : A) l :
  imap f (x :: l) = f 0%nat x :: imap (fun i => f (S i)) l.
Proof. done. Qed.

Lemma send_reports_sent rs : forall (g : Gateway E) s,
  Forall printable rs -> 0 <= out_seq s -> out_seq s + Z.of_nat (length rs) < 4294967296 ->
  0 <= next_exec_id_ g -> next_exec_id_ g + Z.of_nat (length rs) < UINT64_SIZE ->
  exists s', send_reports sock_send comp_id rs g s =
      Some (mkGateway (engine_ g) (feed_ g) (orders_ g)
              (match rs with [] => execs_ g | _ => u64 (execs_ g + Z.of_nat (length rs)) end)
              (next_exec_id_ g + Z.of_nat (length rs)), s') /\
    advanced (length rs)
      (mjoin (wire <$> imap (report_wire (sender_comp s) (out_seq s) (next_exec_id_ g)) rs)) s s'.
Proof.
  induction rs as [|r rs IH]; intros g s Hp Hq0 Hq He0 He.
  - exists s. simpl. rewrite Z.add_0_r. split; [by destruct g|]. split; try done.
    + rewrite Z.add_0_r. symmetry. apply Z.mod_small. simpl in Hq. lia.
    + simpl. by rewrite app_nil_r.
  - apply Forall_cons in Hp as [Hr Hp]. cbn [length] in *. cbn [send_reports].
    destruct (send_exec_report_sent r g s Hr) as (s1 & E1 & [A1 A2 A3 A4 A5 A6 A7]); [lia|].
    rewrite E1. cbn [mbind option_bind]. unfold u32 in A2. rewrite Z.mod_small in A2 by lia.
    rewrite (u64_small (next_exec_id_ g + 1)) by lia.
    destruct (IH (mkGateway (engine_ g) (feed_ g) (orders_ g) (u64 (execs_ g + 1)) (next_exec_id_ g + 1)) s1)
      as (s2 & E2 & [B1 B2 B3 B4 B5 B6 B7]); [done|rewrite ?A2; simpl; lia..|].
    exists s2. rewrite E2. cbn [engine_ feed_ orders_ execs_ next_exec_id_] in *. split.
    + assert ((match rs with [] => u64 (execs_ g + 1) | _ => u64 (u64 (execs_ g + 1) + Z.of_nat (length rs)) end)
        = u64 (execs_ g + Z.of_nat (S (length rs)))) as ->.
      { destruct rs; [done|]. unfold u64. rewrite Zplus_mod_idemp_l. f_equal. lia. }
      replace (next_exec_id_ g + 1 + Z.of_nat (length rs)) with (next_exec_id_ g + Z.of_nat (S (length rs))) by lia.
      done.
    + rewrite imap_shift. csimpl. split; try congruence.
      * rewrite B2, A2. f_equal. lia.
      * rewrite B7, A7, A1, A2, report_wire_0, <-app_assoc. by rewrite <-imap_report_wire_S.
Qed.

(** ** What the other side reads *)

Fixpoint decode_stream (fuel : nat) (bs : bytes) : option (list Message) :=
  match bs with
  | [] => Some []
  | _ =>
      match fuel, split_frame bs with
      | S fuel, Ok frame n =>
          match parse_frame frame with
          | Some (ParseOk m) => ms ← decode_stream fuel (drop n bs); Some (m :: ms)
          | _ => None
          end
      | _, _ => None
      end
  end.

Definition sendable (fs : list Field) : Prop :=
  Forall field_ok fs /\ Z.of_nat (length (mjoin (encode <$> fs))) <= 999999.

Lemma decode_wires fss : forall fuel,
  Forall sendable fss -> (length fss <= fuel)%nat ->
  decode_stream fuel (mjoin (wire <$> fss)) = Some (parsed <$> fss).
Proof.
  induction fss as [|fs fss IH]; intros fuel Hok Hf; [by destruct fuel|].
  apply Forall_cons in Hok as [[Hfs Hb] Hok]. cbn [length] in Hf. destruct fuel as [|fuel]; [lia|].
  destruct (wire_roundtrip fs (mjoin (wire <$> fss)) Hfs Hb) as [Hs Hp]. rewrite !fmap_cons. cbn [mjoin list_join].
  change (list_join (wire <$> fss)) with (mjoin (wire <$> fss)).
  destruct (wire fs ++ mjoin (wire <$> fss)) as [|c bs] eqn:Eb; [done|]. cbn [decode_stream]. rewrite Hs, Hp, <-Eb.
  rewrite drop_app_length, IH by (done || lia). done.
Qed.

Lemma wires_length fss : (length fss <= length (mjoin (wire <$> fss)))%nat.
Proof.
  induction fss as [|fs fss IH]; [done|]. rewrite fmap_cons. cbn [length mjoin list_join].
  change (list_join (wire <$> fss)) with (mjoin (wire <$> fss)). rewrite length_app.
  pose proof (wire_length fs). apply (Nat.add_le_mono 1 _ (length fss)); [lia|exact IH].
Qed.

Lemma report_sendable sender seq eid i r :
  text_ok sender -> report_ok r -> i64_range (seq + Z.of_nat i) -> 0 <= eid + Z.of_nat i < UINT64_SIZE ->
  sendable (report_wire sender seq eid i r).
Proof.
  intros [Hs Hsl] Hr Hq He. destruct comp_id_ok as [Hc Hcl]. destruct (report_fields_ok r _ Hr He) as [H1 H2].
  assert (Forall field_ok (header 56 comp_id sender (seq + Z.of_nat i)) /\
    Forall (fun f => (length f.2 <= 1001)%nat) (header 56 comp_id sender (seq + Z.of_nat i))) as [H3 H4].
  { pose proof (length_to_chars _ Hq) as Hl.
    assert (Forall num_char (to_chars (seq + Z.of_nat i))) as Hn by (apply to_chars_chars; lia64).
    split; unfold header; repeat apply Forall_cons_2; try apply Forall_nil_2; cbn [fst snd length]; try lia;
      (split; [unfold INT_MAX; vm_compute; by split|]); cbn [fst snd]; try done.
    - by repeat constructor.
    - eapply Forall_impl; [exact Hn|]. unfold SOH. intros c [->|]; lia. }
  assert (Forall field_ok (report_wire sender seq eid i r)) as Hf by by apply Forall_app_2.
  split; [done|]. etransitivity; [apply body_length; [done|by apply Forall_app_2]|].
  unfold report_wire. rewrite length_app. simpl. lia.
Qed.

(** ** The numbers of the reports *)

Lemma length_Z d z : i64_range z -> (d <= 4)%nat -> (length (f64_fixed d (f64_of_Z z)) <= 22 + d)%nat.
Proof.
  intros Hz Hd. apply (length_f64_fixed d _ 1 63 20); [|lia..|done]. apply f64_of_Z_atmost; [done|lia|].
  change (1 * 2 ^ 63) with 9223372036854775808. lia64.
Qed.

Lemma fits_Z d z : i64_range z -> (d <= 4)%nat -> fits d (f64_of_Z z).
Proof. intros Hz Hd. pose proof (length_Z d z Hz Hd). unfold fits. lia. Qed.

Lemma fits_zero d : (d <= 4)%nat -> fits d f64_zero.
Proof. intros Hd. unfold fits. do 5 (destruct d as [|d]; [vm_compute; lia|]). lia. Qed.

Lemma price_double_atmost px : i64_range px -> f64_atmost (f64_div (f64_of_Z px) hundred) 1 63.
Proof.
  intros Hp. apply (f64_div_atmost _ _ 1 63 1 7); [| | |lia..].
  - apply f64_of_Z_atmost; [done|lia|]. change (1 * 2 ^ 63) with 9223372036854775808. lia64.
  - by apply f64_of_Z_atleast.
  - by apply f64_of_Z_atmost.
Qed.

Lemma length_price d px :
  i64_range px -> (d <= 4)%nat -> (length (f64_fixed d (f64_div (f64_of_Z px) hundred)) <= 22 + d)%nat.
Proof.
  intros Hp Hd. apply (length_f64_fixed d _ 1 63 20); [by apply price_double_atmost|lia..|done].
Qed.

Lemma fits_price d px : i64_range px -> (d <= 4)%nat -> fits d (f64_div (f64_of_Z px) hundred).
Proof. intros Hp Hd. pose proof (length_price d px Hp Hd). unfold fits. lia. Qed.

Definition fill_ok (t : Trade) : Prop := 0 < tr_qty t /\ i64_range (tr_price t).

Lemma fill_reports_ok cl sym sc oid qty trs : forall cum notional rs,
  fill_reports cl sym sc oid qty trs cum notional = Some rs ->
  Forall fill_ok trs -> 0 <= cum -> cum + traded trs <= qty -> qty < 2 ^ 53 ->
  f64_atmost notional cum 126 ->
  text_ok cl -> text_ok sym -> 0 <= oid < UINT64_SIZE -> sc <> SOH ->
  Forall (fun r => report_ok r /\ r_order_id r = oid) rs.
Proof.
  induction trs as [|t trs IH]; intros cum notional rs Hrs Hok Hc Hle Hq Hn Hcl Hsym Hoid Hsc; simpl in Hrs.
  { by simplify_eq. }
  apply Forall_cons in Hok as [[Ht Hp] Hok]. rewrite traded_cons in Hle.
  assert (Forall (fun t => 0 < tr_qty t) trs) as Hpos by (eapply Forall_impl; [exact Hok|]; by intros ? []).
  pose proof (traded_nonneg _ Hpos). change (2 ^ 53) with 9007199254740992 in Hq.
  run_bind Hrs. i64_invs. simplify_eq.
  match goal with H : fill_reports _ _ _ _ _ _ _ ?n = Some _ |- _ => set (n' := n) in * end.
  assert (f64_atmost n' (cum + tr_qty t) 126) as Hn'.
  { apply (f64_atmost_mono _ (cum + 1)); [|lia|lia].
    apply f64_add_atmost; [done| |lia|lia|lia|lia].
    apply (f64_mul_atmost _ _ 1 63 1 63); [by apply price_double_atmost| |lia|lia|lia|lia|done].
    apply f64_of_Z_atmost; [done|lia|]. change (1 * 2 ^ 63) with 9223372036854775808. lia. }
  constructor; [|by eapply IH; try done; lia].
  split; [|done]. split; [|split; [done|split; [done|split; [done|split_and!; [| |done]; cbn [r_exec_type r_ord_status];
    by case_match]]]].
  unfold printable. cbn [r_order_qty r_cum_qty r_leaves_qty r_last_qty r_last_px r_avg_px].
  split_and!; [apply fits_Z; [lia64|lia]..|by apply fits_price; [|lia]|].
  unfold fits. assert (length (f64_fixed 4 (f64_div n' (f64_of_Z (cum + tr_qty t)))) <= 2 + 54 + 4)%nat; [|lia].
  apply (length_f64_fixed 4 _ (cum + tr_qty t) 126); [|lia..|].
  - apply (f64_div_atmost _ _ _ 126 1 63); [done| | |lia|lia|change (2 ^ 53) with 9007199254740992; lia|lia].
    + apply f64_of_Z_atleast; [done|]. change (2 ^ 64) with UINT64_SIZE. lia64.
    + apply f64_of_Z_atmost; [done|lia|]. change (1 * 2 ^ 63) with 9223372036854775808. lia.
  - apply Z.le_lt_trans with (9007199254740992 * 2 ^ 126); [|done]. apply Z.mul_le_mono_nonneg_r; [done|lia].
Qed.

Lemma order_reports_ok cl sym sc oid qty trs rs :
  order_reports cl sym sc oid qty trs = Some rs ->
  Forall fill_ok trs -> traded trs <= qty -> 0 < qty < 2 ^ 53 ->
  text_ok cl -> text_ok sym -> 0 <= oid < UINT64_SIZE -> sc <> SOH ->
  Forall (fun r => report_ok r /\ r_order_id r = oid) rs.
Proof.
  intros Hrs Hok Hle Hq Hcl Hsym Hoid Hsc. change (2 ^ 53) with 9007199254740992 in Hq.
  assert (Forall (fun t => 0 < tr_qty t) trs) as Hpos by (eapply Forall_impl; [exact Hok|]; by intros ? []).
  pose proof (traded_nonneg _ Hpos). unfold order_reports in Hrs.
  rewrite sum_fills_spec in Hrs by (done || lia64). rewrite Z.add_0_l in Hrs. cbn [mbind option_bind] in Hrs.
  rewrite i64_Some in Hrs by lia64. cbn [mbind option_bind] in Hrs.
  assert (forall st cum lv, st <> SOH -> fits 0 cum -> i64_range lv ->
    report_ok (mkReport cl oid EX_NEW st sc sym (f64_of_Z qty) cum (f64_of_Z lv) f64_zero f64_zero f64_zero)) as Hnew.
  { intros st cum lv Hst Hcum Hlv. split; [|split; [done|split; [done|split; [done|by split_and!]]]].
    unfold printable. cbn [r_order_qty r_cum_qty r_leaves_qty r_last_qty r_last_px r_avg_px].
    split_and!; try done; try (apply fits_zero; lia); apply fits_Z; lia64. }
  destruct trs as [|t trs].
  - simplify_eq. apply Forall_singleton. split; [|done]. apply Hnew; [done|apply fits_zero; lia|lia64].
  - run_bind Hrs. simplify_eq. apply Forall_app_2.
    + eapply (fill_reports_ok _ _ _ _ _ (t :: trs) 0 f64_zero); [done|done|lia|lia|lia|simpl; lia|done..].
    + case_match; [|apply Forall_nil_2]. apply Forall_singleton. split; [|done].
      apply Hnew; [done|apply fits_Z; [lia64|lia]|lia64].
Qed.

(** ** The published record *)

Lemma publish_l1_total f symbol bid bsz ask asz :
  0 <= seq_ f -> i64_range bid -> i64_range bsz -> i64_range ask -> i64_range asz ->
  is_Some (publish_l1 sock_sendto f symbol (f64_div (f64_of_Z bid) hundred) (f64_of_Z bsz)
             (ask_double ask) (f64_of_Z asz)).
Proof.
  intros Hs Hb Hbs Ha Has. unfold publish_l1. case_match; [by eexists|]. cbv zeta.
  assert (length (f64_fixed 2 (ask_double ask)) <= 24)%nat as Hask.
  { unfold ask_double. case_match; [apply length_price; [done|lia]|vm_compute; lia]. }
  pose proof (length_price 2 bid Hb ltac:(lia)) as Hbid. pose proof (length_Z 0 bsz Hbs ltac:(lia)) as Hbsz.
  pose proof (length_Z 0 asz Has ltac:(lia)) as Hasz.
  destruct (digits_spec (u64 (seq_ f + 1)) (u64_range _)) as (_ & _ & _ & Hd).
  specialize (Hd 20%nat ltac:(lia) ltac:(apply u64_twenty, u64_range)).
  assert (length (until_nul (take 31 symbol)) <= 31)%nat as Hsym.
  { transitivity (length (take 31 symbol)); [|rewrite length_take; lia].
    generalize (take 31 symbol). intros bs. induction bs as [|c bs IH]; simpl; [lia|]. case_match; simpl; lia. }
  rewrite snprintf_read_fits; [by eexists|]. unfold l1_record.
  rewrite !length_app. cbn [length str]. lia.
Qed.

(** ** The handler *)

(** The message asks for an order the gateway accepts. *)
Record order_msg (m : Message) (side : Side) (px : Price) (qty : Quantity) : Prop := {
  om_side : side_char m = match side with Buy => 49 | Sell => 50 end;
  om_qty_pos : f64_le (get_double m OrderQty f64_zero) f64_zero = false;
  om_px_pos : f64_le (get_double m PriceTag f64_zero) f64_zero = false;
  om_px : f64_to_i64 (f64_add (f64_mul (get_double m PriceTag f64_zero) hundred) f64_half) = Some px;
  om_qty : f64_to_i64 (get_double m OrderQty f64_zero) = Some qty;
  om_cl : text_ok (get m ClOrdID);
  om_sym : text_ok (get m Symbol)
}.

Lemma read_l1_total B (e : E) a :
  e_abs e a -> flow_ok B a -> B <= INT64_MAX ->
  exists bid bsz ask asz, read_l1 e = Some (bid, bsz, ask, asz) /\
    i64_range bid /\ i64_range bsz /\ i64_range ask /\ i64_range asz.
Proof.
  intros Ha Hf HB. unfold read_l1. rewrite (e_best_bid_law _ _ Ha), (e_best_ask_law _ _ Ha).
  pose proof (e_abs_wf _ _ Ha) as Hwf.
  assert (forall s px, i64_range (depth (at_price px (ab_side a s)))) as Hd.
  { intros s px. pose proof (depth_at_price B a s px Hwf Hf). lia64. }
  assert (forall s, Forall (fun o => price_ok (o_price o)) (ab_side a s)) as Hp by apply Hf.
  unfold price_ok in Hp. change (2 ^ 62) with 4611686018427387904 in Hp.
  assert (exists sz, (if 0 <? match ab_bids a with [] => 0 | o :: _ => o_price o end
    then e_qty_at e Buy (match ab_bids a with [] => 0 | o :: _ => o_price o end) else Some 0) = Some sz /\ i64_range sz)
    as (bsz & -> & Hbsz).
  { case_match; [rewrite (e_qty_at_law _ _ _ _ Ha), i64_Some by done; by eexists|]. exists 0. split; [done|lia64]. }
  assert (exists sz, (if match ab_asks a with [] => INT64_MAX | o :: _ => o_price o end <? INT64_MAX
    then e_qty_at e Sell (match ab_asks a with [] => INT64_MAX | o :: _ => o_price o end) else Some 0) = Some sz /\ i64_range sz)
    as (asz & -> & Hasz).
  { case_match; [rewrite (e_qty_at_law _ _ _ _ Ha), i64_Some by done; by eexists|]. exists 0. split; [done|lia64]. }
  do 4 eexists. split; [done|]. pose proof (Hp Buy) as Hb. pose proof (Hp Sell) as Hs. simpl in Hb, Hs.
  split_and!; try done.
  - destruct (ab_bids a) as [|o os]; [lia64|]. apply Forall_cons in Hb as [? _]. lia64.
  - destruct (ab_asks a) as [|o os]; [lia64|]. apply Forall_cons in Hs as [? _]. lia64.
Qed.

Lemma aplace_trades_ok B a side px qty :
  abook_wf a -> flow_ok B a -> 0 < qty ->
  let trs := (aplace a side px qty).2 in
  Forall fill_ok trs /\ Forall (fun t => 0 < tr_qty t) trs /\ traded trs <= qty.
Proof.
  intros Hwf Hf Hq trs. destruct (aplace_shape a side px qty) as (q & r & Hm & _). fold trs in Hm.
  pose proof (awf_positive _ (opposite side) Hwf) as Hpos.
  destruct (amatch_conserve _ _ _ _ _ _ _ _ Hpos Hm) as (Hq' & _ & Hge).
  pose proof (amatch_trades_positive _ _ _ _ _ _ _ _ Hpos Hm) as Htp.
  split; [|split; [done|]; specialize (Hge ltac:(lia)); lia].
  pose proof (amatch_fills _ _ _ _ _ _ _ _ Hpos Hm) as Hfl. pose proof (fo_price _ _ Hf (opposite side)) as Hp.
  apply (Forall_take _ (length trs)) in Hp.
  clear -Hfl Hp. induction Hfl as [|o t os ts Hft _ IH]; [constructor|]. apply Forall_cons in Hp as [Hpx Hp].
  constructor; [|by apply IH]. destruct Hft as (_ & _ & Epx & _ & ?).
  unfold price_ok in Hpx. change (2 ^ 62) with 4611686018427387904 in Hpx.
  split; [lia|rewrite Epx; lia64].
Qed.

(** The report of one fill as the counterparty reads it. *)
Record fill_message (id seq eid qty cum : Z) (t : Trade) (m : Message) : Prop := {
  fm_type : msg_type m = 56;
  fm_seq : get m MsgSeqNum = to_chars seq;
  fm_order : get m OrderID = digits id;
  fm_exec : get m ExecID = 69 :: digits eid;
  fm_last : get m LastQty = digits (tr_qty t);
  fm_cum : get m CumQty = digits cum;
  fm_leaves : get m LeavesQty = digits (qty - cum);
  fm_exec_type : get m ExecType = [if decide (cum = qty) then EX_FILL else EX_PARTIAL_FILL];
  fm_status : get m OrdStatus = [OS_FILLED] <-> cum = qty
}.

Lemma report_fill_message id seq eid qty cum t r sender i :
  fill_report_ok qty cum t r -> r_order_id r = id -> 0 < tr_qty t -> tr_qty t <= cum -> cum <= qty -> qty < 2 ^ 53 ->
  fill_message id (seq + Z.of_nat i) (eid + Z.of_nat i) qty cum t (parsed (report_wire sender seq eid i r)).
Proof.
  intros (H1 & H2 & H3 & H4 & H5 & H6) Hid Ht Htc Hcq Hq.
  split; try reflexivity.
  - by rewrite <-Hid.
  - rewrite <-(f64_fixed_int (tr_qty t)) by lia. by rewrite <-H1.
  - rewrite <-(f64_fixed_int cum) by lia. by rewrite <-H2.
  - rewrite <-(f64_fixed_int (qty - cum)) by lia. by rewrite <-H3.
  - by rewrite <-H6.
  - rewrite <-H5. change (get _ OrdStatus) with [r_ord_status r]. split; [by intros [=]|by intros ->].
Qed.

Lemma traded_take_bounds trs i t :
  Forall (fun t => 0 < tr_qty t) trs -> trs !! i = Some t ->
  tr_qty t <= traded (take (S i) trs) <= traded trs.
Proof.
  intros Hp Hi. assert (traded trs = traded (take (S i) trs) + traded (drop (S i) trs)) as Hs
    by by rewrite <-traded_app, take_drop.
  assert (traded (take (S i) trs) = traded (take i trs) + tr_qty t) as Ht.
  { rewrite (take_S_r _ _ _ Hi), traded_app. unfold traded at 2. simpl. lia. }
  pose proof (traded_nonneg (take i trs) (Forall_take _ _ _ Hp)).
  pose proof (traded_nonneg (drop (S i) trs) (Forall_drop _ _ _ Hp)). lia.
Qed.

(** An accepted order runs to the end of its handler. *)
Lemma on_new_order_runs m (g : Gateway E) s side px qty e' id bid bsz ask asz rs g2 s' :
  order_msg m side px qty -> match feed_ g with Some f => 0 <= seq_ f | None => True end ->
  e_place (engine_ g) side px qty = Some (e', id) -> read_l1 e' = Some (bid, bsz, ask, asz) ->
  i64_range bid -> i64_range bsz -> i64_range ask -> i64_range asz ->
  order_reports (get m ClOrdID) (get m Symbol) (side_char m) id qty (e_last_trades e') = Some rs ->
  send_reports sock_send comp_id rs
    (mkGateway e' (feed_ g) (u64 (orders_ g + 1)) (execs_ g) (next_exec_id_ g)) s = Some (g2, s') ->
  feed_ g2 = feed_ g ->
  exists g', on_new_order sock_send sock_sendto comp_id m g s = Some (g', s') /\
    engine_ g' = engine_ g2 /\ orders_ g' = orders_ g2.
Proof.
  intros [Hside Hqp Hpp Hpx Hqt _ _] Hfeed Ep El Hb Hbs Ha Has Ers Es Hf2.
  unfold on_new_order. rewrite Hqp, Hpp. cbn [orb].
  replace (negb (side_char m =? 49) && negb (side_char m =? 50)) with false by (rewrite Hside; by destruct side).
  rewrite Hpx, bind_Some_l, Hqt, bind_Some_l.
  replace (if side_char m =? 49 then Buy else Sell) with side by (rewrite Hside; by destruct side).
  cbn [engine_]. rewrite Ep, bind_Some_l, El, bind_Some_l, Ers, bind_Some_l.
  unfold set_engine. cbn [engine_ feed_ orders_ execs_ next_exec_id_]. rewrite Es, bind_Some_l, Hf2.
  destruct (feed_ g) as [f|]; [|by eexists].
  destruct (publish_l1_total f (get m Symbol) bid bsz ask asz Hfeed Hb Hbs Ha Has) as [[f' ?] ->].
  rewrite bind_Some_l. by eexists.
Qed.

(** The stream of the reports [rs] reads back as those reports. *)
Lemma reports_decode rs sender seq eid oid :
  Forall (fun r => report_ok r /\ r_order_id r = oid) rs -> text_ok sender ->
  0 <= seq -> seq + Z.of_nat (length rs) < 4294967296 -> 0 <= eid -> eid + Z.of_nat (length rs) < UINT64_SIZE ->
  let wires := imap (report_wire sender seq eid) rs in
  let tx := mjoin (wire <$> wires) in
  decode_stream (length tx) tx = Some (parsed <$> wires).
Proof.
  intros Hok Hsc Hs0 Hs1 He0 He1. apply decode_wires.
  - apply Forall_lookup. intros i fs. rewrite list_lookup_imap. intros (r & Hr & ->)%fmap_Some.
    apply lookup_lt_Some in Hr as Hi. rewrite Forall_lookup in Hok. destruct (Hok _ _ Hr) as [Hrok _].
    apply report_sendable; [done|done|lia64|lia64].
  - apply wires_length.
Qed.

(** (C6) A new order end to end: on any represented engine, a message that asks
    for a positive quantity below 2^53 is served without undefined behaviour,
    and the engine makes exactly the placement of the specification.  The bytes
    sent decode, with the codec's own framing and parsing, to one execution
    report per trade, in order, with consecutive sequence numbers and execution
    ids, the exact traded, cumulative and remaining quantities, and the filled
    status exactly on the fill that completes the order; an order that is not
    filled gets one more report, of type new, with what remains of it. *)
Theorem new_order_end_to_end B m (g : Gateway E) s a side px qty :
  order_msg m side px qty -> e_abs (engine_ g) a -> flow_ok B a -> B + qty <= INT64_MAX ->
  price_ok px -> 0 < qty < 2 ^ 53 -> ab_next_id a + 1 < UINT64_SIZE -> text_ok (sender_comp s) ->
  match feed_ g with Some f => 0 <= seq_ f | None => True end ->
  let '(a', id, trs) := aplace a side px qty in
  let n := (length trs + if decide (traded trs < qty)%Z then 1 else 0)%nat in
  0 <= out_seq s -> out_seq s + Z.of_nat n < 4294967296 ->
  0 <= next_exec_id_ g -> next_exec_id_ g + Z.of_nat n < UINT64_SIZE ->
  exists g' s' tx msgs,
    on_new_order sock_send sock_sendto comp_id m g s = Some (g', s') /\ e_abs (engine_ g') a' /\
    orders_ g' = u64 (orders_ g + 1) /\ advanced n tx s s' /\
    decode_stream (length tx) tx = Some msgs /\ length msgs = n /\
    (forall i t, trs !! i = Some t -> exists msg, msgs !! i = Some msg /\
       fill_message id (out_seq s + Z.of_nat i) (next_exec_id_ g + Z.of_nat i) qty
         (traded (take (S i) trs)) t msg) /\
    (traded trs < qty -> exists msg, last msgs = Some msg /\ get msg OrderID = digits id /\
       get msg ExecType = [EX_NEW] /\ get msg LeavesQty = digits (qty - traded trs)).
Proof.
  intros Hm Ha Hf HB Hp Hq Hid Hsc Hfeed. pose proof Hm as [Hside _ _ _ _ Hcl Hsym].
  pose proof (e_abs_wf _ _ Ha) as Hwf.
  destruct (aplace_trades_ok B a side px qty Hwf Hf ltac:(lia)) as (Hfo & Hpos & Hle).
  destruct (e_place_law _ a side px qty Ha Hid) as (e' & Ep & Et & Ha').
  { change (2 ^ 53) with 9007199254740992 in Hq. lia64. }
  pose proof (aplace_flow B a side px qty Hwf Hf Hp) as Hf'.
  destruct (aplace_shape a side px qty) as (_ & _ & _ & Eid & _).
  destruct (aplace a side px qty) as [[a' id] trs]. cbn [fst snd] in *. subst id.
  intros Hs0 Hs1 He0 He1. set (n := (length trs + (if decide (traded trs < qty)%Z then 1 else 0))%nat) in *.
  destruct (read_l1_total _ _ _ Ha' Hf') as (bid & bsz & ask & asz & El & Hb1 & Hb2 & Hb3 & Hb4); [lia|].
  assert (0 <= ab_next_id a < UINT64_SIZE) as Hidr by (pose proof (awf_next_id _ Hwf); lia).
  change (2 ^ 53) with 9007199254740992 in Hq.
  destruct (order_reports_accounting (get m ClOrdID) (get m Symbol) (side_char m) (ab_next_id a) qty trs)
    as (rs & Ers & Hlen & Hrs & Hlast); [done|done|lia64|]. fold n in Hlen.
  assert (Forall (fun r => report_ok r /\ r_order_id r = ab_next_id a) rs) as Hok.
  { apply (order_reports_ok _ _ _ _ _ _ _ Ers); try done. rewrite Hside. by destruct side. }
  assert (Forall printable rs) as Hpr by (eapply Forall_impl; [exact Hok|]; by intros r [[] _]).
  set (g1 := mkGateway e' (feed_ g) (u64 (orders_ g + 1)) (execs_ g) (next_exec_id_ g)).
  destruct (send_reports_sent rs g1 s Hpr) as (s' & Es & Hadv); [rewrite ?Hlen; done..|].
  rewrite Hlen in Hadv. set (tx := mjoin _) in Hadv.
  destruct (on_new_order_runs m g s side px qty e' (ab_next_id a) bid bsz ask asz rs _ s' Hm Hfeed Ep El
    Hb1 Hb2 Hb3 Hb4 ltac:(by rewrite Et) Es eq_refl) as (g' & Eg & Ee & Eo).
  exists g', s', tx, (parsed <$> imap (report_wire (sender_comp s) (out_seq s) (next_exec_id_ g)) rs).
  split_and!; [done|by rewrite Ee|done|done| | | |].
  - apply (reports_decode rs _ _ _ (ab_next_id a)); rewrite ?Hlen; done.
  - by rewrite length_fmap, length_imap.
  - intros i t Hi. destruct (Hrs i t Hi) as (r & Hr & Hfr). eexists. split.
    + rewrite list_lookup_fmap, list_lookup_imap, Hr. reflexivity.
    + destruct (traded_take_bounds trs i t Hpos Hi). rewrite Forall_lookup in Hpos. rewrite Forall_lookup in Hok.
      apply report_fill_message; try done; [by apply (Hok _ _ Hr)|by apply (Hpos _ _ Hi)|lia|].
      change (2 ^ 53) with 9007199254740992. lia.
  - intros Hlt. destruct (Hlast Hlt) as (r & Hr & Hty & Hlv). rewrite last_lookup in Hr. eexists. split.
    + rewrite last_lookup, length_fmap, length_imap, list_lookup_fmap, list_lookup_imap, Hr. reflexivity.
    + rewrite Forall_lookup in Hok. destruct (Hok _ _ Hr) as [_ Ho]. pose proof (traded_nonneg _ Hpos).
      split; [|split; [by rewrite <-Hty|]].
      * rewrite <-Ho. reflexivity.
      * rewrite <-(f64_fixed_int (qty - traded trs)) by (change (2 ^ 53) with 9007199254740992; lia).
        rewrite <-Hlv. reflexivity.
Qed.
End Order.

(** *** The theorem at a concrete order *)

(** A buyer asks the demonstration book for 50 at 1.01. *)
Definition demo_order : Message :=
  [(MsgType, str "D"); (ClOrdID, str "c1"); (Symbol, str "ACME"); (SideTag, str "1"); (OrderQty, str "50"); (PriceTag, str "1.01")].
Definition order_gateway : Gateway Engine := mkGateway demo_engine (Some (mkFeed true 0 0 [])) 0 0 1.

Lemma demo_order_msg : order_msg demo_order Buy 101 50.
Proof. split; try reflexivity; apply (bool_decide_eq_true_1 (text_ok _)); vm_compute; reflexivity. Qed.

Lemma all_sent_ok k n : 0 < n -> 0 < all_sent k n <= n.
Proof. unfold all_sent. lia. Qed.

Lemma new_order_end_to_end_witness :
  exists g' s' tx msgs,
    on_new_order all_sent (fun n => n) (str "ENGINE") demo_order order_gateway Session_new = Some (g', s') /\
    refines (book_ (engine_ g')) (aplace demo_abook Buy 101 50).1.1 /\ orders_ g' = 1 /\
    advanced 3 tx Session_new s' /\
    decode_stream (length tx) tx = Some msgs /\ length msgs = 3%nat /\
    (forall i t, [mkTrade 6 1 101 4; mkTrade 6 4 101 6] !! i = Some t -> exists msg, msgs !! i = Some msg /\
       fill_message 6 (1 + Z.of_nat i) (1 + Z.of_nat i) 50
         (traded (take (S i) [mkTrade 6 1 101 4; mkTrade 6 4 101 6])) t msg) /\
    (10 < 50 -> exists msg, last msgs = Some msg /\ get msg OrderID = digits 6 /\
       get msg ExecType = [EX_NEW] /\ get msg LeavesQty = digits 40).
Proof.
  pose proof (new_order_end_to_end all_sent (fun n => n) (str "ENGINE") all_sent_ok
    (bool_decide_eq_true_1 (text_ok (str "ENGINE")) eq_refl)
    100 demo_order order_gateway Session_new demo_abook Buy 101 50 demo_order_msg demo_refines demo_flow) as H.
  assert (aplace demo_abook Buy 101 50 =
    ((aplace demo_abook Buy 101 50).1.1, 6, [mkTrade 6 1 101 4; mkTrade 6 4 101 6])) as Ea by (vm_compute; reflexivity).
  rewrite Ea in H. cbv beta iota in H.
  destruct H as (g' & s' & tx & msgs & H); [lia64|split; reflexivity|split; reflexivity|reflexivity| | | | | | |].
  { apply (bool_decide_eq_true_1 (text_ok _)). reflexivity. }
  1-5: vm_compute; done.
  exists g', s', tx, msgs.
  change (traded [mkTrade 6 1 101 4; mkTrade 6 4 101 6]) with 10 in H. exact H.
Defined.
