(* ===== verification/GatewayThreads.v ===== *)
(** * The gateway's session threads

    [hft::fix::Gateway] runs one worker per connection.  The workers share the
    engine (under [engine_mu_]), the atomic counters and, without a lock, the
    feed; everything else a handler touches belongs to its session.  Here each
    handler is a program over the operations it makes on the shared state, in
    the order of the source; a system of workers interleaves those operations,
    accepts connections and can be told to stop.  [Gateway] gives the same
    handlers run alone. *)

From S2P Require Import Prelude Pool OrderedMap Level OrderBook BookSpec Engine Decimal Float64 Scanf FixParser Feed Gateway.

(** ** Operations on the shared state *)

Inductive Action :=
  | DoRunning                                          (* running_.load() *)
  | DoOrders                                           (* orders_.fetch_add(1) *)
  | DoLock                                             (* lock_guard lk(engine_mu_) *)
  | DoUnlock
  | DoPlace (side : Side) (px : Price) (qty : Quantity)
  | DoTrades
  | DoBestBid
  | DoBestAsk
  | DoQtyAt (side : Side) (px : Price)
  | DoCancel (id : OrderId)
  | DoExecId                                           (* next_exec_id_.fetch_add(1) *)
  | DoExecs                                            (* execs_.fetch_add(1) *)
  | DoFeed                                             (* feed_, and fd_ of it *)
  | DoSeq                                              (* read of seq_ *)
  | DoSetSeq (seq : Z)                                 (* write of seq_ *)
  | DoSendto (buf : bytes)
  | DoPublished                                        (* read of published_ *)
  | DoSetPublished (n : Z).

Definition op_ret (op : Action) : Type :=
  match op with
  | DoRunning | DoCancel _ => bool
  | DoFeed => option bool
  | DoTrades => list Trade
  | DoPlace _ _ _ | DoBestBid | DoBestAsk | DoQtyAt _ _ | DoExecId | DoSeq | DoSendto _ | DoPublished => Z
  | DoOrders | DoLock | DoUnlock | DoExecs | DoSetSeq _ | DoSetPublished _ => unit
  end.

(** ** Programs *)

(** Why a program goes no further: undefined behaviour of the thread's own, or
    a loop that has not ended within the bound of its model. *)
Inductive Failure := Behaviour | OutOfFuel.

Inductive Cmd (R : Type) : Type :=
  | Ret (r : R)
  | Undef (why : Failure)
  | Act (op : Action) (k : op_ret op -> Cmd R).
Arguments Ret {_} _.
Arguments Undef {_} _.
Arguments Act {_} _ _.

#[global] Instance Cmd_ret : MRet Cmd := @Ret.
#[global] Instance Cmd_bind : MBind Cmd := fun A B =>
  fix bind f c := match c with Ret x => f x | Undef why => Undef why | Act op k => Act op (fun x => bind f (k x)) end.

Definition act (op : Action) : Cmd (op_ret op) := Act op Ret.
Definition lift {A} (o : option A) : Cmd A := match o with Some x => Ret x | None => Undef Behaviour end.

Lemma bind_Ret {A B} (f : A -> Cmd B) x : Ret x ≫= f = f x.
Proof. done. Qed.
Lemma bind_act {B} op (f : op_ret op -> Cmd B) : act op ≫= f = Act op f.
Proof. done. Qed.

(** ** The handlers as programs *)

Section Programs.
Variable sock_send : nat -> Z -> Z.
Variable comp_id : bytes.

Definition send_exec_report_c (r : ExecReport) (s : Session) : Cmd Session :=
  eid ← act DoExecId;
  s ← lift (emit_report sock_send comp_id r eid s);
  _ ← act DoExecs;
  Ret s.

Fixpoint send_reports_c (rs : list ExecReport) (s : Session) : Cmd Session :=
  match rs with
  | [] => Ret s
  | r :: rs => s ← send_exec_report_c r s; send_reports_c rs s
  end.

(** [++seq_], the record with the number read back, [sendto], [++published_]. *)
Definition publish_l1_c (symbol : bytes) (bid_px bid_sz ask_px ask_sz : f64) : Cmd unit :=
  fd ← act DoFeed;
  match fd with
  | Some true =>
      n ← act DoSeq;
      _ ← act (DoSetSeq (u64 (n + 1)));
      seq ← act DoSeq;
      buf ← lift (snprintf_read 256 (l1_record seq symbol bid_px bid_sz ask_px ask_sz));
      sent ← act (DoSendto buf);
      if 0 <? sent then p ← act DoPublished; act (DoSetPublished (u64 (p + 1))) else Ret tt
  | _ => Ret tt
  end.

Definition qty_c (known : bool) (side : Side) (px : Price) : Cmd Quantity :=
  if known then act (DoQtyAt side px) else Ret 0.

Definition read_l1_c : Cmd (Price * Quantity * Price * Quantity) :=
  bid ← act DoBestBid;
  ask ← act DoBestAsk;
  bid_sz ← qty_c (0 <? bid) Buy bid;
  ask_sz ← qty_c (ask <? INT64_MAX) Sell ask;
  Ret (bid, bid_sz, ask, ask_sz).

(** The guarded block of [on_new_order], from inside the lock. *)
Definition place_section_c (side : Side) (px : Price) (qty : Quantity)
    : Cmd (OrderId * list Trade * (Price * Quantity * Price * Quantity)) :=
  id ← act (DoPlace side px qty);
  trades ← act DoTrades;
  l1 ← read_l1_c;
  _ ← act DoUnlock;
  Ret (id, trades, l1).

Definition on_new_order_c (m : Message) (s : Session) : Cmd Session :=
  _ ← act DoOrders;
  let cl_ord_id := get m ClOrdID in
  let symbol := get m Symbol in
  let side_c := side_char m in
  let order_qty := get_double m OrderQty f64_zero in
  let price := get_double m PriceTag f64_zero in
  if f64_le order_qty f64_zero || f64_le price f64_zero ||
     (negb (side_c =? 49) && negb (side_c =? 50)) then
    send_exec_report_c (mkReport cl_ord_id 0 EX_REJECTED OS_REJECTED side_c symbol order_qty
      f64_zero f64_zero f64_zero f64_zero f64_zero) s
  else
    let side := if side_c =? 49 then Buy else Sell in
    px_ticks ← lift (f64_to_i64 (f64_add (f64_mul price hundred) f64_half));
    qty ← lift (f64_to_i64 order_qty);
    _ ← act DoLock;
    '(order_id, trades, (bid_px, bid_sz, ask_px, ask_sz)) ← place_section_c side px_ticks qty;
    rs ← lift (order_reports cl_ord_id symbol side_c order_id qty trades);
    s ← send_reports_c rs s;
    _ ← publish_l1_c symbol (f64_div (f64_of_Z bid_px) hundred) (f64_of_Z bid_sz) (ask_double ask_px) (f64_of_Z ask_sz);
    Ret s.

Definition on_cancel_c (m : Message) (s : Session) : Cmd Session :=
  let oid := u64 (get_int m OrderID 0) in
  _ ← act DoLock;
  ok ← act (DoCancel oid);
  _ ← act DoUnlock;
  send_exec_report_c (mkReport (get m ClOrdID) oid (if ok : bool then EX_CANCELED else EX_REJECTED)
    (if ok : bool then OS_CANCELED else OS_REJECTED) (side_char m) (get m Symbol)
    f64_zero f64_zero f64_zero f64_zero f64_zero f64_zero) s.

Definition on_md_request_c (m : Message) (s : Session) : Cmd Session :=
  _ ← act DoLock;
  '(bid_px, bid_sz, ask_px, ask_sz) ← read_l1_c;
  _ ← act DoUnlock;
  lift (send_md_snapshot sock_send comp_id (get m MDReqID) (get m Symbol) (f64_div (f64_of_Z bid_px) hundred) (f64_of_Z bid_sz)
    (ask_double ask_px) (f64_of_Z ask_sz) s).

(** An answer that ends the session. *)
Definition logout_c (text : bytes) (s : Session) : Cmd Session :=
  s ← lift (send_logout sock_send comp_id text s); Ret (set_running false s).

Definition handle_message_c (m : Message) (s : Session) : Cmd Session :=
  let mt := msg_type m in
  if negb (logged_on s) && negb (mt =? 65) then logout_c (str "not logged on") s
  else if mt =? 65 then lift (send_logon_ack sock_send comp_id (log_on (get m SenderCompID) s))
  else if mt =? 53 then logout_c (str "bye") s
  else if mt =? 48 then Ret s
  else if mt =? 68 then on_new_order_c m s
  else if mt =? 70 then on_cancel_c m s
  else if mt =? 86 then on_md_request_c m s
  else Ret s.

Fixpoint drain_c (fuel : nat) (s : Session) : Cmd Session :=
  match fuel with
  | O => Undef OutOfFuel
  | S fuel =>
      match split_frame (rx_buf s) with
      | Incomplete => Ret s
      | Malformed => logout_c (str "malformed FIX frame") s
      | Ok frame consumed =>
          r ← lift (parse_frame frame);
          match r with
          | ParseFail => logout_c (str "parse failed") s
          | ParseOk m =>
              s ← handle_message_c m (inc_in_seq s);
              drain_c fuel (set_rx (drop consumed (rx_buf s)) s)
          end
      end
  end.

Definition on_chunk_c (chunk : bytes) (s : Session) : Cmd Session :=
  let rx := rx_buf s ++ chunk in drain_c (S (length rx)) (set_rx rx s).

(** The worker of a connection on which [recv] returns [chunks]; a failed or
    empty read is an empty chunk.  The chunks are what arrives until the end of
    the connection or of the execution looked at, so theorems on states reached
    hold for unbounded connections as well, while those on the end of a session
    are about connections that end. *)
Fixpoint session_loop_c (chunks : list bytes) (s : Session) : Cmd Session :=
  match chunks with
  | [] => Ret s
  | chunk :: chunks =>
      if running s then
        up ← act DoRunning;
        if up : bool then
          match chunk with
          | [] => Ret s
          | _ => s ← on_chunk_c chunk s; session_loop_c chunks s
          end
        else Ret s
      else Ret s
  end.

End Programs.

(** ** The system *)

Section System.
Context {E : Type} `{EngineOps E}.
Variable sock_send : nat -> Z -> Z.
Variable sock_sendto : Z -> Z.
Variable comp_id : bytes.

(** Where the acceptor thread is: at the test of [running_], blocked in
    [accept], or past its loop. *)
Inductive Acceptor := AtTest | InAccept | Ended.

Record Shared := mkShared {
  sh_gw : Gateway E;
  sh_lock : option nat;        (* engine_mu_: the worker that holds it *)
  sh_running : bool;           (* running_ *)
  sh_acceptor : Acceptor;
  sh_accepted : Z              (* accepted_ *)
}.

Definition upd_gw (g : Gateway E) (w : Shared) : Shared := mkShared g (sh_lock w) (sh_running w) (sh_acceptor w) (sh_accepted w).
Definition upd_lock (l : option nat) (w : Shared) : Shared := mkShared (sh_gw w) l (sh_running w) (sh_acceptor w) (sh_accepted w).
Definition upd_acceptor (a : Acceptor) (w : Shared) : Shared := mkShared (sh_gw w) (sh_lock w) (sh_running w) a (sh_accepted w).
Definition upd_engine (e : E) (w : Shared) : Shared := upd_gw (set_engine e (sh_gw w)) w.
Definition on_feed {X} (w : Shared) (f : Feed -> Feed * X) : option (Shared * X) :=
  fd ← feed_ (sh_gw w); let '(fd, x) := f fd in Some (upd_gw (set_feed (Some fd) (sh_gw w)) w, x).

(** An operation on the engine alone. *)
Definition exec_engine (op : Action) (e : E) : option (E * op_ret op) :=
  match op with
  | DoPlace side px qty => e_place e side px qty
  | DoTrades => Some (e, e_last_trades e)
  | DoBestBid => Some (e, e_best_bid e)
  | DoBestAsk => Some (e, e_best_ask e)
  | DoQtyAt side px => q ← e_qty_at e side px; Some (e, q)
  | DoCancel id => '(ok, e) ← e_cancel e id; Some (e, ok)
  | _ => None
  end.

Definition on_engine (op : Action) (w : Shared) : option (Shared * op_ret op) :=
  '(e, x) ← exec_engine op (engine_ (sh_gw w)); Some (upd_engine e w, x).

(** One operation of worker [i]: [None] when it must wait for the lock, or is
    undefined.  An operation on the engine is carried out whoever holds the
    lock: that no worker makes one without it is a theorem on the programs
    ([GatewayConc.disciplined], [GatewayConc.engine_ops_locked]), not part of this definition. *)
Definition exec (i : nat) (op : Action) (w : Shared) : option (Shared * op_ret op) :=
  let g := sh_gw w in
  match op return option (Shared * op_ret op) with
  | DoRunning => Some (w, sh_running w)
  | DoOrders =>
      Some (upd_gw (mkGateway (engine_ g) (feed_ g) (u64 (orders_ g + 1)) (execs_ g) (next_exec_id_ g)) w, tt)
  | DoLock => match sh_lock w with None => Some (upd_lock (Some i) w, tt) | Some _ => None end
  | DoUnlock => if decide (sh_lock w = Some i) then Some (upd_lock None w, tt) else None
  | DoExecId =>
      Some (upd_gw (mkGateway (engine_ g) (feed_ g) (orders_ g) (execs_ g) (u64 (next_exec_id_ g + 1))) w, next_exec_id_ g)
  | DoExecs =>
      Some (upd_gw (mkGateway (engine_ g) (feed_ g) (orders_ g) (u64 (execs_ g + 1)) (next_exec_id_ g)) w, tt)
  | DoFeed => Some (w, feed_open <$> feed_ g)
  | DoSeq => on_feed w (fun f => (f, seq_ f))
  | DoSetSeq n => on_feed w (fun f => (mkFeed (feed_open f) n (published_ f) (datagrams f), tt))
  | DoSendto buf => on_feed w (fun f =>
      (mkFeed (feed_open f) (seq_ f) (published_ f) (datagrams f ++ [buf]), sock_sendto (Z.of_nat (length buf))))
  | DoPublished => on_feed w (fun f => (f, published_ f))
  | DoSetPublished n => on_feed w (fun f => (mkFeed (feed_open f) (seq_ f) n (datagrams f), tt))
  | op => on_engine op w
  end.

(** A worker alone, to its end. *)
Fixpoint run {R} (i : nat) (c : Cmd R) (w : Shared) : option (Shared * R) :=
  match c with
  | Ret r => Some (w, r)
  | Undef _ => None
  | Act op k => '(w, x) ← exec i op w; run i (k x) w
  end.

Record Sys := mkSys { sys_sh : Shared; sys_threads : list (Cmd Session) }.

Record Event := mkEvent { ev_op : Action; ev_ret : op_ret ev_op }.

(** The acceptor thread and [stop]: the test of [running_]; [accept] takes a
    connection, whose reads will be [chunks], and its worker starts; [accept]
    fails ([EINTR] while running goes on, anything else ends the loop); [stop]
    clears [running_].  A failure needs no shutdown here: [accept] reports
    errors of its own (a connection aborted, no descriptor left).  What the
    system calls of [stop] do to a thread that is blocked is the subject of
    [GatewayStop]. *)
Inductive env_step : Sys -> Sys -> Prop :=
  | env_test w ts :
      sh_acceptor w = AtTest ->
      env_step (mkSys w ts) (mkSys (upd_acceptor (if sh_running w then InAccept else Ended) w) ts)
  | env_accept w ts chunks :
      sh_acceptor w = InAccept ->
      env_step (mkSys w ts)
        (mkSys (mkShared (sh_gw w) (sh_lock w) (sh_running w) AtTest (u64 (sh_accepted w + 1)))
           (ts ++ [session_loop_c sock_send comp_id chunks Session_new]))
  | env_accept_fails w ts (eintr : bool) :
      sh_acceptor w = InAccept ->
      env_step (mkSys w ts) (mkSys (upd_acceptor (if sh_running w && eintr then AtTest else Ended) w) ts)
  | env_stop w ts :
      env_step (mkSys w ts) (mkSys (mkShared (sh_gw w) (sh_lock w) false (sh_acceptor w) (sh_accepted w)) ts).

(** A worker makes its next operation, or the environment a step. *)
Inductive step : Sys -> list (nat * Event) -> Sys -> Prop :=
  | step_act i op k w ts w' x :
      ts !! i = Some (Act op k) -> exec i op w = Some (w', x) ->
      step (mkSys w ts) [(i, mkEvent op x)] (mkSys w' (<[i := k x]> ts))
  | step_env s s' : env_step s s' -> step s [] s'.

Inductive steps : Sys -> list (nat * Event) -> Sys -> Prop :=
  | steps_refl s : steps s [] s
  | steps_snoc s tr s1 l s2 : steps s tr s1 -> step s1 l s2 -> steps s (tr ++ l) s2.

(** The gateway before its first connection. *)
Definition started (g : Gateway E) : Sys := mkSys (mkShared g None true AtTest 0) [].

(** A schedule: the workers that make the next operations. *)
Definition step_thread (i : nat) (s : Sys) : option (Sys * list (nat * Event)) :=
  match sys_threads s !! i with
  | Some (Act op k) =>
      '(w, x) ← exec i op (sys_sh s); Some (mkSys w (<[i := k x]> (sys_threads s)), [(i, mkEvent op x)])
  | _ => None
  end.

Fixpoint sched (turns : list nat) (s : Sys) : option (Sys * list (nat * Event)) :=
  match turns with
  | [] => Some (s, [])
  | i :: turns => '(s, l) ← step_thread i s; '(s, tr) ← sched turns s; Some (s, l ++ tr)
  end.

(** ** Whole critical sections as one operation *)

Definition unlocked (op : Action) : option (op_ret op) := match op with DoUnlock => Some tt | _ => None end.

(** What a worker does from inside the lock until it releases it. *)
Fixpoint section {R} (c : Cmd R) (e : E) : option (E * Cmd R) :=
  match c with
  | Act op k =>
      match unlocked op with
      | Some x => Some (e, k x)
      | None => '(e, x) ← exec_engine op e; section (k x) e
      end
  | _ => None
  end.

(** The operations on the engine. *)
Definition engine_op (op : Action) : bool :=
  match op with
  | DoPlace _ _ _ | DoTrades | DoBestBid | DoBestAsk | DoQtyAt _ _ | DoCancel _ => true
  | _ => false
  end.

Definition local_op (op : Action) : bool :=
  match op with
  | DoLock | DoUnlock | DoPlace _ _ _ | DoTrades | DoBestBid | DoBestAsk | DoQtyAt _ _ | DoCancel _ => false
  | _ => true
  end.

Inductive atomic_step : Sys -> Sys -> Prop :=
  | atomic_act i op k w ts w' x :
      ts !! i = Some (Act op k) -> local_op op = true -> exec i op w = Some (w', x) ->
      atomic_step (mkSys w ts) (mkSys w' (<[i := k x]> ts))
  | atomic_section i k w ts e c :
      ts !! i = Some (Act DoLock k) -> section (k tt) (engine_ (sh_gw w)) = Some (e, c) ->
      atomic_step (mkSys w ts) (mkSys (upd_engine e w) (<[i := c]> ts))
  | atomic_env s s' : env_step s s' -> atomic_step s s'.

End System.
Arguments Shared : clear implicits.
Arguments Sys : clear implicits.
