(* ===== verification/GatewayConc.v ===== *)
(** * Sessions in parallel

    Theorems on [GatewayThreads]: a worker alone does what the sequential
    handlers of [Gateway] do; with any number of workers the lock makes each
    critical section one atomic operation, the engine goes through the
    placements and cancels in the order of the sections, no two workers are ever
    at an operation on the engine together and execution ids are unique over
    all sessions.  The feed is outside the lock: an interleaving in which two
    records carry the same sequence number.  That every session ends is in
    [GatewayFinish]. *)

From S2P Require Import Prelude Pool OrderedMap Level OrderBook BookSpec BookRefine BookQuery BookRun Flow Engine Decimal Float64 Scanf FixParser Feed Gateway GatewayProps GatewayOrder GatewayThreads.

Section Alone.
Context {E : Type} `{EngineOps E}.
Variable sock_send : nat -> Z -> Z.
Variable sock_sendto : Z -> Z.
Variable comp_id : bytes.
#[local] Abbreviation run := (run (E := E) sock_sendto).

(** ** A worker alone *)

Lemma run_bind {A B} i (c : Cmd A) (f : A -> Cmd B) : forall w,
  run i (c ≫= f) w = '(w, x) ← run i c w; run i (f x) w.
Proof.
  induction c as [x|why|op k IH]; intros w; [done..|]. cbn. destruct (exec _ i op w) as [[w' x]|]; [|done].
  cbn. apply IH.
Qed.

Lemma run_lift {A B} i (o : option A) (f : A -> Cmd B) w :
  run i (lift o ≫= f) w = x ← o; run i (f x) w.
Proof. by destruct o. Qed.

Lemma run_act {B} i op (f : op_ret op -> Cmd B) w :
  run i (act op ≫= f) w = '(w, x) ← exec sock_sendto i op w; run i (f x) w.
Proof. done. Qed.

(** The program does to the gateway and the session what the handler does. *)
Definition mirrors (c : Cmd Session) (h : Gateway E -> option (Gateway E * Session)) : Prop :=
  forall i w, sh_lock w = None -> run i c w = '(g, s) ← h (sh_gw w); Some (upd_gw g w, s).

Lemma mirrors_bind c h (k : Session -> Cmd Session) (hk : Session -> Gateway E -> option (Gateway E * Session)) :
  mirrors c h -> (forall s, mirrors (k s) (hk s)) ->
  mirrors (c ≫= k) (fun g => '(g, s) ← h g; hk s g).
Proof.
  intros Hc Hk i w Hl. rewrite run_bind, (Hc i w Hl). destruct (h (sh_gw w)) as [[g s]|]; [|done]. cbn.
  rewrite (Hk s i (upd_gw g w) Hl). done.
Qed.

Lemma mirrors_lift o : mirrors (lift o) (fun g => s ← o; Some (g, s)).
Proof. intros i w _. by destruct o, w. Qed.

Lemma mirrors_logout text s :
  mirrors (logout_c sock_send comp_id text s) (fun g => s ← send_logout sock_send comp_id text s; Some (g, set_running false s)).
Proof. intros i w _. unfold logout_c. rewrite run_lift. by destruct (send_logout _ _ _ _), w. Qed.

Lemma mirrors_report r s :
  mirrors (send_exec_report_c sock_send comp_id r s) (fun g => send_exec_report sock_send comp_id r g s).
Proof.
  intros i w _. unfold send_exec_report_c, send_exec_report. rewrite (run_act i DoExecId). cbn [exec mbind option_bind].
  rewrite run_lift. by destruct (emit_report _ _ _ _ _).
Qed.

Lemma mirrors_reports rs : forall s,
  mirrors (send_reports_c sock_send comp_id rs s) (fun g => send_reports sock_send comp_id rs g s).
Proof.
  induction rs as [|r rs IH]; intros s; [by intros i [] _|].
  apply (mirrors_bind _ _ _ (fun s g => send_reports sock_send comp_id rs g s) (mirrors_report r s) IH).
Qed.

Lemma run_publish i symbol bid bsz ask asz w :
  run i (publish_l1_c symbol bid bsz ask asz) w =
    match feed_ (sh_gw w) with
    | None => Some (w, tt)
    | Some f => '(f, _) ← publish_l1 sock_sendto f symbol bid bsz ask asz; Some (upd_gw (set_feed (Some f) (sh_gw w)) w, tt)
    end.
Proof.
  unfold publish_l1_c, publish_l1. rewrite (run_act i DoFeed). cbn [exec mbind option_bind].
  destruct w as [[e [f|] o x n] l r a c]; cbn [feed_ sh_gw fmap option_fmap option_map]; [|done].
  destruct f as [[] q p d]; cbn [feed_open negb]; [|done]. cbn -[l1_record length Nat.leb Z.ltb u64].
  rewrite run_lift. destruct (snprintf_read 256 _) as [buf|]; [|done]. cbn -[length Z.ltb u64]. by destruct (0 <? _).
Qed.

Lemma run_read_l1 i w :
  run i read_l1_c w = l1 ← read_l1 (engine_ (sh_gw w)); Some (w, l1).
Proof.
  destruct w as [[e f o x n] l r a c]. unfold read_l1_c, read_l1, qty_c. cbn -[Z.ltb].
  destruct (0 <? e_best_bid e); cbn -[Z.ltb]; [destruct (e_qty_at e Buy _); [|done]; cbn -[Z.ltb]|];
    (destruct (e_best_ask e <? INT64_MAX); cbn; [by destruct (e_qty_at e Sell _)|done]).
Qed.

(** The critical sections, as the sequential handlers make them. *)
Lemma run_place_section i side px qty w :
  sh_lock w = Some i ->
  run i (place_section_c side px qty) w =
    '(e, id) ← e_place (engine_ (sh_gw w)) side px qty; l1 ← read_l1 e;
    Some (upd_lock None (upd_engine e w), (id, e_last_trades e, l1)).
Proof.
  intros Hl. unfold place_section_c. rewrite (run_act i (DoPlace side px qty)). cbn [exec on_engine exec_engine].
  unfold on_engine. cbn [exec_engine]. destruct (e_place _ side px qty) as [[e id]|]; [|done]. rewrite bind_Some_l.
  cbn [mbind option_bind]. rewrite (run_act i DoTrades). cbn [exec].
  unfold on_engine. cbn [exec_engine mbind option_bind]. rewrite run_bind, run_read_l1. cbn [engine_ sh_gw upd_engine upd_gw set_engine].
  destruct (read_l1 e) as [l1|]; [|done]. rewrite bind_Some_l. cbn [mbind option_bind]. rewrite (run_act i DoUnlock).
  cbn [exec]. rewrite decide_True by done. by destruct w.
Qed.

Lemma mirrors_new_order m s :
  mirrors (on_new_order_c sock_send comp_id m s) (fun g => on_new_order sock_send sock_sendto comp_id m g s).
Proof.
  intros i w Hl. unfold on_new_order_c, on_new_order. rewrite (run_act i DoOrders). cbn [exec].
  rewrite bind_Some_l. set (w1 := upd_gw _ w). destruct (_ || _); [apply (mirrors_report _ s i w1 Hl)|].
  rewrite !run_lift. destruct (f64_to_i64 (f64_add _ _)) as [px|]; [|done]. rewrite !bind_Some_l.
  rewrite !run_lift. destruct (f64_to_i64 _) as [qty|]; [|done]. rewrite !bind_Some_l.
  rewrite (run_act i DoLock). cbn [exec]. change (sh_lock w1) with (sh_lock w). rewrite Hl, bind_Some_l.
  rewrite run_bind, run_place_section by done.
  change (engine_ (sh_gw (upd_lock (Some i) w1))) with (engine_ (sh_gw w1)).
  change (engine_ (sh_gw w1)) with (engine_ (sh_gw w)). cbn [engine_].
  destruct (e_place _ _ px qty) as [[e id]|]; [|done]. rewrite !bind_Some_l.
  destruct (read_l1 e) as [[[[bid bsz] ask] asz]|]; [|done]. rewrite !bind_Some_l. rewrite run_lift.
  destruct (order_reports _ _ _ _ _ _) as [rs|]; [|done]. rewrite !bind_Some_l. rewrite run_bind.
  rewrite (mirrors_reports rs s i) by done. change (sh_gw (upd_lock None _)) with (set_engine e (sh_gw w1)).
  destruct (send_reports _ _ _ _ _) as [[g s']|]; [|done]. rewrite !bind_Some_l. rewrite run_bind, run_publish.
  cbn [sh_gw upd_gw]. destruct (feed_ g) as [f|]; [|by destruct w, g; simpl in Hl; subst].
  destruct (publish_l1 _ _ _ _ _ _ _) as [[f' z]|]; [|done]. rewrite !bind_Some_l.
  by destruct w; simpl in Hl; subst.
Qed.

Lemma mirrors_cancel m s :
  mirrors (on_cancel_c sock_send comp_id m s) (fun g => on_cancel sock_send comp_id m g s).
Proof.
  intros i w Hl. unfold on_cancel_c, on_cancel. rewrite (run_act i DoLock). cbn [exec]. rewrite Hl, bind_Some_l.
  rewrite (run_act i (DoCancel _)). cbn [exec]. unfold on_engine. cbn [exec_engine].
  change (engine_ (sh_gw (upd_lock (Some i) w))) with (engine_ (sh_gw w)).
  destruct (e_cancel _ _) as [[ok e]|]; [|done]. rewrite !bind_Some_l. rewrite (run_act i DoUnlock). cbn [exec].
  rewrite decide_True by done. rewrite bind_Some_l. rewrite (mirrors_report _ s i) by done.
  destruct w as [g l r a c]. simpl in Hl. by subst.
Qed.

Lemma mirrors_md_request m s :
  mirrors (on_md_request_c sock_send comp_id m s) (fun g => on_md_request sock_send comp_id m g s).
Proof.
  intros i w Hl. unfold on_md_request_c, on_md_request. rewrite (run_act i DoLock). cbn [exec].
  rewrite Hl, bind_Some_l, run_bind, run_read_l1.
  change (engine_ (sh_gw (upd_lock (Some i) w))) with (engine_ (sh_gw w)).
  destruct (read_l1 _) as [[[[bid bsz] ask] asz]|]; [|done]. rewrite !bind_Some_l. rewrite (run_act i DoUnlock). cbn [exec].
  rewrite decide_True by done. rewrite bind_Some_l. rewrite (mirrors_lift _ i) by done.
  destruct w as [g l r a c]. simpl in Hl. subst. by destruct (send_md_snapshot _ _ _ _ _ _ _ _ _).
Qed.

Lemma mirrors_handle m s :
  mirrors (handle_message_c sock_send comp_id m s) (fun g => handle_message sock_send sock_sendto comp_id m g s).
Proof.
  unfold handle_message_c, handle_message. cbv zeta.
  destruct (_ && _); [apply mirrors_logout|]. destruct (_ =? 65); [apply mirrors_lift|].
  destruct (_ =? 53); [apply mirrors_logout|]. destruct (_ =? 48); [by intros i [] _|].
  destruct (_ =? 68); [apply mirrors_new_order|]. destruct (_ =? 70); [apply mirrors_cancel|].
  destruct (_ =? 86); [apply mirrors_md_request|]. by intros i [] _.
Qed.

Lemma mirrors_drain fuel : forall s,
  mirrors (drain_c sock_send comp_id fuel s) (fun g => drain sock_send sock_sendto comp_id fuel g s).
Proof.
  induction fuel as [|fuel IH]; intros s i w Hl; [done|]. rewrite drain_S. unfold drain_body. cbn [drain_c].
  destruct (split_frame (rx_buf s)) as [frame consumed| |]; [|by destruct w|apply (mirrors_logout _ s i w Hl)].
  rewrite run_lift. destruct (parse_frame frame) as [[m|]|]; [| |done]; rewrite !bind_Some_l.
  - apply (mirrors_bind _ _ _ (fun s g => drain sock_send sock_sendto comp_id fuel g (set_rx (drop consumed (rx_buf s)) s))
      (mirrors_handle m (inc_in_seq s))); [intros s'; apply IH|done].
  - apply (mirrors_logout _ s i w Hl).
Qed.

(** A worker that runs alone does what the sequential session does:
    operation by operation through the lock, the counters and the feed, it
    reaches the same engine, feed and counters and the same session, on every
    sequence of chunks, and is undefined exactly when the sequential handlers
    are. *)
Theorem session_thread_sequential chunks : forall s i (w : Shared E),
  sh_lock w = None -> sh_running w = true ->
  run i (session_loop_c sock_send comp_id chunks s) w =
    '(g, s') ← session_loop sock_send sock_sendto comp_id chunks (sh_gw w) s; Some (upd_gw g w, s').
Proof.
  induction chunks as [|chunk chunks IH]; intros s i w Hl Hr; [by destruct w|]. cbn [session_loop_c session_loop].
  destruct (running s); [|by destruct w]. rewrite (run_act i DoRunning). cbn [exec]. rewrite Hr, bind_Some_l.
  destruct chunk as [|b chunk]; [by destruct w|]. rewrite run_bind. unfold on_chunk_c, on_chunk.
  rewrite (mirrors_drain _ _ i w Hl). destruct (drain _ _ _ _ _ _) as [[g s']|]; [|done]. rewrite !bind_Some_l.
  by apply (IH s' i (upd_gw g w)).
Qed.

End Alone.

(** ** The lock discipline *)

(** The state of the lock after an operation made with it [held]: the engine is
    used only inside, everything else only outside. *)
Definition held_after (op : Action) (held : bool) : option bool :=
  match op with
  | DoLock => if held then None else Some true
  | DoUnlock => if held then Some false else None
  | _ => if eqb held (negb (local_op op)) then Some held else None
  end.

(** Quantities placed are machine integers. *)
Definition action_range (op : Action) : Prop :=
  match op with DoPlace _ _ qty => i64_range qty | _ => True end.

(** The program respects the lock; it starts inside when [held] and ends inside
    when [held']. *)
Fixpoint disciplined {R} (held : bool) (c : Cmd R) (held' : bool) : Prop :=
  match c with
  | Ret _ => held = held'
  | Undef _ => True
  | Act op k =>
      match held_after op held with
      | Some h => action_range op /\ forall x, disciplined h (k x) held'
      | None => False
      end
  end.

Lemma disciplined_bind {A B} (c : Cmd A) (f : A -> Cmd B) : forall h h1 h2,
  disciplined h c h1 -> (forall x, disciplined h1 (f x) h2) -> disciplined h (c ≫= f) h2.
Proof.
  induction c as [x|why|op k IH]; intros h h1 h2 Hc Hf; [simpl in Hc; subst; apply Hf|done|].
  change (Act op k ≫= f) with (Act op (fun x => k x ≫= f)).
  cbn [disciplined] in *. destruct (held_after op h); [|done]. destruct Hc. split; [done|]. intros x. eauto.
Qed.

Lemma disciplined_lift_bind {A B} (o : option A) (f : A -> Cmd B) h h' :
  (forall x, o = Some x -> disciplined h (f x) h') -> disciplined h (lift o ≫= f) h'.
Proof. destruct o; [|done]. intros Hf. by apply Hf. Qed.

Lemma disciplined_lift {A} (o : option A) h : disciplined h (lift o) h.
Proof. by destruct o. Qed.

Lemma disciplined_Act {B} op (f : op_ret op -> Cmd B) h h1 h2 :
  held_after op h = Some h1 -> action_range op -> (forall x, disciplined h1 (f x) h2) -> disciplined h (Act op f) h2.
Proof. cbn [disciplined]. by intros ->. Qed.

Lemma disciplined_Act_inv {B} op (f : op_ret op -> Cmd B) h h2 :
  disciplined h (Act op f) h2 ->
  exists h1, held_after op h = Some h1 /\ action_range op /\ forall x, disciplined h1 (f x) h2.
Proof. cbn [disciplined]. destruct (held_after op h); [|done]. intros [??]. eauto. Qed.

(** Follow a program through its operations; other lemmas close the calls. *)
Ltac discipline :=
  repeat first
    [ done
    | progress intros
    | match goal with
      | |- disciplined _ (act ?op ≫= ?f) _ => eapply (disciplined_Act op f); [reflexivity|try done|]
      | |- disciplined _ (act ?op) _ => eapply (disciplined_Act op Ret); [reflexivity|done|]
      | |- disciplined _ (lift _) _ => apply disciplined_lift
      | |- disciplined _ (lift _ ≫= _) _ => apply disciplined_lift_bind
      | |- disciplined _ (if ?b then _ else _) _ => destruct b
      | |- disciplined _ (match ?x with _ => _ end) _ => destruct x
      end ].

Section Discipline.
Variable sock_send : nat -> Z -> Z.
Variable comp_id : bytes.

Lemma disciplined_report r s : disciplined false (send_exec_report_c sock_send comp_id r s) false.
Proof. unfold send_exec_report_c. discipline. Qed.

Lemma disciplined_reports rs : forall s, disciplined false (send_reports_c sock_send comp_id rs s) false.
Proof.
  induction rs as [|r rs IH]; intros s; [done|]. eapply disciplined_bind; [apply disciplined_report|]. apply IH.
Qed.

Lemma disciplined_publish symbol bid bsz ask asz : disciplined false (publish_l1_c symbol bid bsz ask asz) false.
Proof. unfold publish_l1_c. discipline. Qed.

Lemma disciplined_read_l1 : disciplined true read_l1_c true.
Proof.
  unfold read_l1_c, qty_c. discipline.
  do 2 (eapply disciplined_bind; [discipline|intros ?]). done.
Qed.

Lemma disciplined_place side px qty : i64_range qty -> disciplined true (place_section_c side px qty) false.
Proof.
  unfold place_section_c. discipline.
  eapply disciplined_bind; [apply disciplined_read_l1|]. discipline.
Qed.

Lemma disciplined_logout text s : disciplined false (logout_c sock_send comp_id text s) false.
Proof. unfold logout_c. discipline. Qed.

Lemma disciplined_handle m s : disciplined false (handle_message_c sock_send comp_id m s) false.
Proof.
  unfold handle_message_c, on_new_order_c, on_cancel_c, on_md_request_c. cbv zeta.
  discipline; try apply disciplined_logout; try apply disciplined_report.
  - eapply disciplined_bind; [by eapply disciplined_place, f64_to_i64_range|]. intros [[id trs] [[[bid bsz] ask] asz]].
    eapply disciplined_bind; [apply disciplined_lift|]. intros rs.
    eapply disciplined_bind; [apply disciplined_reports|]. intros s'.
    eapply disciplined_bind; [apply disciplined_publish|]. done.
  - eapply disciplined_bind; [apply disciplined_read_l1|]. discipline.
Qed.

Lemma disciplined_drain fuel : forall s, disciplined false (drain_c sock_send comp_id fuel s) false.
Proof.
  induction fuel as [|fuel IH]; intros s; [done|]. cbn [drain_c]. discipline; try apply disciplined_logout.
  eapply disciplined_bind; [apply disciplined_handle|]. intros s'. apply IH.
Qed.

Lemma disciplined_session chunks : forall s, disciplined false (session_loop_c sock_send comp_id chunks s) false.
Proof.
  induction chunks as [|chunk chunks IH]; intros s; [done|]. cbn [session_loop_c]. discipline.
  eapply disciplined_bind; [apply disciplined_drain|]. intros s'. apply IH.
Qed.

End Discipline.

(** ** Critical sections are atomic *)

Section Atomic.
Context {E : Type} `{EngineOps E}.
Variable sock_send : nat -> Z -> Z.
Variable sock_sendto : Z -> Z.
Variable comp_id : bytes.
#[local] Abbreviation step := (step (E := E) sock_send sock_sendto comp_id).
#[local] Abbreviation steps := (steps (E := E) sock_send sock_sendto comp_id).
#[local] Abbreviation atomic_step := (atomic_step (E := E) sock_send sock_sendto comp_id).
#[local] Abbreviation env_step := (env_step (E := E) sock_send comp_id).
#[local] Abbreviation exec := (exec (E := E) sock_sendto).

(** Every worker respects the lock; the holder is a worker, and inside. *)
Record lock_inv (s : Sys E) : Prop := {
  li_disciplined i c : sys_threads s !! i = Some c ->
    disciplined (bool_decide (sh_lock (sys_sh s) = Some i)) c false;
  li_holder i : sh_lock (sys_sh s) = Some i -> (i < length (sys_threads s))%nat
}.

Lemma op_cases op : op = DoLock \/ op = DoUnlock \/ (op <> DoLock /\ op <> DoUnlock).
Proof. destruct op; auto. Qed.

Lemma exec_engine_op i op w : op <> DoLock -> op <> DoUnlock -> local_op op = false -> exec i op w = on_engine op w.
Proof. by destruct op. Qed.

Lemma exec_lock_same i op w w' x :
  exec i op w = Some (w', x) -> op <> DoLock -> op <> DoUnlock -> sh_lock w' = sh_lock w.
Proof.
  intros He H1 H2. destruct op; try done; simpl in He; unfold on_engine, on_feed in He; run_bind He; simplify_eq; try done;
    repeat case_match; by simplify_eq.
Qed.

Lemma exec_lock i op w w' x h' :
  exec i op w = Some (w', x) -> held_after op (bool_decide (sh_lock w = Some i)) = Some h' ->
  h' = bool_decide (sh_lock w' = Some i) /\ (forall j, j <> i -> sh_lock w' = Some j <-> sh_lock w = Some j).
Proof.
  intros He Hh. destruct (op_cases op) as [->|[->|[H1 H2]]].
  - simpl in *. destruct (sh_lock w); [done|]. simplify_eq. simpl. rewrite bool_decide_true by done.
    rewrite bool_decide_false in Hh by done. simplify_eq. split; [done|]. intros j Hj. split; [congruence|done].
  - simpl in *. case_decide as Hd; [|done]. simplify_eq. rewrite Hd in *. simpl. rewrite bool_decide_true in Hh by done.
    simplify_eq. split; [done|]. intros j Hj. split; [done|congruence].
  - pose proof (exec_lock_same _ _ _ _ _ He H1 H2) as Hl. rewrite Hl. split; [|done].
    destruct op, (bool_decide _); by simplify_eq/=.
Qed.

Lemma lock_inv_step s l s' : lock_inv s -> step s l s' -> lock_inv s'.
Proof.
  intros [Hd Hh] Hs. destruct Hs as [i op k w ts w' x Hi He|s s' Hs].
  - simpl in *. destruct (disciplined_Act_inv _ _ _ _ (Hd i _ Hi)) as (h & Eh & _ & Hk).
    destruct (exec_lock _ _ _ _ _ _ He Eh) as [-> Hj]. apply lookup_lt_Some in Hi. constructor; simpl.
    + intros j c Hc. destruct (decide (j = i)) as [->|Hne].
      * rewrite list_lookup_insert_eq in Hc by done. simplify_eq. apply Hk.
      * rewrite list_lookup_insert_ne in Hc by done. specialize (Hd j c Hc).
        by rewrite (bool_decide_ext _ _ (Hj j Hne)).
    + intros j Hl. rewrite length_insert. destruct (decide (j = i)) as [->|Hne]; [done|]. by apply Hh, Hj.
  - destruct Hs as [w ts Ha|w ts chunks Ha|w ts b Ha|w ts]; simpl in *; constructor; simpl; try done.
    + intros j c Hc. apply lookup_app_Some in Hc as [Hc|[Hlen Hc]]; [by apply Hd|].
      apply list_lookup_singleton_Some in Hc as [_ <-].
      rewrite bool_decide_false; [apply disciplined_session|]. intros Hl. specialize (Hh _ Hl). lia.
    + intros j Hl. rewrite length_app. specialize (Hh _ Hl). lia.
Qed.

(** The worker inside the lock has come from [c] on [e] to [c'] on [e']. *)
Inductive partial {R} (c : Cmd R) (e : E) : Cmd R -> E -> Prop :=
  | partial_refl : partial c e c e
  | partial_snoc op k e1 e2 x :
      partial c e (Act op k) e1 -> exec_engine op e1 = Some (e2, x) -> partial c e (k x) e2.

Lemma partial_section {R} (c c' : Cmd R) e e' : partial c e c' e' -> section c e = section c' e'.
Proof.
  induction 1 as [|op k e1 e2 x _ IH He]; [done|]. rewrite IH. cbn [section].
  destruct op; try done; cbn [unlocked]; by rewrite He.
Qed.

(** Another worker's step is the same whatever the engine and the lock. *)
Lemma exec_frame j op e l w :
  local_op op = true ->
  exec j op (upd_lock l (upd_engine e w)) = '(w', x) ← exec j op w; Some (upd_lock l (upd_engine e w'), x).
Proof. intros Hl. destruct op; try done; by destruct w as [[e0 [f|] ?? ?] ????]. Qed.

Lemma exec_local_same j op w w' x :
  local_op op = true -> exec j op w = Some (w', x) ->
  engine_ (sh_gw w') = engine_ (sh_gw w) /\ sh_lock w' = sh_lock w.
Proof.
  intros Hl He. split; [|by eapply exec_lock_same; [done|by intros ->..]].
  destruct op; try done; simpl in He; unfold on_feed in He; run_bind He; by simplify_eq.
Qed.

(** [s] is [t], except for a worker that is inside the lock in [s] and about to
    take it in [t]. *)
Definition inside (t s : Sys E) : Prop :=
  sh_lock (sys_sh t) = None /\
  match sh_lock (sys_sh s) with
  | None => s = t
  | Some i => exists k c e,
      sys_threads t !! i = Some (Act DoLock k) /\ partial (k tt) (engine_ (sh_gw (sys_sh t))) c e /\
      s = mkSys (upd_lock (Some i) (upd_engine e (sys_sh t))) (<[i := c]> (sys_threads t))
  end.

Lemma sim_free t i op k w' x :
  inside t t -> lock_inv t -> sys_threads t !! i = Some (Act op k) -> exec i op (sys_sh t) = Some (w', x) ->
  exists t', rtc atomic_step t t' /\ inside t' (mkSys w' (<[i := k x]> (sys_threads t))).
Proof.
  intros [Hf _] [Hd _] Hi He. destruct t as [w ts]. simpl in *.
  destruct (disciplined_Act_inv _ _ _ _ (Hd i _ Hi)) as (h & Eh & _). rewrite Hf in Eh.
  rewrite bool_decide_false in Eh by done. destruct (local_op op) eqn:Hl.
  - destruct (exec_local_same _ _ _ _ _ Hl He) as [_ Hlk].
    eexists. split; [apply rtc_once; by eapply atomic_act|]. split; simpl; rewrite Hlk, Hf; done.
  - destruct (op_cases op) as [->|[->|[H1 H2]]]; [|done|destruct op; done].
    exists (mkSys w ts). split; [done|]. simpl in He. rewrite Hf in He. simplify_eq. split; [done|]. simpl.
    exists k, (k tt), (engine_ (sh_gw w)). split; [done|]. split; [constructor|]. by destruct w as [[]].
Qed.

Lemma sim_holder t i op k c e w' x :
  sh_lock (sys_sh t) = None -> sys_threads t !! i = Some (Act DoLock k) ->
  partial (k tt) (engine_ (sh_gw (sys_sh t))) (Act op c) e ->
  disciplined true (Act op c) false ->
  exec i op (upd_lock (Some i) (upd_engine e (sys_sh t))) = Some (w', x) ->
  exists t', rtc atomic_step t t' /\ inside t' (mkSys w' (<[i := c x]> (sys_threads t))).
Proof.
  intros Hf Hi Hp Hd He. destruct t as [w ts]. simpl in *.
  destruct (op_cases op) as [->|[->|[H1 H2]]]; [done|..].
  - simpl in He. rewrite decide_True in He by done. simplify_eq.
    eexists. split; [apply rtc_once; eapply (atomic_section _ _ _ i k w ts e (c tt)); [done|]|].
    + by rewrite (partial_section _ _ _ _ Hp).
    + split; simpl; [done|]. f_equal. destruct w. simpl in *. by subst.
  - assert (local_op op = false) as Hl by (by destruct op). rewrite exec_engine_op in He by done.
    unfold on_engine in He. simpl in He. destruct (exec_engine op e) as [[e2 y]|] eqn:Ex; [|done]. simplify_eq/=.
    exists (mkSys w ts). split; [done|]. split; [done|]. simpl. exists k, (c x), e2.
    split; [done|]. split; [by econstructor|]. by destruct w as [[]].
Qed.

Lemma sim_other t i j op k kj c e w' x :
  sh_lock (sys_sh t) = None -> i <> j -> sys_threads t !! i = Some (Act DoLock k) ->
  partial (k tt) (engine_ (sh_gw (sys_sh t))) c e ->
  sys_threads t !! j = Some (Act op kj) -> disciplined false (Act op kj) false ->
  exec j op (upd_lock (Some i) (upd_engine e (sys_sh t))) = Some (w', x) ->
  exists t', rtc atomic_step t t' /\ inside t' (mkSys w' (<[j := kj x]> (<[i := c]> (sys_threads t)))).
Proof.
  intros Hf Hij Hi Hp Hj Hd He. destruct t as [w ts]. simpl in *.
  destruct (local_op op) eqn:Hl.
  - rewrite exec_frame in He by done. destruct (exec j op w) as [[w1 y]|] eqn:E1; [|done]. simplify_eq/=.
    destruct (exec_local_same _ _ _ _ _ Hl E1) as [He1 Hl1].
    eexists. split; [apply rtc_once; by eapply atomic_act|]. split; simpl; [by rewrite Hl1|].
    exists k, c, e. rewrite list_lookup_insert_ne by done. split; [done|]. split; [by rewrite He1|].
    f_equal. by apply list_insert_insert_ne.
  - destruct (op_cases op) as [->|[->|[H1 H2]]]; [done|done|destruct op; done].
Qed.

Lemma sim_env t s s' :
  inside t s -> env_step s s' -> exists t', rtc atomic_step t t' /\ inside t' s'.
Proof.
  intros [Hf Hs] He. destruct (sh_lock (sys_sh s)) as [i|] eqn:Hl.
  - destruct Hs as (k & c & e & Hi & Hp & ->). destruct t as [w ts]. simpl in *. apply lookup_lt_Some in Hi as Hlt.
    assert (forall t' s', env_step (mkSys w ts) t' -> sh_lock (sys_sh t') = None -> sh_lock (sys_sh s') = Some i ->
      sys_threads t' !! i = Some (Act DoLock k) -> engine_ (sh_gw (sys_sh t')) = engine_ (sh_gw w) ->
      s' = mkSys (upd_lock (Some i) (upd_engine e (sys_sh t'))) (<[i := c]> (sys_threads t')) ->
      exists t', rtc atomic_step (mkSys w ts) t' /\ inside t' s') as Hgo.
    { intros t' s1 Ht' Hl' Hi' Hk Hen ->. exists t'. split; [by apply rtc_once, atomic_env|]. split; [done|].
      simpl. exists k, c, e. by rewrite Hen. }
    inversion He as [?? Ha|?? chunks Ha|?? b Ha|]; subst; simpl in *.
    + by eapply Hgo; [apply env_test|..].
    + eapply Hgo; [by apply (env_accept _ _ _ _ chunks)|done|done|by apply lookup_app_l_Some|done|].
      simpl. by rewrite insert_app_l.
    + by eapply Hgo; [apply (env_accept_fails _ _ _ _ b)|..].
    + by eapply Hgo; [apply env_stop|..].
  - subst s. exists s'. split; [by apply rtc_once, atomic_env|].
    split; destruct He; simpl in *; by rewrite Hf.
Qed.

Lemma sim_step t s l s' :
  inside t s -> lock_inv s -> step s l s' -> exists t', rtc atomic_step t t' /\ inside t' s'.
Proof.
  intros Hin Hli Hs. destruct Hs as [i op k w ts w' x Hi He|s s' Hs]; [|by eapply sim_env].
  destruct Hin as [Hf Hin]. simpl in *. destruct (sh_lock w) as [h|] eqn:Hl.
  - destruct Hin as (k0 & c & e & Hh & Hp & [= -> ->]). pose proof (li_disciplined _ Hli) as Hd. simpl in *.
    apply lookup_lt_Some in Hh as Hlt. specialize (Hd i _ Hi). destruct (decide (i = h)) as [->|Hne].
    + rewrite list_lookup_insert_eq in Hi by done. simplify_eq. rewrite list_insert_insert_eq.
      rewrite bool_decide_true in Hd by done. by eapply sim_holder.
    + rewrite list_lookup_insert_ne in Hi by done. rewrite bool_decide_false in Hd by congruence.
      by eapply sim_other.
  - subst t. eapply sim_free; [|done..]. split; [done|]. simpl in *. by rewrite Hl.
Qed.

Lemma lock_inv_started g : lock_inv (started g).
Proof. by constructor. Qed.

Lemma lock_inv_steps s tr s' : lock_inv s -> steps s tr s' -> lock_inv s'.
Proof. intros Hi Hs. induction Hs as [|s tr s1 l s2 _ IH Hs]; [done|]. eapply lock_inv_step; [by apply IH|done]. Qed.

(** A worker whose next operation is one on the engine holds the lock. *)
Lemma engine_ops_locked s i op k :
  lock_inv s -> sys_threads s !! i = Some (Act op k) -> engine_op op = true -> sh_lock (sys_sh s) = Some i.
Proof.
  intros [Hd _] Hi Hop. destruct (disciplined_Act_inv _ _ _ _ (Hd i _ Hi)) as (h & Eh & _).
  case_bool_decide as Hl; [done|]. by destruct op.
Qed.

(** No two workers are at operations on the engine together. *)
Lemma engine_ops_exclusive s i j op op' k k' :
  lock_inv s -> sys_threads s !! i = Some (Act op k) -> sys_threads s !! j = Some (Act op' k') ->
  engine_op op = true -> engine_op op' = true -> i = j /\ sh_lock (sys_sh s) = Some i.
Proof.
  intros Hl Hi Hj Ho Ho'. pose proof (engine_ops_locked _ _ _ _ Hl Hi Ho) as E1.
  pose proof (engine_ops_locked _ _ _ _ Hl Hj Ho') as E2. split; congruence.
Qed.

(** (C8) The engine mutex makes critical sections atomic: whatever the
    interleaving of the workers' operations, the acceptor and [stop], a state
    of the system is reached by the system in which a worker runs its whole
    critical section in one step, up to the section of the worker that holds
    the lock; so a placement, the trades read after it and the top of book read
    with them are never mixed with another session's. *)
Theorem sections_atomic g tr s :
  steps (started g) tr s ->
  exists t, rtc atomic_step (started g) t /\ inside t s /\ (sh_lock (sys_sh s) = None -> s = t).
Proof.
  intros Hs. cut (exists t, rtc atomic_step (started g) t /\ inside t s).
  { intros (t & Ht & Hin). exists t. split; [done|]. split; [done|]. intros Hl. destruct Hin as [_ Hin]. by rewrite Hl in Hin. }
  remember (started g) as s0 eqn:E0. induction Hs as [|s0 tr s1 l s2 Hs IH H1]; subst.
  - exists (started g). split; [done|]. by split.
  - destruct (IH eq_refl) as (t & Ht & Hin).
    destruct (sim_step t s1 l s2) as (t' & Ht' & Hin'); [done|eapply lock_inv_steps; [apply lock_inv_started|done]|done|].
    exists t'. split; [by etrans|done].
Qed.

End Atomic.

(** ** What the sessions have done *)

(** The calls made on the book, with what they returned, in the order made. *)
Definition book_call (ev : Event) : option (BookOp * (OrderId + bool)) :=
  match ev with
  | mkEvent op x =>
      match op return op_ret op -> option (BookOp * (OrderId + bool)) with
      | DoPlace side px qty => fun id => Some (OpPlace side px qty, inl id)
      | DoCancel id => fun ok => Some (OpCancel id, inr ok)
      | _ => fun _ => None
      end x
  end.

Definition exec_id (ev : Event) : option Z :=
  match ev with mkEvent op x => match op return op_ret op -> option Z with DoExecId => Some | _ => fun _ => None end x end.

Definition book_calls (tr : list (nat * Event)) : list (BookOp * (OrderId + bool)) := omap (fun ie => book_call ie.2) tr.
Definition exec_ids (tr : list (nat * Event)) : list Z := omap (fun ie => exec_id ie.2) tr.

(** How many operations of a trace count an order, or a report. *)
Definition is_order (ev : Event) : bool := match ev_op ev with DoOrders => true | _ => false end.
Definition is_report (ev : Event) : bool := match ev_op ev with DoExecs => true | _ => false end.
Definition count (p : Event -> bool) (tr : list (nat * Event)) : Z := Z.of_nat (length (filter (fun ie => Is_true (p ie.2)) tr)).

(** The result the specification gives for a call. *)
Definition agrees (out : BookOut) (r : OrderId + bool) : Prop :=
  match out, r with
  | OutPlaced id _, inl id' => id = id'
  | OutCancelled ok, inr ok' => ok = ok'
  | _, _ => False
  end.

Section Trace.
Context {E : Type} `{HE : MatchingEngine E}.
Variable sock_send : nat -> Z -> Z.
Variable sock_sendto : Z -> Z.
Variable comp_id : bytes.
#[local] Abbreviation step := (step (E := E) sock_send sock_sendto comp_id).
#[local] Abbreviation steps := (steps (E := E) sock_send sock_sendto comp_id).
#[local] Abbreviation exec := (exec (E := E) sock_sendto).

Lemma count_app p tr l : count p (tr ++ l) = count p tr + count p l.
Proof. unfold count. rewrite filter_app, length_app. lia. Qed.

Lemma count_one p i ev : count p [(i, ev)] = if p ev then 1 else 0.
Proof.
  unfold count. destruct (p ev) eqn:Hp; [rewrite filter_cons_True|rewrite filter_cons_False]; simpl; rewrite ?Hp; auto.
Qed.

(** One operation on the counters. *)
Lemma exec_counters i op w w' x :
  exec i op w = Some (w', x) ->
  orders_ (sh_gw w') = (if is_order (mkEvent op x) then u64 (orders_ (sh_gw w) + 1) else orders_ (sh_gw w)) /\
  execs_ (sh_gw w') = (if is_report (mkEvent op x) then u64 (execs_ (sh_gw w) + 1) else execs_ (sh_gw w)) /\
  match exec_id (mkEvent op x) with
  | Some id => id = next_exec_id_ (sh_gw w) /\ next_exec_id_ (sh_gw w') = u64 (id + 1)
  | None => next_exec_id_ (sh_gw w') = next_exec_id_ (sh_gw w)
  end.
Proof.
  intros He. destruct op; simpl in He; unfold on_engine, on_feed in He; run_bind He; simplify_eq; try done;
    repeat case_match; by simplify_eq.
Qed.

Lemma env_gw s s' : env_step (E := E) sock_send comp_id s s' -> sh_gw (sys_sh s') = sh_gw (sys_sh s).
Proof. by destruct 1. Qed.

(** What the trace says of the counters. *)
Record accounted (tr : list (nat * Event)) (g : Gateway E) : Prop := {
  ac_orders : orders_ g = u64 (count is_order tr);
  ac_execs : execs_ g = u64 (count is_report tr);
  ac_ids : 1 + Z.of_nat (length (exec_ids tr)) < UINT64_SIZE ->
    next_exec_id_ g = 1 + Z.of_nat (length (exec_ids tr)) /\
    exec_ids tr = seqZ 1 (Z.of_nat (length (exec_ids tr)))
}.

Lemma accounted_exec i op w w' x tr :
  accounted tr (sh_gw w) -> exec i op w = Some (w', x) -> accounted (tr ++ [(i, mkEvent op x)]) (sh_gw w').
Proof.
  intros [Ho He Hid] Hx. destruct (exec_counters _ _ _ _ _ Hx) as (Ho' & He' & Hid').
  constructor; rewrite ?count_app, ?count_one.
  - rewrite Ho', Ho. destruct (is_order _); [apply u64_succ|by rewrite Z.add_0_r].
  - rewrite He', He. destruct (is_report _); [apply u64_succ|by rewrite Z.add_0_r].
  - unfold exec_ids in *. rewrite omap_app, length_app. cbn [omap list_omap snd].
    destruct (exec_id _) as [id|]; cbn [length].
    + intros Hb. destruct Hid as [Hn Hs]; [lia|]. destruct Hid' as [-> Hn']. split.
      * rewrite Hn', Hn, u64_small by lia. lia.
      * rewrite Hs at 1. rewrite Nat2Z.inj_add, seqZ_app by lia. by rewrite Hn.
    + rewrite Nat.add_0_r, app_nil_r, Hid'. apply Hid.
Qed.

(** Accounting over all sessions: the execution ids given out in any
    interleaving are 1, 2, 3, ..., so no two reports of any two sessions share
    an id, and the counters of orders and of reports are exactly the numbers of
    orders received and of reports sent. *)
Theorem exec_ids_unique e f tr s :
  steps (started (mkGateway e f 0 0 1)) tr s -> 1 + Z.of_nat (length (exec_ids tr)) < UINT64_SIZE ->
  exec_ids tr = seqZ 1 (Z.of_nat (length (exec_ids tr))) /\ NoDup (exec_ids tr) /\
  orders_ (sh_gw (sys_sh s)) = u64 (count is_order tr) /\ execs_ (sh_gw (sys_sh s)) = u64 (count is_report tr).
Proof.
  intros Hs Hb. assert (accounted tr (sh_gw (sys_sh s))) as [Ho He Hid].
  { clear Hb. remember (started _) as s0 eqn:E0. induction Hs as [|s0 tr s1 l s2 Hs IH H1]; subst; [by constructor|].
    specialize (IH eq_refl). destruct H1 as [i op k w ts w' x Hi Hx|s1 s2 Hv]; [by eapply accounted_exec|].
    by rewrite app_nil_r, (env_gw _ _ Hv). }
  destruct (Hid Hb) as [_ Hids]. split_and!; [done| |done|done]. rewrite Hids. apply NoDup_seqZ.
Qed.

(** ** The engine under concurrency *)

Lemma arun_ops_snoc ops op : forall a,
  arun_ops a (ops ++ [op]) =
    ((abook_step (arun_ops a ops).1 op).1, (arun_ops a ops).2 ++ [(abook_step (arun_ops a ops).1 op).2]).
Proof.
  induction ops as [|o ops IH]; intros a; simpl; [by destruct (abook_step a op)|].
  destruct (abook_step a o) as [a1 out]. rewrite IH. by destruct (arun_ops a1 ops).
Qed.

Lemma abook_step_next_id a op :
  0 <= ab_next_id a -> 0 <= ab_next_id (abook_step a op).1 <= ab_next_id a + 1.
Proof.
  intros Ha. destruct op as [side px qty|id]; simpl.
  - pose proof (aplace_next_id a side px qty) as Hid. pose proof (u64_range (ab_next_id a + 1)).
    pose proof (Z.mod_le (ab_next_id a + 1) UINT64_SIZE ltac:(lia) ltac:(lia)).
    destruct (aplace a side px qty) as [[??]?]. unfold u64 in *. simpl in *. lia.
  - unfold acancel. case_decide; simpl; lia.
Qed.

Lemma arun_ops_next_id ops : forall a, 0 <= ab_next_id a ->
  ab_next_id (arun_ops a ops).1 <= ab_next_id a + Z.of_nat (length ops).
Proof.
  induction ops as [|op ops IH]; intros a Ha; simpl; [lia|]. pose proof (abook_step_next_id a op Ha).
  destruct (abook_step a op) as [a1 out]. simpl in *. specialize (IH a1 ltac:(lia)). destruct (arun_ops a1 ops). simpl in *. lia.
Qed.

(** One operation on a represented engine. *)
Lemma exec_book i op w w' x a :
  e_abs (engine_ (sh_gw w)) a -> action_range op ->
  (is_Some (book_call (mkEvent op x)) -> ab_next_id a + 1 < UINT64_SIZE) -> exec i op w = Some (w', x) ->
  match book_call (mkEvent op x) with
  | Some (bop, r) => e_abs (engine_ (sh_gw w')) (abook_step a bop).1 /\ agrees (abook_step a bop).2 r
  | None => e_abs (engine_ (sh_gw w')) a
  end.
Proof.
  intros Ha Hr Hn He. destruct op as [| | | |side px qty| | | |side px|id| | | | | | | |]; simpl in *.
  5: { destruct (e_place_law _ _ side px qty Ha (Hn ltac:(by eexists)) Hr) as (e & Ep & _ & Ha').
       destruct (aplace_shape a side px qty) as (_ & _ & _ & Eid & _).
       unfold on_engine in He. cbn [exec_engine] in He. rewrite Ep in He. simplify_eq/=.
       by destruct (aplace a side px qty) as [[??]?]. }
  8: { unfold on_engine in He. cbn [exec_engine] in He. destruct (e_qty_at _ _ _); by simplify_eq/=. }
  8: { destruct (e_cancel_law _ _ id Ha) as (e & Ec & _ & Ha').
       unfold on_engine in He. cbn [exec_engine] in He. rewrite Ec in He. simplify_eq/=. by destruct (acancel a id). }
  all: unfold on_engine, on_feed in He; simpl in He; run_bind He; simplify_eq; try done; repeat case_match; by simplify_eq.
Qed.

(** What the specification says after the calls of a trace. *)
Definition serialized (a : ABook) (tr : list (nat * Event)) (e : E) : Prop :=
  e_abs e (arun_ops a (book_calls tr).*1).1 /\ Forall2 agrees (arun_ops a (book_calls tr).*1).2 (book_calls tr).*2.

Lemma serialized_refl a e : e_abs e a -> serialized a [] e.
Proof. intros Ha. by split; [|constructor]. Qed.

Lemma book_calls_app tr l : book_calls (tr ++ l) = book_calls tr ++ book_calls l.
Proof. apply omap_app. Qed.

Lemma serialized_step a tr s l s' :
  0 <= ab_next_id a -> serialized a tr (engine_ (sh_gw (sys_sh s))) -> lock_inv s -> step s l s' ->
  ab_next_id a + Z.of_nat (length (book_calls (tr ++ l))) < UINT64_SIZE ->
  serialized a (tr ++ l) (engine_ (sh_gw (sys_sh s'))).
Proof.
  intros Hn0 [Ha Hag] Hinv Hs Hn. pose proof (arun_ops_next_id (book_calls tr).*1 a Hn0) as Hid.
  rewrite length_fmap in Hid. destruct Hs as [i op k w ts w' x Hi Hx|s1 s2 Hv].
  - destruct Hinv as [Hd _]. destruct (disciplined_Act_inv _ _ _ _ (Hd i _ Hi)) as (_ & _ & Hr & _).
    unfold serialized. rewrite book_calls_app in *. unfold book_calls in *. cbn [omap list_omap snd sys_sh] in *.
    pose proof (exec_book i op w w' x _ Ha Hr) as Hb.
    destruct (book_call _) as [[bop r]|]; [|rewrite app_nil_r; split; [apply Hb; [by intros []|done]|done]].
    rewrite length_app in Hn. simpl in Hn. destruct Hb as [Hb1 Hb2]; [intros _; lia|done|].
    rewrite !fmap_app, !list_fmap_singleton, arun_ops_snoc. split; [done|]. apply Forall2_app; [done|]. by constructor.
  - rewrite app_nil_r. by rewrite (env_gw _ _ Hv).
Qed.

Lemma engine_calls (g : Gateway E) a tr s :
  steps (started g) tr s -> e_abs (engine_ g) a ->
  ab_next_id a + Z.of_nat (length (book_calls tr)) < UINT64_SIZE ->
  serialized a tr (engine_ (sh_gw (sys_sh s))).
Proof.
  intros Hs Ha. remember (started g) as s0 eqn:E0.
  induction Hs as [|s0 tr s1 l s2 Hs IH H1]; intros Hn; subst; [by apply serialized_refl|].
  pose proof (awf_next_id _ (e_abs_wf _ _ Ha)). eapply serialized_step; [lia| |by eapply lock_inv_steps, Hs; apply lock_inv_started|done|done].
  apply IH; [done|]. rewrite book_calls_app, length_app in Hn. lia.
Qed.

(** The engine is serialized: after any interleaving of any number of
    sessions, the engine represents the book that the specification reaches
    with the placements and cancels the sessions made, in the order they were
    made, and every order id and cancel result a session got is the one of the
    specification. *)
Theorem engine_serialized (g : Gateway E) a tr s :
  steps (started g) tr s -> e_abs (engine_ g) a ->
  ab_next_id a + Z.of_nat (length (book_calls tr)) < UINT64_SIZE ->
  e_abs (engine_ (sh_gw (sys_sh s))) (arun_ops a (book_calls tr).*1).1 /\
  Forall2 agrees (arun_ops a (book_calls tr).*1).2 (book_calls tr).*2.
Proof. apply engine_calls. Qed.

(** ** What a session reads in its section *)

(** The section of a new order, in one step: the trades are those of this
    placement and the prices those of the book right after it. *)
Lemma order_section {R} (K : _ -> Cmd R) e a side px qty B :
  e_abs e a -> flow_ok B a -> B + Z.max qty 0 <= INT64_MAX -> price_ok px -> i64_range qty ->
  ab_next_id a + 1 < UINT64_SIZE ->
  exists e' l1, section (place_section_c side px qty ≫= K) e = Some (e', K (ab_next_id a, (aplace a side px qty).2, l1)) /\
    e_abs e' (aplace a side px qty).1.1 /\ read_l1 e' = Some l1.
Proof.
  intros Ha Hf HB Hp Hq Hn. destruct (e_place_law _ _ side px qty Ha Hn Hq) as (e' & Ep & Et & Ha').
  destruct (read_l1_total _ _ _ Ha' (aplace_flow _ _ side px qty (e_abs_wf _ _ Ha) Hf Hp) HB)
    as (bid & bsz & ask & asz & El & _).
  exists e', (bid, bsz, ask, asz). split; [|done]. revert El. unfold place_section_c, read_l1_c, read_l1, qty_c.
  cbn -[Z.ltb]. rewrite Ep. cbn -[Z.ltb]. rewrite <-Et.
  destruct (0 <? e_best_bid e'); cbn -[Z.ltb]; [destruct (e_qty_at e' Buy _); [|done]; cbn -[Z.ltb]|];
    (destruct (e_best_ask e' <? INT64_MAX); cbn; [destruct (e_qty_at e' Sell _); [|done]; cbn|]; by intros [= <- <- <- <-]).
Qed.

End Trace.

(** ** Schedules *)

Section Schedules.
Context {E : Type} `{EngineOps E}.
Variable sock_send : nat -> Z -> Z.
Variable sock_sendto : Z -> Z.
Variable comp_id : bytes.
#[local] Abbreviation step := (step (E := E) sock_send sock_sendto comp_id).
#[local] Abbreviation steps := (steps (E := E) sock_send sock_sendto comp_id).

Lemma steps_trans s tr s1 tr' s2 : steps s tr s1 -> steps s1 tr' s2 -> steps s (tr ++ tr') s2.
Proof.
  intros H1 H2. induction H2 as [|s1 tr' s2 l s3 _ IH H2]; [by rewrite app_nil_r|].
  rewrite app_assoc. econstructor; [by apply IH|done].
Qed.

(** A schedule is an interleaving. *)
Lemma step_thread_step i s s' l : step_thread sock_sendto i s = Some (s', l) -> step s l s' /\ l <> [].
Proof.
  intros Hs. unfold step_thread in Hs. destruct s as [w ts]. simpl in *.
  destruct (ts !! i) as [[|why|op k]|] eqn:Hi; try done. destruct (exec _ i op w) as [[w' x]|] eqn:He; [|done].
  simplify_eq/=. by split; [apply step_act|].
Qed.

Lemma sched_steps turns : forall s s' tr, sched sock_sendto turns s = Some (s', tr) -> steps s tr s'.
Proof.
  induction turns as [|i turns IH]; intros s s' tr Hs; simpl in Hs; [simplify_eq; constructor|].
  destruct (step_thread _ i s) as [[s1 l]|] eqn:E1; [|done]. simpl in Hs.
  destruct (sched _ turns s1) as [[s2 tr']|] eqn:E2; [|done]. simplify_eq/=.
  apply (steps_trans _ _ s1); [|by apply IH]. rewrite <-(app_nil_l l).
  econstructor; [constructor|by apply (step_thread_step i)].
Qed.

End Schedules.

(** ** The feed is outside the lock *)

(** The system once [conns] have been accepted. *)
Definition accepted_sys (g : Gateway Engine) (conns : list (list bytes)) : Sys Engine :=
  mkSys (mkShared g None true AtTest (Z.of_nat (length conns)))
    ((fun chunks => session_loop_c all_sent (str "ENGINE") chunks Session_new) <$> conns).

Lemma accepted_sys_reached g conns :
  Z.of_nat (length conns) < UINT64_SIZE ->
  steps all_sent (fun n => n) (str "ENGINE") (started g) [] (accepted_sys g conns).
Proof.
  induction conns as [|chunks conns IH] using rev_ind; intros Hn; [constructor|]. rewrite length_app in Hn. simpl in Hn.
  rewrite <-(app_nil_l []). econstructor; [rewrite <-(app_nil_l []); econstructor; [apply IH; lia|]|].
  - by apply step_env, env_test.
  - apply step_env. unfold accepted_sys. rewrite fmap_app, list_fmap_singleton, length_app.
    replace (Z.of_nat (length conns + length [chunks])) with (u64 (Z.of_nat (length conns) + 1))
      by (simpl; rewrite u64_small by lia; lia).
    apply (env_accept _ _ (upd_acceptor InAccept (mkShared g None true AtTest (Z.of_nat (length conns)))) _ chunks eq_refl).
Qed.

Definition two_orders : list (list bytes) :=
  [[msg_logon ++ msg_order (str "100") (str "101.25")]; [msg_logon ++ msg_order (str "5") (str "101.25")]].

(** The state and trace of a schedule of those two sessions. *)
Definition run_turns (turns : list nat) : Sys Engine * list (nat * Event) :=
  default (accepted_sys demo_gateway two_orders, []) (sched (fun n => n) turns (accepted_sys demo_gateway two_orders)).

Lemma run_turns_steps turns :
  steps all_sent (fun n => n) (str "ENGINE") (started demo_gateway) (run_turns turns).2 (run_turns turns).1.
Proof.
  assert (steps all_sent (fun n => n) (str "ENGINE") (started demo_gateway) [] (accepted_sys demo_gateway two_orders)) as Ha.
  { apply accepted_sys_reached. vm_compute. reflexivity. }
  unfold run_turns. destruct (sched _ turns _) as [[s tr]|] eqn:Es; [|exact Ha].
  exact (steps_trans _ _ _ _ [] _ tr s Ha (sched_steps _ _ _ _ _ _ _ Es)).
Qed.

Definition race_turns : list nat := (replicate 12 0 ++ replicate 12 1 ++ mjoin (replicate 6 [0; 1]))%nat.
Definition race_run : Sys Engine * list (nat * Event) := run_turns race_turns.

Definition feed_state (s : Sys Engine) : option (Z * Z * list bytes) :=
  f ← feed_ (sh_gw (sys_sh s)); Some (seq_ f, published_ f, datagrams f).

(** (C40) The feed's counters race: they are updated outside the mutex, so there
    is an interleaving of two sessions in which both publish a record with
    sequence number 1, with different contents, and one of the two
    publications is not counted; the same two sessions one after the other
    publish 1 and 2. *)
Theorem feed_sequence_race :
  (exists tr s, steps all_sent (fun n => n) (str "ENGINE") (started demo_gateway) tr s /\
     feed_state s = Some (1, 1, [str "L1|1|ACME|101.25|100|0.00|0" ++ [10]; str "L1|1|ACME|101.25|105|0.00|0" ++ [10]])) /\
  (exists tr s, steps all_sent (fun n => n) (str "ENGINE") (started demo_gateway) tr s /\
     feed_state s = Some (2, 2, [str "L1|1|ACME|101.25|100|0.00|0" ++ [10]; str "L1|2|ACME|101.25|105|0.00|0" ++ [10]])).
Proof.
  split.
  - exists race_run.2, race_run.1. split; [apply run_turns_steps|]. vm_compute. reflexivity.
  - set (turns := (replicate 18 0 ++ replicate 18 1)%nat).
    exists (run_turns turns).2, (run_turns turns).1. split; [apply run_turns_steps|]. vm_compute. reflexivity.
Qed.

(** *** The theorems on that run *)

Lemma session_thread_sequential_witness :
  run (fun n => n) 0 (session_loop_c all_sent (str "ENGINE") [msg_logon; msg_order (str "100") (str "101.25")] Session_new)
    (sys_sh (started demo_gateway)) =
  '(g, s) ← session_loop all_sent (fun n => n) (str "ENGINE") [msg_logon; msg_order (str "100") (str "101.25")] demo_gateway Session_new;
  Some (upd_gw g (sys_sh (started demo_gateway)), s).
Proof. by apply (session_thread_sequential all_sent (fun n => n) (str "ENGINE")). Defined.

Lemma sections_atomic_witness :
  exists t, rtc (atomic_step all_sent (fun n => n) (str "ENGINE")) (started demo_gateway) t /\
    inside t race_run.1 /\ (sh_lock (sys_sh race_run.1) = None -> race_run.1 = t).
Proof. apply (sections_atomic all_sent (fun n => n) (str "ENGINE") demo_gateway race_run.2), (run_turns_steps race_turns). Defined.

Lemma exec_ids_unique_witness :
  exec_ids race_run.2 = seqZ 1 (Z.of_nat (length (exec_ids race_run.2))) /\ NoDup (exec_ids race_run.2) /\
  orders_ (sh_gw (sys_sh race_run.1)) = u64 (count is_order race_run.2) /\
  execs_ (sh_gw (sys_sh race_run.1)) = u64 (count is_report race_run.2).
Proof.
  apply (exec_ids_unique all_sent (fun n => n) (str "ENGINE") (engine_ demo_gateway) (feed_ demo_gateway)).
  - apply (run_turns_steps race_turns).
  - vm_compute. reflexivity.
Defined.

Lemma engine_serialized_witness :
  e_abs (engine_ (sh_gw (sys_sh race_run.1)))
    (arun_ops (mkABook [] [] 1 1 4) [OpPlace Buy 10125 100; OpPlace Buy 10125 5]).1 /\
  Forall2 agrees (arun_ops (mkABook [] [] 1 1 4) [OpPlace Buy 10125 100; OpPlace Buy 10125 5]).2 [inl 1; inl 2].
Proof.
  assert (book_calls race_run.2 = [(OpPlace Buy 10125 100, inl 1); (OpPlace Buy 10125 5, inl 2)]) as Ec
    by (vm_compute; reflexivity).
  change [OpPlace Buy 10125 100; OpPlace Buy 10125 5] with [(OpPlace Buy 10125 100, inl (B := bool) 1); (OpPlace Buy 10125 5, inl 2)].*1.
  change [inl 1; inl 2] with [(OpPlace Buy 10125 100, inl (B := bool) 1); (OpPlace Buy 10125 5, inl 2)].*2.
  rewrite <-Ec.
  apply (engine_serialized all_sent (fun n => n) (str "ENGINE") demo_gateway (mkABook [] [] 1 1 4) race_run.2 race_run.1).
  - apply (run_turns_steps race_turns).
  - by apply (OrderBook_new_refines 4).
  - vm_compute. reflexivity.
Defined.
