(* ===== verification/GatewayFinish.v ===== *)
(** * Every session ends

    The programs of [GatewayThreads] do what they may: the drain loop never
    uses up its bound, the feed is used only when there is one.  Hence the
    sessions of connections that end do end, under every schedule: only the
    undefined behaviour of a conversion, or of a sum of quantities, stops one. *)

From S2P Require Import Prelude Pool OrderedMap Level OrderBook BookSpec BookRefine BookQuery BookRun Engine Decimal Float64 Scanf FixParser Feed Gateway GatewayProps GatewayThreads GatewayConc.

(** ** Sound programs *)

Definition feed_op (op : Action) : bool :=
  match op with DoSeq | DoSetSeq _ | DoSendto _ | DoPublished | DoSetPublished _ => true | _ => false end.

(** The operation has shown that there is a feed. *)
Definition feed_seen (op : Action) : op_ret op -> bool :=
  match op return op_ret op -> bool with
  | DoFeed => fun fd => match fd with Some _ => true | None => false end
  | _ => fun _ => false
  end.

(** The program fails only by undefined behaviour, never by its bound; it uses
    the feed only when there is one ([fed]: that is known); what it returns
    satisfies [Q]. *)
Fixpoint sound {R} (fed : bool) (Q : R -> Prop) (c : Cmd R) : Prop :=
  match c with
  | Ret r => Q r
  | Undef why => why = Behaviour
  | Act op k => (feed_op op = true -> fed = true) /\ forall x, sound (fed || feed_seen op x) Q (k x)
  end.

Lemma sound_mono {R} (Q Q' : R -> Prop) (c : Cmd R) : forall fed fed',
  (fed = true -> fed' = true) -> (forall r, Q r -> Q' r) -> sound fed Q c -> sound fed' Q' c.
Proof.
  induction c as [r|why|op k IH]; intros fed fed' Hf HQ Hs; [by apply HQ|done|]. destruct Hs as [Ho Hk].
  split; [auto|]. intros x. apply (IH x (fed || feed_seen op x)); [|done|done].
  rewrite !orb_true_iff. intuition.
Qed.

Lemma sound_bind {A B} (Q : A -> Prop) (P : B -> Prop) (c : Cmd A) (f : A -> Cmd B) : forall fed,
  sound fed Q c -> (forall x, Q x -> sound fed P (f x)) -> sound fed P (c ≫= f).
Proof.
  induction c as [r|why|op k IH]; intros fed Hc Hf; [by apply Hf|done|]. destruct Hc as [Ho Hk].
  change (Act op k ≫= f) with (Act op (fun x => k x ≫= f)). split; [done|]. intros x. apply IH; [done|].
  intros y Hy. apply (sound_mono P P _ fed); [by intros ->|done|auto].
Qed.

Lemma sound_act {R} op (f : op_ret op -> Cmd R) fed Q :
  (feed_op op = true -> fed = true) -> (forall x, sound (fed || feed_seen op x) Q (f x)) -> sound fed Q (act op ≫= f).
Proof. intros Ho Hf. by split. Qed.

Lemma sound_lift {A} (o : option A) fed (Q : A -> Prop) : (forall x, o = Some x -> Q x) -> sound fed Q (lift o).
Proof. destruct o; simpl; auto. Qed.

Lemma sound_lift_bind {A B} (o : option A) (f : A -> Cmd B) fed (Q : B -> Prop) :
  (forall x, o = Some x -> sound fed Q (f x)) -> sound fed Q (lift o ≫= f).
Proof. destruct o; simpl; auto. Qed.

(** Follow a program that uses the feed nowhere; other lemmas close the calls. *)
Ltac soundness :=
  repeat first
    [ done
    | progress intros
    | match goal with
      | |- sound _ _ (act ?op ≫= ?f) => apply (sound_act op f); [done|cbn [feed_seen]; rewrite ?orb_false_r]
      | |- sound _ _ (act ?op) => apply (sound_act op Ret); [done|]
      | |- sound _ _ (lift _ ≫= _) => apply sound_lift_bind
      | |- sound _ _ (if ?b then _ else _) => destruct b
      | |- sound _ _ (match ?x with _ => _ end) => destruct x
      end ].

Section Sound.
Variable sock_send : nat -> Z -> Z.
Variable comp_id : bytes.

(** The receive buffer is left as it is. *)
Definition keeps (s s' : Session) : Prop := rx_buf s' = rx_buf s.

Lemma sound_report fed r s : sound fed (keeps s) (send_exec_report_c sock_send comp_id r s).
Proof. unfold send_exec_report_c. soundness. by eapply emit_report_rx. Qed.

Lemma sound_reports fed rs : forall s, sound fed (keeps s) (send_reports_c sock_send comp_id rs s).
Proof.
  induction rs as [|r rs IH]; intros s; [done|]. eapply sound_bind; [apply sound_report|]. intros s' Hs'.
  eapply sound_mono; [done| |apply IH]. intros s2 Hs2. by etrans.
Qed.

Lemma sound_publish fed symbol bid bsz ask asz : sound fed (fun _ => True) (publish_l1_c symbol bid bsz ask asz).
Proof.
  unfold publish_l1_c. apply (sound_act DoFeed); [done|]. intros [[]|]; cbn [feed_seen]; [|done..]. rewrite orb_true_r.
  do 3 (apply sound_act; [done|intros ?; rewrite orb_true_l]). apply sound_lift_bind. intros buf _.
  apply sound_act; [done|intros sent; rewrite orb_true_l]. destruct (0 <? sent); [|done].
  apply sound_act; [done|intros p; rewrite orb_true_l]. by apply (sound_act _ Ret).
Qed.

Lemma sound_read_l1 fed : sound fed (fun _ => True) read_l1_c.
Proof.
  unfold read_l1_c, qty_c. soundness. do 2 (eapply (sound_bind (fun _ => True)); [soundness|intros ? _]). done.
Qed.

Lemma sound_place fed side px qty : sound fed (fun _ => True) (place_section_c side px qty).
Proof. unfold place_section_c. soundness. eapply sound_bind; [apply sound_read_l1|]. soundness. Qed.

Lemma sound_logout fed text s : sound fed (keeps s) (logout_c sock_send comp_id text s).
Proof.
  unfold logout_c. soundness. match goal with Hs : send_logout _ _ _ _ = Some _ |- _ => apply send_logout_rx in Hs; apply Hs end.
Qed.

Lemma sound_new_order fed m s : sound fed (keeps s) (on_new_order_c sock_send comp_id m s).
Proof.
  unfold on_new_order_c. cbv zeta. soundness; [apply sound_report|].
  eapply sound_bind; [apply sound_place|]. intros [[id trs] [[[bid bsz] ask] asz]] _. soundness.
  eapply sound_bind; [apply sound_reports|]. intros s' Hs'. eapply sound_bind; [apply sound_publish|]. by intros [] _.
Qed.

Lemma sound_md_request fed m s : sound fed (keeps s) (on_md_request_c sock_send comp_id m s).
Proof.
  unfold on_md_request_c. soundness. eapply sound_bind; [apply sound_read_l1|]. intros [[[bid bsz] ask] asz] _. soundness.
  apply sound_lift. unfold send_md_snapshot. intros s' Hs. run_bind Hs. by apply send_built_rx in Hs.
Qed.

Lemma sound_handle fed m s : sound fed (keeps s) (handle_message_c sock_send comp_id m s).
Proof.
  unfold handle_message_c. cbv zeta. destruct (_ && _); [apply sound_logout|].
  destruct (_ =? 65). { apply sound_lift. unfold send_logon_ack. intros s' Hs. by apply send_built_rx in Hs. }
  destruct (_ =? 53); [apply sound_logout|]. destruct (_ =? 48); [done|]. destruct (_ =? 68); [apply sound_new_order|].
  destruct (_ =? 70); [|destruct (_ =? 86); [apply sound_md_request|done]].
  unfold on_cancel_c. soundness. apply sound_report.
Qed.

(** Every frame shortens the buffer: the bound of the loop is never used up. *)
Lemma sound_drain fed fuel : forall s,
  (length (rx_buf s) < fuel)%nat -> sound fed (fun _ => True) (drain_c sock_send comp_id fuel s).
Proof.
  induction fuel as [|fuel IH]; intros s Hl; [lia|]. cbn [drain_c].
  assert (forall text, sound fed (fun _ => True) (logout_c sock_send comp_id text s)) as Hout
    by (intros text; eapply sound_mono; [done| |apply sound_logout]; done).
  destruct (split_frame (rx_buf s)) as [frame consumed| |] eqn:Es; [|done|apply Hout].
  apply split_frame_consumed in Es. apply sound_lift_bind. intros [m|] _; [|apply Hout].
  eapply sound_bind; [apply sound_handle|]. unfold keeps. intros s' Hs'. apply IH. cbn [rx_buf set_rx inc_in_seq] in *.
  rewrite Hs', length_drop. lia.
Qed.

Lemma sound_session fed chunks : forall s, sound fed (fun _ => True) (session_loop_c sock_send comp_id chunks s).
Proof.
  induction chunks as [|chunk chunks IH]; intros s; [done|]. cbn [session_loop_c]. soundness.
  eapply sound_bind; [apply sound_drain; simpl; lia|]. intros s' _. apply IH.
Qed.

End Sound.

(** ** Progress *)

Section Finish.
Context {E : Type} `{HE : MatchingEngine E}.
Variable sock_send : nat -> Z -> Z.
Variable sock_sendto : Z -> Z.
Variable comp_id : bytes.
#[local] Abbreviation step := (step (E := E) sock_send sock_sendto comp_id).
#[local] Abbreviation steps := (steps (E := E) sock_send sock_sendto comp_id).
#[local] Abbreviation exec := (exec (E := E) sock_sendto).

Definition has_feed (w : Shared E) : bool := match feed_ (sh_gw w) with Some _ => true | None => false end.

Definition threads_sound (s : Sys E) : Prop :=
  Forall (sound (has_feed (sys_sh s)) (fun _ => True)) (sys_threads s).

Lemma exec_has_feed i op w w' x :
  exec i op w = Some (w', x) -> has_feed w' = has_feed w /\ (feed_seen op x = true -> has_feed w = true).
Proof.
  unfold has_feed. intros He. destruct op; simpl in *; unfold on_engine, on_feed in He; run_bind He; simplify_eq; simpl; try done;
    repeat case_match; by simplify_eq/=.
Qed.

Lemma threads_sound_step s l s' : threads_sound s -> step s l s' -> threads_sound s'.
Proof.
  unfold threads_sound. intros Hs Hst. destruct Hst as [i op k w ts w' x Hi Hx|s1 s2 Hv]; simpl in *.
  - destruct (exec_has_feed _ _ _ _ _ Hx) as [-> Hseen]. apply Forall_insert; [done|].
    destruct (Forall_lookup_1 _ _ _ _ Hs Hi) as [_ Hk]. apply (sound_mono (fun _ => True) _ _ (has_feed w || feed_seen op x)); [|done|apply (Hk x)].
    rewrite orb_true_iff. intuition.
  - destruct Hv; simpl in *; try done. apply Forall_app. split; [done|]. apply Forall_singleton, sound_session.
Qed.

Lemma threads_sound_steps g tr s : steps (started g) tr s -> threads_sound s.
Proof.
  remember (started g) as s0 eqn:E0. intros Hs. induction Hs as [|s0 tr s1 l s2 _ IH Hs]; subst; [by constructor|].
  eapply threads_sound_step; [by apply IH|done].
Qed.

(** The undefined behaviour there can be: in a worker's own code (a cast of a
    double, a sum of fills, a text too long), or in the sum of the quantities
    at a price. *)
Definition at_fault (w : Shared E) (c : Cmd Session) : Prop :=
  match c with
  | Undef Behaviour => True
  | Act (DoQtyAt side px) _ => e_qty_at (engine_ (sh_gw w)) side px = None
  | _ => False
  end.

(** A sound worker that respects the lock makes its operation, unless it waits. *)
Lemma worker_can i op (k : op_ret op -> Cmd Session) w a :
  e_abs (engine_ (sh_gw w)) a -> ab_next_id a + 1 < UINT64_SIZE ->
  sound (has_feed w) (fun _ => True) (Act op k) -> disciplined (bool_decide (sh_lock w = Some i)) (Act op k) false ->
  op <> DoLock \/ sh_lock w = None -> is_Some (exec i op w) \/ at_fault w (Act op k).
Proof.
  intros Ha Hn [Hfeed _] Hd Hop. destruct (disciplined_Act_inv _ _ _ _ Hd) as (h & Eh & Hr & _).
  assert (feed_op op = true -> is_Some (feed_ (sh_gw w))) as Hf.
  { intros Hf%Hfeed. unfold has_feed in Hf. by destruct (feed_ (sh_gw w)). }
  destruct op as [| | | |side px qty| | | |side px|id| | | | | | | |]; simpl in *; unfold on_engine, on_feed in *; cbn [exec_engine] in *;
    try (left; by eexists); try (destruct (Hf eq_refl) as [f ->]; left; by eexists).
  - destruct Hop as [?|Hl]; [done|]. rewrite Hl. left. by eexists.
  - case_bool_decide as Hl; [|done]. rewrite decide_True by done. left. by eexists.
  - destruct (e_place_law _ _ side px qty Ha Hn Hr) as (e & -> & _). left. by eexists.
  - destruct (e_qty_at _ side px); [left; by eexists|by right].
  - destruct (e_cancel_law _ _ id Ha) as (e & -> & _). left. by eexists.
Qed.

(** While some worker has not finished, some worker can make its next
    operation, or is at its undefined behaviour. *)
Lemma some_worker_can s i c a :
  lock_inv s -> threads_sound s -> e_abs (engine_ (sh_gw (sys_sh s))) a -> ab_next_id a + 1 < UINT64_SIZE ->
  sys_threads s !! i = Some c -> (forall r, c <> Ret r) ->
  (exists j ev s', step s [(j, ev)] s') \/ exists j d, sys_threads s !! j = Some d /\ at_fault (sys_sh s) d.
Proof.
  intros [Hd Hh] Hs Ha Hn Hi Hc. destruct s as [w ts]. unfold threads_sound in Hs. cbn [sys_sh sys_threads] in *.
  assert (forall j d, ts !! j = Some d -> (forall r, d <> Ret r) -> (forall k, d = Act DoLock k -> sh_lock w = None) ->
    (exists j ev s', step (mkSys w ts) [(j, ev)] s') \/ exists j d, ts !! j = Some d /\ at_fault w d) as Hgo.
  { intros j d Hj Hr Hk. pose proof (Forall_lookup_1 _ _ _ _ Hs Hj) as Hsd. specialize (Hd j d Hj).
    destruct d as [r|why|op k]; [by destruct (Hr r)|right; exists j, (Undef why); simpl in Hsd; by subst|].
    destruct (worker_can j op k w a Ha Hn Hsd Hd) as [[[w' x] Hx]|Hf].
    - destruct (op_cases op) as [->|[->|[H1 H2]]]; [right; by eapply Hk|by left..].
    - left. do 3 eexists. by eapply step_act.
    - right. by exists j, (Act op k). }
  destruct (sh_lock w) as [h|] eqn:Hl.
  - destruct (lookup_lt_is_Some_2 ts h (Hh h eq_refl)) as [d Hdh]. pose proof (Hd h d Hdh) as Hdd.
    rewrite bool_decide_true in Hdd by done. apply (Hgo h d Hdh).
    + by intros r ->.
    + by intros k ->.
  - by apply (Hgo i c).
Qed.

(** ** Termination *)

(** A worker makes an operation. *)
Definition worker_step (s s' : Sys E) : Prop := exists i ev, step s [(i, ev)] s'.

(** What can be left of a program after its next operation. *)
Definition rest_of (c c' : Cmd Session) : Prop :=
  match c with Act op k => exists x, c' = k x | _ => False end.

(** A worker's program is replaced by what is left of it. *)
Definition unfolds (ts' ts : list (Cmd Session)) : Prop :=
  exists i c c', ts !! i = Some c /\ rest_of c c' /\ ts' = <[i := c']> ts.

Lemma Acc_cons c : forall ts, Acc unfolds ts -> Acc unfolds (c :: ts).
Proof.
  induction c as [r|why|op k IHc]; intros ts Hts; induction Hts as [ts Hts IHts];
    constructor; intros ts' ([|i] & c & c' & Hi & Hc & ->); cbn [lookup list_lookup] in Hi.
  1,3,5: injection Hi as <-. 1,2: by destruct Hc. 1: destruct Hc as [x ->]; by apply IHc.
  all: apply IHts; by exists i, c, c'.
Qed.

Lemma Acc_unfolds ts : Acc unfolds ts.
Proof. induction ts as [|c ts IH]; [|by apply Acc_cons]. constructor. by intros ? (? & ? & ? & ? & _). Qed.

Lemma worker_step_unfolds s s' : worker_step s s' -> unfolds (sys_threads s') (sys_threads s).
Proof.
  intros (i & ev & Hs). inversion Hs as [? op k ??? x Hi|]; subst. simpl. exists i, (Act op k), (k x).
  split_and!; [done|by exists x|done].
Qed.

Lemma Acc_worker_step s : Acc (flip worker_step) s.
Proof.
  remember (sys_threads s) as ts eqn:Hts. revert s Hts. induction (Acc_unfolds ts) as [ts _ IH]. intros s ->.
  constructor. intros s' Hs. by eapply IH; [apply worker_step_unfolds|].
Qed.

Definition unfinished (c : Cmd Session) : Prop := match c with Ret _ => False | _ => True end.
#[local] Instance unfinished_dec c : Decision (unfinished c).
Proof. destruct c; apply _. Defined.

(** (C17) Every session ends: from any state the gateway reaches, on an engine
    that implements its specification, the workers make finitely many
    operations under every schedule, and as long as one of them has not
    finished, one of them can make its next operation, or has come to undefined
    behaviour: a cast or a sum of its own code, or the sum of the quantities at
    a price.  So no worker waits for ever on the mutex, no loop over the frames
    of a chunk goes on for ever, and no other call on the engine or the feed is
    undefined.  The connections are ones that end. *)
Theorem workers_finish g a tr s :
  steps (started g) tr s -> e_abs (engine_ g) a ->
  ab_next_id a + Z.of_nat (length (book_calls tr)) + 1 < UINT64_SIZE ->
  Acc (flip worker_step) s /\
  ((forall i c, sys_threads s !! i = Some c -> exists r, c = Ret r) \/
   (exists s', worker_step s s') \/
   exists j d, sys_threads s !! j = Some d /\ at_fault (sys_sh s) d).
Proof.
  intros Hs Ha Hn. split; [apply Acc_worker_step|].
  destruct (decide (Exists unfinished (sys_threads s))) as [Hex|Hall].
  - right. apply Exists_exists in Hex as (c & [i Hc]%list_elem_of_lookup & Hu).
    pose proof (awf_next_id _ (e_abs_wf _ _ Ha)).
    assert (serialized a tr (engine_ (sh_gw (sys_sh s)))) as [Ha' _] by (eapply engine_calls; [done..|lia]).
    destruct (some_worker_can s i c _ (lock_inv_steps _ _ _ _ _ _ (lock_inv_started g) Hs) (threads_sound_steps _ _ _ Hs) Ha')
      as [(j & ev & s' & Hst)|?]; [|done|by intros r ->|left; by exists s', j, ev|by right].
    pose proof (arun_ops_next_id (book_calls tr).*1 a ltac:(lia)). rewrite length_fmap in *. lia.
  - left. intros i c Hc. apply not_Exists_Forall in Hall; [|apply _].
    apply (Forall_lookup_1 _ _ _ _ Hall) in Hc. destruct c; [by eexists|by destruct Hc..].
Qed.

End Finish.

Lemma workers_finish_witness :
  let s := race_run.1 in
  Acc (flip (worker_step all_sent (fun n => n) (str "ENGINE"))) s /\
  ((forall i c, sys_threads s !! i = Some c -> exists r, c = Ret r) \/
   (exists s', worker_step all_sent (fun n => n) (str "ENGINE") s s') \/
   exists j d, sys_threads s !! j = Some d /\ at_fault (sys_sh s) d).
Proof.
  apply (workers_finish all_sent (fun n => n) (str "ENGINE") demo_gateway (mkABook [] [] 1 1 4) race_run.2).
  - apply (run_turns_steps race_turns).
  - by apply (OrderBook_new_refines 4).
  - vm_compute. reflexivity.
Defined.
