(* ===== verification/GatewayLife.v ===== *)
(** * Life cycle of the gateway and of the feed

    [Gateway::start], [stop], the acceptor's and the workers' part in opening
    and closing descriptors (src/mvp/src/fix/gateway.cpp), and [Feed::open] and
    [close] (src/mvp/src/md/feed.cpp).  The operating system is the set of open
    descriptors and the results of its calls; closing a descriptor that is not
    open is the error to exclude.  Taken one after the other the operations
    keep exactly the descriptors they know open, and [stop] closes them all;
    the last section shows what happens when a worker that ends and [stop]
    run at the same time. *)

From stdpp Require Import gmap.
From S2P Require Import Prelude Feed.

(** ** Descriptors *)

Definition close_fd (fd : Z) (os : gset Z) : option (gset Z) :=
  if decide (fd ∈ os) then Some (os ∖ {[fd]}) else None.

(** [if (fd >= 0) { close(fd); fd = -1; }] *)
Definition close_if_open (fd : Z) (os : gset Z) : option (gset Z) :=
  if 0 <=? fd then close_fd fd os else Some os.

(** ** The gateway *)

(** Results of the calls of [start]. *)
Record NetEnv := mkNetEnv {
  env_socket : Z;
  env_pton : Z;
  env_bind : Z;
  env_listen : Z;
  env_port : Z                  (* what getsockname finds *)
}.

Record Life := mkLife {
  listen_fd_ : Z;
  bound_port_ : Z;
  running_ : bool;
  acceptor_thread_ : bool;      (* joinable *)
  sessions_ : list Z;           (* fd of each session *)
  accepted_ : Z;
  os_open : gset Z
}.

Definition Life_new : Life := mkLife (-1) 0 false false [] 0 ∅.

Definition give_up_listen (fd : Z) (os : gset Z) (l : Life) : option (Life * bool) :=
  os ← close_fd fd os;
  Some (mkLife (-1) (bound_port_ l) (running_ l) (acceptor_thread_ l) (sessions_ l) (accepted_ l) os, false).

(** [None]: a descriptor is closed that is not open, or a joinable thread is
    overwritten, which terminates the program. *)
Definition start (env : NetEnv) (l : Life) : option (Life * bool) :=
  let fd := env_socket env in
  if fd <? 0 then
    Some (mkLife fd (bound_port_ l) (running_ l) (acceptor_thread_ l) (sessions_ l) (accepted_ l) (os_open l), false)
  else
    let os := {[fd]} ∪ os_open l in
    if negb (env_pton env =? 1) then give_up_listen fd os l
    else if env_bind env <? 0 then give_up_listen fd os l
    else if env_listen env <? 0 then give_up_listen fd os l
    else if acceptor_thread_ l then None
    else Some (mkLife fd (env_port env) true true (sessions_ l) (accepted_ l) os, true).

(** A connection accepted on [fd]. *)
Definition accept_session (fd : Z) (l : Life) : Life :=
  mkLife (listen_fd_ l) (bound_port_ l) (running_ l) (acceptor_thread_ l) (sessions_ l ++ [fd])
    (u64 (accepted_ l + 1)) ({[fd]} ∪ os_open l).

(** The end of [session_loop] of the i-th session. *)
Definition end_session (i : nat) (l : Life) : option Life :=
  fd ← sessions_ l !! i;
  os ← close_if_open fd (os_open l);
  Some (mkLife (listen_fd_ l) (bound_port_ l) (running_ l) (acceptor_thread_ l)
    (<[i := if 0 <=? fd then -1 else fd]> (sessions_ l)) (accepted_ l) os).

Fixpoint close_sessions (fds : list Z) (os : gset Z) : option (gset Z) :=
  match fds with
  | [] => Some os
  | fd :: fds => os ← close_if_open fd os; close_sessions fds os
  end.

Definition stop (l : Life) : option Life :=
  if negb (running_ l) then Some l
  else
    os ← close_if_open (listen_fd_ l) (os_open l);
    os ← close_sessions (sessions_ l) os;
    Some (mkLife (if 0 <=? listen_fd_ l then -1 else listen_fd_ l) (bound_port_ l) false false [] (accepted_ l) os).

(** A descriptor the operating system hands out is not in use.  [start] has no
    guard of its own; [restart] says whether it is called on a gateway that
    runs. *)
Inductive life_step (restart : bool) : Life -> Life -> Prop :=
  | life_start env l l' ok :
      running_ l = false \/ restart = true -> env_socket env ∉ os_open l -> start env l = Some (l', ok) ->
      life_step restart l l'
  | life_accept fd l :
      running_ l = true -> 0 <= fd -> fd ∉ os_open l -> life_step restart l (accept_session fd l)
  | life_end i l l' : end_session i l = Some l' -> life_step restart l l'
  | life_stop l l' : stop l = Some l' -> life_step restart l l'.

(** ** The invariant *)

(** The descriptors in the gateway's fields. *)
Definition held (l : Life) : list Z := filter (fun fd => 0 <= fd) (listen_fd_ l :: sessions_ l).

Record life_inv (l : Life) : Prop := {
  lv_nodup : NoDup (held l);
  lv_open : os_open l = list_to_set (held l);
  lv_listen : running_ l = false -> listen_fd_ l < 0 /\ sessions_ l = [];
  lv_acceptor : acceptor_thread_ l = running_ l
}.

Lemma close_if_open_ok fd fds :
  NoDup (filter (fun fd => 0 <= fd) (fd :: fds)) ->
  close_if_open fd (list_to_set (filter (fun fd => 0 <= fd) (fd :: fds))) =
    Some (list_to_set (filter (fun fd => 0 <= fd) fds)).
Proof.
  intros Hn. unfold close_if_open, close_fd. destruct (Z.leb_spec 0 fd) as [Hfd|Hfd].
  - rewrite filter_cons_True in * by done. apply NoDup_cons in Hn as [Hin _].
    rewrite decide_True by set_solver. f_equal. cbn [list_to_set]. apply leibniz_equiv. set_solver.
  - by rewrite filter_cons_False by lia.
Qed.

Lemma close_sessions_ok fds : 
  NoDup (filter (fun fd => 0 <= fd) fds) ->
  close_sessions fds (list_to_set (filter (fun fd => 0 <= fd) fds)) = Some ∅.
Proof.
  induction fds as [|fd fds IH]; intros Hn; [done|]. cbn [close_sessions].
  rewrite close_if_open_ok by done. cbn [mbind option_bind]. apply IH.
  rewrite filter_cons in Hn. case_decide; [by apply NoDup_cons in Hn as [_ ?]|done].
Qed.

(** [stop] on a gateway that is running closes everything it holds. *)
Lemma stop_running l :
  life_inv l -> running_ l = true ->
  exists l', stop l = Some l' /\ os_open l' = ∅ /\ running_ l' = false /\ acceptor_thread_ l' = false /\
    listen_fd_ l' < 0 /\ sessions_ l' = [].
Proof.
  intros [Hn Ho _ _] Hr. unfold stop. rewrite Hr, Ho. unfold held in *. cbn [negb].
  rewrite close_if_open_ok by done. cbn [mbind option_bind]. rewrite close_sessions_ok.
  - eexists. split; [done|]. simpl. split_and!; try done. destruct (Z.leb_spec 0 (listen_fd_ l)); lia.
  - rewrite filter_cons in Hn. case_decide; [by apply NoDup_cons in Hn as [_ ?]|done].
Qed.

Lemma give_up_listen_ok fd os l l' ok :
  life_inv l -> running_ l = false -> fd ∉ os_open l -> os = {[fd]} ∪ os_open l ->
  give_up_listen fd os l = Some (l', ok) -> life_inv l'.
Proof.
  intros [Hn Ho Hl Ha] Hr Hfd -> Hs. unfold give_up_listen, close_fd in Hs. rewrite decide_True in Hs by set_solver.
  simplify_eq/=. destruct (Hl Hr) as [Hneg Hss]. unfold held in *. rewrite Hss in *.
  rewrite filter_cons_False in * by lia. constructor; unfold held; simpl; rewrite ?Hss, ?filter_cons_False by lia; try done.
  rewrite Ho in *. apply leibniz_equiv. set_solver.
Qed.

Lemma life_inv_start env l l' ok :
  life_inv l -> running_ l = false -> env_socket env ∉ os_open l -> start env l = Some (l', ok) -> life_inv l'.
Proof.
  intros Hi Hr Hfd Hs. unfold start in Hs. destruct (Z.ltb_spec (env_socket env) 0) as [Hlt|Hge].
  - destruct Hi as [Hn Ho Hl Ha]. simplify_eq/=. destruct (Hl Hr) as [Hneg Hss].
    constructor; unfold held in *; simpl; rewrite ?filter_cons_False in * by lia; try done.
  - do 3 (destruct (_ : bool) in Hs; [by eapply give_up_listen_ok|]).
    destruct Hi as [Hn Ho Hl Ha]. rewrite Ha, Hr in Hs. simplify_eq/=. destruct (Hl Hr) as [Hneg Hss].
    unfold held in *. rewrite Hss, filter_cons_False in * by lia.
    constructor; unfold held; simpl; rewrite ?Hss; [|..|done|done].
    + rewrite filter_cons_True by done. apply NoDup_singleton.
    + rewrite filter_cons_True by done. rewrite Ho. done.
Qed.

Lemma life_inv_accept fd l :
  life_inv l -> running_ l = true -> 0 <= fd -> fd ∉ os_open l -> life_inv (accept_session fd l).
Proof.
  intros [Hn Ho Hl Ha] Hr Hfd Hin.
  assert (held (accept_session fd l) = held l ++ [fd]) as Hh.
  { unfold held, accept_session. simpl. by rewrite app_comm_cons, filter_app, (filter_cons_True _ fd) by done. }
  rewrite Ho in Hin. constructor; rewrite ?Hh; simpl; [| |congruence|done].
  - apply NoDup_app. split; [done|]. split; [set_solver|apply NoDup_singleton].
  - rewrite Ho. apply leibniz_equiv. set_solver.
Qed.

Lemma held_end i l fd :
  sessions_ l !! i = Some fd ->
  exists l1 l2, listen_fd_ l :: sessions_ l = l1 ++ fd :: l2 /\
    forall y, listen_fd_ l :: <[i := y]> (sessions_ l) = l1 ++ y :: l2.
Proof.
  intros Hi. exists (listen_fd_ l :: take i (sessions_ l)), (drop (S i) (sessions_ l)). split.
  - simpl. f_equal. by rewrite take_drop_middle.
  - intros y. simpl. f_equal. apply insert_take_drop. by apply lookup_lt_Some in Hi.
Qed.

Lemma life_inv_end i l l' : life_inv l -> end_session i l = Some l' -> life_inv l'.
Proof.
  intros [Hn Ho Hl Ha] Hs. unfold end_session in Hs. destruct (sessions_ l !! i) as [fd|] eqn:Hi; [|done]. simpl in Hs.
  destruct (held_end i l fd Hi) as (l1 & l2 & Hd & Hy). unfold held in *. rewrite Hd in *.
  assert (filter (fun fd => 0 <= fd) (l1 ++ fd :: l2) ≡ₚ filter (fun fd => 0 <= fd) (fd :: l1 ++ l2)) as Hp
    by (by rewrite Permutation_middle).
  rewrite (list_to_set_perm_L _ _ Hp) in Ho. rewrite Hp in Hn.
  rewrite Ho, close_if_open_ok in Hs by done. simplify_eq/=.
  assert (filter (fun fd => 0 <= fd) (l1 ++ (if 0 <=? fd then -1 else fd) :: l2) = filter (fun fd => 0 <= fd) (l1 ++ l2)) as Hf.
  { rewrite !filter_app, filter_cons_False; [done|]. destruct (Z.leb_spec 0 fd); lia. }
  constructor; unfold held; simpl; rewrite ?Hy, ?Hf; [|done| |done].
  - rewrite filter_cons in Hn. case_decide; [by apply NoDup_cons in Hn as [_ ?]|done].
  - intros Hr. destruct (Hl Hr) as [? Hss]. by rewrite Hss in Hi.
Qed.

Lemma life_inv_stop l l' : life_inv l -> stop l = Some l' -> life_inv l'.
Proof.
  intros Hi Hs. destruct (running_ l) eqn:Hr; [|unfold stop in Hs; rewrite Hr in Hs; by simplify_eq/=].
  destruct (stop_running l Hi Hr) as (l1 & E1 & Ho & Hr' & Ha & Hneg & Hss). simplify_eq.
  constructor; unfold held; rewrite ?Hss, ?filter_cons_False by lia; [apply NoDup_nil_2|done|done|congruence].
Qed.

Lemma life_inv_step l l' : life_inv l -> life_step false l l' -> life_inv l'.
Proof.
  intros Hi Hs. destruct Hs as [env l l' ok [|]|fd l|i l l'|l l'];
    [by eapply life_inv_start|done|by apply life_inv_accept|by eapply life_inv_end|by eapply life_inv_stop].
Qed.

Lemma life_inv_new : life_inv Life_new.
Proof. constructor; unfold held, Life_new; simpl; rewrite ?filter_cons_False by lia; [apply NoDup_nil_2|done|done|done]. Qed.

(** Descriptors of the gateway: through any sequence of starts of a stopped
    gateway that succeed or fail, accepted connections, sessions that end and
    stops, each of them to its end before the next, the open descriptors are
    exactly those in the gateway's fields, each once, so nothing is leaked or
    closed twice; [stop] is always defined, leaves none open, no session and no
    thread, and a second [stop] does nothing.  Two assumptions are needed: a
    session that ends while [stop] runs can be closed twice
    ([session_close_race]), and a gateway that runs must not be started
    ([second_start_leaks]). *)
Theorem gateway_descriptors l :
  rtc (life_step false) Life_new l ->
  os_open l = list_to_set (held l) /\ NoDup (held l) /\
  (forall i fd, sessions_ l !! i = Some fd -> is_Some (end_session i l)) /\
  exists l', stop l = Some l' /\ os_open l' = ∅ /\ running_ l' = false /\ acceptor_thread_ l' = false /\
    sessions_ l' = [] /\ stop l' = Some l'.
Proof.
  intros Hs. assert (life_inv l) as Hi.
  { pose proof life_inv_new as H0. induction Hs as [|l l1 l2 H1 _ IH]; [done|]. by eapply IH, life_inv_step. }
  split; [apply Hi|]. split; [apply Hi|]. split.
  - intros i fd Hfd. unfold end_session. rewrite Hfd. cbn [mbind option_bind]. unfold close_if_open, close_fd.
    destruct (Z.leb_spec 0 fd); [|by eexists]. rewrite decide_True; [by eexists|].
    rewrite (lv_open _ Hi). apply elem_of_list_to_set, list_elem_of_filter. split; [done|].
    right. by apply list_elem_of_lookup_2 in Hfd.
  - destruct (running_ l) eqn:Hr.
    + destruct (stop_running l Hi Hr) as (l' & E1 & Ho & Hr' & Ha & _ & Hss). exists l'.
      split_and!; try done. unfold stop. by rewrite Hr'.
    + exists l. assert (stop l = Some l) as E1 by (unfold stop; by rewrite Hr). destruct Hi as [_ Ho Hl Ha].
      destruct (Hl Hr) as [Hneg Hss]. split_and!; try done; [|congruence].
      rewrite Ho. unfold held. by rewrite Hss, filter_cons_False by lia.
Qed.

(** A start of a gateway that runs overwrites [listen_fd_] first: when it fails,
    the descriptor of the listening socket is in no field any more and [stop]
    leaves it open; when it does not, the acceptor's thread is overwritten,
    which ends the program. *)
Theorem second_start_leaks :
  let l := default (Life_new, false) (start (mkNetEnv 3 1 0 0 9878) Life_new) in
  running_ l.1 = true /\
  (exists l1 l2, start (mkNetEnv 4 1 (-1) 0 0) l.1 = Some (l1, false) /\ stop l1 = Some l2 /\ os_open l2 = {[3]} /\ held l2 = []) /\
  start (mkNetEnv 4 1 0 0 9879) l.1 = None.
Proof.
  intros l. split; [done|]. split; [|by vm_compute]. do 2 eexists. split; [by vm_compute|]. split; [by vm_compute|].
  split; [|by vm_compute]. by apply (bool_decide_unpack _); vm_compute.
Qed.

(** ** The feed's socket *)

(** Results of [socket] and [inet_pton]. *)
Definition feed_open_socket (sock pton : Z) (fd : Z) (os : gset Z) : option (Z * gset Z * bool) :=
  if sock <? 0 then Some (sock, os, false)
  else
    let os := {[sock]} ∪ os in
    if negb (pton =? 1) then os ← close_fd sock os; Some (-1, os, false)
    else Some (sock, os, true).

Definition feed_close_socket (fd : Z) (os : gset Z) : option (Z * gset Z) :=
  os ← close_if_open fd os; Some (if 0 <=? fd then -1 else fd, os).

Lemma feed_socket_balanced sock pton os fd os' ok :
  sock ∉ os -> feed_open_socket sock pton (-1) os = Some (fd, os', ok) ->
  (ok = true <-> 0 <= fd) /\ exists fd', feed_close_socket fd os' = Some (fd', os) /\ fd' < 0.
Proof.
  intros Hin Hs. unfold feed_open_socket, feed_close_socket, close_if_open, close_fd in *.
  destruct (Z.ltb_spec sock 0) as [Hlt|Hge].
  - simplify_eq. split; [by split; [|lia]|]. rewrite (proj2 (Z.leb_gt _ _)) by lia. eexists. split; [done|lia].
  - assert (({[sock]} ∪ os) ∖ {[sock]} = os) as Hos by set_solver. destruct (negb _).
    + rewrite decide_True in Hs by set_solver. simplify_eq/=. rewrite Hos. split; [by split; [|lia]|].
      eexists. split; [done|lia].
    + simplify_eq. split; [by split; [lia|]|]. rewrite (proj2 (Z.leb_le _ _)) by lia. rewrite decide_True by set_solver.
      cbn [mbind option_bind]. rewrite Hos. eexists. split; [done|lia].
Qed.

(** ** A session that ends while [stop] runs *)

(** Both the worker, at the end of [session_loop], and [stop] run
    [if (s->fd >= 0) { close(s->fd); s->fd = -1; }] on the same field, without
    a lock: each is a test, a close and a store. *)
Inductive CloserPc := AtFdTest | AtClose | AtStore | Closed.

Record FdRace := mkFdRace {
  race_fd : Z;
  race_worker : CloserPc;
  race_stop : CloserPc;
  race_closes : list Z          (* the calls close(fd) made *)
}.

Definition closer_step (pc : CloserPc) (fd : Z) (closes : list Z) : CloserPc * Z * list Z :=
  match pc with
  | AtFdTest => (if 0 <=? fd then AtClose else Closed, fd, closes)
  | AtClose => (AtStore, fd, closes ++ [fd])
  | AtStore => (Closed, -1, closes)
  | Closed => (Closed, fd, closes)
  end.

(** [true]: the worker moves. *)
Definition race_step (worker : bool) (r : FdRace) : FdRace :=
  if worker then
    let '(pc, fd, cs) := closer_step (race_worker r) (race_fd r) (race_closes r) in mkFdRace fd pc (race_stop r) cs
  else
    let '(pc, fd, cs) := closer_step (race_stop r) (race_fd r) (race_closes r) in mkFdRace fd (race_worker r) pc cs.

Definition race_from (fd : Z) : FdRace := mkFdRace fd AtFdTest AtFdTest [].

(** The worker's exit and [stop] race for the session's descriptor: when
    both have tested the field before either has stored -1, both close it, the
    second time a number the system may have given to another socket; there
    are such interleavings for every open descriptor, while one after the
    other closes it once, in either order. *)
Theorem session_close_race fd :
  0 <= fd ->
  (exists turns, let r := foldl (flip race_step) (race_from fd) turns in
     race_worker r = Closed /\ race_stop r = Closed /\ race_closes r = [fd; fd]) /\
  (forall first, let r := foldl (flip race_step) (race_from fd) (replicate 3 first ++ replicate 3 (negb first)) in
     race_worker r = Closed /\ race_stop r = Closed /\ race_closes r = [fd] /\ race_fd r = -1).
Proof.
  intros Hfd. destruct fd as [|p|p]; [| |lia];
    (split; [by exists [true; false; true; false; true; false]|by intros []]).
Qed.

Lemma session_close_race_witness :
  (exists turns, let r := foldl (flip race_step) (race_from 7) turns in
     race_worker r = Closed /\ race_stop r = Closed /\ race_closes r = [7; 7]) /\
  (forall first, let r := foldl (flip race_step) (race_from 7) (replicate 3 first ++ replicate 3 (negb first)) in
     race_worker r = Closed /\ race_stop r = Closed /\ race_closes r = [7] /\ race_fd r = -1).
Proof. apply (session_close_race 7). lia. Defined.

(** A gateway that fails to bind, starts, accepts two connections, loses one. *)
Definition demo_life : Life :=
  default Life_new (
    '(l, _) ← start (mkNetEnv 3 1 (-1) 0 0) Life_new;
    '(l, _) ← start (mkNetEnv 3 1 0 0 9878) l;
    end_session 0 (accept_session 5 (accept_session 4 l))).

Lemma demo_life_reached : rtc (life_step false) Life_new demo_life.
Proof.
  eapply rtc_l; [eapply (life_start false (mkNetEnv 3 1 (-1) 0 0)); [by left|set_solver|vm_compute; reflexivity]|].
  eapply rtc_l; [eapply (life_start false (mkNetEnv 3 1 0 0 9878)); [by left|by apply (bool_decide_unpack _)|vm_compute; reflexivity]|].
  eapply rtc_l; [apply (life_accept false 4); [done|lia|by apply (bool_decide_unpack _)]|].
  eapply rtc_l; [apply (life_accept false 5); [done|lia|by apply (bool_decide_unpack _)]|].
  apply rtc_once, (life_end false 0). vm_compute. reflexivity.
Qed.

Lemma gateway_descriptors_witness :
  os_open demo_life = list_to_set (held demo_life) /\ NoDup (held demo_life) /\
  (forall i fd, sessions_ demo_life !! i = Some fd -> is_Some (end_session i demo_life)) /\
  exists l', stop demo_life = Some l' /\ os_open l' = ∅ /\ running_ l' = false /\ acceptor_thread_ l' = false /\
    sessions_ l' = [] /\ stop l' = Some l'.
Proof. apply (gateway_descriptors demo_life), demo_life_reached. Defined.
