(* ===== verification/GatewayStop.v ===== *)
(** * Stopping the gateway's threads (src/mvp/src/fix/gateway.cpp)

    [Gateway::stop] beside the acceptor, which may be blocked in [accept], and
    the workers, which may be blocked in [recv] or [send]: every access to a
    descriptor field and every system call is a step.  The system maps
    descriptors to sockets; a blocked call holds its socket, so closing the
    descriptor does not wake it and [shutdown] does.  What the handlers do with
    a chunk is here the messages they send and whether they end the session;
    [GatewayThreads] has the rest.

    The invariant: until [stop] has shut a session's socket down and closed its
    descriptor the number names that socket, and a socket that a worker can be
    blocked on when [stop] joins it has been shut down.  [GatewayStopProps] has
    the theorems. *)

From stdpp Require Import gmap.
From S2P Require Import Prelude.

(** ** The system *)

Record Kernel := mkKernel {
  k_fds : gmap Z nat;          (* open descriptors and their sockets *)
  k_shut : gset nat;           (* sockets shut down *)
  k_next : nat                 (* the next new socket *)
}.

Definition k_open (fd : Z) (k : Kernel) : Kernel := mkKernel (<[fd := k_next k]> (k_fds k)) (k_shut k) (S (k_next k)).
Definition k_shutdown (fd : Z) (k : Kernel) : Kernel :=
  match k_fds k !! fd with
  | Some s => mkKernel (k_fds k) ({[s]} ∪ k_shut k) (k_next k)
  | None => k
  end.
Definition k_close (fd : Z) (k : Kernel) : Kernel := mkKernel (delete fd (k_fds k)) (k_shut k) (k_next k).

(** ** The workers *)

(** What a handler does to its session: a message sent, in up to [n + 1] calls
    of [send]; [running.store(false)]. *)
Inductive HandlerOp := HSend (n : nat) | HEnd.

Inductive WorkerPc :=
  | WUnborn                    (* in [sessions_], its thread not yet made *)
  | WTestOwn | WTestAll        (* while (s->running.load() && running_.load()) *)
  | WRecv | WRecvAt (fd : Z) | WInRecv (sock : nat)
  | WHandle (ops : list HandlerOp)
  | WSendAt (fd : Z) (n : nat) (ops : list HandlerOp)
  | WInSend (sock : nat) (n : nat) (ops : list HandlerOp)
  | WFdTest | WShutdown | WShutdownAt (fd : Z) | WClose | WCloseAt (fd : Z) | WStore
  | WDone.

Record Sess := mkSess {
  ss_fd : Z;                   (* fd *)
  ss_running : bool;           (* running *)
  ss_pc : WorkerPc;            (* worker *)
  ss_num : Z;                  (* what accept returned *)
  ss_sock : nat                (* and its socket *)
}.

Definition at_pc (pc : WorkerPc) (s : Sess) : Sess := mkSess (ss_fd s) (ss_running s) pc (ss_num s) (ss_sock s).
Definition end_running (s : Sess) : Sess := mkSess (ss_fd s) false (ss_pc s) (ss_num s) (ss_sock s).
Definition clear_fd (s : Sess) : Sess := mkSess (-1) (ss_running s) (ss_pc s) (ss_num s) (ss_sock s).

(** A send that fails: [send_raw] returns, the handler goes on. *)
Definition send_failed (ops : list HandlerOp) (s : Sess) : Sess := at_pc (WHandle ops) (end_running s).

(** The next step of a worker by itself; the flag is SIGPIPE.  [None]: it waits
    for its peer, or has ended. *)
Definition worker_move (up : bool) (k : Kernel) (s : Sess) : option (Kernel * Sess * bool) :=
  let go pc := Some (k, at_pc pc s, false) in
  match ss_pc s with
  | WUnborn => None
  | WTestOwn => go (if ss_running s then WTestAll else WFdTest)
  | WTestAll => go (if up then WRecv else WFdTest)
  | WRecv => go (WRecvAt (ss_fd s))
  | WRecvAt fd => go (match k_fds k !! fd with Some sock => WInRecv sock | None => WFdTest end)
  | WInRecv sock => if decide (sock ∈ k_shut k) then go WFdTest else None
  | WHandle [] => go WTestOwn
  | WHandle (HEnd :: ops) => Some (k, at_pc (WHandle ops) (end_running s), false)
  | WHandle (HSend n :: ops) => go (WSendAt (ss_fd s) n ops)
  | WSendAt fd n ops =>
      match k_fds k !! fd with
      | Some sock => go (WInSend sock n ops)
      | None => Some (k, send_failed ops s, false)
      end
  | WInSend sock n ops => if decide (sock ∈ k_shut k) then Some (k, send_failed ops s, true) else None
  | WFdTest => go (if 0 <=? ss_fd s then WShutdown else WDone)
  | WShutdown => go (WShutdownAt (ss_fd s))
  | WShutdownAt fd => Some (k_shutdown fd k, at_pc WClose s, false)
  | WClose => go (WCloseAt (ss_fd s))
  | WCloseAt fd => Some (k_close fd k, at_pc WStore s, false)
  | WStore => Some (k, at_pc WDone (clear_fd s), false)
  | WDone => None
  end.

(** ** The acceptor and [stop] *)

Inductive AcceptorPc :=
  | ATest | AAccept | AAcceptAt (fd : Z) | AInAccept (sock : nat)
  | AFailed (eintr : bool)
  | ARegister (fd : Z) (sock : nat) | ASpawn
  | AEnded.

(** [i] counts the sessions of the snapshot. *)
Inductive StopPc :=
  | SIdle
  | SListenTest | SListenShutdown | SListenClose | SListenStore
  | SJoinAcceptor
  | SSession (i : nat) | SFdTest (i : nat) | SShutdown (i : nat) | SShutdownAt (i : nat) (fd : Z)
  | SClose (i : nat) | SCloseAt (i : nat) (fd : Z) | SStore (i : nat) | SJoin (i : nat)
  | SReturned.

Record St := mkSt {
  st_listen : Z;               (* listen_fd_ *)
  st_up : bool;                (* running_ *)
  st_acc : AcceptorPc;         (* acceptor_thread_ *)
  st_sess : list Sess;         (* sessions_, and after the swap the snapshot *)
  st_stop : StopPc;
  st_k : Kernel;
  st_killed : bool             (* SIGPIPE has ended the process *)
}.

(** After a [start] that has succeeded. *)
Definition St_started (fd : Z) : St := mkSt fd true ATest [] SIdle (mkKernel {[fd := O]} ∅ 1) false.

Definition set_acc (a : AcceptorPc) (st : St) : St :=
  mkSt (st_listen st) (st_up st) a (st_sess st) (st_stop st) (st_k st) (st_killed st).
Definition set_sess (ss : list Sess) (st : St) : St :=
  mkSt (st_listen st) (st_up st) (st_acc st) ss (st_stop st) (st_k st) (st_killed st).
Definition set_stop (sp : StopPc) (st : St) : St :=
  mkSt (st_listen st) (st_up st) (st_acc st) (st_sess st) sp (st_k st) (st_killed st).
Definition set_k (k : Kernel) (st : St) : St :=
  mkSt (st_listen st) (st_up st) (st_acc st) (st_sess st) (st_stop st) k (st_killed st).

Definition acceptor_move (st : St) : option St :=
  match st_acc st with
  | ATest => Some (set_acc (if st_up st then AAccept else AEnded) st)
  | AAccept => Some (set_acc (AAcceptAt (st_listen st)) st)
  | AAcceptAt fd => Some (set_acc (match k_fds (st_k st) !! fd with Some sock => AInAccept sock | None => AFailed false end) st)
  | AInAccept sock => if decide (sock ∈ k_shut (st_k st)) then Some (set_acc (AFailed false) st) else None
  | AFailed eintr => Some (set_acc (if negb (st_up st) then AEnded else if eintr then ATest else AEnded) st)
  | ARegister fd sock => Some (set_acc ASpawn (set_sess (st_sess st ++ [mkSess fd true WUnborn fd sock]) st))
  | ASpawn => Some (set_acc ATest (set_sess (alter (at_pc WTestOwn) (length (st_sess st) - 1)%nat (st_sess st)) st))
  | AEnded => None
  end.

Definition stop_move (st : St) : option St :=
  match st_stop st with
  | SIdle | SReturned => None
  | SListenTest => Some (set_stop (if 0 <=? st_listen st then SListenShutdown else SJoinAcceptor) st)
  | SListenShutdown => Some (set_stop SListenClose (set_k (k_shutdown (st_listen st) (st_k st)) st))
  | SListenClose => Some (set_stop SListenStore (set_k (k_close (st_listen st) (st_k st)) st))
  | SListenStore => Some (mkSt (-1) (st_up st) (st_acc st) (st_sess st) SJoinAcceptor (st_k st) (st_killed st))
  | SJoinAcceptor => match st_acc st with AEnded => Some (set_stop (SSession 0) st) | _ => None end
  | SSession i =>
      match st_sess st !! i with
      | Some _ => Some (set_stop (SFdTest i) (set_sess (alter end_running i (st_sess st)) st))
      | None => Some (set_stop SReturned st)
      end
  | SFdTest i => s ← st_sess st !! i; Some (set_stop (if 0 <=? ss_fd s then SShutdown i else SJoin i) st)
  | SShutdown i => s ← st_sess st !! i; Some (set_stop (SShutdownAt i (ss_fd s)) st)
  | SShutdownAt i fd => Some (set_stop (SClose i) (set_k (k_shutdown fd (st_k st)) st))
  | SClose i => s ← st_sess st !! i; Some (set_stop (SCloseAt i (ss_fd s)) st)
  | SCloseAt i fd => Some (set_stop (SStore i) (set_k (k_close fd (st_k st)) st))
  | SStore i => Some (set_stop (SJoin i) (set_sess (alter clear_fd i (st_sess st)) st))
  | SJoin i => s ← st_sess st !! i; match ss_pc s with WDone => Some (set_stop (SSession (S i)) st) | _ => None end
  end.

(** ** Steps *)

Inductive Turn :=
  | TWorker (i : nat) | TAcceptor | TStop     (* a thread by itself *)
  | TCall                                     (* stop is called *)
  | TConnect (fd : Z)                         (* accept returns fd *)
  | TAcceptFails (eintr : bool)
  | TData (i : nat) (ops : list HandlerOp)    (* recv returns a chunk *)
  | TNoData (i : nat)                         (* recv returns 0 or -1 *)
  | TSent (i : nat) (rest : bool)             (* send takes bytes; more remain *)
  | TNotSent (i : nat) (pipe : bool).         (* send returns -1, with SIGPIPE or not *)

Section Turns.
(** The disposition of SIGPIPE, which the code leaves as it is. *)
Variable sigpipe_ignored : bool.

Definition set_worker (i : nat) (k : Kernel) (s : Sess) (pipe : bool) (st : St) : St :=
  mkSt (st_listen st) (st_up st) (st_acc st) (<[i := s]> (st_sess st)) (st_stop st) k (pipe && negb sigpipe_ignored).

(** What the answer of a peer makes of worker [i]. *)
Definition peer_move (t : Turn) (k : Kernel) (s : Sess) : option (Sess * bool) :=
  match t, ss_pc s with
  | TData _ ops, WInRecv _ => Some (at_pc (WHandle ops) s, false)
  | TNoData _, WInRecv _ => Some (at_pc WFdTest s, false)
  | TSent _ rest, WInSend sock n ops =>
      if decide (sock ∈ k_shut k) then None
      else Some (at_pc (WHandle (match n with S n => if rest then HSend n :: ops else ops | O => ops end)) s, false)
  | TNotSent _ pipe, WInSend _ _ ops => Some (send_failed ops s, pipe)
  | _, _ => None
  end.

Definition do_turn (t : Turn) (st : St) : option St :=
  if st_killed st then None
  else
    match t with
    | TWorker i =>
        s ← st_sess st !! i;
        '(k, s, pipe) ← worker_move (st_up st) (st_k st) s;
        Some (set_worker i k s pipe st)
    | TAcceptor => acceptor_move st
    | TStop => stop_move st
    | TCall =>
        if st_up st then
          Some (mkSt (st_listen st) false (st_acc st) (st_sess st) SListenTest (st_k st) (st_killed st))
        else None
    | TConnect fd =>
        match st_acc st with
        | AInAccept _ =>
            if decide (0 <= fd /\ k_fds (st_k st) !! fd = None) then
              Some (set_acc (ARegister fd (k_next (st_k st))) (set_k (k_open fd (st_k st)) st))
            else None
        | _ => None
        end
    | TAcceptFails eintr => match st_acc st with AInAccept _ => Some (set_acc (AFailed eintr) st) | _ => None end
    | TData i _ | TNoData i | TSent i _ | TNotSent i _ =>
        s ← st_sess st !! i;
        '(s, pipe) ← peer_move t (st_k st) s;
        Some (set_worker i (st_k st) s pipe st)
    end.

(** The steps that a thread makes whatever the peers do. *)
Definition own_turn (t : Turn) : Prop := match t with TWorker _ | TAcceptor | TStop => True | _ => False end.

Definition turn_step (st st' : St) : Prop := exists t, do_turn t st = Some st'.
Definition own_step (st st' : St) : Prop := exists t, own_turn t /\ do_turn t st = Some st'.

End Turns.

(** ** The invariant *)

(** How far [stop] is with session [i]: 1 its socket has been shut down, 2 its
    descriptor closed, 3 the field cleared, 4 its worker joined. *)
Definition stage (sp : StopPc) (i : nat) : nat :=
  let at_ (j n : nat) := if (i <? j)%nat then 4%nat else if (i =? j)%nat then n else O in
  match sp with
  | SSession j | SFdTest j | SShutdown j | SShutdownAt j _ => at_ j O
  | SClose j | SCloseAt j _ => at_ j 1%nat
  | SStore j => at_ j 2%nat
  | SJoin j => at_ j 3%nat
  | SReturned => 4%nat
  | _ => O
  end.

(** The listening socket: before it is closed; before the field is cleared. *)
Definition listening (sp : StopPc) : bool :=
  match sp with SIdle | SListenTest | SListenShutdown | SListenClose => true | _ => false end.
Definition listen_known (sp : StopPc) : bool := listening sp || match sp with SListenStore => true | _ => false end.
Definition listener_shut (sp : StopPc) : bool :=
  match sp with SIdle | SListenTest | SListenShutdown => false | _ => true end.
Definition acceptor_joined (sp : StopPc) : bool :=
  match sp with SIdle | SListenTest | SListenShutdown | SListenClose | SListenStore | SJoinAcceptor => false | _ => true end.

(** The session [stop] is busy with. *)
Definition stop_index (sp : StopPc) : option nat :=
  match sp with
  | SFdTest i | SShutdown i | SShutdownAt i _ | SClose i | SCloseAt i _ | SStore i | SJoin i => Some i
  | _ => None
  end.

(** The worker has not closed its descriptor. *)
Definition live (pc : WorkerPc) : bool := match pc with WStore | WDone => false | _ => true end.

(** A descriptor read from the session's field. *)
Definition arg_ok (fd : Z) (s : Sess) : Prop := fd = ss_num s \/ fd = -1 /\ ss_fd s = -1.

Definition args_ok (s : Sess) : Prop :=
  match ss_pc s with
  | WRecvAt fd | WSendAt fd _ _ | WShutdownAt fd | WCloseAt fd => arg_ok fd s
  | WInRecv sock | WInSend sock _ _ => sock = ss_sock s
  | _ => True
  end.

(** Whatever the descriptor still names has been shut down. *)
Definition named_shut (k : Kernel) (fd : Z) : Prop := forall sock, k_fds k !! fd = Some sock -> sock ∈ k_shut k.

Definition stop_arg_ok (sp : StopPc) (i : nat) (k : Kernel) (s : Sess) : Prop :=
  match sp with
  | SShutdownAt j fd => i = j -> fd = ss_num s \/ fd = -1 /\ ss_pc s = WDone
  | SClose j => i = j -> ss_fd s = -1 \/ named_shut k (ss_num s)
  | SCloseAt j fd => i = j -> fd = ss_num s /\ named_shut k (ss_num s) \/ fd = -1 /\ ss_pc s = WDone
  | _ => True
  end.

Record sess_inv (st : St) (i : nat) (s : Sess) : Prop := {
  s_num : 0 <= ss_num s;
  s_sock : (0 < ss_sock s < k_next (st_k st))%nat;
  s_fd : ss_fd s = ss_num s \/ ss_fd s = -1 /\ (ss_pc s = WDone \/ (3 <= stage (st_stop st) i)%nat);
  s_done : ss_pc s = WDone -> ss_fd s = -1;
  s_args : args_ok s;
  s_open : live (ss_pc s) = true ->
    k_fds (st_k st) !! ss_num s = Some (ss_sock s) \/
    st_acc st = AEnded /\ k_fds (st_k st) !! ss_num s = None /\ ss_sock s ∈ k_shut (st_k st);
  s_shut : (1 <= stage (st_stop st) i)%nat -> live (ss_pc s) = true -> ss_sock s ∈ k_shut (st_k st);
  s_closed : (2 <= stage (st_stop st) i)%nat -> live (ss_pc s) = true -> k_fds (st_k st) !! ss_num s = None;
  s_joined : stage (st_stop st) i = 4%nat -> ss_pc s = WDone;
  s_unborn : ss_pc s = WUnborn -> st_acc st = ASpawn /\ S i = length (st_sess st);
  s_stop : stop_arg_ok (st_stop st) i (st_k st) s
}.

(** [l] is the number of the listening descriptor. *)
Record stop_inv (l : Z) (st : St) : Prop := {
  v_sess : forall i s, st_sess st !! i = Some s -> sess_inv st i s;
  v_inj : forall i j s s', st_sess st !! i = Some s -> st_sess st !! j = Some s' -> ss_sock s = ss_sock s' -> i = j;
  v_l : 0 <= l;
  v_next : (0 < k_next (st_k st))%nat;
  v_up : st_up st = match st_stop st with SIdle => true | _ => false end;
  v_listen : st_listen st = if listen_known (st_stop st) then l else -1;
  v_listening : listening (st_stop st) = true -> k_fds (st_k st) !! l = Some O;
  v_lshut : listener_shut (st_stop st) = true -> O ∈ k_shut (st_k st);
  v_joined : acceptor_joined (st_stop st) = true -> st_acc st = AEnded;
  v_index : forall i, stop_index (st_stop st) = Some i -> (i < length (st_sess st))%nat;
  v_acc : match st_acc st with
          | AAccept => k_fds (st_k st) !! l = Some O \/ k_fds (st_k st) !! l = None
          | AAcceptAt fd => (k_fds (st_k st) !! l = Some O \/ k_fds (st_k st) !! l = None) /\ (fd = l \/ fd = -1)
          | AInAccept sock => sock = O
          | ARegister fd sock => 0 <= fd /\ k_fds (st_k st) !! fd = Some sock /\ (0 < sock)%nat /\
              forall i s, st_sess st !! i = Some s -> ss_sock s <> sock
          | ASpawn => exists s, st_sess st !! (length (st_sess st) - 1)%nat = Some s /\ ss_pc s = WUnborn
          | _ => True
          end;
  v_fds : forall fd sock, k_fds (st_k st) !! fd = Some sock -> 0 <= fd /\ (sock < k_next (st_k st))%nat /\
    (fd = l /\ sock = O /\ listening (st_stop st) = true \/
     (exists i s, st_sess st !! i = Some s /\ live (ss_pc s) = true /\ ss_num s = fd /\ ss_sock s = sock) \/
     st_acc st = ARegister fd sock)
}.

Lemma stop_inv_started l : 0 <= l -> stop_inv l (St_started l).
Proof.
  intros Hl. constructor; simpl; try done.
  - lia.
  - intros _. apply lookup_singleton_eq.
  - intros fd sock [<- <-]%lookup_singleton_Some. split; [done|]. split; [lia|]. by left.
Qed.

(** A shutdown. *)
Lemma k_shutdown_spec fd k :
  k_fds (k_shutdown fd k) = k_fds k /\ k_next (k_shutdown fd k) = k_next k /\ k_shut k ⊆ k_shut (k_shutdown fd k) /\
  named_shut (k_shutdown fd k) fd.
Proof.
  unfold k_shutdown, named_shut. destruct (k_fds k !! fd) as [s|] eqn:E; simpl; split_and!; try set_solver.
Qed.

Lemma stop_arg_ok_mono sp i k k' s :
  k_fds k' ⊆ k_fds k -> k_shut k ⊆ k_shut k' -> stop_arg_ok sp i k s -> stop_arg_ok sp i k' s.
Proof.
  intros Hf Hs Hok. assert (named_shut k (ss_num s) -> named_shut k' (ss_num s)) as Hn.
  { intros Hn sock Hk. by apply Hs, Hn, (lookup_weaken _ _ _ _ Hk). }
  destruct sp; try done; simpl in *; intros E; specialize (Hok E); [by destruct Hok; auto|].
  destruct Hok as [[-> ?]|?]; auto.
Qed.

Lemma inv_shutdown l st fd : stop_inv l st -> stop_inv l (set_k (k_shutdown fd (st_k st)) st).
Proof.
  intros []. destruct (k_shutdown_spec fd (st_k st)) as (Ef & En & Hs & _).
  constructor; unfold set_k; simpl; rewrite ?Ef, ?En; auto.
  intros i s Hi. destruct (v_sess0 i s Hi). constructor; simpl; rewrite ?Ef, ?En; auto.
  - intros Hl. destruct (s_open0 Hl) as [|(? & ? & ?)]; auto.
  - eapply stop_arg_ok_mono; [|done..]. by rewrite Ef.
Qed.

(** A worker moves; it stops being live only if its descriptor is not open. *)
Lemma inv_worker_set l st i s s' :
  stop_inv l st -> st_sess st !! i = Some s -> ss_num s' = ss_num s -> ss_sock s' = ss_sock s ->
  (ss_pc s = WUnborn -> ss_pc s' = WUnborn) ->
  (live (ss_pc s) = true -> live (ss_pc s') = true \/ k_fds (st_k st) !! ss_num s = None) ->
  sess_inv st i s' -> stop_inv l (set_sess (<[i := s']> (st_sess st)) st).
Proof.
  intros [] Hi En Es Hu Hl Hs'. constructor; unfold set_sess; simpl; try done.
  - intros j s1 Hj. assert (sess_inv st j s1) as [].
    { apply list_lookup_insert_Some in Hj as [(-> & <- & _)|[_ Hj]]; auto. }
    constructor; simpl; try done. intros E. rewrite length_insert. auto.
  - intros j1 j2 s1 s2 H1 H2. apply list_lookup_insert_Some in H1 as [(-> & <- & _)|[_ H1]];
      apply list_lookup_insert_Some in H2 as [(-> & <- & _)|[_ H2]]; rewrite ?Es; eauto.
  - rewrite length_insert. auto.
  - destruct (st_acc st); try done.
    + destruct v_acc0 as (? & ? & ? & Hne). split_and!; try done. intros j s1 Hj.
      apply list_lookup_insert_Some in Hj as [(-> & <- & _)|[_ Hj]]; [rewrite Es|]; eauto.
    + destruct v_acc0 as (s0 & H0 & Hpc). rewrite length_insert. destruct (decide (i = length (st_sess st) - 1)%nat) as [->|Hne].
      * rewrite list_lookup_insert_eq by (by eapply lookup_lt_Some). exists s'. split; [done|]. apply Hu. congruence.
      * rewrite list_lookup_insert_ne by done. by exists s0.
  - intros fd sock Hf. destruct (v_fds0 fd sock Hf) as (? & ? & [?|[(j & s1 & Hj & Hl1 & <- & <-)|?]]); split_and!; auto.
    right. left. destruct (decide (j = i)) as [->|Hne].
    + simplify_eq. destruct (Hl Hl1) as [Hl'|]; [|congruence]. exists i, s'.
      rewrite list_lookup_insert_eq by (by eapply lookup_lt_Some). done.
    + exists j, s1. by rewrite list_lookup_insert_ne.
Qed.

(** A close; [closer] is the worker that makes it, if one does. *)
Definition after_close (closer : option nat) (ss : list Sess) : list Sess :=
  match closer with Some i => alter (at_pc WStore) i ss | None => ss end.

Lemma after_close_lookup closer fd ss j s' :
  (forall i, closer = Some i -> exists s, ss !! i = Some s /\ ss_pc s = WCloseAt fd) -> after_close closer ss !! j = Some s' ->
  exists s, ss !! j = Some s /\
    (s' = s /\ closer <> Some j \/ closer = Some j /\ ss_pc s = WCloseAt fd /\ s' = at_pc WStore s).
Proof.
  intros Hcl Hj. unfold after_close in Hj. destruct closer as [i|]; [|exists s'; auto].
  destruct (decide (i = j)) as [->|Hne].
  - rewrite list_lookup_alter_eq in Hj. destruct (Hcl j eq_refl) as (s & Hs & Hpc). rewrite Hs in Hj. simplify_eq/=. exists s. auto.
  - rewrite list_lookup_alter_ne in Hj by done. exists s'. split; [done|]. left. split; [done|congruence].
Qed.

(** The closer's own session. *)
Lemma sess_inv_closed st k ss i s fd :
  sess_inv st i s -> ss_pc s = WCloseAt fd -> k_fds k ⊆ k_fds (st_k st) -> k_shut k = k_shut (st_k st) -> k_next k = k_next (st_k st) ->
  sess_inv (set_k k (set_sess ss st)) i (at_pc WStore s).
Proof.
  intros [] Hpc Hf Es En. rewrite Hpc in *. constructor; simpl; rewrite ?En; try done.
  - destruct s_fd0 as [|(? & [|])]; [by left|done|by right; auto].
  - intros H4. by apply s_joined0 in H4.
  - apply (stop_arg_ok_mono _ _ (st_k st)); [done|by rewrite Es|].
    revert s_stop0. unfold stop_arg_ok. rewrite Hpc. simpl. destruct (st_stop st); naive_solver.
Qed.

Lemma inv_close l st closer fd :
  stop_inv l st ->
  (forall j s, st_sess st !! j = Some s -> live (ss_pc s) = true -> ss_num s = fd -> k_fds (st_k st) !! fd = Some (ss_sock s) ->
    closer = Some j \/ st_acc st = AEnded /\ ss_sock s ∈ k_shut (st_k st)) ->
  (listening (st_stop st) = true -> fd <> l) -> (forall sock, st_acc st <> ARegister fd sock) ->
  (forall i, closer = Some i -> exists s, st_sess st !! i = Some s /\ ss_pc s = WCloseAt fd) ->
  stop_inv l (set_k (k_close fd (st_k st))
    (set_sess (after_close closer (st_sess st)) st)).
Proof.
  intros Hinv Hlive Hlis Hreg Hcl. pose proof Hinv as [].
  assert (length (after_close closer (st_sess st)) = length (st_sess st)) as Hlen by (destruct closer; simpl; by rewrite ?length_alter).
  pose proof (fun j s' => after_close_lookup closer fd (st_sess st) j s' Hcl) as Hss.
  constructor; unfold set_k, set_sess; simpl; try done.
  - intros j s' Hj. destruct (Hss j s' Hj) as (s & Hs & [[-> Hne]|(_ & Hpc & ->)]).
    + destruct (v_sess0 j s Hs). constructor; simpl; try done.
      * intros Hl. destruct (decide (fd = ss_num s)) as [->|Hfd].
        -- rewrite lookup_delete_eq. right. destruct (s_open0 Hl) as [Ho|(? & _ & ?)]; [|done].
           destruct (Hlive j s Hs Hl eq_refl Ho) as [|[? ?]]; done.
        -- rewrite lookup_delete_ne by done. auto.
      * intros H2 Hl. apply lookup_delete_None. auto.
      * rewrite Hlen. done.
      * eapply stop_arg_ok_mono; [apply delete_subseteq|done|done].
    + apply (sess_inv_closed st (k_close fd (st_k st)) _ j s fd (v_sess0 j s Hs) Hpc); [apply delete_subseteq|done..].
  - intros i j s1 s2 H1 H2 E. destruct (Hss _ _ H1) as (s1' & Hs1 & Ho1), (Hss _ _ H2) as (s2' & Hs2 & Ho2).
    apply (v_inj0 i j s1' s2' Hs1 Hs2). naive_solver.
  - intros Hl. rewrite lookup_delete_ne by auto. auto.
  - rewrite Hlen. auto.
  - assert (forall o : option nat, k_fds (st_k st) !! l = o \/ k_fds (st_k st) !! l = None ->
      delete fd (k_fds (st_k st)) !! l = o \/ delete fd (k_fds (st_k st)) !! l = None) as Hd.
    { intros o Ho. destruct (decide (fd = l)) as [->|]; [right; apply lookup_delete_eq|by rewrite lookup_delete_ne]. }
    destruct (st_acc st) as [| | | | |fd2 sock2| |] eqn:Hacc; auto.
    + destruct v_acc0 as [? ?]. auto.
    + destruct v_acc0 as (? & ? & ? & Hne). split_and!; try done.
      * rewrite lookup_delete_ne; [done|]. intros ->. by apply (Hreg sock2).
      * intros j s' Hj. destruct (Hss j s' Hj) as (s & Hs & [[-> _]|(_ & _ & ->)]); by apply (Hne j s).
    + destruct v_acc0 as (s0 & H0 & Hpc). rewrite Hlen. exists s0. split; [|done].
      destruct closer as [i|]; [|done]. destruct (Hcl i eq_refl) as (s & Hs & Hpc').
      simpl. rewrite list_lookup_alter_ne; [done|]. intros ->. rewrite H0 in Hs. congruence.
  - intros fd2 sock2 Hf. apply lookup_delete_Some in Hf as [Hne Hf].
    destruct (v_fds0 fd2 sock2 Hf) as (? & ? & [?|[(j & s1 & Hj & Hl1 & <- & <-)|?]]); split_and!; auto.
    right. left. destruct (decide (closer = Some j)) as [Hc|Hc].
    + exfalso. destruct (Hcl j Hc) as (s & Hs & Hpc). assert (s = s1) as -> by congruence. destruct (v_sess0 j s1 Hj).
      unfold args_ok in s_args0. rewrite Hpc in *. destruct s_args0 as [|[-> Hfd]]; [congruence|].
      destruct s_fd0 as [|[_ [|Hst]]]; [lia|done|]. rewrite s_closed0 in Hf; [done|lia|done].
    + exists j, s1. split; [|done]. destruct closer as [i|]; [|done]. simpl. rewrite list_lookup_alter_ne by congruence. done.
Qed.

(** [stop] gets on. *)
Lemma inv_stop_gen l st fd up sp killed :
  stop_inv l st -> up = match sp with SIdle => true | _ => false end -> fd = (if listen_known sp then l else -1) ->
  (listening sp = true -> listening (st_stop st) = true) -> (listener_shut sp = true -> O ∈ k_shut (st_k st)) ->
  (acceptor_joined sp = true -> st_acc st = AEnded) ->
  (forall i, stop_index sp = Some i -> (i < length (st_sess st))%nat) ->
  (listening (st_stop st) = true -> listening sp = true) ->
  (forall i s, st_sess st !! i = Some s -> sess_inv st i s ->
    (stage (st_stop st) i <= stage sp i)%nat /\
    ((1 <= stage sp i)%nat -> live (ss_pc s) = true -> ss_sock s ∈ k_shut (st_k st)) /\
    ((2 <= stage sp i)%nat -> live (ss_pc s) = true -> k_fds (st_k st) !! ss_num s = None) /\
    (stage sp i = 4%nat -> ss_pc s = WDone) /\ stop_arg_ok sp i (st_k st) s) ->
  stop_inv l (mkSt fd up (st_acc st) (st_sess st) sp (st_k st) killed).
Proof.
  intros [] -> -> Hlis Hshut Hj Hlt Hlis' Hs. constructor; simpl; try done; auto.
  - intros i s Hi. pose proof (v_sess0 i s Hi) as Hsi. destruct (Hs i s Hi Hsi) as (? & ? & ? & ? & ?).
    destruct Hsi. constructor; simpl; try done. destruct s_fd0 as [|(? & [|])]; [by left|by right; auto|].
    right. split; [done|right; lia].
  - intros f sock Hf. destruct (v_fds0 f sock Hf) as (? & ? & [(? & ? & Hl)|?]); split_and!; auto.
Qed.

Lemma inv_stop_set l st sp :
  stop_inv l st -> acceptor_joined (st_stop st) = true -> acceptor_joined sp = true ->
  (forall i, stop_index sp = Some i -> (i < length (st_sess st))%nat) ->
  (forall i s, st_sess st !! i = Some s -> sess_inv st i s ->
    (stage (st_stop st) i <= stage sp i)%nat /\
    ((1 <= stage sp i)%nat -> live (ss_pc s) = true -> ss_sock s ∈ k_shut (st_k st)) /\
    ((2 <= stage sp i)%nat -> live (ss_pc s) = true -> k_fds (st_k st) !! ss_num s = None) /\
    (stage sp i = 4%nat -> ss_pc s = WDone) /\ stop_arg_ok sp i (st_k st) s) ->
  stop_inv l (set_stop sp st).
Proof.
  intros Hinv Hj1 Hj2 Hlt Hs. apply inv_stop_gen; auto.
  - rewrite (v_up _ _ Hinv). by destruct (st_stop st), sp.
  - rewrite (v_listen _ _ Hinv). by destruct (st_stop st), sp.
  - by destruct sp.
  - intros _. apply (v_lshut _ _ Hinv). by destruct (st_stop st).
  - intros _. by apply (v_joined _ _ Hinv).
  - by destruct (st_stop st).
Qed.

Ltac stages := unfold stage in *; repeat case_match; rewrite ?Nat.ltb_lt, ?Nat.ltb_ge, ?Nat.eqb_eq, ?Nat.eqb_neq in *; subst; try done; try lia.

Lemma alter_is_insert {A} (f : A -> A) (l : list A) : forall (i : nat) x, l !! i = Some x -> alter f i l = <[i := f x]> l.
Proof. induction l as [|y l IH]; intros [|i] x Hx; simplify_eq/=; [done|]. f_equal. by apply IH. Qed.

(** The next session, if there is one. *)
Lemma inv_stop_session l st st' i :
  stop_inv l st -> st_stop st = SSession i ->
  match st_sess st !! i with
  | Some _ => Some (set_stop (SFdTest i) (set_sess (alter end_running i (st_sess st)) st))
  | None => Some (set_stop SReturned st)
  end = Some st' -> stop_inv l st'.
Proof.
  intros Hinv Hsp.
  intros Hm. destruct (st_sess st !! i) as [s|] eqn:Hi; simplify_eq/=.
  + assert (stop_inv l (set_sess (alter end_running i (st_sess st)) st)) as Hinv'.
    { rewrite (alter_is_insert _ _ i s Hi). apply (inv_worker_set l st i s); auto. destruct (v_sess _ _ Hinv i s Hi). by constructor. }
    apply (inv_stop_set l _ (SFdTest i)) in Hinv'; unfold set_sess in *; simpl in *; rewrite ?Hsp; try done.
    * intros j [= <-]. rewrite length_alter. by eapply lookup_lt_Some.
    * intros j s1 Hj1 []. simpl in *. rewrite Hsp in *. done.
  + apply inv_stop_set; rewrite ?Hsp; try done. intros j s Hs Hsi.
    assert (ss_pc s = WDone) as Hd.
    { apply (s_joined _ _ _ Hsi). rewrite Hsp. apply lookup_lt_Some in Hs. apply lookup_ge_None in Hi. stages. }
    rewrite Hd. split_and!; try done. stages.
Qed.

(** Its socket is shut down. *)
Lemma inv_stop_shutdown l st i fd :
  stop_inv l st -> st_stop st = SShutdownAt i fd -> stop_inv l (set_stop (SClose i) (set_k (k_shutdown fd (st_k st)) st)).
Proof.
  intros Hinv Hsp.
  pose proof (inv_shutdown l st fd Hinv) as Hinv'. destruct (k_shutdown_spec fd (st_k st)) as (Ef & En & Hs & Hn).
  apply (inv_stop_set l _ (SClose i)) in Hinv'; unfold set_k in *; simpl in *; rewrite ?Hsp; try done.
  { intros j [= <-]. apply (v_index _ _ Hinv). by rewrite Hsp. }
  intros j s1 Hj1 Hsi. destruct (v_sess _ _ Hinv j s1 Hj1) as [_ _ _ _ _ Ho _ _ _ _ Harg]. destruct Hsi. simpl in *.
  rewrite Hsp in *. split; [stages|]. simpl in Harg.
  destruct (decide (j = i)) as [->|Hne]; [|split_and!; try done; stages].
  specialize (Harg eq_refl). split_and!; [| stages|stages|]; cycle 1.
  + intros _. destruct Harg as [->|[-> Hd]]; auto.
  + intros _ Hl. destruct Harg as [->|[_ Hd]]; [|by rewrite Hd in Hl].
    destruct (Ho Hl) as [Hf|(_ & _ & ?)]; [|auto]. apply Hn. by rewrite Ef.
Qed.

(** Its descriptor is closed. *)
Lemma inv_stop_close l st i fd :
  stop_inv l st -> st_stop st = SCloseAt i fd -> stop_inv l (set_stop (SStore i) (set_k (k_close fd (st_k st)) st)).
Proof.
  intros Hinv Hsp.
  pose proof (v_joined _ _ Hinv) as Hacc. rewrite Hsp in Hacc. specialize (Hacc eq_refl).
  destruct (lookup_lt_is_Some_2 (st_sess st) i) as [s Hi]; [by apply (v_index _ _ Hinv); rewrite Hsp|].
  pose proof (s_stop _ _ _ (v_sess _ _ Hinv i s Hi)) as Harg. rewrite Hsp in Harg. specialize (Harg eq_refl).
  assert (stop_inv l (set_k (k_close fd (st_k st)) st)) as Hinv'.
  { apply (inv_close l st None fd Hinv); try done; [|by rewrite Hsp|by rewrite Hacc]. intros j s1 Hs1 Hl Hnum Hf. right. split; [done|].
    pose proof (s_num _ _ _ (v_sess _ _ Hinv j s1 Hs1)). destruct Harg as [[-> Hn]|[-> _]]; [by apply Hn|lia]. }
  apply (inv_stop_set l _ (SStore i)) in Hinv'; unfold set_k in *; simpl in *; rewrite ?Hsp; try done.
  { intros j [= <-]. by eapply lookup_lt_Some. }
  intros j s1 Hj1 Hsi. destruct Hsi. simpl in *. rewrite Hsp in *. split; [stages|]. split_and!; try done; [..|stages].
  + intros Hst. apply s_shut0. stages.
  + intros Hst Hl. destruct (decide (i = j)) as [<-|]; [|apply s_closed0; [stages|done]].
    assert (s1 = s) as -> by congruence. destruct Harg as [[-> _]|[_ Hd]]; [apply lookup_delete_eq|by rewrite Hd in Hl].
Qed.

(** The field is cleared. *)
Lemma inv_stop_store l st i :
  stop_inv l st -> st_stop st = SStore i -> stop_inv l (set_stop (SJoin i) (set_sess (alter clear_fd i (st_sess st)) st)).
Proof.
  intros Hinv Hsp.
  destruct (lookup_lt_is_Some_2 (st_sess st) i) as [s Hi]; [by apply (v_index _ _ Hinv); rewrite Hsp|].
  rewrite (alter_is_insert _ _ i s Hi). apply (inv_stop_set l _ (SJoin i)) in Hinv; rewrite ?Hsp; try done.
  + apply (inv_worker_set l (set_stop (SJoin i) st) i s); try done; [auto|]. destruct (v_sess _ _ Hinv i s Hi).
    constructor; try done; simpl; [right; split; [done|right]; stages|].
    unfold args_ok, arg_ok in *. simpl. destruct (ss_pc s); naive_solver.
  + intros j [= <-]. by eapply lookup_lt_Some.
  + intros j s1 Hj1 Hsi. destruct Hsi. rewrite Hsp in *. split; [stages|]. split_and!; try done; [..|stages].
    * intros Hst. apply s_shut0. stages.
    * intros Hst. apply s_closed0. stages.
Qed.

(** Its worker has been joined. *)
Lemma inv_stop_join l st i s :
  stop_inv l st -> st_stop st = SJoin i -> st_sess st !! i = Some s -> ss_pc s = WDone -> stop_inv l (set_stop (SSession (S i)) st).
Proof.
  intros Hinv Hsp Hi Hpc.
  apply inv_stop_set; rewrite ?Hsp; try done.
  intros j s1 Hj1 Hsi. assert (ss_pc s1 = WDone \/ (i < j)%nat) as Hd.
  { destruct (lt_eq_lt_dec i j) as [[|<-]|]; [by right|left; congruence|]. left. apply (s_joined _ _ _ Hsi). rewrite Hsp. stages. }
  split; [stages|]. destruct Hd as [Hd|Hlt]; [rewrite Hd; by split_and!|]. split_and!; try done; stages.
Qed.

Lemma inv_stop_sessions l st st' :
  stop_inv l st -> acceptor_joined (st_stop st) = true -> stop_move st = Some st' -> stop_inv l st'.
Proof.
  intros Hinv Hj Hm. unfold stop_move in Hm.
  destruct (st_stop st) as [| | | | | |i|i|i|i fd|i|i fd|i|i|] eqn:Hsp; try done.
  - by apply (inv_stop_session l st st' i).
  - destruct (st_sess st !! i) as [s|] eqn:Hi; [|done]. simplify_eq/=.
    destruct (Z.leb_spec 0 (ss_fd s)) as [Hfd|Hfd]; (apply inv_stop_set; rewrite ?Hsp; try done; [intros j [= <-]; by eapply lookup_lt_Some|]);
      intros j s1 Hj1 Hsi; destruct Hsi; rewrite Hsp in *; [done|]. split; [stages|].
    destruct (decide (i = j)) as [->|Hne]; [|by split_and!; try done; stages].
    assert (s1 = s) as -> by congruence. assert (ss_pc s = WDone) as Hd.
    { destruct s_fd0 as [|(_ & [|Hst])]; [lia|done|]. stages. }
    rewrite Hd. done.
  - destruct (st_sess st !! i) as [s|] eqn:Hi; [|done]. simplify_eq/=.
    apply inv_stop_set; rewrite ?Hsp; try done; [intros j [= <-]; by eapply lookup_lt_Some|].
    intros j s1 Hj1 Hsi. destruct Hsi. rewrite Hsp in *. split_and!; try done. intros ->. simplify_eq.
    destruct s_fd0 as [|(? & [|])]; [by left|by right|]. stages.
  - injection Hm as <-. by apply inv_stop_shutdown.
  - destruct (st_sess st !! i) as [s|] eqn:Hi; [|done]. simplify_eq/=.
    apply inv_stop_set; rewrite ?Hsp; try done; [intros j [= <-]; by eapply lookup_lt_Some|].
    intros j s1 Hj1 Hsi. destruct Hsi. rewrite Hsp in *. split_and!; try done. intros ->. simplify_eq.
    destruct s_fd0 as [E|(E & [|])]; [left|right; done|stages]. split; [done|]. destruct (s_stop0 eq_refl) as [|]; [lia|done].
  - injection Hm as <-. by apply inv_stop_close.
  - injection Hm as <-. by apply inv_stop_store.
  - destruct (st_sess st !! i) as [s|] eqn:Hi; [|done]. simpl in Hm. destruct (ss_pc s) eqn:Hpc; try done. injection Hm as <-.
    by apply (inv_stop_join l st i s).
Qed.

(** The listening descriptor is closed. *)
Lemma inv_listen_close l st :
  stop_inv l st -> st_stop st = SListenClose -> stop_inv l (set_stop SListenStore (set_k (k_close l (st_k st)) st)).
Proof.
  intros [] Hsp. rewrite Hsp in *. specialize (v_listening0 eq_refl). constructor; unfold set_stop, set_k; simpl; try done; auto.
  - intros i s Hi. destruct (v_sess0 i s Hi). rewrite Hsp in *. constructor; simpl; try done; auto; [|lia].
    intros Hl. destruct (s_open0 Hl) as [Ho|(? & ? & ?)]; [left|right].
    + rewrite lookup_delete_ne; [done|]. intros ->. rewrite v_listening0 in Ho. simplify_eq. lia.
    + split_and!; try done. by apply lookup_delete_None; right.
  - destruct (st_acc st); auto; rewrite ?lookup_delete_eq; auto.
    + destruct v_acc0 as [_ ?]. auto.
    + destruct v_acc0 as (? & Hf & ? & ?). split_and!; try done. rewrite lookup_delete_ne; [done|]. intros ->.
      rewrite v_listening0 in Hf. simplify_eq. lia.
  - intros fd sock Hf. apply lookup_delete_Some in Hf as [Hne Hf].
    destruct (v_fds0 fd sock Hf) as (? & ? & [(-> & _)|?]); split_and!; auto. done.
Qed.

Ltac listen_phase Hsp :=
  apply inv_stop_gen; rewrite ?Hsp; auto; try done; intros i s Hi []; rewrite Hsp in *; split_and!; try done; stages.

Lemma inv_stop_move l st st' : stop_inv l st -> stop_move st = Some st' -> stop_inv l st'.
Proof.
  intros Hinv Hm. destruct (acceptor_joined (st_stop st)) eqn:Hj; [by eapply inv_stop_sessions|].
  pose proof Hinv as []. unfold stop_move in Hm. destruct (st_stop st) eqn:Hsp; try discriminate Hm; try discriminate Hj; try injection Hm as <-; simpl in *.
  - rewrite v_listen0, (proj2 (Z.leb_le 0 l)) by done. listen_phase Hsp.
  - assert (stop_inv l (set_k (k_shutdown l (st_k st)) st)) as Hinv' by (by apply inv_shutdown).
    rewrite v_listen0. destruct (k_shutdown_spec l (st_k st)) as (Ef & _ & _ & Hn).
    apply (inv_stop_gen l _ l false SListenClose (st_killed st)) in Hinv'; unfold set_k in *; simpl in *; rewrite ?Hsp in *; auto; try done.
    + unfold set_stop. simpl. by rewrite v_listen0, v_up0.
    + intros _. apply Hn. rewrite Ef. by apply v_listening0.
    + intros i s Hi []. simpl in *. split_and!; try done; lia.
  - rewrite v_listen0. by apply inv_listen_close.
  - rewrite v_up0. listen_phase Hsp.
  - destruct (st_acc st) eqn:Hacc; try done. simplify_eq/=. listen_phase Hsp.
Qed.

(** The acceptor gets on without a connection in its hands. *)
Lemma inv_acc_set l st a :
  stop_inv l st ->
  match st_acc st with AEnded | ASpawn | ARegister _ _ => False | _ => True end ->
  match a with
  | AAccept => k_fds (st_k st) !! l = Some O \/ k_fds (st_k st) !! l = None
  | AAcceptAt fd => (k_fds (st_k st) !! l = Some O \/ k_fds (st_k st) !! l = None) /\ (fd = l \/ fd = -1)
  | AInAccept sock => sock = O
  | ARegister _ _ | ASpawn => False
  | _ => True
  end -> stop_inv l (set_acc a st).
Proof.
  intros [] Ha Ha'. constructor; unfold set_acc; simpl; try done; auto.
  - intros i s Hi. destruct (v_sess0 i s Hi). constructor; simpl; try done.
    + intros Hl. destruct (s_open0 Hl) as [|(E & _)]; [by left|]. by rewrite E in Ha.
    + intros E. destruct (s_unborn0 E) as [E' _]. by rewrite E' in Ha.
  - intros Hj. rewrite v_joined0 in Ha by done. done.
  - by destruct a.
  - intros fd sock Hf. destruct (v_fds0 fd sock Hf) as (? & ? & [?|[?|E]]); split_and!; auto. by rewrite E in Ha.
Qed.

(** A connection. *)
Lemma inv_connect l st fd sock :
  stop_inv l st -> st_acc st = AInAccept sock -> 0 <= fd -> k_fds (st_k st) !! fd = None ->
  stop_inv l (set_acc (ARegister fd (k_next (st_k st))) (set_k (k_open fd (st_k st)) st)).
Proof.
  intros Hinv Hacc H0 Hnew. pose proof Hinv as []. assert (acceptor_joined (st_stop st) = false) as Hj.
  { destruct (acceptor_joined _); [|done]. rewrite v_joined0 in Hacc by done. done. }
  assert (forall i, stage (st_stop st) i = O) as Hst by (by destruct (st_stop st)).
  constructor; unfold set_acc, set_k; simpl; try done; auto.
  - intros i s Hi. destruct (v_sess0 i s Hi). constructor; simpl; try done; rewrite ?Hst; try lia; auto.
    + intros Hl. destruct (s_open0 Hl) as [Ho|(E & _)]; [|by rewrite E in Hacc]. left.
      rewrite lookup_insert_ne; [done|]. intros ->. by rewrite Hnew in Ho.
    + intros E. destruct (s_unborn0 E) as [E' _]. by rewrite E' in Hacc.
    + by destruct (st_stop st).
  - intros Hl. rewrite lookup_insert_ne; [auto|]. intros ->. rewrite v_listening0 in Hnew by done. done.
  - rewrite Hj. done.
  - split_and!; try done; [apply lookup_insert_eq|]. intros i s Hi E. destruct (v_sess0 i s Hi). lia.
  - intros f sk Hf. apply lookup_insert_Some in Hf as [[<- <-]|[Hne Hf]]; [split_and!; auto; lia|].
    destruct (v_fds0 f sk Hf) as (? & ? & [?|[?|E]]); split_and!; auto; [lia..|]. by rewrite E in Hacc.
Qed.

(** The session of a connection is registered. *)
Lemma inv_register l st fd sock :
  stop_inv l st -> st_acc st = ARegister fd sock ->
  stop_inv l (set_acc ASpawn (set_sess (st_sess st ++ [mkSess fd true WUnborn fd sock]) st)).
Proof.
  intros [] Hacc. rewrite Hacc in v_acc0. destruct v_acc0 as (H0 & Hfd & Hsock & Hne).
  assert (acceptor_joined (st_stop st) = false) as Hj.
  { destruct (acceptor_joined _); [|done]. rewrite v_joined0 in Hacc by done. done. }
  assert (forall i, stage (st_stop st) i = O) as Hst by (by destruct (st_stop st)).
  constructor; unfold set_acc, set_sess; simpl; try done; auto.
  - intros i s Hi. apply lookup_snoc_Some in Hi as [[Hlt Hi]|[-> <-]].
    + destruct (v_sess0 i s Hi). constructor; simpl; try done.
      * intros Hl. destruct (s_open0 Hl) as [|(E & _)]; [by left|by rewrite E in Hacc].
      * intros E. destruct (s_unborn0 E) as [E' _]. by rewrite E' in Hacc.
    + constructor; simpl; rewrite ?Hst; try done; try lia; auto.
      * destruct (v_fds0 _ _ Hfd) as (_ & ? & _). lia.
      * intros _. split; [done|]. rewrite length_app. simpl. lia.
      * by destruct (st_stop st).
  - intros i j s s' Hi Hj' E. apply lookup_snoc_Some in Hi as [[_ Hi]|[-> <-]], Hj' as [[_ Hj']|[-> <-]]; simpl in *; eauto; try done.
    + by destruct (Hne i s Hi).
    + by destruct (Hne j s' Hj').
  - rewrite Hj. done.
  - intros i Hi. rewrite length_app. specialize (v_index0 i Hi). lia.
  - eexists. rewrite length_app. simpl. replace (length (st_sess st) + 1 - 1)%nat with (length (st_sess st)) by lia.
    split; [by apply list_lookup_middle|done].
  - intros f sk Hf. destruct (v_fds0 f sk Hf) as (? & ? & [?|[(i & s & Hi & ?)|E]]); split_and!; auto; right; left.
    + exists i, s. by rewrite lookup_app_l by (by eapply lookup_lt_Some).
    + rewrite Hacc in E. simplify_eq. exists (length (st_sess st)). eexists. split; [by apply list_lookup_middle|done].
Qed.

(** Its thread is made. *)
Lemma inv_spawn l st :
  stop_inv l st -> st_acc st = ASpawn ->
  stop_inv l (set_acc ATest (set_sess (alter (at_pc WTestOwn) (length (st_sess st) - 1)%nat (st_sess st)) st)).
Proof.
  intros [] Hacc. rewrite Hacc in v_acc0. destruct v_acc0 as (s0 & Hs0 & Hpc0).
  set (n := (length (st_sess st) - 1)%nat) in *. rewrite (alter_is_insert _ _ _ _ Hs0).
  assert (acceptor_joined (st_stop st) = false) as Hj.
  { destruct (acceptor_joined _); [|done]. rewrite v_joined0 in Hacc by done. done. }
  assert (forall i, stage (st_stop st) i = O) as Hst by (by destruct (st_stop st)).
  assert (forall i s, <[n := at_pc WTestOwn s0]> (st_sess st) !! i = Some s ->
    exists s1, st_sess st !! i = Some s1 /\ ss_sock s = ss_sock s1 /\ (s = s1 /\ i <> n \/ s = at_pc WTestOwn s1 /\ s1 = s0)) as Hss.
  { intros i s Hi. apply list_lookup_insert_Some in Hi as [(-> & <- & _)|[? Hi]]; [exists s0|exists s]; split_and!; auto. }
  constructor; unfold set_acc, set_sess; simpl; try done; auto.
  - intros i s Hi. destruct (Hss i s Hi) as (s1 & Hs1 & _ & [[-> Hne]|[-> E0]]); destruct (v_sess0 i s1 Hs1).
    + constructor; simpl; try done.
      * intros Hl. destruct (s_open0 Hl) as [|(E & _)]; [by left|by rewrite E in Hacc].
      * intros E. destruct (s_unborn0 E) as [_ E']. unfold n in Hne. lia.
    + subst s1. constructor; simpl; rewrite ?Hst; try done; try lia; auto.
      * destruct s_fd0 as [|(? & [E|E])]; [by left|congruence|rewrite Hst in E; lia].
      * intros _. rewrite Hpc0 in s_open0. destruct (s_open0 eq_refl) as [|(E & _)]; [by left|by rewrite E in Hacc].
      * by destruct (st_stop st).
  - intros i j s s' Hi Hi'. destruct (Hss i s Hi) as (s1 & Hs1 & -> & _), (Hss j s' Hi') as (s2 & Hs2 & -> & _). eauto.
  - rewrite Hj. done.
  - rewrite length_insert. auto.
  - intros f sk Hf. destruct (v_fds0 f sk Hf) as (? & ? & [?|[(i & s & Hi & Hl & <- & <-)|E]]); split_and!; auto; [|by rewrite Hacc in E].
    right. left. destruct (decide (i = n)) as [->|Hne].
    + assert (s = s0) as -> by congruence. exists n. eexists. rewrite list_lookup_insert_eq by (by eapply lookup_lt_Some). done.
    + exists i, s. by rewrite list_lookup_insert_ne.
Qed.

Lemma inv_acceptor_move l st st' : stop_inv l st -> acceptor_move st = Some st' -> stop_inv l st'.
Proof.
  intros Hinv Hm. pose proof Hinv as []. unfold acceptor_move in Hm.
  destruct (st_acc st) as [| |fd|sock|eintr|fd sock| |] eqn:Hacc; try discriminate Hm; try injection Hm as <-; simpl in *.
  - apply inv_acc_set; rewrite ?Hacc; try done. rewrite v_up0. destruct (st_stop st); try done. left. by apply v_listening0.
  - apply inv_acc_set; rewrite ?Hacc; try done. split; [done|]. rewrite v_listen0. destruct (listen_known _); auto.
  - apply inv_acc_set; rewrite ?Hacc; try done. destruct v_acc0 as [Hor [->| ->]].
    + destruct Hor as [-> | ->]; done.
    + destruct (k_fds (st_k st) !! (-1)) eqn:E; [|done]. destruct (v_fds0 _ _ E). lia.
  - case_decide; [|done]. injection Hm as <-. apply inv_acc_set; by rewrite ?Hacc.
  - apply inv_acc_set; rewrite ?Hacc; try done. by destruct (negb _), eintr.
  - by apply inv_register.
  - by apply inv_spawn.
Qed.

Lemma inv_killed l st b :
  stop_inv l st -> stop_inv l (mkSt (st_listen st) (st_up st) (st_acc st) (st_sess st) (st_stop st) (st_k st) b).
Proof. intros []. constructor; simpl; try done; auto. intros i s Hi. by destruct (v_sess0 i s Hi). Qed.

(** A worker that has not closed its descriptor gets on. *)
Lemma inv_worker_at l st i s pc b :
  stop_inv l st -> st_sess st !! i = Some s -> live (ss_pc s) = true -> ss_pc s <> WUnborn -> live pc = true -> pc <> WUnborn ->
  args_ok (at_pc pc s) -> stop_inv l (set_sess (<[i := mkSess (ss_fd s) b pc (ss_num s) (ss_sock s)]> (st_sess st)) st).
Proof.
  intros Hinv Hi Hl Hu Hl' Hu' Ha. apply (inv_worker_set l st i s); try done; [auto|].
  destruct (v_sess _ _ Hinv i s Hi). constructor; simpl; try done; auto.
  - destruct s_fd0 as [|(? & [E|])]; [by left|by rewrite E in Hl|by right; auto].
  - by intros ->.
  - intros E. by rewrite s_joined0 in Hl.
  - revert s_stop0. unfold stop_arg_ok. destruct (st_stop st); try done; simpl; intros H E; specialize (H E).
    + destruct H as [|[_ E']]; [by left|by rewrite E' in Hl].
    + destruct H as [|[_ E']]; [by left|by rewrite E' in Hl].
Qed.

(** A descriptor read from the field, and looked up. *)
Lemma read_arg l st i s : stop_inv l st -> st_sess st !! i = Some s -> arg_ok (ss_fd s) s.
Proof. intros Hinv Hi. destruct (s_fd _ _ _ (v_sess _ _ Hinv i s Hi)) as [|[? _]]; [by left|by right]. Qed.

Lemma lookup_own l st i s fd sock :
  stop_inv l st -> st_sess st !! i = Some s -> live (ss_pc s) = true -> arg_ok fd s -> k_fds (st_k st) !! fd = Some sock ->
  sock = ss_sock s.
Proof.
  intros Hinv Hi Hl [->|[-> _]] Hf.
  - destruct (s_open _ _ _ (v_sess _ _ Hinv i s Hi) Hl) as [E|(_ & E & _)]; congruence.
  - destruct (v_fds _ _ Hinv _ _ Hf). lia.
Qed.

Lemma inv_worker_move ig l st i s k s' pipe :
  stop_inv l st -> st_sess st !! i = Some s -> worker_move (st_up st) (st_k st) s = Some (k, s', pipe) ->
  stop_inv l (set_worker ig i k s' pipe st).
Proof.
  intros Hinv Hi Hm. apply (inv_killed l (set_k k (set_sess (<[i := s']> (st_sess st)) st)) _).
  pose proof (v_sess _ _ Hinv i s Hi) as Hsi. pose proof (s_args _ _ _ Hsi) as Ha. unfold args_ok in Ha.
  pose proof (read_arg l st i s Hinv Hi) as Hr.
  assert (forall pc b, live (ss_pc s) = true -> ss_pc s <> WUnborn -> live pc = true -> pc <> WUnborn -> args_ok (at_pc pc s) ->
    stop_inv l (set_k (st_k st) (set_sess (<[i := mkSess (ss_fd s) b pc (ss_num s) (ss_sock s)]> (st_sess st)) st))) as Hat.
  { intros pc b H1 H2 H3 H4 H5. apply (inv_worker_at l st i s pc b Hinv Hi H1 H2 H3 H4 H5). }
  unfold worker_move in Hm. destruct (ss_pc s) as [| | | |fd|sock|ops|fd n ops|sock n ops| | |fd| |fd| |] eqn:Hpc;
    try discriminate Hm; try (injection Hm as <- <- <-).
  - apply Hat; try done; by destruct (ss_running s).
  - apply Hat; try done; by destruct (st_up st).
  - by apply Hat.
  - destruct (k_fds (st_k st) !! fd) as [sock|] eqn:Hf; apply Hat; try done. apply (lookup_own l st i s fd sock Hinv Hi); [by rewrite Hpc|done|done].
  - case_decide; [|done]. injection Hm as <- <- <-. by apply Hat.
  - destruct ops as [|[n|] ops]; injection Hm as <- <- <-; by apply Hat.
  - destruct (k_fds (st_k st) !! fd) as [sock|] eqn:Hf; injection Hm as <- <- <-; apply Hat; try done. apply (lookup_own l st i s fd sock Hinv Hi); [by rewrite Hpc|done|done].
  - case_decide; [|done]. injection Hm as <- <- <-. by apply Hat.
  - destruct (Z.leb_spec 0 (ss_fd s)) as [H0|H0]; [by apply Hat|].
    destruct (s_fd _ _ _ Hsi) as [E|(E & [|Hst])]; [pose proof (s_num _ _ _ Hsi); lia|congruence|].
    apply (inv_worker_set l st i s); try done; [by rewrite Hpc|right; apply Hsi; [lia|by rewrite Hpc]|].
    destruct Hsi. rewrite Hpc in *. constructor; simpl; try done; auto.
    revert s_stop0. unfold stop_arg_ok. rewrite Hpc. destruct (st_stop st); naive_solver.
  - by apply Hat.
  - apply (inv_shutdown l (set_sess (<[i := at_pc WClose s]> (st_sess st)) st) fd). by apply (Hat WClose (ss_running s)).
  - by apply Hat.
  - assert (forall sock, k_fds (st_k st) !! fd = Some sock -> sock = ss_sock s) as Hown.
    { intros sock Hf. apply (lookup_own l st i s fd sock Hinv Hi); [by rewrite Hpc|done|done]. }
    pose proof (inv_close l st (Some i) fd) as Hc. cbn [after_close] in Hc. rewrite (alter_is_insert _ _ i s Hi) in Hc.
    apply Hc; try done.
    + intros j s1 Hj Hl Hn Hf. left. f_equal. apply (v_inj _ _ Hinv i j s s1 Hi Hj). symmetry. by apply Hown.
    + intros Hl ->. pose proof (Hown O (v_listening _ _ Hinv Hl)). pose proof (s_sock _ _ _ Hsi). lia.
    + intros sock Hacc. pose proof (v_acc _ _ Hinv) as Hv. rewrite Hacc in Hv. destruct Hv as (_ & Hf & _ & Hne).
      apply (Hne i s Hi). symmetry. by apply Hown.
    + intros j [= <-]. by exists s.
  - apply (inv_worker_set l st i s); try done; try (by rewrite Hpc).
    destruct Hsi. rewrite Hpc in *. constructor; simpl; try done; auto.
    revert s_stop0. unfold stop_arg_ok. rewrite Hpc. simpl. destruct (st_stop st); naive_solver.
Qed.

Lemma inv_peer_move ig t l st i s s' pipe :
  stop_inv l st -> st_sess st !! i = Some s -> peer_move t (st_k st) s = Some (s', pipe) ->
  stop_inv l (set_worker ig i (st_k st) s' pipe st).
Proof.
  intros Hinv Hi Hm. apply (inv_killed l (set_sess (<[i := s']> (st_sess st)) st) _).
  unfold peer_move in Hm. destruct t, (ss_pc s) eqn:Hpc; try discriminate Hm; try case_decide; try discriminate Hm;
    injection Hm as <- <-; apply (inv_worker_at l st i s); rewrite ?Hpc; done.
Qed.

Lemma inv_turn ig l t st st' : stop_inv l st -> do_turn ig t st = Some st' -> stop_inv l st'.
Proof.
  intros Hinv Ht. unfold do_turn in Ht. destruct (st_killed st); [done|].
  destruct t as [i| | | |fd|eintr|i ops|i|i rest|i pipe];
    try (destruct (st_sess st !! i) as [s|] eqn:Hi; [|done]; rewrite bind_Some_l in Ht).
  - destruct (worker_move _ _ s) as [[[k s'] pipe]|] eqn:Hm; [|done]. injection Ht as <-. by eapply inv_worker_move.
  - by eapply inv_acceptor_move.
  - by eapply inv_stop_move.
  - pose proof (v_up _ _ Hinv) as Hup. destruct (st_up st); [|done]. injection Ht as <-.
    destruct (st_stop st) eqn:Hsp; try done. rewrite (v_listen _ _ Hinv). listen_phase Hsp.
  - destruct (st_acc st) as [| | |sock| | | |] eqn:Hacc; try done. case_decide as Hd; [|done]. injection Ht as <-.
    destruct Hd. by apply (inv_connect l st fd sock).
  - destruct (st_acc st) eqn:Hacc; try done. injection Ht as <-. apply inv_acc_set; by rewrite ?Hacc.
  - destruct (peer_move _ _ s) as [[s' p]|] eqn:Hm; [|done]. injection Ht as <-. by eapply inv_peer_move.
  - destruct (peer_move _ _ s) as [[s' p]|] eqn:Hm; [|done]. injection Ht as <-. by eapply inv_peer_move.
  - destruct (peer_move _ _ s) as [[s' p]|] eqn:Hm; [|done]. injection Ht as <-. by eapply inv_peer_move.
  - destruct (peer_move _ _ s) as [[s' p]|] eqn:Hm; [|done]. injection Ht as <-. by eapply inv_peer_move.
Qed.

Lemma inv_turns ig l st st' : stop_inv l st -> rtc (turn_step ig) st st' -> stop_inv l st'.
Proof. intros Hinv Hs. induction Hs as [|st st1 st2 [t Ht] _ IH]; [done|]. by eapply IH, inv_turn. Qed.
