(* ===== verification/GatewayStopProps.v ===== *)
(** * What stopping the gateway promises (src/mvp/src/fix/gateway.cpp)

    Nothing a peer does or omits keeps [stop] from returning, with every thread
    ended and every descriptor closed: without another user of descriptors in
    the process, that is, and unless a send raises SIGPIPE.  The last sections
    have the runs in which these fail. *)

From stdpp Require Import gmap.
From S2P Require Import Prelude GatewayStop.

(** ** Progress *)

(** A worker that must end can move. *)
Lemma worker_can_move l st i s :
  stop_inv l st -> st_sess st !! i = Some s -> ss_pc s <> WDone -> ss_pc s <> WUnborn ->
  ss_sock s ∈ k_shut (st_k st) \/ live (ss_pc s) = false ->
  exists r, worker_move (st_up st) (st_k st) s = Some r.
Proof.
  intros Hinv Hi Hd Hu Hs. pose proof (s_args _ _ _ (v_sess _ _ Hinv i s Hi)) as Ha. unfold args_ok in Ha. unfold worker_move.
  destruct (ss_pc s) as [| | | |fd|sock|[|[n|] ops]|fd n ops|sock n ops| | |fd| |fd| |] eqn:Hpc; try done; try (by eexists).
  - destruct Hs as [Hs|]; [|done]. rewrite Ha, decide_True by done. by eexists.
  - destruct (k_fds (st_k st) !! fd); by eexists.
  - destruct Hs as [Hs|]; [|done]. rewrite Ha, decide_True by done. by eexists.
Qed.

(** Once called and until it has returned, [stop] is never left without a
    thread that can move. *)
Lemma stop_progress ig l st :
  stop_inv l st -> st_stop st <> SIdle -> st_stop st <> SReturned -> st_killed st = false -> exists st', own_step ig st st'.
Proof.
  intros Hinv H1 H2 Hk.
  assert (forall st', stop_move st = Some st' -> exists st', own_step ig st st') as Hstop.
  { intros st' Hm. exists st', TStop. split; [done|]. unfold do_turn. by rewrite Hk. }
  assert (forall i, stop_index (st_stop st) = Some i -> exists s, st_sess st !! i = Some s) as Hidx.
  { intros i Hi. apply lookup_lt_is_Some_2. by apply (v_index _ _ Hinv). }
  unfold stop_move in Hstop.
  destruct (st_stop st) as [| | | | | |i|i|i|i fd|i|i fd|i|i|] eqn:Hsp; try done; eauto.
  - (* joins the acceptor *)
    destruct (st_acc st) as [| |fd|sock|eintr|fd sock| |] eqn:Hacc; eauto;
      (eexists; exists TAcceptor; split; [done|]; unfold do_turn, acceptor_move; rewrite Hk, Hacc); try done.
    pose proof (v_acc _ _ Hinv) as Hv. rewrite Hacc in Hv. subst sock.
    pose proof (v_lshut _ _ Hinv) as Hl. rewrite Hsp in Hl. by rewrite decide_True by auto.
  - destruct (st_sess st !! i) eqn:Hi; eauto.
  - destruct (Hidx i eq_refl) as [s Hi]. rewrite Hi in Hstop. eauto.
  - destruct (Hidx i eq_refl) as [s Hi]. rewrite Hi in Hstop. eauto.
  - destruct (Hidx i eq_refl) as [s Hi]. rewrite Hi in Hstop. eauto.
  - (* joins a worker *)
    destruct (Hidx i eq_refl) as [s Hi]. rewrite Hi in Hstop. cbn [mbind option_bind] in Hstop.
    pose proof (v_sess _ _ Hinv i s Hi) as Hsi. assert (stage (st_stop st) i = 3%nat) as Hst by (rewrite Hsp; stages).
    assert (ss_pc s = WDone \/ ss_pc s <> WDone) as [Hd|Hd] by (destruct (ss_pc s); auto); [rewrite Hd in Hstop; eauto|].
    destruct (worker_can_move l st i s) as [[[k s'] p] Hm]; try done.
    + intros Hu. destruct (s_unborn _ _ _ Hsi Hu) as [Ha _]. rewrite (v_joined _ _ Hinv) in Ha by (by rewrite Hsp). done.
    + destruct (live (ss_pc s)) eqn:Hl; [left|by right]. apply Hsi; [lia|done].
    + eexists. exists (TWorker i). split; [done|]. unfold do_turn. by rewrite Hk, Hi, bind_Some_l, Hm.
Qed.

(** ** Termination *)

(** What a worker has left once [running_] is false, but for the messages of a
    chunk; these are counted apart. *)
Definition pc_rank (pc : WorkerPc) : nat :=
  match pc with
  | WRecv => 12
  | WRecvAt _ => 11
  | WInRecv _ => 10
  | WUnborn | WHandle _ | WSendAt _ _ _ | WInSend _ _ _ => 9
  | WTestOwn => 8
  | WTestAll => 7
  | WFdTest => 6
  | WShutdown => 5
  | WShutdownAt _ => 4
  | WClose => 3
  | WCloseAt _ => 2
  | WStore => 1
  | WDone => 0
  end.

Definition acc_rank (a : AcceptorPc) : nat :=
  match a with
  | AAccept => 24
  | AAcceptAt _ => 23
  | AInAccept _ => 22
  | ARegister _ _ => 21
  | ASpawn => 2
  | ATest | AFailed _ => 1
  | AEnded => 0
  end.

Definition stop_rank (sp : StopPc) (n : nat) : nat :=
  match sp with
  | SIdle | SReturned => 0
  | SListenTest => 8 * n + 6
  | SListenShutdown => 8 * n + 5
  | SListenClose => 8 * n + 4
  | SListenStore => 8 * n + 3
  | SJoinAcceptor => 8 * n + 2
  | SSession i => 8 * (n - i) + 1
  | SFdTest i => 8 * (n - i)
  | SShutdown i => 8 * (n - i) - 1
  | SShutdownAt i _ => 8 * (n - i) - 2
  | SClose i => 8 * (n - i) - 3
  | SCloseAt i _ => 8 * (n - i) - 4
  | SStore i => 8 * (n - i) - 5
  | SJoin i => 8 * (n - i) - 6
  end.

Definition op_size (op : HandlerOp) : nat := match op with HSend n => 3 * n + 3 | HEnd => 1 end.
Definition pc_size (pc : WorkerPc) : nat :=
  match pc with
  | WHandle ops => sum_list_with op_size ops
  | WSendAt _ n ops => 3 * n + 2 + sum_list_with op_size ops
  | WInSend _ n ops => 3 * n + 1 + sum_list_with op_size ops
  | _ => 0
  end.

Definition rank (st : St) : nat :=
  stop_rank (st_stop st) (length (st_sess st)) + acc_rank (st_acc st) + sum_list_with (fun s => pc_rank (ss_pc s)) (st_sess st).
Definition size (st : St) : nat := sum_list_with (fun s => pc_size (ss_pc s)) (st_sess st).

Definition lower (st' st : St) : Prop := (rank st' < rank st \/ rank st' = rank st /\ size st' < size st)%nat.

Lemma lower_wf st : Acc lower st.
Proof.
  remember (rank st) as r eqn:Er. revert st Er. induction (lt_wf r) as [r _ IHr]. intros st ->.
  remember (size st) as z eqn:Ez. revert st Ez IHr. induction (lt_wf z) as [z _ IHz]. intros st -> IHr.
  constructor. intros st' [Hr|[Hr Hz]]; [by eapply IHr|]. eapply IHz; [exact Hz|done|]. by rewrite Hr.
Qed.

Lemma sum_insert {A} (f : A -> nat) l : forall i x y, l !! i = Some x ->
  (sum_list_with f (<[i := y]> l) + f x = sum_list_with f l + f y)%nat.
Proof. induction l as [|z l IH]; intros [|i] x y Hx; simplify_eq/=; [lia|]. specialize (IH i x y Hx). lia. Qed.

Lemma lower_worker ig i k s s' pipe st :
  st_sess st !! i = Some s ->
  (pc_rank (ss_pc s') < pc_rank (ss_pc s) \/ pc_rank (ss_pc s') = pc_rank (ss_pc s) /\ pc_size (ss_pc s') < pc_size (ss_pc s))%nat ->
  lower (set_worker ig i k s' pipe st) st.
Proof.
  intros Hi H. unfold lower, rank, size, set_worker. simpl. rewrite length_insert.
  pose proof (sum_insert (fun s => pc_rank (ss_pc s)) _ i s s' Hi). pose proof (sum_insert (fun s => pc_size (ss_pc s)) _ i s s' Hi).
  cbv beta in *. lia.
Qed.

Lemma worker_move_lower k s k' s' pipe :
  worker_move false k s = Some (k', s', pipe) ->
  (pc_rank (ss_pc s') < pc_rank (ss_pc s) \/ pc_rank (ss_pc s') = pc_rank (ss_pc s) /\ pc_size (ss_pc s') < pc_size (ss_pc s))%nat.
Proof.
  intros Hm. unfold worker_move in Hm.
  destruct (ss_pc s) as [| | | |fd|sock|[|[n|] ops]|fd n ops|sock n ops| | |fd| |fd| |]; try case_decide; try discriminate Hm;
    try (destruct (k_fds k !! fd)); injection Hm as <- <- <-; simpl; repeat case_match; simpl; lia.
Qed.

Lemma peer_move_lower t k s s' pipe :
  peer_move t k s = Some (s', pipe) ->
  (pc_rank (ss_pc s') < pc_rank (ss_pc s) \/ pc_rank (ss_pc s') = pc_rank (ss_pc s) /\ pc_size (ss_pc s') < pc_size (ss_pc s))%nat.
Proof.
  intros Hm. unfold peer_move in Hm. destruct t, (ss_pc s); try case_decide; try discriminate Hm; injection Hm as <- <-; simpl;
    repeat case_match; simpl; lia.
Qed.

Lemma stop_move_lower l st st' : stop_inv l st -> stop_move st = Some st' -> lower st' st.
Proof.
  intros Hinv Hm. pose proof (v_index _ _ Hinv) as Hidx. unfold stop_move in Hm. unfold lower, rank.
  assert (forall f i, (forall s, ss_pc (f s) = ss_pc s) -> sum_list_with (fun s => pc_rank (ss_pc s)) (alter f i (st_sess st)) =
    sum_list_with (fun s => pc_rank (ss_pc s)) (st_sess st)) as Halt.
  { intros f i Hf. destruct (st_sess st !! i) as [s|] eqn:Hi.
    - rewrite (alter_is_insert _ _ i s Hi). pose proof (sum_insert (fun s => pc_rank (ss_pc s)) _ i s (f s) Hi) as H. cbv beta in H.
      rewrite Hf in H. lia.
    - f_equal. clear -Hi. revert i Hi. induction (st_sess st) as [|x xs IH]; intros [|i] Hi; simplify_eq/=; [done..|].
      f_equal. by apply IH. }
  left. destruct (st_stop st) as [| | | | | |i|i|i|i fd|i|i fd|i|i|]; try discriminate Hm;
    try specialize (Hidx i eq_refl); try (destruct (st_sess st !! i) as [s|] eqn:Hi; [rewrite bind_Some_l in Hm|done]);
    try (injection Hm as <-; simpl; rewrite ?Halt, ?length_alter by done; try case_match; simpl; lia).
  - destruct (st_acc st) eqn:Ha; try done. injection Hm as <-. simpl. rewrite Ha. simpl. lia.
  - destruct (st_sess st !! i) as [s|] eqn:Hi; injection Hm as <-; simpl; rewrite ?Halt, ?length_alter by done; [|lia].
    apply lookup_lt_Some in Hi. lia.
  - destruct (ss_pc s); try done. injection Hm as <-. simpl. lia.
Qed.

Lemma acceptor_move_lower l st st' : stop_inv l st -> st_up st = false -> acceptor_move st = Some st' -> lower st' st.
Proof.
  intros Hinv Hup Hm. pose proof (v_up _ _ Hinv) as Hsp. rewrite Hup in Hsp. pose proof (v_joined _ _ Hinv) as Hj.
  pose proof (v_acc _ _ Hinv) as Hv. unfold acceptor_move in Hm. left. unfold rank.
  destruct (st_acc st) as [| |fd|sock|eintr|fd sock| |] eqn:Ha; try case_decide; try discriminate Hm;
    injection Hm as <-; simpl; rewrite ?Hup; simpl; try lia; try (repeat case_match; simpl; lia).
  - rewrite sum_list_with_app, length_app. simpl.
    destruct (st_stop st); simpl in *; try lia; by specialize (Hj eq_refl).
  - destruct Hv as (s & Hs & Hpc). rewrite (alter_is_insert _ _ _ s Hs), length_insert.
    pose proof (sum_insert (fun s => pc_rank (ss_pc s)) _ _ s (at_pc WTestOwn s) Hs) as H. cbv beta in H. rewrite Hpc in H.
    simpl in H. lia.
Qed.

Lemma stop_move_up st st' : stop_move st = Some st' -> st_up st' = st_up st.
Proof.
  intros Hm. unfold stop_move in Hm. destruct (st_stop st) as [| | | | | |i|i|i|i fd|i|i fd|i|i|]; try discriminate Hm;
    try (destruct (st_sess st !! i) as [s|]); try (injection Hm as <-; done); try done.
  - destruct (st_acc st); try done. by injection Hm as <-.
  - simpl in Hm. destruct (ss_pc s); try done. by injection Hm as <-.
Qed.

Lemma turn_lower ig l t st st' :
  stop_inv l st -> st_up st = false -> do_turn ig t st = Some st' -> st_up st' = false /\ lower st' st.
Proof.
  intros Hinv Hup Ht. pose proof (v_up _ _ (inv_turn _ _ _ _ _ Hinv Ht)) as Hup'. unfold do_turn in Ht. destruct (st_killed st); [done|].
  pose proof (v_up _ _ Hinv) as Hsp. rewrite Hup in Hsp.
  destruct t as [i| | | |fd|eintr|i ops|i|i rest|i pipe];
    try (destruct (st_sess st !! i) as [s|] eqn:Hi; [|done]; rewrite bind_Some_l in Ht);
    try (destruct (peer_move _ _ s) as [[s' p]|] eqn:Hm; [|done]; injection Ht as <-; split; [done|];
         by eapply lower_worker, peer_move_lower).
  - destruct (worker_move _ _ s) as [[[k s'] p]|] eqn:Hm; [|done]. injection Ht as <-. split; [done|]. rewrite Hup in Hm.
    by eapply lower_worker, worker_move_lower.
  - split; [|by eapply acceptor_move_lower]. unfold acceptor_move in Ht.
    destruct (st_acc st); try case_decide; try discriminate Ht; by injection Ht as <-.
  - split; [|by eapply stop_move_lower]. by rewrite (stop_move_up _ _ Ht).
  - rewrite Hup in Ht. done.
  - destruct (st_acc st) as [| | |sock| | | |] eqn:Ha; try done. case_decide; [|done]. injection Ht as <-. split; [done|].
    left. unfold rank. simpl. rewrite Ha. simpl. lia.
  - destruct (st_acc st) eqn:Ha; try done. injection Ht as <-. split; [done|]. left. unfold rank. simpl. rewrite Ha. simpl. lia.
Qed.

(** Only SIGPIPE ends the process. *)
Lemma killed_by_sigpipe ig t st st' : do_turn ig t st = Some st' -> st_killed st' = true -> ig = false.
Proof.
  intros Ht Hk. unfold do_turn in Ht. destruct (st_killed st) eqn:Hk0; [done|].
  destruct t as [i| | | |fd|eintr|i ops|i|i rest|i pipe];
    try (destruct (st_sess st !! i) as [s|] eqn:Hi; [|done]; rewrite bind_Some_l in Ht);
    try (destruct (peer_move _ _ s) as [[s' p]|] eqn:Hm; [|done]; injection Ht as <-; simpl in Hk; by destruct ig, p).
  - destruct (worker_move _ _ s) as [[[k s'] p]|] eqn:Hm; [|done]. injection Ht as <-. simpl in Hk. by destruct ig, p.
  - unfold acceptor_move in Ht. destruct (st_acc st); try case_decide; try discriminate Ht; injection Ht as <-; simpl in Hk; congruence.
  - unfold stop_move in Ht. destruct (st_stop st) as [| | | | | |i|i|i|i fd|i|i fd|i|i|]; try discriminate Ht;
      try (destruct (st_sess st !! i) as [s|]); try (injection Ht as <-; simpl in Hk; congruence); try done.
    + destruct (st_acc st); try done. injection Ht as <-. simpl in Hk. congruence.
    + simpl in Ht. destruct (ss_pc s); try done. injection Ht as <-. simpl in Hk. congruence.
  - destruct (st_up st); try done. injection Ht as <-. simpl in Hk. congruence.
  - destruct (st_acc st); try done. case_decide; try done. injection Ht as <-. simpl in Hk. congruence.
  - destruct (st_acc st); try done. injection Ht as <-. simpl in Hk. congruence.
Qed.

(** ** The theorem *)

(** (C18) [stop] returns.  From a gateway that has started, through any
    interleaving of its threads with peers that connect, send, read or do not,
    once [stop] has been called: every run is finite; as long as [stop] has not
    returned some thread can move without any peer doing anything -- [shutdown]
    has woken whatever is blocked -- unless SIGPIPE has ended the process,
    which it can only where it is not ignored; and when [stop] has returned
    the acceptor and every worker have ended, every descriptor the gateway
    opened is closed and no field names one. *)
Theorem gateway_stops ig l st :
  0 <= l -> rtc (turn_step ig) (St_started l) st -> st_up st = false ->
  Acc (flip (turn_step ig)) st /\
  (st_stop st <> SReturned -> (exists st', own_step ig st st') \/ st_killed st = true /\ ig = false) /\
  (st_stop st = SReturned ->
    st_acc st = AEnded /\ k_fds (st_k st) = ∅ /\ st_listen st = -1 /\
    forall i s, st_sess st !! i = Some s -> ss_pc s = WDone /\ ss_fd s = -1).
Proof.
  intros Hl Hs Hup. pose proof (inv_turns _ _ _ _ (stop_inv_started l Hl) Hs) as Hinv. split_and!.
  - pose proof (lower_wf st) as Ha. revert Hup Hinv. clear Hs. induction Ha as [st _ IH]. intros Hup Hinv.
    constructor. intros st' [t Ht]. destruct (turn_lower _ _ _ _ _ Hinv Hup Ht) as [Hup' Hlow].
    apply IH; [done..|]. by eapply inv_turn.
  - intros Hr. destruct (st_killed st) eqn:Hk.
    + right. split; [done|]. apply rtc_inv_r in Hs as [<-|(st0 & _ & [t Ht])]; [done|]. by eapply killed_by_sigpipe.
    + left. apply (stop_progress ig l); try done. intros E. pose proof (v_up _ _ Hinv) as Hu. rewrite E in Hu. congruence.
  - intros Hr. pose proof (v_joined _ _ Hinv) as Hj. rewrite Hr in Hj. specialize (Hj eq_refl).
    assert (forall i s, st_sess st !! i = Some s -> ss_pc s = WDone) as Hd.
    { intros i s Hi. apply (s_joined _ _ _ (v_sess _ _ Hinv i s Hi)). by rewrite Hr. }
    split_and!; try done.
    + apply map_empty. intros fd. destruct (k_fds (st_k st) !! fd) as [sock|] eqn:Hf; [|done]. exfalso.
      destruct (v_fds _ _ Hinv fd sock Hf) as (_ & _ & [(_ & _ & E)|[(i & s & Hi & Hlv & _)|E]]).
      * by rewrite Hr in E.
      * by rewrite (Hd i s Hi) in Hlv.
      * congruence.
    + rewrite (v_listen _ _ Hinv), Hr. done.
    + intros i s Hi. split; [by eapply Hd|]. apply (s_done _ _ _ (v_sess _ _ Hinv i s Hi)), (Hd i s Hi).
Qed.

(** ** Runs *)

Fixpoint play (ig : bool) (ts : list Turn) (st : St) : option St :=
  match ts with [] => Some st | t :: ts => st ← do_turn ig t st; play ig ts st end.

Lemma play_steps ig ts : forall st st', play ig ts st = Some st' -> rtc (turn_step ig) st st'.
Proof.
  induction ts as [|t ts IH]; intros st st' Hp; simpl in Hp; [simplify_eq; constructor|].
  destruct (do_turn ig t st) as [st1|] eqn:Ht; [|done]. eapply rtc_l; [by exists t|]. by apply IH.
Qed.

(** A peer connects as descriptor 4 and its worker waits in [recv], the
    acceptor in [accept]. *)
Definition connected : list Turn :=
  [TAcceptor; TAcceptor; TAcceptor; TConnect 4; TAcceptor; TAcceptor; TAcceptor; TAcceptor; TAcceptor] ++
  replicate 4 (TWorker 0).

(** The stop of that gateway, in the order of the source. *)
Definition stopped : list Turn :=
  [TCall] ++ replicate 4 TStop ++ [TAcceptor; TAcceptor] ++ replicate 8 TStop.

Lemma gateway_stops_witness :
  exists st, play true (connected ++ [TCall]) (St_started 3) = Some st /\
    Acc (flip (turn_step true)) st /\
    (st_stop st <> SReturned -> (exists st', own_step true st st') \/ st_killed st = true /\ true = false) /\
    (st_stop st = SReturned ->
      st_acc st = AEnded /\ k_fds (st_k st) = ∅ /\ st_listen st = -1 /\
      forall i s, st_sess st !! i = Some s -> ss_pc s = WDone /\ ss_fd s = -1).
Proof.
  destruct (play true (connected ++ [TCall]) (St_started 3)) as [st|] eqn:E; [|vm_compute in E; discriminate E].
  exists st. split; [reflexivity|]. apply (gateway_stops true 3 st).
  - discriminate.
  - exact (play_steps true _ _ _ E).
  - vm_compute in E. injection E as <-. reflexivity.
Defined.

(** The whole stop, as an evaluation: the peer sends nothing. *)
Example stop_example :
  (fun st => (st_stop st, st_acc st, (fun s => (ss_fd s, ss_pc s)) <$> st_sess st, map_to_list (k_fds (st_k st)))) <$>
    play true (connected ++ stopped ++ replicate 2 (TWorker 0) ++ replicate 2 TStop) (St_started 3) =
  Some (SReturned, AEnded, [(-1, WDone)], []).
Proof. vm_compute. reflexivity. Qed.

(** SIGPIPE: a worker that has two messages to send when [stop] shuts its
    socket down; no peer has refused anything. *)
Theorem stop_raises_sigpipe :
  exists st, rtc (turn_step false) (St_started 3) st /\ st_up st = false /\ st_killed st = true /\ st_stop st = SClose 0 /\
    exists ts, play false ts (St_started 3) = Some st /\ forall i pipe, TNotSent i pipe ∉ ts.
Proof.
  set (ts := connected ++ [TData 0 [HSend 0; HSend 0]; TCall] ++ replicate 4 TStop ++ [TAcceptor; TAcceptor] ++ replicate 5 TStop ++
    replicate 3 (TWorker 0)).
  destruct (play false ts (St_started 3)) as [st|] eqn:E; [|vm_compute in E; discriminate E].
  exists st. split; [by apply (play_steps false ts)|]. pose proof E as E'. vm_compute in E'. injection E' as E'.
  do 3 (split; [by rewrite <- E'|]). exists ts. split; [exact E|]. intros i pipe Hin.
  assert (forallb (fun t => match t with TNotSent _ _ => false | _ => true end) ts = true) as Hall by reflexivity.
  rewrite forallb_forall in Hall. apply list_elem_of_In, Hall in Hin. done.
Qed.

(** ** Other descriptors in the process *)

(** Another part of the process opens a descriptor. *)
Definition other_open (fd : Z) (st : St) : option St :=
  if decide (0 <= fd /\ k_fds (st_k st) !! fd = None) then Some (set_k (k_open fd (st_k st)) st) else None.

(** A worker that has closed its descriptor and not yet cleared the field,
    another part of the process that gets the number, and [stop]: it shuts
    down and closes a socket that is not the gateway's. *)
Theorem stop_closes_foreign_descriptor :
  exists st0 st1 st2 sock, rtc (turn_step true) (St_started 3) st0 /\ other_open 4 st0 = Some st1 /\
    k_fds (st_k st1) !! 4 = Some sock /\ (forall i s, st_sess st1 !! i = Some s -> ss_sock s <> sock) /\
    rtc (turn_step true) st1 st2 /\ k_fds (st_k st2) !! 4 = None /\ sock ∈ k_shut (st_k st2).
Proof.
  destruct (play true (connected ++ [TNoData 0] ++ replicate 5 (TWorker 0)) (St_started 3)) as [st0|] eqn:E0;
    [|vm_compute in E0; discriminate E0].
  destruct (other_open 4 st0) as [st1|] eqn:E1; [|vm_compute in E0; injection E0 as <-; vm_compute in E1; discriminate E1].
  destruct (play true (take 14 stopped) st1) as [st2|] eqn:E2;
    [|vm_compute in E0; injection E0 as <-; vm_compute in E1; injection E1 as <-; vm_compute in E2; discriminate E2].
  exists st0, st1, st2, 2%nat. split; [by eapply play_steps|]. split; [done|].
  assert (rtc (turn_step true) st1 st2) as Hs by (by eapply play_steps). vm_compute in E0. injection E0 as <-.
  vm_compute in E1. injection E1 as <-. vm_compute in E2. injection E2 as <-. split_and!; try done.
  - intros [|[|i]] s Hi; by simplify_eq/=.
Qed.
