(* ===== verification/Uring.v ===== *)
(** * [hft::iouring::UringGateway] (src/mvp/src/iouring/uring_gateway.{h,cpp})

    The gateway under its io_uring name: both builds delegate every call to the
    POSIX gateway of [GatewayLife], and the native one declares the tags that
    its completions would carry. *)

From stdpp Require Import gmap.
From S2P Require Import Prelude Decimal Gateway GatewayLife.

(** ** Completion tags *)

(** enum OpKind : uint8_t *)
Definition OP_ACCEPT : Z := 1.
Definition OP_READ : Z := 2.
Definition OP_SEND : Z := 3.
Definition OP_CLOSE : Z := 4.

(** The conversion of a [uint32_t] value to [int]. *)
Definition to_int (z : Z) : Z := if z <? 2 ^ 31 then z else z - 2 ^ 32.

(** [(uint64_t(k) << 56) | (uint64_t(uint32_t(fd)) << 24) | ctx] *)
Definition make_tag (k fd ctx : Z) : Z :=
  Z.lor (Z.lor (u64 (Z.shiftl k 56)) (u64 (Z.shiftl (u32 fd) 24))) ctx.

(** [OpKind(t >> 56)]: the low byte of what is left. *)
Definition tag_kind (t : Z) : Z := Z.land (Z.shiftr t 56) 255.

Definition tag_fd (t : Z) : Z := to_int (Z.land (Z.shiftr t 24) 4294967295).

Lemma testbit_small z n i : 0 <= z < 2 ^ n -> 0 <= n <= i -> Z.testbit z i = false.
Proof. intros Hz Hi. rewrite <-(Z.mod_small z (2 ^ n)) by done. apply Z.mod_pow2_bits_high. lia. Qed.

Lemma u32_range z : 0 <= u32 z < 2 ^ 32.
Proof. by apply Z.mod_pos_bound. Qed.

(** The bits of a tag: the kind from 56, the descriptor from 24, the context
    from 0. *)
Lemma make_tag_bits k fd ctx i :
  0 <= i < 64 ->
  Z.testbit (make_tag k fd ctx) i =
    Z.testbit k (i - 56) || Z.testbit (u32 fd) (i - 24) || Z.testbit ctx i.
Proof.
  intros Hi. unfold make_tag, u64. change UINT64_SIZE with (2 ^ 64).
  by rewrite !Z.lor_spec, !Z.mod_pow2_bits_low, !Z.shiftl_spec by lia.
Qed.

Lemma tag_kind_make k fd ctx : 0 <= k < 2 ^ 8 -> 0 <= ctx < 2 ^ 24 -> tag_kind (make_tag k fd ctx) = k.
Proof.
  intros Hk Hc. unfold tag_kind. apply Z.bits_inj'. intros i Hi. change 255 with (Z.ones 8).
  rewrite Z.land_spec. destruct (Z.lt_ge_cases i 8).
  - rewrite Z.ones_spec_low, andb_true_r, Z.shiftr_spec, make_tag_bits by lia.
    rewrite (testbit_small (u32 fd) 32), (testbit_small ctx 24) by (apply u32_range || lia).
    rewrite !orb_false_r. f_equal. lia.
  - rewrite Z.ones_spec_high, andb_false_r by lia. by rewrite (testbit_small k 8) by lia.
Qed.

Lemma tag_fd_make k fd ctx : - 2 ^ 31 <= fd < 2 ^ 31 -> 0 <= ctx < 2 ^ 24 -> tag_fd (make_tag k fd ctx) = fd.
Proof.
  intros Hf Hc. unfold tag_fd.
  assert (Z.land (Z.shiftr (make_tag k fd ctx) 24) 4294967295 = u32 fd) as ->.
  { apply Z.bits_inj'. intros i Hi. change 4294967295 with (Z.ones 32). rewrite Z.land_spec.
    destruct (Z.lt_ge_cases i 32).
    - rewrite Z.ones_spec_low, andb_true_r, Z.shiftr_spec, make_tag_bits by lia.
      rewrite (testbit_small ctx 24) by lia. rewrite orb_false_r, (Z.testbit_neg_r k) by lia.
      simpl. f_equal. lia.
    - rewrite Z.ones_spec_high, andb_false_r by lia. by rewrite (testbit_small (u32 fd) 32) by (apply u32_range || lia). }
  unfold to_int, u32. change 4294967296 with (2 ^ 32). destruct (Z.lt_ge_cases fd 0).
  - rewrite <-(Z.mod_unique_pos fd (2 ^ 32) (-1) (fd + 2 ^ 32)) by lia.
    rewrite (proj2 (Z.ltb_ge _ _)) by lia. lia.
  - rewrite Z.mod_small by lia. by rewrite (proj2 (Z.ltb_lt _ _)) by lia.
Qed.

(** Completion tags: the kind and the descriptor of an operation are read
    back from its tag, for every kind and every descriptor, negative ones
    included, as long as the context stays below 2^24. *)
Theorem uring_tags k fd ctx :
  0 <= k < 2 ^ 8 -> - 2 ^ 31 <= fd < 2 ^ 31 -> 0 <= ctx < 2 ^ 24 ->
  tag_kind (make_tag k fd ctx) = k /\ tag_fd (make_tag k fd ctx) = fd.
Proof. intros Hk Hf Hc. split; [by apply tag_kind_make|by apply tag_fd_make]. Qed.

Lemma uring_tags_witness :
  tag_kind (make_tag OP_CLOSE (-1) 5) = OP_CLOSE /\ tag_fd (make_tag OP_CLOSE (-1) 5) = -1.
Proof. apply (uring_tags OP_CLOSE (-1) 5); unfold OP_CLOSE; lia. Defined.

(** A larger context, which its type [uint32_t] allows, changes the descriptor
    read back. *)
Example tag_context_overflow : tag_fd (make_tag OP_READ 6 (2 ^ 24)) = 7.
Proof. vm_compute. reflexivity. Qed.

(** ** The gateway under this name *)

Record UringGatewayConfig := mkUringConfig {
  ucfg_bind_host : bytes;
  ucfg_bind_port : Z;           (* uint16_t *)
  ucfg_comp_id : bytes;
  ucfg_sq_entries : Z;          (* uint32_t *)
  ucfg_use_sq_poll : bool;
  ucfg_sq_poll_idle_ms : Z;     (* uint32_t *)
  ucfg_register_buffers : bool;
  ucfg_rx_buffer_count : Z;     (* uint32_t *)
  ucfg_rx_buffer_size : Z       (* uint32_t *)
}.

Definition UringGatewayConfig_default : UringGatewayConfig :=
  mkUringConfig (str "127.0.0.1") 9878 (str "ENGINE") 256 false 2 true 64 4096.

Section Wrapper.
Context {E : Type}.

(** [Impl]: in both builds it owns a POSIX gateway, its sockets and threads
    ([Life]) and the state its sessions share ([Gateway]); of the configuration
    only the host, the port and the name are passed on. *)
Record UringImpl := mkImpl { impl_cfg : UringGatewayConfig; impl_life : Life; impl_gw : Gateway E }.

Definition UringImpl_new (cfg : UringGatewayConfig) (g : Gateway E) : UringImpl := mkImpl cfg Life_new g.

Definition uring_start (env : NetEnv) (u : UringImpl) : option (UringImpl * bool) :=
  '(l, ok) ← start env (impl_life u); Some (mkImpl (impl_cfg u) l (impl_gw u), ok).
Definition uring_stop (u : UringImpl) : option UringImpl :=
  l ← stop (impl_life u); Some (mkImpl (impl_cfg u) l (impl_gw u)).
Definition uring_bound_port (u : UringImpl) : Z := bound_port_ (impl_life u).
Definition uring_accepted_sessions (u : UringImpl) : Z := accepted_ (impl_life u).
Definition uring_orders_received (u : UringImpl) : Z := orders_ (impl_gw u).
Definition uring_exec_reports_sent (u : UringImpl) : Z := execs_ (impl_gw u).

(** The build without io_uring owns the gateway alone. *)
Record PosixImpl := mkPosix { posix_life : Life; posix_gw : Gateway E }.

(** [UringGateway], whose calls go through [impl_]. *)
Class UringBuild (I : Type) := {
  ub_new : UringGatewayConfig -> Gateway E -> I;
  ub_start : NetEnv -> I -> option (I * bool);
  ub_stop : I -> option I;
  ub_bound_port : I -> Z;
  ub_accepted_sessions : I -> Z;
  ub_orders_received : I -> Z;
  ub_exec_reports_sent : I -> Z
}.

#[export] Instance native_build : UringBuild UringImpl := {
  ub_new := UringImpl_new;
  ub_start := uring_start;
  ub_stop := uring_stop;
  ub_bound_port := uring_bound_port;
  ub_accepted_sessions := uring_accepted_sessions;
  ub_orders_received := uring_orders_received;
  ub_exec_reports_sent := uring_exec_reports_sent
}.

#[export] Instance posix_build : UringBuild PosixImpl := {
  ub_new _ g := mkPosix Life_new g;
  ub_start env u := '(l, ok) ← start env (posix_life u); Some (mkPosix l (posix_gw u), ok);
  ub_stop u := l ← stop (posix_life u); Some (mkPosix l (posix_gw u));
  ub_bound_port u := bound_port_ (posix_life u);
  ub_accepted_sessions u := accepted_ (posix_life u);
  ub_orders_received u := orders_ (posix_gw u);
  ub_exec_reports_sent u := execs_ (posix_gw u)
}.

Inductive UringCall :=
  CallStart (env : NetEnv) | CallStop | CallBoundPort | CallAcceptedSessions | CallOrdersReceived | CallExecReportsSent.

(** A call, and its result as a number; the destructor is [CallStop]. *)
Definition uring_call {I} `{UringBuild I} (c : UringCall) (u : I) : option (I * Z) :=
  match c with
  | CallStart env => '(u, ok) ← ub_start env u; Some (u, Z.b2z ok)
  | CallStop => u ← ub_stop u; Some (u, 0)
  | CallBoundPort => Some (u, ub_bound_port u)
  | CallAcceptedSessions => Some (u, ub_accepted_sessions u)
  | CallOrdersReceived => Some (u, ub_orders_received u)
  | CallExecReportsSent => Some (u, ub_exec_reports_sent u)
  end.

Fixpoint uring_run {I} `{UringBuild I} (cs : list UringCall) (u : I) : option (I * list Z) :=
  match cs with
  | [] => Some (u, [])
  | c :: cs => '(u, x) ← uring_call c u; '(u, xs) ← uring_run cs u; Some (u, x :: xs)
  end.

Definition as_posix (u : UringImpl) : PosixImpl := mkPosix (impl_life u) (impl_gw u).

Lemma uring_call_agrees c u : uring_call c (as_posix u) = '(u, x) ← uring_call c u; Some (as_posix u, x).
Proof.
  destruct c; simpl; unfold uring_start, uring_stop; [|by destruct (stop _)|done..].
  by destruct (start env _) as [[]|].
Qed.

(** Both builds are the same gateway: any sequence of calls gives the same
    results, and leaves the same sockets and shared state. *)
Theorem uring_builds_agree cfg g cs :
  uring_run cs (ub_new (I := PosixImpl) cfg g) =
    '(u, xs) ← uring_run cs (ub_new (I := UringImpl) cfg g); Some (as_posix u, xs).
Proof.
  change (ub_new (I := PosixImpl) cfg g) with (as_posix (ub_new (I := UringImpl) cfg g)).
  generalize (ub_new (I := UringImpl) cfg g). induction cs as [|c cs IH]; intros u; [done|]. cbn [uring_run].
  rewrite uring_call_agrees. destruct (uring_call c u) as [[u1 x]|]; [|done]. cbn [mbind option_bind].
  rewrite IH. by destruct (uring_run cs u1) as [[]|].
Qed.

(** The calls of the wrapper, and what the threads of the gateway do. *)
Inductive uring_step (restart : bool) : UringImpl -> UringImpl -> Prop :=
  | uring_do_start env u u' ok :
      running_ (impl_life u) = false \/ restart = true -> env_socket env ∉ os_open (impl_life u) ->
      uring_start env u = Some (u', ok) -> uring_step restart u u'
  | uring_do_life u l : life_step restart (impl_life u) l -> uring_step restart u (mkImpl (impl_cfg u) l (impl_gw u))
  | uring_do_serve u g : uring_step restart u (mkImpl (impl_cfg u) (impl_life u) g)
  | uring_do_stop u u' : uring_stop u = Some u' -> uring_step restart u u'.

(** The wrapper adds nothing to the gateway: its runs are runs of the gateway,
    and it never changes its settings. *)
Lemma uring_delegates restart cfg g u :
  rtc (uring_step restart) (UringImpl_new cfg g) u -> impl_cfg u = cfg /\ rtc (life_step restart) Life_new (impl_life u).
Proof.
  remember (UringImpl_new cfg g) as u0 eqn:E0. intros Hs.
  assert (impl_cfg u0 = cfg /\ rtc (life_step restart) Life_new (impl_life u0)) as H0 by (subst; by split).
  clear E0. induction Hs as [|u0 u1 u2 Hs _ IH]; [done|]. apply IH. destruct H0 as [Hc Hr].
  destruct Hs as [env u u' ok Hrun Hfd Hst|u l Hl|u g'|u u' Hst]; [| |done|].
  - unfold uring_start in Hst. destruct (start env (impl_life u)) as [[l ok']|] eqn:El; [|done]. simplify_eq/=.
    split; [done|]. eapply rtc_r; [done|by eapply life_start].
  - split; [done|]. by eapply rtc_r.
  - unfold uring_stop in Hst. destruct (stop (impl_life u)) as [l|] eqn:El; [|done]. simplify_eq/=.
    split; [done|]. eapply rtc_r; [done|by apply life_stop].
Qed.

End Wrapper.
