(* ===== verification/Ptp.v ===== *)
(** * Clock synchronisation (src/mvp/src/ptp/ptp_client.{h,cpp}, ptp_oracle.cpp)

    The client's exchange with the mock oracle, the datagrams of both sides,
    the estimate of offset and delay, and the averaging of the samples.  Clock
    readings and the results of system calls are arguments. *)

From Corelib Require Import SpecFloat.
From S2P Require Import Prelude Decimal Float64 Scanf.

Inductive Backend := Auto | LinuxPhc | Ptp4lUds | MockOracle.

#[global] Instance Backend_eq_dec : EqDecision Backend.
Proof. solve_decision. Defined.

Record PtpConfig := mkPtpConfig {
  backend : Backend;
  phc_device : bytes;
  ptp4l_uds : bytes;
  mock_host : bytes;
  mock_port : Z;          (* uint16_t *)
  sync_interval_ms : Z;   (* uint32_t *)
  ewma_alpha : f64
}.
(** The default weight is 0.125. *)
Definition PtpConfig_default : PtpConfig :=
  mkPtpConfig Auto (str "/dev/ptp0") (str "/var/run/ptp4l") (str "127.0.0.1") 9881 250 (S754_finite false 4503599627370496 (-55)).

Record PtpSample := mkSample {
  offset_ns : Z;       (* int64_t: master - local *)
  one_way_ns : Z;      (* int64_t *)
  local_ns : Z;        (* uint64_t *)
  valid : bool
}.

(** PtpSample{} *)
Definition PtpSample_zero : PtpSample := mkSample 0 0 0 false.

Record PtpClient := mkClient {
  cfg_ : PtpConfig;
  active_ : Backend;
  offset_ewma_ns_ : Z; (* int64_t *)
  sample_count_ : Z;   (* uint64_t *)
  running_ : bool
}.

Definition PtpClient_new (cfg : PtpConfig) : PtpClient := mkClient cfg MockOracle 0 0 false.

(** ** Starting and stopping *)

(** [phc] is the availability of the PHC device, [false] in a build without
    it; [uds] is the result of [access] on the socket path. *)
Definition resolve_backend (phc uds : bool) (c : PtpClient) : PtpClient * bool :=
  let set b := mkClient (cfg_ c) b (offset_ewma_ns_ c) (sample_count_ c) (running_ c) in
  if negb (bool_decide (backend (cfg_ c) = Auto)) then (set (backend (cfg_ c)), true)
  else if phc then (set LinuxPhc, true)
  else if negb (bool_decide (ptp4l_uds (cfg_ c) = [])) && uds then (set Ptp4lUds, true)
  else (set MockOracle, true).

Definition set_running (r : bool) (c : PtpClient) : PtpClient :=
  mkClient (cfg_ c) (active_ c) (offset_ewma_ns_ c) (sample_count_ c) r.

Definition ptp_start (phc uds : bool) (c : PtpClient) : PtpClient * bool :=
  if running_ c then (c, true)
  else
    let '(c, ok) := resolve_backend phc uds (set_running true c) in
    if ok then (c, true) else (set_running false c, false).

Definition ptp_stop (c : PtpClient) : PtpClient := set_running false c.

(** ** Exchanges *)

Definition kDatagramMax : nat := 128.

(** "PTP1 T1=%lld T2=%lld T3=%lld" *)
Definition reply_format : list Directive :=
  lits "PTP1 T1=" ++ [DLongLong] ++ lits " T2=" ++ [DLongLong] ++ lits " T3=" ++ [DLongLong].

Definition request (t1 : Z) : bytes := str "PTP1 T1=" ++ to_chars t1 ++ [10].

(** The estimate from the four time stamps. *)
Definition estimate (t1 t2 t3 t4 : Z) : option PtpSample :=
  d ← i64 (t2 - t1); d ← i64 (d + t3); d ← i64 (d - t4);
  rtt ← i64 (t4 - t1); hold ← i64 (t3 - t2); w ← i64 (rtt - hold);
  Some (mkSample (Z.quot d 2) (Z.quot w 2) (u64 t4) true).

(** What a call of [sample_mock] meets: [socket] and [inet_pton] succeed, the
    clock before sending, what [sendto] does with a length, the datagram that
    arrives before the timeout, the clock after. *)
Record MockCall := mkMock {
  socket_ok : bool;
  host_ok : bool;
  mc_t1 : Z;
  mc_sendto : Z -> Z;
  mc_reply : option bytes;
  mc_t4 : Z
}.

(** The inner [None] is [std::nullopt]. *)
Definition sample_mock (m : MockCall) : option (option PtpSample) :=
  if negb (socket_ok m && host_ok m) then Some None
  else
    let buf := request (mc_t1 m) in
    let n := Z.of_nat (length buf) in
    if negb (mc_sendto m n =? n) then Some None
    else
      match mc_reply m with
      | None | Some [] => Some None
      | Some reply =>
          let rbuf := take (kDatagramMax - 1) reply in
          vals ← sscanf reply_format (until_nul rbuf);
          match vals with
          | [rt1; t2; t3] =>
              if negb (rt1 =? mc_t1 m) then Some None
              else s ← estimate (mc_t1 m) t2 t3 (mc_t4 m); Some (Some s)
          | _ => Some None
          end
      end.

(** The PHC and the system clock as (seconds, nanoseconds), when the device
    opens and both clocks can be read, and the monotonic clock. *)
Definition sample_phc (clocks : option ((Z * Z) * (Z * Z))) (mono : Z) : option (option PtpSample) :=
  match clocks with
  | None => Some None
  | Some ((ps, pn), (ss, sn)) =>
      p ← i64 (ps * 1000000000); phc_ns ← i64 (p + pn);
      s ← i64 (ss * 1000000000); sys_ns ← i64 (s + sn);
      off ← i64 (phc_ns - sys_ns);
      Some (Some (mkSample off 0 (u64 mono) true))
  end.

Definition sample_ptp4l : option (option PtpSample) := Some None.

(** What one [sample] meets, by backend. *)
Record Exchange := mkExchange {
  x_clocks : option ((Z * Z) * (Z * Z));
  x_mono : Z;
  x_mock : MockCall
}.

Definition sample (x : Exchange) (c : PtpClient) : option PtpSample :=
  s ← match active_ c with
      | LinuxPhc => sample_phc (x_clocks x) (x_mono x)
      | Ptp4lUds => sample_ptp4l
      | MockOracle => sample_mock (x_mock x)
      | Auto => Some None
      end;
  Some (default PtpSample_zero s).

(** ** The synchronisation thread *)

(** The new average: the first sample, then the average moved towards the
    sample. *)
Definition fresh_offset (alpha : f64) (count prev : Z) (s : PtpSample) : option Z :=
  if count =? 0 then Some (offset_ns s)
  else
    d ← i64 (offset_ns s - prev);
    f64_to_i64 (f64_add (f64_of_Z prev) (f64_mul alpha (f64_of_Z d))).

(** One sample is folded into the average. *)
Definition fold_sample (s : PtpSample) (c : PtpClient) : option PtpClient :=
  if negb (valid s) then Some c
  else
    fresh ← fresh_offset (ewma_alpha (cfg_ c)) (sample_count_ c) (offset_ewma_ns_ c) s;
    Some (mkClient (cfg_ c) (active_ c) fresh (u64 (sample_count_ c + 1)) (running_ c)).

(** One iteration, and iterations until the thread is stopped. *)
Definition sync_once (x : Exchange) (c : PtpClient) : option PtpClient :=
  if running_ c then s ← sample x c; fold_sample s c else Some c.

Fixpoint sync_loop (xs : list Exchange) (c : PtpClient) : option PtpClient :=
  match xs with [] => Some c | x :: xs => c ← sync_once x c; sync_loop xs c end.

Definition to_master_ns (c : PtpClient) (local : Z) : option Z := i64 (local + offset_ewma_ns_ c).

(** ** The oracle *)

Definition kMasterOffsetNs : Z := 1234567.

(** "PTP1 T1=%lld" *)
Definition request_format : list Directive := lits "PTP1 T1=" ++ [DLongLong].

(** One datagram, with the readings of the oracle's clock at its arrival and at
    the reply; the inner [None] is a datagram that is ignored. *)
Definition oracle_step (datagram : bytes) (mono2 mono3 : Z) : option (option bytes) :=
  match datagram with
  | [] => Some None
  | _ =>
      let buf := take 255 datagram in
      vals ← sscanf request_format (until_nul buf);
      match vals with
      | [t1] =>
          t3 ← i64 (mono3 + kMasterOffsetNs);
          t2 ← i64 (mono2 + kMasterOffsetNs);
          Some (Some (str "PTP1 T1=" ++ to_chars t1 ++ str " T2=" ++ to_chars t2 ++
                      str " T3=" ++ to_chars t3 ++ [10]))
      | _ => Some None
      end
  end.

(** ** Properties *)

Lemma scan_t1 fmt rest : sscanf (lits "PTP1 T1=" ++ fmt) (str "PTP1 T1=" ++ rest) = sscanf fmt rest.
Proof. done. Qed.
Lemma scan_t2 fmt rest : sscanf (lits " T2=" ++ fmt) (str " T2=" ++ rest) = sscanf fmt rest.
Proof. done. Qed.
Lemma scan_t3 fmt rest : sscanf (lits " T3=" ++ fmt) (str " T3=" ++ rest) = sscanf fmt rest.
Proof. done. Qed.

Lemma number_no_nul n : i64_range n -> 0 ∉ to_chars n.
Proof.
  intros Hn H0. assert (Forall num_char (to_chars n)) as H by (apply to_chars_chars; lia64).
  rewrite Forall_forall in H. destruct (H 0 H0); lia.
Qed.

Lemma request_scanned t1 :
  i64_range t1 -> sscanf request_format (until_nul (take 255 (request t1))) = Some [t1].
Proof.
  intros Ht. pose proof (length_to_chars t1 Ht). unfold request.
  rewrite take_ge by (rewrite !length_app; simpl; lia).
  rewrite until_nul_id; cycle 1.
  { rewrite !not_elem_of_app. split_and!; [vm_compute; set_solver|by apply number_no_nul|set_solver]. }
  unfold request_format. rewrite scan_t1, sscanf_signed by done. done.
Qed.

Definition reply_text (t1 t2 t3 : Z) : bytes :=
  str "PTP1 T1=" ++ to_chars t1 ++ str " T2=" ++ to_chars t2 ++ str " T3=" ++ to_chars t3 ++ [10].

Lemma reply_scanned t1 t2 t3 :
  i64_range t1 -> i64_range t2 -> i64_range t3 ->
  sscanf reply_format (until_nul (take (kDatagramMax - 1) (reply_text t1 t2 t3))) = Some [t1; t2; t3].
Proof.
  intros H1 H2 H3. pose proof (length_to_chars _ H1). pose proof (length_to_chars _ H2).
  pose proof (length_to_chars _ H3). unfold reply_text.
  rewrite take_ge by (unfold kDatagramMax; rewrite !length_app; simpl; lia).
  rewrite until_nul_id; cycle 1.
  { rewrite !not_elem_of_app.
    split_and!; (by apply number_no_nul) || (vm_compute; set_solver). }
  unfold reply_format. rewrite scan_t1. cbn [app].
  rewrite sscanf_signed by done. rewrite scan_t2. cbn [app].
  rewrite sscanf_signed by done. rewrite scan_t3, sscanf_signed by done. done.
Qed.

Lemma quot2_error x : Z.abs (2 * Z.quot x 2 - x) <= 1.
Proof. pose proof (Z.quot_rem' x 2). pose proof (Z.rem_bound_abs x 2). lia. Qed.

Lemma estimate_spec t1 t2 t3 t4 :
  Forall (fun t => Z.abs t < 2 ^ 61) [t1; t2; t3; t4] ->
  estimate t1 t2 t3 t4 =
    Some (mkSample (Z.quot (t2 - t1 + t3 - t4) 2) (Z.quot (t4 - t1 - (t3 - t2)) 2) (u64 t4) true).
Proof.
  change (2 ^ 61) with 2305843009213693952. rewrite !Forall_cons. intros (? & ? & ? & ? & _).
  unfold estimate. repeat (rewrite i64_Some by lia64; cbn [mbind option_bind]). done.
Qed.

(** The datagram that the oracle answers to a request. *)
Lemma oracle_answers t1 m2 m3 :
  i64_range t1 -> i64_range (m2 + kMasterOffsetNs) -> i64_range (m3 + kMasterOffsetNs) ->
  oracle_step (request t1) m2 m3 =
    Some (Some (reply_text t1 (m2 + kMasterOffsetNs) (m3 + kMasterOffsetNs))).
Proof.
  intros H1 H2 H3. unfold oracle_step. rewrite request_scanned by done. cbn [mbind option_bind].
  rewrite !i64_Some by done. done.
Qed.

(** What the client makes of that datagram. *)
Lemma sample_mock_reply m t2 t3 :
  socket_ok m && host_ok m = true -> (forall n, mc_sendto m n = n) ->
  i64_range (mc_t1 m) -> i64_range t2 -> i64_range t3 ->
  mc_reply m = Some (reply_text (mc_t1 m) t2 t3) ->
  sample_mock m = s ← estimate (mc_t1 m) t2 t3 (mc_t4 m); Some (Some s).
Proof.
  intros Hok Hsend H1 H2 H3 Hr. unfold sample_mock.
  rewrite Hok, Hsend, Z.eqb_refl, Hr, reply_scanned by done. cbn [negb mbind option_bind].
  by rewrite Z.eqb_refl.
Qed.

(** An exchange with the oracle, through the datagrams of both programs.
    The oracle's clock is ahead of the client's by [skew]; the request arrives
    at local time [r] and the reply leaves at [s].  The oracle answers and the
    sample is valid; its offset is that of the master clock up to half the
    difference of the two path delays and half a nanosecond, and its delay is
    their mean.  Local times are below 2^60 ns (36 years). *)
Theorem ptp_exchange t1 r s t4 skew sendto :
  t1 <= r -> r <= s -> s <= t4 -> - 2 ^ 60 < t1 -> t4 < 2 ^ 60 ->
  Z.abs skew < 2 ^ 60 - kMasterOffsetNs -> (forall n, sendto n = n) ->
  exists reply smp,
    oracle_step (request t1) (r + skew) (s + skew) = Some (Some reply) /\
    sample_mock (mkMock true true t1 sendto (Some reply) t4) = Some (Some smp) /\ valid smp = true /\
    2 * Z.abs (offset_ns smp - (skew + kMasterOffsetNs)) <= Z.abs ((r - t1) - (t4 - s)) + 1 /\
    one_way_ns smp = ((r - t1) + (t4 - s)) / 2.
Proof.
  change (2 ^ 60) with 1152921504606846976. unfold kMasterOffsetNs. intros ?????? Hsend.
  do 2 eexists. split; [apply oracle_answers; unfold kMasterOffsetNs; lia64|].
  split; [|split_and!].
  - rewrite (sample_mock_reply _ (r + skew + 1234567) (s + skew + 1234567)); cbn [mc_t1 mc_t4];
      [|done|done|lia64..|done].
    rewrite estimate_spec; [done|]. change (2 ^ 61) with 2305843009213693952.
    repeat constructor; lia.
  - done.
  - cbn [offset_ns]. pose proof (quot2_error (r + skew + 1234567 - t1 + (s + skew + 1234567) - t4)). lia.
  - cbn [one_way_ns]. rewrite Z.quot_div_nonneg by lia. f_equal. lia.
Qed.

Lemma ptp_exchange_witness :
  exists reply smp,
    oracle_step (request 1000) (1300 + -50000) (1350 + -50000) = Some (Some reply) /\
    sample_mock (mkMock true true 1000 id (Some reply) 1450) = Some (Some smp) /\ valid smp = true /\
    2 * Z.abs (offset_ns smp - (-50000 + kMasterOffsetNs)) <= Z.abs ((1300 - 1000) - (1450 - 1350)) + 1 /\
    one_way_ns smp = ((1300 - 1000) + (1450 - 1350)) / 2.
Proof. apply (ptp_exchange 1000 1300 1350 1450 (-50000) id); vm_compute; done || discriminate. Defined.

(** ** The average *)

(** Folding samples: the loop body after [sample]. *)
Fixpoint fold_samples (ss : list PtpSample) (c : PtpClient) : option PtpClient :=
  match ss with [] => Some c | s :: ss => c ← fold_sample s c; fold_samples ss c end.

Definition valids (ss : list PtpSample) : list PtpSample := filter (fun s => valid s = true) ss.

Lemma fold_sample_steady off s c :
  Z.abs off < 2 ^ 53 -> (exists sg m e, ewma_alpha (cfg_ c) = S754_finite sg m e) ->
  (0 < sample_count_ c -> offset_ewma_ns_ c = off) -> 0 <= sample_count_ c ->
  valid s = true -> offset_ns s = off ->
  fold_sample s c = Some (mkClient (cfg_ c) (active_ c) off (u64 (sample_count_ c + 1)) (running_ c)).
Proof.
  intros Ho (sg & m & e & Ha) Hp Hc Hv Hs. unfold fold_sample, fresh_offset. rewrite Hv. cbn [negb].
  destruct (Z.eqb_spec (sample_count_ c) 0); [by rewrite Hs|].
  rewrite Hp, Hs, Z.sub_diag, Ha by lia. change (i64 0) with (Some 0). cbn [mbind option_bind].
  by rewrite f64_add_mul_zero.
Qed.

Lemma fold_samples_steady off ss : forall c sg m e,
  Forall (fun s => valid s = true -> offset_ns s = off) ss ->
  ewma_alpha (cfg_ c) = S754_finite sg m e -> Z.abs off < 2 ^ 53 -> 0 <= sample_count_ c ->
  (0 < sample_count_ c -> offset_ewma_ns_ c = off) ->
  sample_count_ c + Z.of_nat (length (valids ss)) < UINT64_SIZE ->
  fold_samples ss c =
    Some (mkClient (cfg_ c) (active_ c) (if (length (valids ss) =? 0)%nat then offset_ewma_ns_ c else off)
            (sample_count_ c + Z.of_nat (length (valids ss))) (running_ c)).
Proof.
  induction ss as [|s ss IH]; intros c sg m e Hss Ha Ho H0 Hp Hl.
  - simpl. rewrite Z.add_0_r. by destruct c.
  - apply Forall_cons in Hss as [Hs Hss]. cbn [fold_samples]. unfold valids in *.
    rewrite filter_cons in *. destruct (decide _) as [Hv|Hv].
    + cbn [length] in Hl. rewrite (fold_sample_steady off) by eauto.
      cbn [mbind option_bind]. unfold u64. rewrite Z.mod_small by lia.
      erewrite IH; cbn [cfg_ sample_count_ offset_ewma_ns_ active_ running_ length Nat.eqb]; [|done|done|done|lia|done|lia].
      do 2 f_equal; [by case_match|lia].
    + unfold fold_sample. destruct (valid s); [done|]. cbn [negb mbind option_bind]. by eapply IH.
Qed.

(** What the exchanges of a running client deliver. *)
Definition delivers (b : Backend) (x : Exchange) (s : PtpSample) : Prop :=
  forall c, active_ c = b -> sample x c = Some s.

Lemma sync_loop_samples b xs ss : forall c,
  Forall2 (delivers b) xs ss -> active_ c = b -> running_ c = true -> sync_loop xs c = fold_samples ss c.
Proof.
  intros c Hx. revert c. induction Hx as [|x s xs ss Hx _ IH]; intros c Hb Hr; [done|].
  cbn [sync_loop fold_samples]. unfold sync_once. rewrite Hr, (Hx c Hb). cbn [mbind option_bind].
  destruct (fold_sample s c) as [c'|] eqn:E; cbn [mbind option_bind]; [|done]. unfold fold_sample in E.
  destruct (negb (valid s)); [simplify_eq; auto|].
  destruct (fresh_offset _ _ _ _); cbn [mbind option_bind] in E; [|done].
  simplify_eq. by apply IH.
Qed.

Lemma ptp_started phc uds cfg :
  let c := (ptp_start phc uds (PtpClient_new cfg)).1 in
  cfg_ c = cfg /\ sample_count_ c = 0 /\ offset_ewma_ns_ c = 0 /\ running_ c = true.
Proof.
  unfold ptp_start, resolve_backend. cbn [running_ PtpClient_new set_running cfg_].
  destruct (bool_decide (backend cfg = Auto)), (bool_decide (ptp4l_uds cfg = [])), phc, uds; done.
Qed.

(** Samples that agree: whatever the finite smoothing factor, and however
    many exchanges fail in between, once a sample has arrived the average of a
    started client is exactly the common offset, and the count is the number
    of valid samples. *)
Theorem ptp_average_steady off phc uds cfg xs ss sg m e :
  let c := (ptp_start phc uds (PtpClient_new cfg)).1 in
  ewma_alpha cfg = S754_finite sg m e -> Z.abs off < 2 ^ 53 ->
  Forall2 (delivers (active_ c)) xs ss -> Forall (fun s => valid s = true -> offset_ns s = off) ss ->
  Z.of_nat (length (valids ss)) < UINT64_SIZE ->
  sync_loop xs c =
    Some (mkClient cfg (active_ c) (if (length (valids ss) =? 0)%nat then 0 else off)
            (Z.of_nat (length (valids ss))) true).
Proof.
  intros c Ha Ho Hx Hss Hn.
  destruct (ptp_started phc uds cfg : _) as (Ec & En & Eo & Er). fold c in Ec, En, Eo, Er.
  rewrite (sync_loop_samples _ _ _ c Hx) by done.
  clearbody c. subst cfg. rewrite (fold_samples_steady off ss c sg m e) by (done || lia).
  by rewrite En, Eo, Er.
Qed.

Lemma ptp_average_steady_witness :
  sync_loop
    (mkExchange None 0 <$>
      [mkMock true true 1000 id (Some (reply_text 1000 1800 1810 )) 1210;
       mkMock true true 2000 id None 2000;
       mkMock true true 3000 id (Some (reply_text 3000 3800 3810)) 3210])
    (ptp_start false false (PtpClient_new PtpConfig_default)).1 =
  Some (mkClient PtpConfig_default MockOracle 700 2 true).
Proof.
  apply (ptp_average_steady 700 false false
    PtpConfig_default
    (mkExchange None 0 <$>
      [mkMock true true 1000 id (Some (reply_text 1000 1800 1810 )) 1210;
       mkMock true true 2000 id None 2000;
       mkMock true true 3000 id (Some (reply_text 3000 3800 3810)) 3210])
    [mkSample 700 100 1210 true; PtpSample_zero; mkSample 700 100 3210 true]
    false 4503599627370496 (-55)).
  - reflexivity.
  - reflexivity.
  - repeat constructor; intros c E; unfold sample; rewrite E; vm_compute; reflexivity.
  - by repeat constructor.
  - reflexivity.
Defined.
