(* ===== verification/PtpSync.v ===== *)
(** * The synchronisation thread beside its callers (src/mvp/src/ptp/ptp_client.{h,cpp})

    [PtpClient::start] runs a thread that samples and averages; any other
    thread reads the average and the count meanwhile, and [stop] waits for the
    thread.  Here each access to a shared member is a step.  The two counters
    are written with relaxed ordering: each is the list of the values stored,
    in order, and a caller may read any value not older than the last one it
    has read of that member.  [running_] has its newest value.

    Theorems: the average of samples stays between them, so the clock that
    [to_master_ns] gives is as good as the exchanges; a thread told to stop
    exits; alone it is the loop of [Ptp].  A [start] while a [stop] still waits
    for the thread, which would end the program, is not a step. *)

From Corelib Require Import SpecFloat.
From stdpp Require Import gmap.
From S2P Require Import Prelude Decimal Float64 FloatBounds FloatRange Scanf Ptp.

(** ** The average *)

(** A smoothing factor between 0 and 1 keeps the average between the old
    average and the sample. *)
Lemma fresh_offset_between alpha count prev s lo hi :
  f64_between alpha 0 1 -> Z.abs lo <= 2 ^ 53 -> Z.abs hi <= 2 ^ 53 -> hi - lo <= 2 ^ 53 ->
  lo <= offset_ns s <= hi -> (count <> 0 -> lo <= prev <= hi) ->
  exists fresh, fresh_offset alpha count prev s = Some fresh /\ lo <= fresh <= hi.
Proof.
  change (2 ^ 53) with 9007199254740992. intros Ha Hlo Hhi Hw Hs Hp. unfold fresh_offset.
  destruct (Z.eqb_spec count 0) as [|Hc]; [by eexists|]. specialize (Hp Hc). set (d := offset_ns s - prev).
  rewrite i64_Some by (subst d; lia64). rewrite bind_Some_l.
  assert (f64_between (f64_mul alpha (f64_of_Z d)) (Z.min 0 d) (Z.max 0 d)) as Hm.
  { pose proof (f64_of_Z_between d ltac:(subst d; lia)) as Hd. pose proof (pw_pos 0 ltac:(lia)) as H0.
    destruct alpha as [sa|sa| |sa m e]; try done.
    - destruct (f64_of_Z d) as [sd|sd| |sd md ed]; try done; simpl; lia.
    - destruct Ha as (He & Hl & Hh). destruct sa; cbn [signed_mantissa] in *.
      + pose proof (pw_pos e ltac:(lia)). lia.
      + apply (f64_mul_between m e _ d d); try done; subst d; nia. }
  destruct (f64_to_i64_within _ (prev + Z.min 0 d) (prev + Z.max 0 d)
    (f64_add_between _ _ prev prev _ _ (f64_of_Z_between prev ltac:(lia)) Hm ltac:(subst d; lia) ltac:(subst d; lia)))
    as (n & En & Hn); [subst d; lia64..|]. exists n. split; [exact En|subst d; lia].
Qed.

(** ** The system *)

(** Where the synchronisation thread is in its loop. *)
Inductive SyncPc :=
  | AtTest
  | AtSample
  | AtLoadPrev (s : PtpSample)
  | AtLoadCount (s : PtpSample) (prev : Z)
  | AtStore (fresh : Z)
  | AtAdd
  | AtSleep
  | Exited.

Record SyncSys := mkSync {
  sy_cfg : PtpConfig;
  sy_active : Backend;
  sy_offsets : list Z;                (* the values of offset_ewma_ns_ *)
  sy_counts : list Z;                 (* the values of sample_count_ *)
  sy_running : bool;                  (* running_ *)
  sy_pc : SyncPc;                     (* sync_thread_; [Exited] also before a start *)
  sy_joining : bool;                  (* a call of [stop] waits *)
  sy_views : gmap nat (nat * nat)     (* what each caller has seen of the two *)
}.

Definition Sync_new (cfg : PtpConfig) : SyncSys := mkSync cfg MockOracle [0] [0] false Exited false ∅.

Definition newest (xs : list Z) : Z := default 0 (last xs).

(** The client as its own thread sees it. *)
Definition client_of (st : SyncSys) : PtpClient :=
  mkClient (sy_cfg st) (sy_active st) (newest (sy_offsets st)) (newest (sy_counts st)) (sy_running st).

Definition at_pc (pc : SyncPc) (st : SyncSys) : SyncSys :=
  mkSync (sy_cfg st) (sy_active st) (sy_offsets st) (sy_counts st) (sy_running st) pc (sy_joining st) (sy_views st).

(** One step of the thread; [x] is what [sample] meets.  [None] is undefined
    behaviour. *)
Definition sync_move (x : Exchange) (st : SyncSys) : option SyncSys :=
  match sy_pc st with
  | AtTest => Some (at_pc (if sy_running st then AtSample else Exited) st)
  | AtSample =>
      s ← sample x (client_of st);
      Some (at_pc (if valid s then AtLoadPrev s else AtSleep) st)
  | AtLoadPrev s => Some (at_pc (AtLoadCount s (newest (sy_offsets st))) st)
  | AtLoadCount s prev =>
      fresh ← fresh_offset (ewma_alpha (sy_cfg st)) (newest (sy_counts st)) prev s;
      Some (at_pc (AtStore fresh) st)
  | AtStore fresh =>
      Some (mkSync (sy_cfg st) (sy_active st) (sy_offsets st ++ [fresh]) (sy_counts st) (sy_running st) AtAdd
        (sy_joining st) (sy_views st))
  | AtAdd =>
      Some (mkSync (sy_cfg st) (sy_active st) (sy_offsets st) (sy_counts st ++ [u64 (newest (sy_counts st) + 1)])
        (sy_running st) AtSleep (sy_joining st) (sy_views st))
  | AtSleep => Some (at_pc AtTest st)
  | Exited => Some st
  end.

Definition view_of (i : nat) (st : SyncSys) : nat * nat := default (O, O) (sy_views st !! i).
Definition set_view (i : nat) (v : nat * nat) (st : SyncSys) : SyncSys :=
  mkSync (sy_cfg st) (sy_active st) (sy_offsets st) (sy_counts st) (sy_running st) (sy_pc st) (sy_joining st) (<[i := v]> (sy_views st)).

(** Relaxed loads of caller [i]: the [k]-th value, if not older than the last. *)
Definition load_offset (i k : nat) (st : SyncSys) : option (SyncSys * Z) :=
  if (k <? (view_of i st).1)%nat then None
  else v ← sy_offsets st !! k; Some (set_view i (k, (view_of i st).2) st, v).
Definition load_count (i k : nat) (st : SyncSys) : option (SyncSys * Z) :=
  if (k <? (view_of i st).2)%nat then None
  else n ← sy_counts st !! k; Some (set_view i ((view_of i st).1, k) st, n).

(** [start] on a client that does not run; the thread of an earlier start has
    been joined. *)
Definition sync_start (phc uds : bool) (st : SyncSys) : SyncSys :=
  let c := (ptp_start phc uds (client_of st)).1 in
  mkSync (sy_cfg st) (active_ c) (sy_offsets st) (sy_counts st) (running_ c) AtTest false (sy_views st).
Definition sync_stop (st : SyncSys) : SyncSys :=
  mkSync (sy_cfg st) (sy_active st) (sy_offsets st) (sy_counts st) false (sy_pc st) true (sy_views st).
Definition sync_joined (st : SyncSys) : SyncSys :=
  mkSync (sy_cfg st) (sy_active st) (sy_offsets st) (sy_counts st) (sy_running st) (sy_pc st) false (sy_views st).

(** What a caller gets: of [offset_ns], [sample_count], [to_master_ns]. *)
Inductive SyncEvent :=
  | ReadOffset (i : nat) (v : Z)
  | ReadCount (i : nat) (n : Z)
  | ReadMaster (i : nat) (local t : Z).

Section Runs.
(** The exchanges that can happen. *)
Variable good : Exchange -> Prop.

Inductive sync_step : SyncSys -> list SyncEvent -> SyncSys -> Prop :=
  | step_thread x st st' : sy_pc st <> Exited -> good x -> sync_move x st = Some st' -> sync_step st [] st'
  | step_offset i k st st' v : load_offset i k st = Some (st', v) -> sync_step st [ReadOffset i v] st'
  | step_count i k st st' n : load_count i k st = Some (st', n) -> sync_step st [ReadCount i n] st'
  | step_master i k local st st' v t :
      load_offset i k st = Some (st', v) -> i64 (local + v) = Some t -> sync_step st [ReadMaster i local t] st'
  | step_start phc uds st :
      sy_running st = false -> sy_joining st = false -> sy_pc st = Exited -> sync_step st [] (sync_start phc uds st)
  | step_stop st : sy_running st = true -> sync_step st [] (sync_stop st)
  | step_joined st : sy_joining st = true -> sy_pc st = Exited -> sync_step st [] (sync_joined st).

Inductive sync_steps : SyncSys -> list SyncEvent -> SyncSys -> Prop :=
  | sync_refl st : sync_steps st [] st
  | sync_snoc st tr st1 l st2 : sync_steps st tr st1 -> sync_step st1 l st2 -> sync_steps st (tr ++ l) st2.

(** ** The samples bound what callers read *)

Section Bounds.
Context (lo hi : Z) (cfg : PtpConfig).
Hypothesis alpha_ok : f64_between (ewma_alpha cfg) 0 1.
Hypothesis range_ok : Z.abs lo <= 2 ^ 53 /\ Z.abs hi <= 2 ^ 53 /\ hi - lo <= 2 ^ 53.
(** Every valid sample is between the bounds. *)
Hypothesis good_ok : forall x c, good x -> exists s, sample x c = Some s /\ (valid s = true -> lo <= offset_ns s <= hi).

(** What the thread holds. *)
Definition holds (st : SyncSys) : Prop :=
  match sy_pc st with
  | AtLoadPrev s => lo <= offset_ns s <= hi
  | AtLoadCount s prev => lo <= offset_ns s <= hi /\ prev = newest (sy_offsets st)
  | AtStore fresh => lo <= fresh <= hi
  | _ => True
  end.

(** The number of averages stored that are not counted yet. *)
Definition uncounted (st : SyncSys) : nat := match sy_pc st with AtAdd => 1 | _ => 0 end.

Record sync_inv (st : SyncSys) : Prop := {
  si_cfg : sy_cfg st = cfg;
  si_offsets : exists os, sy_offsets st = 0 :: os /\ Forall (fun v => lo <= v <= hi) os;
  si_counts : exists ns, sy_counts st = 0 :: ns /\ (length (sy_offsets st) = length (sy_counts st) + uncounted st)%nat;
  si_newest : newest (sy_counts st) = u64 (Z.of_nat (length (sy_counts st)) - 1);
  si_holds : holds st
}.

Lemma newest_snoc xs x : newest (xs ++ [x]) = x.
Proof. unfold newest. by rewrite last_snoc. Qed.

Lemma sync_inv_new : sync_inv (Sync_new cfg).
Proof. constructor; try done; by exists []. Qed.

(** After the first average the newest is between the bounds. *)
Lemma newest_bounds st : sync_inv st -> newest (sy_counts st) <> 0 -> lo <= newest (sy_offsets st) <= hi.
Proof.
  intros [_ (os & Eo & Hos) (ns & En & Hl) Hn _] Hne. rewrite Eo in *.
  destruct os as [|v os _] using rev_ind.
  - exfalso. apply Hne. rewrite Hn. simpl in Hl. replace (length (sy_counts st)) with 1%nat; [done|].
    rewrite En in *. simpl in *. lia.
  - apply Forall_app in Hos as [_ Hv]. rewrite app_comm_cons, newest_snoc. by inversion Hv.
Qed.

(** The thread gets on without storing. *)
Lemma sync_inv_pc pc st : sync_inv st -> uncounted (at_pc pc st) = uncounted st -> holds (at_pc pc st) -> sync_inv (at_pc pc st).
Proof. intros [Hc Ho (ns & En & Hl) Hn _] Hu Hh. constructor; try done. exists ns. by rewrite Hu. Qed.

(** The thread is never undefined. *)
Lemma sync_move_inv x st : sync_inv st -> good x -> exists st', sync_move x st = Some st' /\ sync_inv st'.
Proof.
  intros Hi Hx. pose proof Hi as [Hc (os & Eo & Hos) (ns & En & Hl) Hn Hh].
  assert (forall pc, match sy_pc st with AtAdd => 1 | _ => 0 end%nat = match pc with AtAdd => 1 | _ => 0 end%nat ->
    holds (at_pc pc st) -> sync_inv (at_pc pc st)) as Hpc' by (intros pc Hu Hh'; by apply sync_inv_pc).
  unfold sync_move. unfold holds, uncounted in Hh, Hl. destruct (sy_pc st) as [| |s|s prev|fresh| | |] eqn:Hpc.
  - eexists. split; [done|]. by destruct (sy_running st); apply Hpc'.
  - destruct (good_ok x (client_of st) Hx) as (s & -> & Hs). eexists. split; [done|].
    destruct (valid s); apply Hpc'; [done|by apply Hs|done|done].
  - eexists. split; [done|]. by apply Hpc'.
  - destruct Hh as [Hs ->]. pose proof (newest_bounds st Hi) as Hb. rewrite Hc. destruct range_ok as (H1 & H2 & H3).
    destruct (fresh_offset_between _ _ _ s lo hi alpha_ok H1 H2 H3 Hs Hb) as (fresh & -> & Hf).
    eexists. split; [done|]. by apply Hpc'.
  - eexists. split; [done|]. constructor; try done; simpl.
    + exists (os ++ [fresh]). rewrite Eo, app_comm_cons. split; [done|]. apply Forall_app. by rewrite Forall_singleton.
    + exists ns. unfold uncounted. simpl. rewrite length_app. simpl. split; [done|lia].
  - eexists. split; [done|]. constructor; try done; simpl; [by eauto| |].
    + exists (ns ++ [u64 (newest (sy_counts st) + 1)]). split; [by rewrite En|].
      unfold uncounted. simpl. rewrite Hl, length_app. simpl. lia.
    + rewrite newest_snoc, Hn, u64_succ, length_app. f_equal. simpl. lia.
  - eexists. split; [done|]. by apply Hpc'.
  - by exists st.
Qed.

(** A load of the average: the initial zero, or a value between the bounds; it
    never goes back to an older one. *)
Lemma load_offset_spec i k st st' v :
  sync_inv st -> load_offset i k st = Some (st', v) ->
  sync_inv st' /\ (k = O /\ v = 0 \/ lo <= v <= hi) /\
  (view_of i st' = (k, (view_of i st).2) /\ (view_of i st).1 <= k)%nat /\ forall j, j <> i -> view_of j st' = view_of j st.
Proof.
  intros Hi Hl. unfold load_offset in Hl. destruct (Nat.ltb_spec k (view_of i st).1); [done|].
  destruct (sy_offsets st !! k) as [w|] eqn:Hk; [|done]. simplify_eq/=. split; [by destruct Hi|]. split.
  - destruct Hi as [_ (os & Eo & Hos) _ _ _]. rewrite Eo in Hk. destruct k as [|k]; [by simplify_eq/=; left|right].
    by apply (Forall_lookup_1 _ _ _ _ Hos Hk).
  - unfold view_of, set_view. simpl. rewrite lookup_insert_eq. split; [done|]. intros j Hj. by rewrite lookup_insert_ne.
Qed.

(** The value of the average that caller [i] gets in an event. *)
Definition offset_read (i : nat) (e : SyncEvent) : option Z :=
  match e with
  | ReadOffset j v => if decide (j = i) then Some v else None
  | ReadMaster j local t => if decide (j = i) then Some (t - local) else None
  | ReadCount _ _ => None
  end.

(** Caller [i] has got an average that is not the initial zero. *)
Definition informed (i : nat) (tr : list SyncEvent) : Prop := exists e v, e ∈ tr /\ offset_read i e = Some v /\ v <> 0.

Lemma informed_snoc i tr l : informed i (tr ++ l) -> informed i tr \/ informed i l.
Proof. intros (e & v & [He|He]%elem_of_app & Hv); [left|right]; by exists e, v. Qed.

Lemma informed_one i e : informed i [e] -> exists v, offset_read i e = Some v /\ v <> 0.
Proof. intros (e' & v & He & Hv). apply list_elem_of_singleton in He as ->. by exists v. Qed.

(** A load of the average, as an event. *)
Lemma informed_load i k st st' v e tr :
  sync_inv st -> (forall j, informed j tr -> (0 < (view_of j st).1)%nat) -> load_offset i k st = Some (st', v) ->
  (forall j, offset_read j e = if decide (i = j) then Some v else None) ->
  sync_inv st' /\ forall j, informed j (tr ++ [e]) -> (0 < (view_of j st').1)%nat.
Proof.
  intros Hi Hv Hl He. destruct (load_offset_spec _ _ _ _ _ Hi Hl) as (Hi' & Hor & [Ev Hk] & Hj). split; [done|].
  intros j [Ht|(w & Hr & Hw)%informed_one]%informed_snoc.
  - specialize (Hv j Ht). destruct (decide (j = i)) as [->|Hne]; [rewrite Ev; simpl; lia|by rewrite Hj].
  - rewrite He in Hr. case_decide; [|done]. simplify_eq. rewrite Ev. simpl. destruct Hor as [[-> ->]|?]; [done|].
    destruct k; [|lia]. exfalso. unfold load_offset in Hl. case_match; [done|].
    destruct Hi as [_ (os & Eo & _) _ _ _]. rewrite Eo in Hl. by simplify_eq/=.
Qed.

Lemma sync_step_inv tr st l st' :
  sync_inv st -> (forall j, informed j tr -> (0 < (view_of j st).1)%nat) -> sync_step st l st' ->
  sync_inv st' /\ forall j, informed j (tr ++ l) -> (0 < (view_of j st').1)%nat.
Proof.
  intros Hi Hv Hs. destruct Hs as
    [x st st' _ Hx Hm|i k st st' v Hl|i k st st' n Hl|i k local st st' v t Hl Ht|phc uds st Hr Hj Hpc|st Hr|st Hj Hpc].
  - destruct (sync_move_inv x st Hi Hx) as (st1 & E1 & Hi'). simplify_eq. split; [done|]. rewrite app_nil_r.
    intros j Hj. specialize (Hv j Hj). unfold sync_move in Hm. destruct (sy_pc st); run_bind Hm; by simplify_eq/=.
  - apply (informed_load i k st st' v); done.
  - unfold load_count in Hl. case_match; [done|]. destruct (sy_counts st !! k); [|done]. simplify_eq/=.
    split; [by destruct Hi|]. intros j [Ht|(w & Hr & _)%informed_one]%informed_snoc; [|done]. specialize (Hv j Ht).
    unfold view_of, set_view in *. simpl. destruct (decide (j = i)) as [->|]; by rewrite ?lookup_insert_eq, ?lookup_insert_ne.
  - apply (informed_load i k st st' v); try done. intros j. apply i64_inv in Ht as [-> _]. simpl.
    case_decide; [f_equal; lia|done].
  - rewrite app_nil_r. split; [|done]. destruct Hi as [Hc Ho (ns & En & Hl) Hn _]. constructor; try done. exists ns.
    split; [done|]. unfold uncounted in *. rewrite Hpc in Hl. done.
  - rewrite app_nil_r. split; [|done]. by destruct Hi.
  - rewrite app_nil_r. split; [|done]. by destruct Hi.
Qed.

Lemma sync_steps_inv tr st :
  sync_steps (Sync_new cfg) tr st -> sync_inv st /\ forall j, informed j tr -> (0 < (view_of j st).1)%nat.
Proof.
  remember (Sync_new cfg) as st0 eqn:E0. intros Hs. induction Hs as [|st0 tr st1 l st2 _ IH Hs]; subst.
  - split; [apply sync_inv_new|]. intros j (e & v & He & _). by apply not_elem_of_nil in He.
  - destruct (IH eq_refl) as [Hi Hv]. by eapply sync_step_inv.
Qed.

(** What a caller reads in any state reached. *)
Lemma reads_bounded tr st i k st' v :
  sync_steps (Sync_new cfg) tr st -> load_offset i k st = Some (st', v) -> lo <= v <= hi \/ v = 0 /\ ~ informed i tr.
Proof.
  intros [Hi Hv]%sync_steps_inv Hl. destruct (load_offset_spec _ _ _ _ _ Hi Hl) as (_ & [[-> ->]|?] & [_ Hk] & _); [right|by left].
  split; [done|]. intros Hinf. specialize (Hv i Hinf). lia.
Qed.

End Bounds.
End Runs.

(** ** The thread by itself *)

Fixpoint thread_run (xs : list Exchange) (st : SyncSys) : option SyncSys :=
  match xs with [] => Some st | x :: xs => st ← sync_move x st; thread_run xs st end.

Lemma thread_run_steps good xs : forall st0 tr st st',
  Forall good xs -> sync_steps good st0 tr st -> thread_run xs st = Some st' -> sync_steps good st0 tr st'.
Proof.
  induction xs as [|x xs IH]; intros st0 tr st st' Hx Hs Hr; [by simplify_eq/=|].
  apply Forall_cons in Hx as [Hx Hxs]. simpl in Hr. destruct (sync_move x st) as [st1|] eqn:Hm; [|done].
  apply (IH st0 tr st1 st' Hxs); [|exact Hr].
  assert (sy_pc st = Exited \/ sy_pc st <> Exited) as [He|He] by (destruct (sy_pc st); auto).
  - unfold sync_move in Hm. rewrite He in Hm. by simplify_eq.
  - rewrite <- (app_nil_r tr). eapply sync_snoc; [exact Hs|]. by eapply step_thread.
Qed.

(** With no caller in between, the steps from one test of [running_] to the
    next are one iteration of [Ptp.sync_loop]. *)
Theorem sync_pass x st :
  sy_pc st = AtTest -> sy_running st = true ->
  exists n, (fun st' => (client_of st', sy_pc st')) <$> thread_run (replicate n x) st =
            (fun c => (c, AtTest)) <$> sync_once x (client_of st).
Proof.
  intros Hpc Hr. unfold sync_once. change (running_ (client_of st)) with (sy_running st). rewrite Hr.
  assert (forall xs, thread_run (x :: x :: xs) st =
    s ← sample x (client_of st); thread_run xs (at_pc (if valid s then AtLoadPrev s else AtSleep) (at_pc AtSample st))) as E1.
  { intros xs. cbn [thread_run]. assert (sync_move x st = Some (at_pc AtSample st)) as -> by (unfold sync_move; by rewrite Hpc, Hr).
    rewrite bind_Some_l.
    change (sync_move x (at_pc AtSample st)) with
      (s ← sample x (client_of st); Some (at_pc (if valid s then AtLoadPrev s else AtSleep) (at_pc AtSample st))).
    by destruct (sample x (client_of st)). }
  destruct (sample x (client_of st)) as [s|] eqn:Es; [|exists 2%nat; simpl replicate; by rewrite E1].
  unfold fold_sample. destruct (valid s) eqn:Hv; [exists 7%nat|exists 3%nat]; cbn [replicate]; rewrite E1;
    cbn [mbind option_bind negb]; rewrite ?Hv; cbn [negb].
  - cbn [thread_run sync_move sy_pc at_pc mbind option_bind]. simpl.
    destruct (fresh_offset _ _ _ _) as [fresh|]; [|done]. simpl. unfold client_of. simpl. by rewrite !newest_snoc, Hr.
  - cbn [thread_run sync_move sy_pc at_pc mbind option_bind]. simpl. unfold client_of. simpl. by rewrite Hr.
Qed.

(** How many steps a thread told to stop has left. *)
Definition steps_left (pc : SyncPc) : nat :=
  match pc with
  | AtSample => 7
  | AtLoadPrev _ => 6
  | AtLoadCount _ _ => 5
  | AtStore _ => 4
  | AtAdd => 3
  | AtSleep => 2
  | AtTest => 1
  | Exited => 0
  end.

Lemma sync_move_left x st st' :
  sy_running st = false -> sync_move x st = Some st' ->
  sy_running st' = false /\ (steps_left (sy_pc st') <= steps_left (sy_pc st) - 1)%nat.
Proof.
  intros Hr Hm. unfold sync_move in Hm.
  destruct (sy_pc st) eqn:Hpc; run_bind Hm; rewrite ?Hr in *; simplify_eq/=; rewrite ?Hpc; split; try done; simpl; try lia.
  case_match; simpl; lia.
Qed.

(** ** With the oracle *)

(** What one exchange can be: it fails, or the oracle, whose clock is ahead by
    [skew], answers the request that arrived at local time [r], at [s]; the
    two path delays differ by at most [A].  There is no PHC. *)
Inductive oracle_exchange (skew A : Z) : Exchange -> Prop :=
  | exchange_lost mono m : sample_mock m = Some None -> oracle_exchange skew A (mkExchange None mono m)
  | exchange_answered mono t1 r s t4 sendto reply :
      t1 <= r -> r <= s -> s <= t4 -> - 2 ^ 60 < t1 -> t4 < 2 ^ 60 -> (forall n, sendto n = n) ->
      Z.abs ((r - t1) - (t4 - s)) <= A ->
      oracle_step (request t1) (r + skew) (s + skew) = Some (Some reply) ->
      oracle_exchange skew A (mkExchange None mono (mkMock true true t1 sendto (Some reply) t4)).

(** The bounds on a sample. *)
Definition sample_lo (skew A : Z) : Z := skew + kMasterOffsetNs - (A + 1) / 2.
Definition sample_hi (skew A : Z) : Z := skew + kMasterOffsetNs + (A + 1) / 2.

Lemma oracle_exchange_sample skew A x c :
  Z.abs skew + kMasterOffsetNs + A < 2 ^ 52 -> oracle_exchange skew A x ->
  exists s, sample x c = Some s /\ (valid s = true -> sample_lo skew A <= offset_ns s <= sample_hi skew A).
Proof.
  intros Hb Hx. assert (exists o, sample_mock (x_mock x) = Some o /\
    forall s, o = Some s -> sample_lo skew A <= offset_ns s <= sample_hi skew A) as (o & Eo & Ho).
  { destruct Hx as [mono m Hm|mono t1 r s t4 sendto reply H1 H2 H3 H4 H5 Hs Ha Hr]; [by exists None|].
    destruct (ptp_exchange t1 r s t4 skew sendto) as (rep & smp & Er & Em & _ & Hoff & _); try done.
    { change (2 ^ 52) with 4503599627370496 in Hb. change (2 ^ 60) with 1152921504606846976. lia. }
    rewrite Hr in Er. injection Er as <-. exists (Some smp). split; [exact Em|]. intros ? [= <-].
    unfold sample_lo, sample_hi. pose proof (Z.div_mod (A + 1) 2). pose proof (Z.mod_pos_bound (A + 1) 2). lia. }
  assert (x_clocks x = None) as Hc by (by destruct Hx). unfold sample. rewrite Hc, Eo.
  destruct (active_ c); try by eexists. exists (default PtpSample_zero o). split; [done|].
  destruct o as [s|]; [|done]. intros _. by apply Ho.
Qed.

(** The oracle's exchanges satisfy the hypotheses of the bounds. *)
Lemma oracle_range skew A :
  0 <= A -> Z.abs skew + kMasterOffsetNs + A < 2 ^ 52 ->
  Z.abs (sample_lo skew A) <= 2 ^ 53 /\ Z.abs (sample_hi skew A) <= 2 ^ 53 /\ sample_hi skew A - sample_lo skew A <= 2 ^ 53.
Proof.
  change (2 ^ 52) with 4503599627370496. change (2 ^ 53) with 9007199254740992. unfold sample_lo, sample_hi, kMasterOffsetNs.
  pose proof (Z.div_mod (A + 1) 2). pose proof (Z.mod_pos_bound (A + 1) 2). lia.
Qed.

(** A thread told to stop exits: in any state reached, with exchanges of the
    oracle, it is through after at most seven of its steps, wherever it was. *)
Theorem sync_stops cfg skew A tr st xs :
  f64_between (ewma_alpha cfg) 0 1 -> 0 <= A -> Z.abs skew + kMasterOffsetNs + A < 2 ^ 52 ->
  sync_steps (oracle_exchange skew A) (Sync_new cfg) tr st -> sy_running st = false ->
  Forall (oracle_exchange skew A) xs -> (7 <= length xs)%nat ->
  exists st', thread_run xs st = Some st' /\ sy_pc st' = Exited.
Proof.
  intros Ha HA Hb Hs Hr Hx Hlen.
  assert (steps_left (sy_pc st) <= length xs)%nat as Hl by (destruct (sy_pc st); simpl; lia). clear Hlen.
  revert st tr Hs Hr Hl. induction Hx as [|x xs Hx Hxs IH]; intros st tr Hs Hr Hl.
  - exists st. split; [done|]. by destruct (sy_pc st); simpl in Hl; try lia.
  - pose proof (sync_steps_inv _ _ _ _ Ha (oracle_range skew A HA Hb) (fun x c => oracle_exchange_sample skew A x c Hb) _ _ Hs) as [Hi _].
    destruct (sync_move_inv _ _ _ _ Ha (oracle_range skew A HA Hb) (fun x c => oracle_exchange_sample skew A x c Hb) x st Hi Hx)
      as (st1 & Hm & _).
    destruct (sync_move_left x st st1 Hr Hm) as [Hr1 Hl1]. cbn [length] in Hl.
    destruct (IH st1 tr) as (st' & Hrun & He); [|done|lia|].
    + apply (thread_run_steps _ [x] _ tr st); [by constructor|done|]. simpl. by rewrite Hm.
    + exists st'. split; [|done]. simpl. by rewrite Hm.
Qed.

(** (C31) The clock that callers get.  Exchanges with the oracle whose path
    delays differ by at most [A], lost exchanges between them, a smoothing
    factor between 0 and 1, and any interleaving of the synchronisation thread
    with starts, stops and relaxed reads of any number of callers: the thread
    never meets undefined behaviour, and [to_master_ns] of a caller is off the
    oracle's clock by at most half of [A] and half a nanosecond -- rounding in
    the average adds nothing -- or it is the local time, which only a caller
    gets that has not read an average other than zero before. *)
Theorem master_time_error cfg skew A tr st :
  f64_between (ewma_alpha cfg) 0 1 -> 0 <= A -> Z.abs skew + kMasterOffsetNs + A < 2 ^ 52 ->
  sync_steps (oracle_exchange skew A) (Sync_new cfg) tr st ->
  (forall x, oracle_exchange skew A x -> is_Some (sync_move x st)) /\
  forall st' i local t, sync_step (oracle_exchange skew A) st [ReadMaster i local t] st' ->
    2 * Z.abs (t - (local + skew + kMasterOffsetNs)) <= A + 1 \/ t = local /\ ~ informed i tr.
Proof.
  intros Ha HA Hb Hs. pose proof (oracle_range skew A HA Hb) as Hrange.
  assert (forall x c, oracle_exchange skew A x -> _) as Hgood by (intros x c; apply (oracle_exchange_sample skew A x c Hb)).
  split.
  - intros x Hx. destruct (sync_steps_inv _ _ _ _ Ha Hrange Hgood _ _ Hs) as [Hi _].
    destruct (sync_move_inv _ _ _ _ Ha Hrange Hgood x st Hi Hx) as (st1 & E1 & _). by eexists.
  - intros st' i local t Hst. inversion Hst as [| | |? k ? ? ? v ? Hl Ht| | |]; subst. apply i64_inv in Ht as [-> _].
    destruct (reads_bounded _ _ _ _ Ha Hrange Hgood _ _ _ _ _ _ Hs Hl) as [Hv|[-> Hn]]; [left|right].
    + unfold sample_lo, sample_hi in Hv. pose proof (Z.div_mod (A + 1) 2). pose proof (Z.mod_pos_bound (A + 1) 2). lia.
    + split; [lia|done].
Qed.

(** A run: two exchanges, 300 ns out and 100 ns back each. *)
Definition demo_exchange (t1 : Z) : Exchange :=
  mkExchange None 0 (mkMock true true t1 id (Some (reply_text t1 (t1 + 300 + 1234567) (t1 + 350 + 1234567))) (t1 + 450)).
Definition demo_state (n : nat) : option SyncSys :=
  thread_run (replicate 7 (demo_exchange 1000) ++ replicate n (demo_exchange 2000))
    (sync_start false false (Sync_new PtpConfig_default)).

Lemma demo_steps n st :
  demo_state n = Some st -> sync_steps (oracle_exchange 0 200) (Sync_new PtpConfig_default) [] st.
Proof.
  assert (forall t1, 0 <= t1 <= 10000 -> oracle_exchange 0 200 (demo_exchange t1)) as Hx.
  { intros t1 Ht. unfold demo_exchange. change (2 ^ 60) with 1152921504606846976.
    apply (exchange_answered 0 200 0 t1 (t1 + 300) (t1 + 350) (t1 + 450) id); try lia; try done.
    rewrite !Z.add_0_r, oracle_answers; [done|unfold kMasterOffsetNs; lia64..]. }
  apply thread_run_steps.
  - apply Forall_app. split; apply Forall_replicate, Hx; lia.
  - apply (sync_snoc _ _ [] (Sync_new PtpConfig_default) []); [constructor|]. by apply step_start.
Qed.

(** Relaxed loads: a caller can see the count of one sample and then still the
    offset zero. *)
Theorem counted_before_seen :
  exists st tr, sync_steps (oracle_exchange 0 200) (Sync_new PtpConfig_default) tr st /\
    tr = [ReadCount 0 1; ReadOffset 0 0].
Proof.
  destruct (demo_state 0) as [st|] eqn:E; [|vm_compute in E; discriminate E]. pose proof (demo_steps 0 st E) as Hs.
  vm_compute in E. simplify_eq. do 2 eexists. split; [|done].
  eapply (sync_snoc _ _ [ReadCount 0 1] _ [ReadOffset 0 0]).
  - eapply (sync_snoc _ _ [] _ [ReadCount 0 1] _ Hs). by apply (step_count _ 0 1).
  - by apply (step_offset _ 0 0).
Qed.

Lemma master_time_error_witness :
  exists st, demo_state 7 = Some st /\ sy_offsets st = [0; 1234667; 1234667] /\
    forall st' i local t, sync_step (oracle_exchange 0 200) st [ReadMaster i local t] st' ->
      2 * Z.abs (t - (local + 0 + kMasterOffsetNs)) <= 200 + 1 \/ t = local /\ ~ informed i [].
Proof.
  destruct (demo_state 7) as [st|] eqn:E; [|vm_compute in E; discriminate E]. exists st. split; [reflexivity|]. split.
  - vm_compute in E. injection E as <-. reflexivity.
  - apply (master_time_error PtpConfig_default 0 200 [] st).
    + vm_compute. repeat split; discriminate.
    + discriminate.
    + reflexivity.
    + exact (demo_steps 7 st E).
Defined.
