(* ===== verification/Driver.v ===== *)
(** * Kernel drivers (src/mvp/src/core/driver.h, core/software_driver.{h,cpp},
      dpdk/dpdk_driver.{h,cpp}, fpga/fpga_driver.{h,cpp}, iouring/uring_gateway.{h,cpp})

    The life cycle of the drivers, their counters and the factory.  Results of
    system calls, of the DPDK library and of the compile-time switches are
    arguments.  [IKernelDriver] is a class of operations; [KernelDriver] adds
    the laws that a run loop relies on, and the three drivers are instances. *)

From S2P Require Import Prelude.

(** struct DriverStats: the counters that some driver changes. *)
Record DriverStats := mkDStats {
  rx_messages : Z;     (* uint64_t *)
  tx_messages : Z;
  rx_bytes : Z
}.

Definition DriverStats_zero : DriverStats := mkDStats 0 0 0.

(** class IKernelDriver.  [StartEnv] and [PollEnv] are what the environment
    decides during a call. *)
Class IKernelDriver (D : Type) := {
  StartEnv : Type;
  PollEnv : Type;
  drv_running : D -> bool;
  drv_stats : D -> DriverStats;
  drv_start : StartEnv -> D -> D * bool;
  drv_stop : D -> D;
  drv_poll : PollEnv -> nat -> D -> D * nat
}.

(** ** The gateway behind the software driver *)

(** Both builds of [UringGateway] delegate to a [fix::Gateway]; what the driver
    sees of it is whether it runs and its counters. *)
Record UringGateway := mkUring {
  ug_running : bool;
  orders_received : Z;        (* uint64_t *)
  exec_reports_sent : Z       (* uint64_t *)
}.

Definition UringGateway_new : UringGateway := mkUring false 0 0.

(** [start], with the result of binding and listening. *)
Definition ug_start (binds : bool) (g : UringGateway) : UringGateway * bool :=
  if binds then (mkUring true (orders_received g) (exec_reports_sent g), true) else (g, false).

(** The sessions of a running gateway count orders and reports. *)
Definition ug_serve (traffic : nat * nat) (g : UringGateway) : UringGateway :=
  if ug_running g
  then mkUring true (u64 (orders_received g + Z.of_nat traffic.1))
                    (u64 (exec_reports_sent g + Z.of_nat traffic.2))
  else g.

(** ** SoftwareDriver *)

Record SoftwareDriver := mkSoftware {
  sw_gateway : option UringGateway;   (* gateway_ *)
  sw_feed : bool;                     (* feed_ is set *)
  sw_stats : DriverStats;             (* stats_ *)
  sw_running : bool                   (* running_ *)
}.

Definition SoftwareDriver_new : SoftwareDriver := mkSoftware None false DriverStats_zero false.

(** [env]: the feed opens, the gateway binds. *)
Definition sw_start (env : bool * bool) (d : SoftwareDriver) : SoftwareDriver * bool :=
  if sw_running d then (d, true)
  else
    let '(g, ok) := ug_start env.2 UringGateway_new in
    (mkSoftware (Some g) env.1 (sw_stats d) ok, ok).

Definition sw_stop (d : SoftwareDriver) : SoftwareDriver :=
  if negb (sw_running d) then d else mkSoftware None false (sw_stats d) false.

Definition sw_poll (budget : nat) (d : SoftwareDriver) : SoftwareDriver * nat :=
  match sw_gateway d with
  | None => (d, O)
  | Some g =>
      let rx := orders_received g in
      let tx := exec_reports_sent g in
      let delta := if rx_messages (sw_stats d) <? rx then rx - rx_messages (sw_stats d) else 0 in
      (mkSoftware (sw_gateway d) (sw_feed d) (mkDStats rx tx (rx_bytes (sw_stats d))) (sw_running d),
       Z.to_nat delta)
  end.

(** The gateway's threads run between the calls of the driver. *)
Definition sw_serve (traffic : nat * nat) (d : SoftwareDriver) : SoftwareDriver :=
  mkSoftware (ug_serve traffic <$> sw_gateway d) (sw_feed d) (sw_stats d) (sw_running d).

#[export] Instance software_ops : IKernelDriver SoftwareDriver := {
  StartEnv := bool * bool;
  PollEnv := nat * nat;
  drv_running := sw_running;
  drv_stats := sw_stats;
  drv_start := sw_start;
  drv_stop := sw_stop;
  drv_poll traffic budget d := sw_poll budget (sw_serve traffic d)
}.

(** ** DpdkDriver *)

(** The [Native] block: [rte_eal_init] and [rte_eth_dev_start] succeeded. *)
Record DpdkDriver := mkDpdk {
  dp_native : option (bool * bool);   (* eal_inited, port_started *)
  dp_stats : DriverStats;
  dp_running : bool
}.

Definition DpdkDriver_new : DpdkDriver := mkDpdk None DriverStats_zero false.

(** What the library answers during [start]. *)
Record DpdkEnv := mkDpdkEnv {
  native_dpdk : bool;        (* Linux with HFT_DPDK *)
  eal_init : Z;              (* rte_eal_init *)
  pool_created : bool;       (* rte_pktmbuf_pool_create *)
  dev_configure : Z;         (* rte_eth_dev_configure *)
  dev_start : Z              (* rte_eth_dev_start *)
}.

Definition dp_start (env : DpdkEnv) (d : DpdkDriver) : DpdkDriver * bool :=
  let fail native := (mkDpdk native (dp_stats d) false, false) in
  if dp_running d then (d, true)
  else if negb (native_dpdk env) then fail (dp_native d)
  else if eal_init env <? 0 then fail (Some (false, false))
  else if negb (pool_created env) then fail (Some (true, false))
  else if dev_configure env <? 0 then fail (Some (true, false))
  else if dev_start env <? 0 then fail (Some (true, false))
  else (mkDpdk (Some (true, true)) (dp_stats d) true, true).

Definition dp_stop (d : DpdkDriver) : DpdkDriver :=
  if negb (dp_running d) then d else mkDpdk None (dp_stats d) false.

Definition kBurst : nat := 32.

(** The loop of [poll]: [burst k nb] are the lengths of the packets that call
    [k] of [rte_eth_rx_burst] delivers when asked for [nb]. *)
Fixpoint dp_poll_loop (burst : nat -> nat -> list Z) (fuel k budget dne : nat) (s : DriverStats)
    : DriverStats * nat :=
  match fuel with
  | O => (s, dne)
  | S fuel =>
      if (dne <? budget)%nat then
        match burst k (kBurst `min` (budget - dne))%nat with
        | [] => (s, dne)
        | rx =>
            let s := foldl (fun s len => mkDStats (u64 (rx_messages s + 1)) (tx_messages s)
                                                  (u64 (rx_bytes s + len))) s rx in
            dp_poll_loop burst fuel (S k) budget (dne + length rx) s
        end
      else (s, dne)
  end.

(** Each continued iteration has received a packet, so one more iteration than
    the budget is enough. *)
Definition dp_poll (burst : nat -> nat -> list Z) (budget : nat) (d : DpdkDriver) : DpdkDriver * nat :=
  if negb (dp_running d) then (d, O)
  else
    let '(s, dne) := dp_poll_loop burst (S budget) 0 budget 0 (dp_stats d) in
    (mkDpdk (dp_native d) s (dp_running d), dne).

#[export] Instance dpdk_ops : IKernelDriver DpdkDriver := {
  StartEnv := DpdkEnv;
  PollEnv := nat -> nat -> list Z;
  drv_running := dp_running;
  drv_stats := dp_stats;
  drv_start := dp_start;
  drv_stop := dp_stop;
  drv_poll := dp_poll
}.

(** ** FpgaDriver *)

Record FpgaDriver := mkFpga {
  fp_fd : bool;            (* fd_ >= 0 *)
  fp_bar : option Z;       (* bar_mmio_ with bar_len_ *)
  fp_stats : DriverStats;
  fp_running : bool
}.

Definition FpgaDriver_new : FpgaDriver := mkFpga false None DriverStats_zero false.

Record FpgaEnv := mkFpgaEnv {
  native_fpga : bool;      (* HFT_FPGA *)
  dev_opens : bool;        (* open *)
  dev_size : option Z;     (* fstat *)
  bar_maps : bool          (* mmap *)
}.

Definition fp_start (env : FpgaEnv) (d : FpgaDriver) : FpgaDriver * bool :=
  if fp_running d then (d, true)
  else if negb (native_fpga env) then (mkFpga (fp_fd d) (fp_bar d) (fp_stats d) false, false)
  else if negb (dev_opens env) then (mkFpga false (fp_bar d) (fp_stats d) false, false)
  else
    match dev_size env with
    | None | Some 0 => (mkFpga false (fp_bar d) (fp_stats d) false, false)
    | Some size =>
        if bar_maps env then (mkFpga true (Some size) (fp_stats d) true, true)
        else (mkFpga false None (fp_stats d) false, false)
    end.

Definition fp_stop (d : FpgaDriver) : FpgaDriver :=
  if negb (fp_running d) then d else mkFpga false None (fp_stats d) false.

Definition fp_poll (budget : nat) (d : FpgaDriver) : FpgaDriver * nat := (d, O).

#[export] Instance fpga_ops : IKernelDriver FpgaDriver := {
  StartEnv := FpgaEnv;
  PollEnv := unit;
  drv_running := fp_running;
  drv_stats := fp_stats;
  drv_start := fp_start;
  drv_stop := fp_stop;
  drv_poll _ := fp_poll
}.

(** ** The factory *)

Inductive AnyDriver :=
| DFpga (d : FpgaDriver)
| DDpdk (d : DpdkDriver)
| DSoftware (d : SoftwareDriver).

Definition make_fpga_driver (env : FpgaEnv) : option AnyDriver :=
  if negb (native_fpga env) then None
  else let '(d, ok) := fp_start env FpgaDriver_new in if ok then Some (DFpga d) else None.

Definition make_dpdk_driver (env : DpdkEnv) : option AnyDriver :=
  if negb (native_dpdk env) then None
  else let '(d, ok) := dp_start env DpdkDriver_new in if ok then Some (DDpdk d) else None.

Definition make_software_driver : AnyDriver := DSoftware SoftwareDriver_new.

Definition make_best_available_driver (fenv : FpgaEnv) (denv : DpdkEnv) : AnyDriver :=
  match make_fpga_driver fenv with
  | Some d => d
  | None => match make_dpdk_driver denv with Some d => d | None => make_software_driver end
  end.
