(* ===== verification/DriverProps.v ===== *)
(** * Properties of the kernel drivers

    The laws of [IKernelDriver] that a run loop relies on, that the three
    drivers satisfy them, and what follows for any driver. *)

From S2P Require Import Prelude Driver.

(** ** The contract *)

Class KernelDriver (D : Type) `{IKernelDriver D} := {
  kd_inv : D -> Prop;
  kd_start_running env d : drv_running d = true -> drv_start env d = (d, true);
  kd_start env d : kd_inv d ->
    kd_inv (drv_start env d).1 /\ drv_running (drv_start env d).1 = (drv_start env d).2;
  kd_stop d : kd_inv d ->
    kd_inv (drv_stop d) /\ drv_running (drv_stop d) = false /\ drv_stop (drv_stop d) = drv_stop d;
  kd_poll env budget d : kd_inv d ->
    kd_inv (drv_poll env budget d).1 /\ drv_running (drv_poll env budget d).1 = drv_running d /\
    (drv_running d = false -> (drv_poll env budget d).2 = O)
}.

Section Client.
Context {D : Type} `{KernelDriver D}.

Inductive DriverOp :=
| DoStart (env : StartEnv)
| DoStop
| DoPoll (env : PollEnv) (budget : nat).

Inductive DriverOut := Started (ok : bool) | Stopped | Polled (n : nat).

Definition driver_op (op : DriverOp) (d : D) : D * DriverOut :=
  match op with
  | DoStart env => let '(d, ok) := drv_start env d in (d, Started ok)
  | DoStop => (drv_stop d, Stopped)
  | DoPoll env budget => let '(d, n) := drv_poll env budget d in (d, Polled n)
  end.

Fixpoint driver_run (ops : list DriverOp) (d : D) : D * list DriverOut :=
  match ops with
  | [] => (d, [])
  | op :: ops =>
      let '(d, o) := driver_op op d in
      let '(d, os) := driver_run ops d in (d, o :: os)
  end.

Lemma driver_run_app ops ops' : forall d,
  driver_run (ops ++ ops') d =
    let '(d1, os) := driver_run ops d in let '(d2, os') := driver_run ops' d1 in (d2, os ++ os').
Proof.
  induction ops as [|op ops IH]; intros d; cbn [driver_run app]; [by destruct (driver_run ops' d)|].
  destruct (driver_op op d) as [d1 o]. rewrite IH. destruct (driver_run ops d1) as [d2 os]. by destruct (driver_run ops' d2).
Qed.

(** The polls stay within their budgets. *)
Definition within_budget (op : DriverOp) (o : DriverOut) : Prop :=
  match op, o with DoPoll _ budget, Polled n => (n <= budget)%nat | _, _ => True end.

(** The environments of the polls. *)
Definition polls_with (ok : PollEnv -> Prop) (op : DriverOp) : Prop :=
  match op with DoPoll env _ => ok env | _ => True end.

Lemma driver_run_budget (ok : PollEnv -> Prop) ops :
  (forall env budget d, ok env -> ((drv_poll env budget d).2 <= budget)%nat) ->
  Forall (polls_with ok) ops -> forall d, Forall2 within_budget ops (driver_run ops d).2.
Proof.
  intros Hpoll Hops. induction Hops as [|op ops Hop _ IH]; intros d; [constructor|]. cbn [driver_run].
  assert (within_budget op (driver_op op d).2) as Hb.
  { destruct op as [env| |env budget]; cbn [driver_op]; [by destruct (drv_start env d)|done|].
    specialize (Hpoll env budget d Hop). by destruct (drv_poll env budget d). }
  destruct (driver_op op d) as [d1 o]. specialize (IH d1). destruct (driver_run ops d1). by constructor.
Qed.

(** What a client may observe of a driver that is running or not: the driver
    runs after a start that succeeded; starting it again succeeds; only a
    running driver does work. *)
Fixpoint lifecycle (r : bool) (os : list DriverOut) (r' : bool) : Prop :=
  match os with
  | [] => r = r'
  | Started ok :: os => (r = true -> ok = true) /\ lifecycle ok os r'
  | Stopped :: os => lifecycle false os r'
  | Polled n :: os => (r = false -> n = O) /\ lifecycle r os r'
  end.

Lemma driver_run_lifecycle ops : forall d, kd_inv d ->
  let '(d', os) := driver_run ops d in kd_inv d' /\ lifecycle (drv_running d) os (drv_running d').
Proof.
  induction ops as [|op ops IH]; intros d Hd; [done|]. cbn [driver_run].
  assert (kd_inv (driver_op op d).1 /\ forall os r,
    lifecycle (drv_running (driver_op op d).1) os r -> lifecycle (drv_running d) ((driver_op op d).2 :: os) r)
    as [Hi Hl].
  { destruct op as [env| |env budget]; cbn [driver_op].
    - destruct (kd_start env d Hd) as [Hi Hr]. pose proof (kd_start_running env d) as Hrun.
      destruct (drv_start env d) as [d' ok]. simpl in *. subst ok. split; [done|]. intros os r Hos.
      split; [|done]. intros Hd'. by injection (Hrun Hd') as -> ->.
    - destruct (kd_stop d Hd) as (Hi & Hr & _). split; [done|]. intros os r. simpl. by rewrite Hr.
    - destruct (kd_poll env budget d Hd) as (Hi & Hr & Hn). destruct (drv_poll env budget d) as [d' n].
      simpl in *. split; [done|]. intros os r. by rewrite Hr. }
  destruct (driver_op op d) as [d1 o]. specialize (IH d1 Hi).
  destruct (driver_run ops d1) as [d2 os]. destruct IH as [Hi2 Hos]. split; [done|]. by apply Hl.
Qed.
End Client.

(** ** The software driver *)

Definition sw_inv (d : SoftwareDriver) : Prop :=
  0 <= rx_messages (sw_stats d) /\
  match sw_gateway d with
  | Some g => ug_running g = sw_running d /\ 0 <= orders_received g /\
              (sw_running d = false -> orders_received g = 0)
  | None => sw_running d = false
  end.

#[export, refine] Instance software_driver : KernelDriver SoftwareDriver := { kd_inv := sw_inv }.
Proof.
  - intros env d Hr. simpl in *. unfold sw_start. by rewrite Hr.
  - intros [feed binds] d [Hs Hg]. simpl. unfold sw_start, sw_inv.
    destruct (sw_running d) eqn:Hr; simpl; [by rewrite Hr|]. by destruct binds.
  - intros d Hd. simpl. unfold sw_stop, sw_inv in *. destruct (sw_running d) eqn:Hr; simpl; [|by rewrite Hr].
    by destruct Hd.
  - intros traffic budget [g feed s r] [Hs Hg]. simpl in *. unfold sw_poll, sw_serve, sw_inv. simpl.
    destruct g as [g|]; simpl; [|done]. destruct Hg as (Hg & Hn & H0). unfold ug_serve. rewrite Hg.
    destruct r; simpl; rewrite ?Hg; unfold u64.
    + pose proof (Z.mod_pos_bound (orders_received g + Z.of_nat traffic.1) UINT64_SIZE). split_and!; try done; lia64.
    + split_and!; try done. intros _. rewrite (H0 eq_refl). case_match; lia.
Defined.

(** Polling between bursts of traffic. *)
Fixpoint sw_polls (traffic : list (nat * nat)) (d : SoftwareDriver) : SoftwareDriver * list nat :=
  match traffic with
  | [] => (d, [])
  | t :: ts =>
      let '(d, n) := sw_poll 64 (sw_serve t d) in
      let '(d, ns) := sw_polls ts d in (d, n :: ns)
  end.

Lemma sw_polls_spec ts : forall d g,
  sw_gateway d = Some g -> ug_running g = true -> 0 <= orders_received g ->
  rx_messages (sw_stats d) = orders_received g ->
  orders_received g + Z.of_nat (sum_list ts.*1) < UINT64_SIZE ->
  (sw_polls ts d).2 = ts.*1 /\
  rx_messages (sw_stats (sw_polls ts d).1) = orders_received g + Z.of_nat (sum_list ts.*1).
Proof.
  induction ts as [|[o x] ts IH]; intros d g Hg Hr H0 Hs Hn; cbn [sw_polls fmap list_fmap fst sum_list] in *.
  - split; [done|]. simpl. lia.
  - simpl in Hn. unfold sw_poll, sw_serve. cbn [sw_gateway]. rewrite Hg. simpl.
    unfold ug_serve. rewrite Hr. simpl.
    assert (u64 (orders_received g + Z.of_nat o) = orders_received g + Z.of_nat o) as ->
      by (apply Z.mod_small; lia).
    match goal with |- context [sw_polls ts ?d'] =>
      destruct (IH d' (mkUring true (orders_received g + Z.of_nat o) (u64 (exec_reports_sent g + Z.of_nat x))))
        as [E1 E2]; simpl; [done|done|lia|done|lia|]; destruct (sw_polls ts d') end.
    simpl in *. rewrite E1, E2. split; [|lia]. f_equal. rewrite Hs. case_match; lia.
Qed.

(** A run loop that starts a new software driver and polls it is told of
    every order exactly once, in the poll after its arrival, and the statistics
    agree. *)
Theorem software_polls_count feed ts :
  Z.of_nat (sum_list ts.*1) < UINT64_SIZE ->
  let d := (sw_start (feed, true) SoftwareDriver_new).1 in
  (sw_polls ts d).2 = ts.*1 /\ rx_messages (sw_stats (sw_polls ts d).1) = Z.of_nat (sum_list ts.*1).
Proof.
  intros Hn d. apply (sw_polls_spec ts d (mkUring true 0 0)); done.
Qed.

Lemma software_polls_count_witness :
  (sw_polls [(3, 4); (0, 0); (2, 2)]%nat (sw_start (true, true) SoftwareDriver_new).1).2 = [3; 0; 2]%nat /\
  rx_messages (sw_stats (sw_polls [(3, 4); (0, 0); (2, 2)]%nat (sw_start (true, true) SoftwareDriver_new).1).1) = 5.
Proof. apply (software_polls_count true [(3, 4); (0, 0); (2, 2)]%nat). reflexivity. Defined.

(** The count starts again with the gateway but the statistics do not: after a
    restart five orders are reported as none. *)
Example software_restart_undercounts :
  let d := (sw_polls [(7, 7)]%nat (sw_start (true, true) SoftwareDriver_new).1).1 in
  let d := (sw_start (true, true) (sw_stop d)).1 in
  (sw_polls [(5, 5)]%nat d).2 = [0]%nat.
Proof. done. Qed.

(** The budget does not limit what a poll of the software driver reports. *)
Example software_poll_over_budget :
  (sw_poll 64 (sw_serve (100, 0)%nat (sw_start (true, true) SoftwareDriver_new).1)).2 = 100%nat.
Proof. done. Qed.

(** ** The DPDK driver *)

#[export, refine] Instance dpdk_driver : KernelDriver DpdkDriver := { kd_inv _ := True }.
Proof.
  - intros env d Hr. simpl in *. unfold dp_start. by rewrite Hr.
  - intros env d _. split; [done|]. simpl. unfold dp_start. repeat case_match; done.
  - intros d _. simpl. unfold dp_stop. split_and!; [done|..]; destruct (dp_running d) eqn:Hr; simpl; by rewrite ?Hr.
  - intros burst budget d _. cbn [drv_poll drv_running dpdk_ops]. unfold dp_poll.
    destruct (dp_running d) eqn:Hr; cbn [negb fst snd]; [|by rewrite Hr].
    by destruct (dp_poll_loop burst (S budget) 0 budget 0 (dp_stats d)).
Defined.

Section Burst.
(** [rte_eth_rx_burst] delivers at most the number of packets it is asked for. *)
Context (burst : nat -> nat -> list Z).
Hypothesis burst_max : forall k nb, (length (burst k nb) <= nb)%nat.

Lemma count_packets rx : forall s,
  foldl (fun s len => mkDStats (u64 (rx_messages s + 1)) (tx_messages s) (u64 (rx_bytes s + len))) s rx =
  match rx with
  | [] => s
  | _ => mkDStats (u64 (rx_messages s + Z.of_nat (length rx))) (tx_messages s) (u64 (rx_bytes s + sumZ rx))
  end.
Proof.
  induction rx as [|len rx IH]; intros s; [done|]. cbn [foldl]. rewrite IH.
  destruct rx as [|len' rx]; cbn [rx_messages rx_bytes tx_messages length sumZ foldr].
  - simpl. by rewrite Z.add_0_r.
  - unfold u64. rewrite !Zplus_mod_idemp_l. f_equal; f_equal; simpl; lia.
Qed.
Lemma dp_poll_loop_spec fuel : forall k budget dne s,
  (budget < fuel + dne)%nat -> (dne <= budget)%nat ->
  exists lens, let '(s', n) := dp_poll_loop burst fuel k budget dne s in
    (n <= budget)%nat /\ n = (dne + length lens)%nat /\
    (lens <> [] -> rx_messages s' = u64 (rx_messages s + Z.of_nat (length lens)) /\
                   rx_bytes s' = u64 (rx_bytes s + sumZ lens)) /\
    (lens = [] -> s' = s) /\
    ((n < budget)%nat -> exists k' nb, (0 < nb)%nat /\ burst k' nb = []).
Proof.
  induction fuel as [|fuel IH]; intros k budget dne s Hf Hd; [lia|]. cbn [dp_poll_loop].
  destruct (Nat.ltb_spec dne budget) as [Hlt|Hge]; cycle 1.
  { exists []. split_and!; [lia|simpl; lia|done|done|lia]. }
  pose proof (burst_max k (kBurst `min` (budget - dne))) as Hb.
  destruct (burst k (kBurst `min` (budget - dne))) as [|len rx] eqn:E.
  { exists []. split_and!; [lia|simpl; lia|done|done|]. intros _. do 2 eexists. split; [|exact E].
    unfold kBurst. lia. }
  rewrite count_packets. set (s1 := mkDStats _ _ _).
  destruct (IH (S k) budget (dne + length (len :: rx))%nat s1) as (lens & IH'); [cbn [length] in *; lia..|].
  exists ((len :: rx) ++ lens). destruct (dp_poll_loop _ _ _ _ _ _) as [s' n].
  destruct IH' as (H1 & H2 & H3 & H4 & H5). rewrite length_app, sumZ_app. split_and!; [done|lia| |done|done].
  intros _. destruct lens as [|l lens].
  - rewrite (H4 eq_refl). cbn [length sumZ]. by rewrite Nat.add_0_r, Z.add_0_r.
  - destruct H3 as [-> ->]; [done|]. unfold s1, u64. cbn [rx_messages rx_bytes].
    rewrite !Zplus_mod_idemp_l. split; f_equal; lia.
Qed.

(** A poll of a running DPDK driver handles at most its budget, counts
    every packet and its bytes once, and stops short of the budget only when
    the queue has delivered nothing. *)
Theorem dpdk_poll_budget budget d :
  dp_running d = true ->
  exists lens, let '(d', n) := dp_poll burst budget d in
    (n <= budget)%nat /\ n = length lens /\
    (lens <> [] -> rx_messages (dp_stats d') = u64 (rx_messages (dp_stats d) + Z.of_nat n) /\
                   rx_bytes (dp_stats d') = u64 (rx_bytes (dp_stats d) + sumZ lens)) /\
    (lens = [] -> d' = d) /\
    ((n < budget)%nat -> exists k nb, (0 < nb)%nat /\ burst k nb = []).
Proof.
  intros Hr. unfold dp_poll. rewrite Hr. cbn [negb].
  destruct (dp_poll_loop_spec (S budget) 0 budget 0 (dp_stats d)) as (lens & H); [lia..|].
  exists lens. destruct (dp_poll_loop _ _ _ _ _ _) as [s n]. destruct H as (H1 & H2 & H3 & H4 & H5).
  simpl in H2. subst n. split_and!; [done|done|done| |done].
  intros E. rewrite (H4 E), <-Hr. by destruct d.
Qed.
End Burst.

Lemma dpdk_poll_budget_witness :
  exists lens, let '(d', n) := dp_poll (fun k nb => take nb (replicate (20 - k) 60)) 64 (mkDpdk (Some (true, true)) DriverStats_zero true) in
    (n <= 64)%nat /\ n = length lens /\
    (lens <> [] -> rx_messages (dp_stats d') = u64 (rx_messages DriverStats_zero + Z.of_nat n) /\
                   rx_bytes (dp_stats d') = u64 (rx_bytes DriverStats_zero + sumZ lens)) /\
    (lens = [] -> d' = mkDpdk (Some (true, true)) DriverStats_zero true) /\
    ((n < 64)%nat -> exists k nb, (0 < nb)%nat /\ take nb (replicate (20 - k) 60) = []).
Proof.
  apply (dpdk_poll_budget (fun k nb => take nb (replicate (20 - k) 60))).
  - intros k nb. rewrite length_take. lia.
  - reflexivity.
Defined.

(** A start that fails after [rte_eal_init] leaves the library initialised:
    [stop], and the destructor, return at once because the driver does not run. *)
Example dpdk_failed_start_keeps_eal :
  dp_native (dp_stop (dp_start (mkDpdkEnv true 0 false 0 0) DpdkDriver_new).1) = Some (true, false).
Proof. done. Qed.

(** ** The FPGA driver *)

(** The descriptor and the mapping are held exactly while the driver runs. *)
Definition fp_inv (d : FpgaDriver) : Prop :=
  fp_fd d = fp_running d /\ (fp_running d = true <-> is_Some (fp_bar d)).

#[export, refine] Instance fpga_driver : KernelDriver FpgaDriver := { kd_inv := fp_inv }.
Proof.
  - intros env d Hr. simpl in *. unfold fp_start. by rewrite Hr.
  - intros env [fd bar s r] [Hfd Hbar]. simpl in *. subst fd. unfold fp_start, fp_inv. simpl.
    destruct r; [done|]. assert (bar = None) as -> by (destruct bar; [|done]; by destruct Hbar as [_ Hbar]; discriminate Hbar; eauto).
    repeat case_match; simpl; split; try done; split; try done; by intros [].
  - intros [fd bar s r] [Hfd Hbar]. simpl in *. unfold fp_stop, fp_inv. destruct r; simpl; [|done].
    split_and!; try done.
  - intros env budget d Hd. simpl. done.
Defined.

(** *** Budgets *)

(** [rte_eth_rx_burst] delivers no more than it is asked for. *)
Definition bounded_burst (burst : nat -> nat -> list Z) : Prop := forall k nb, (length (burst k nb) <= nb)%nat.

Lemma dpdk_run_budget ops :
  Forall (polls_with (D := DpdkDriver) bounded_burst) ops ->
  Forall2 within_budget ops (driver_run ops DpdkDriver_new).2.
Proof.
  intros Hops. apply (@driver_run_budget DpdkDriver dpdk_ops bounded_burst ops); [|exact Hops]. intros burst budget d Hburst. cbn [drv_poll dpdk_ops].
  unfold dp_poll. destruct (dp_running d); cbn [negb snd]; [|lia].
  destruct (dp_poll_loop_spec burst Hburst (S budget) 0 budget 0 (dp_stats d)) as (lens & Hl); [lia..|].
  destruct (dp_poll_loop _ _ _ _ _ _). apply Hl.
Qed.

Lemma fpga_run_budget ops : Forall2 within_budget ops (driver_run ops FpgaDriver_new).2.
Proof.
  apply (@driver_run_budget FpgaDriver fpga_ops (fun _ => True) ops); [intros env budget d _; cbn; lia|].
  apply Forall_forall. by intros [] _.
Qed.

(** (C33) The life-cycle and the budget part of the contract of
    [IKernelDriver], over every sequence of starts, stops and polls on a new
    driver, whatever the environment answers.  For each of the three drivers,
    starting a running driver succeeds, a driver runs exactly after a start that
    succeeded and until it is stopped, and a driver that does not run reports no
    work; the FPGA driver holds its descriptor and its mapping exactly while it
    runs.  No poll of the DPDK driver, on bursts no larger than asked for, or of
    the FPGA driver reports more than its budget; the software driver does not
    keep that part of the contract. *)
Theorem drivers_lifecycle :
  (forall ops, let '(d, os) := driver_run ops SoftwareDriver_new in lifecycle false os (sw_running d)) /\
  (forall ops, let '(d, os) := driver_run ops DpdkDriver_new in
     lifecycle false os (dp_running d) /\
     (Forall (polls_with (D := DpdkDriver) bounded_burst) ops -> Forall2 within_budget ops os)) /\
  (forall ops, let '(d, os) := driver_run ops FpgaDriver_new in
     lifecycle false os (fp_running d) /\ fp_fd d = fp_running d /\
     (fp_running d = true <-> is_Some (fp_bar d)) /\ Forall2 within_budget ops os) /\
  (exists ops, ~ Forall2 within_budget ops (driver_run ops SoftwareDriver_new).2).
Proof.
  split_and!; [intros ops..|].
  - pose proof (driver_run_lifecycle ops SoftwareDriver_new) as H.
    destruct (driver_run _ _). by apply H.
  - pose proof (driver_run_lifecycle ops DpdkDriver_new) as H. pose proof (dpdk_run_budget ops) as Hb.
    destruct (driver_run _ _). split; [by apply H|done].
  - pose proof (driver_run_lifecycle ops FpgaDriver_new) as H. pose proof (fpga_run_budget ops) as Hb.
    destruct (driver_run _ _) as [d os]. destruct H as [[] ?]; [|by split_and!]. split; [done|]. split; [done|]. by intros [].
  - exists [@DoStart SoftwareDriver software_ops (true, true); @DoPoll SoftwareDriver software_ops (100, 0)%nat 64].
    intros Hb. apply Forall2_cons in Hb as [_ Hb]. apply Forall2_cons in Hb as [Hb _]. vm_compute in Hb. lia.
Qed.

(** The factory prefers FPGA to DPDK to software, and hands out a hardware
    driver only when it has started. *)
Theorem best_available_driver fenv denv :
  match make_best_available_driver fenv denv with
  | DFpga d => native_fpga fenv = true /\ fp_running d = true
  | DDpdk d => make_fpga_driver fenv = None /\ native_dpdk denv = true /\ dp_running d = true
  | DSoftware d => make_fpga_driver fenv = None /\ make_dpdk_driver denv = None /\ d = SoftwareDriver_new
  end.
Proof.
  assert (fp_running (fp_start fenv FpgaDriver_new).1 = (fp_start fenv FpgaDriver_new).2) as Hf
    by (unfold fp_start; repeat case_match; done).
  assert (dp_running (dp_start denv DpdkDriver_new).1 = (dp_start denv DpdkDriver_new).2) as Hd
    by (unfold dp_start; repeat case_match; done).
  unfold make_best_available_driver, make_fpga_driver, make_dpdk_driver.
  destruct (fp_start _ _) as [f []], (dp_start _ _) as [d []], (native_fpga fenv), (native_dpdk denv); done.
Qed.

(** Two polls of a started DPDK driver, by bursts that get shorter. *)
Lemma drivers_lifecycle_witness :
  let burst k nb := take nb (replicate (20 - k) 60) in
  let ops := [@DoStart DpdkDriver dpdk_ops (mkDpdkEnv true 0 true 0 0); @DoPoll DpdkDriver dpdk_ops burst 64; @DoPoll DpdkDriver dpdk_ops burst 7] in
  (driver_run ops DpdkDriver_new).2 = [Started true; Polled 64; Polled 7] /\ Forall2 within_budget ops (driver_run ops DpdkDriver_new).2.
Proof.
  intros burst ops. split; [vm_compute; reflexivity|].
  apply (proj2 (proj1 (proj2 drivers_lifecycle) ops)).
  repeat constructor; intros k nb; unfold burst; rewrite length_take; lia.
Defined.
