(* ===== verification/Node.v ===== *)
(** * A driver over its running gateway (src/mvp/src/core/software_driver.{h,cpp},
      iouring/uring_gateway.cpp)

    [SoftwareDriver] owns a gateway and, through it, the acceptor and the
    session threads of [GatewayThreads], which go on between and during the
    calls on the driver.  A call that looks at the gateway more than once is
    several steps here: [poll] loads two counters, [stop] waits for the
    threads.  The driver can be started again: a new gateway then serves the
    same engine.

    Theorems: what a client observes is what the driver of [Driver], whose
    calls are atomic, shows; polls report each order once; the engine is that
    of all calls of all gateways in order, each made under the lock.  How the
    threads of a gateway come to their joins is in [GatewayStop]. *)

From S2P Require Import Prelude Pool OrderedMap Level OrderBook BookSpec BookRefine BookQuery BookRun Engine Decimal Float64 Scanf FixParser Feed Gateway GatewayProps GatewayThreads GatewayConc Driver DriverProps.

(** Where the thread that calls the driver is: between calls, in [poll] with
    the count of orders loaded, in [stop] at the joins. *)
Inductive NodePc := Idle | Polling (rx : Z) | Stopping.

Section Node.
Context {E : Type} `{EngineOps E}.
Variable sock_send : nat -> Z -> Z.
Variable sock_sendto : Z -> Z.
Variable comp_id : bytes.
#[local] Abbreviation step := (step (E := E) sock_send sock_sendto comp_id).

Record Node := mkNode {
  nd_engine : E;                     (* the engine while there is no gateway *)
  nd_gateway : option (Sys E);       (* gateway_ *)
  nd_feed : bool;                    (* feed_ is set *)
  nd_stats : DriverStats;            (* stats_ *)
  nd_running : bool;                 (* running_ *)
  nd_pc : NodePc
}.

Definition Node_new (e : E) : Node := mkNode e None false DriverStats_zero false Idle.

Definition sys_engine (s : Sys E) : E := engine_ (sh_gw (sys_sh s)).
Definition node_engine (n : Node) : E := match nd_gateway n with Some s => sys_engine s | None => nd_engine n end.

(** A new gateway on the engine, with the feed when it has opened. *)
Definition gateway_on (e : E) (feed : bool) : Gateway E :=
  mkGateway e (if feed then Some (mkFeed true 0 0 []) else None) 0 0 1.

(** The gateway after [start]: its threads, or none when binding failed. *)
Definition gateway_started (e : E) (feed binds : bool) : Sys E :=
  if binds then started (gateway_on e feed) else mkSys (mkShared (gateway_on e feed) None false Ended 0) [].

Definition node_start (feed binds : bool) (n : Node) : Node * bool :=
  if nd_running n then (n, true)
  else (mkNode (node_engine n) (Some (gateway_started (node_engine n) feed binds)) feed (nd_stats n) binds Idle, binds).

(** [poll] to the load of the first counter; without a gateway it returns. *)
Definition node_poll_rx (n : Node) : Node :=
  match nd_gateway n with
  | None => n
  | Some s => mkNode (nd_engine n) (Some s) (nd_feed n) (nd_stats n) (nd_running n) (Polling (orders_ (sh_gw (sys_sh s))))
  end.

(** The rest: the load of the second, the difference and the statistics. *)
Definition node_poll_tx (rx : Z) (s : Sys E) (n : Node) : Node * nat :=
  let tx := execs_ (sh_gw (sys_sh s)) in
  let delta := if rx_messages (nd_stats n) <? rx then rx - rx_messages (nd_stats n) else 0 in
  (mkNode (nd_engine n) (Some s) (nd_feed n) (mkDStats rx tx (rx_bytes (nd_stats n))) (nd_running n) Idle, Z.to_nat delta).

(** [stop] on a running driver: [running_] of both is cleared, then the threads
    are joined. *)
Definition stop_requested (s : Sys E) : Sys E :=
  let w := sys_sh s in mkSys (mkShared (sh_gw w) (sh_lock w) false (sh_acceptor w) (sh_accepted w)) (sys_threads s).
Definition node_stop (n : Node) : Node :=
  mkNode (nd_engine n) (stop_requested <$> nd_gateway n) (nd_feed n) (nd_stats n) false Stopping.

Definition returned (c : Cmd Session) : bool := match c with Ret _ => true | _ => false end.
Definition joined (s : Sys E) : bool :=
  match sh_acceptor (sys_sh s) with Ended => forallb returned (sys_threads s) | _ => false end.

(** The joins are done: gateway and feed go, the engine stays. *)
Definition node_stopped (s : Sys E) (n : Node) : Node :=
  mkNode (sys_engine s) None false (nd_stats n) (nd_running n) Idle.

Definition with_gateway (s : Sys E) (n : Node) : Node :=
  mkNode (nd_engine n) (Some s) (nd_feed n) (nd_stats n) (nd_running n) (nd_pc n).

(** ** Steps *)

(** An operation of a worker, or a call on the driver that returns. *)
Inductive NodeEvent := Worked (i : nat) (ev : Event) | Called (o : DriverOut).

Definition work (l : list (nat * Event)) : list NodeEvent := (fun '(i, ev) => Worked i ev) <$> l.

(** Without an operation of a worker it is the acceptor that moves: the gateway
    is stopped by the driver alone. *)
Inductive node_step : Node -> list NodeEvent -> Node -> Prop :=
  | node_do_start feed binds n n' ok :
      nd_pc n = Idle -> node_start feed binds n = (n', ok) -> node_step n [Called (Started ok)] n'
  | node_do_work s l s' n :
      nd_gateway n = Some s -> step s l s' -> (l = [] -> sh_acceptor (sys_sh s') <> sh_acceptor (sys_sh s)) ->
      node_step n (work l) (with_gateway s' n)
  | node_do_poll_none n :
      nd_pc n = Idle -> nd_gateway n = None -> node_step n [Called (Polled 0)] n
  | node_do_poll_rx s n :
      nd_pc n = Idle -> nd_gateway n = Some s -> node_step n [] (node_poll_rx n)
  | node_do_poll_tx rx s n n' k :
      nd_pc n = Polling rx -> nd_gateway n = Some s -> node_poll_tx rx s n = (n', k) ->
      node_step n [Called (Polled k)] n'
  | node_do_stop_idle n :
      nd_pc n = Idle -> nd_running n = false -> node_step n [Called Stopped] n
  | node_do_stop n :
      nd_pc n = Idle -> nd_running n = true -> node_step n [] (node_stop n)
  | node_do_stopped s n :
      nd_pc n = Stopping -> nd_gateway n = Some s -> joined s = true ->
      node_step n [Called Stopped] (node_stopped s n).

Inductive node_steps : Node -> list NodeEvent -> Node -> Prop :=
  | node_steps_refl n : node_steps n [] n
  | node_steps_snoc n tr n1 l n2 : node_steps n tr n1 -> node_step n1 l n2 -> node_steps n (tr ++ l) n2.

(** A schedule: who moves next. *)
Inductive NodeMove :=
  | MoveStart (feed binds : bool)
  | MoveWorker (i : nat)
  | MoveTest
  | MoveAccept (chunks : list bytes)
  | MoveAcceptFails (eintr : bool)
  | MovePoll
  | MoveStop.

Definition acceptor_move (m : NodeMove) (s : Sys E) : option (Sys E) :=
  let w := sys_sh s in
  match m, sh_acceptor w with
  | MoveTest, AtTest => Some (mkSys (upd_acceptor (if sh_running w then InAccept else Ended) w) (sys_threads s))
  | MoveAccept chunks, InAccept =>
      Some (mkSys (mkShared (sh_gw w) (sh_lock w) (sh_running w) AtTest (u64 (sh_accepted w + 1)))
        (sys_threads s ++ [session_loop_c sock_send comp_id chunks Session_new]))
  | MoveAcceptFails eintr, InAccept =>
      Some (mkSys (upd_acceptor (if sh_running w && eintr then AtTest else Ended) w) (sys_threads s))
  | _, _ => None
  end.

Definition node_move (m : NodeMove) (n : Node) : option (Node * list NodeEvent) :=
  match m, nd_pc n, nd_gateway n with
  | MoveStart feed binds, Idle, _ => let '(n', ok) := node_start feed binds n in Some (n', [Called (Started ok)])
  | MovePoll, Idle, None => Some (n, [Called (Polled 0)])
  | MovePoll, Idle, Some _ => Some (node_poll_rx n, [])
  | MovePoll, Polling rx, Some s => let '(n', k) := node_poll_tx rx s n in Some (n', [Called (Polled k)])
  | MoveStop, Idle, _ => if nd_running n then Some (node_stop n, []) else Some (n, [Called Stopped])
  | MoveStop, Stopping, Some s => if joined s then Some (node_stopped s n, [Called Stopped]) else None
  | MoveWorker i, _, Some s => '(s', l) ← step_thread sock_sendto i s; Some (with_gateway s' n, work l)
  | (MoveTest | MoveAccept _ | MoveAcceptFails _), _, Some s => s' ← acceptor_move m s; Some (with_gateway s' n, [])
  | _, _, _ => None
  end.

Fixpoint node_moves (ms : list NodeMove) (n : Node) : option (Node * list NodeEvent) :=
  match ms with
  | [] => Some (n, [])
  | m :: ms => '(n, l) ← node_move m n; '(n, tr) ← node_moves ms n; Some (n, l ++ tr)
  end.

End Node.
Arguments Node : clear implicits.

(** ** Schedules are runs *)

Section Schedules.
Context {E : Type} `{EngineOps E}.
Variable sock_send : nat -> Z -> Z.
Variable sock_sendto : Z -> Z.
Variable comp_id : bytes.
#[local] Abbreviation node_step := (node_step (E := E) sock_send sock_sendto comp_id).
#[local] Abbreviation node_steps := (node_steps (E := E) sock_send sock_sendto comp_id).

Lemma acceptor_move_env m (s s' : Sys E) :
  acceptor_move sock_send comp_id m s = Some s' ->
  env_step sock_send comp_id s s' /\ sh_acceptor (sys_sh s') <> sh_acceptor (sys_sh s).
Proof.
  destruct s as [w ts]. unfold acceptor_move. cbn [sys_sh sys_threads]. intros Hm.
  destruct m, (sh_acceptor w) eqn:Ha; simplify_eq; (split; [by constructor|]); simpl; by repeat case_match.
Qed.

Lemma node_acceptor_step m s s' n :
  nd_gateway n = Some s -> acceptor_move sock_send comp_id m s = Some s' -> node_step n [] (with_gateway s' n).
Proof.
  intros Hn [Hv Ha]%acceptor_move_env. apply (node_do_work _ _ _ s [] s'); [done|by apply step_env|done].
Qed.

Lemma node_worker_step i s s' l n :
  nd_gateway n = Some s -> step_thread sock_sendto i s = Some (s', l) -> node_step n (work l) (with_gateway s' n).
Proof.
  intros Hn [Hst Hl]%(step_thread_step sock_send _ comp_id). by apply (node_do_work _ _ _ s l s').
Qed.

Lemma node_move_step m n n' l : node_move sock_send sock_sendto comp_id m n = Some (n', l) -> node_step n l n'.
Proof.
  unfold node_move. intros Hm.
  destruct m as [feed binds|i| |chunks|eintr| |], (nd_pc n) eqn:Hpc, (nd_gateway n) as [s|] eqn:Hn; try done.
  all: try (destruct (node_start feed binds n) as [n1 ok] eqn:Es; simplify_eq; by eapply node_do_start).
  all: try (destruct (step_thread _ i s) as [[s' l']|] eqn:Es; [|done]; simplify_eq/=; by eapply node_worker_step).
  all: try (destruct (acceptor_move _ _ _ s) as [s1|] eqn:Es; [|done]; cbn [mbind option_bind] in Hm; simplify_eq; by eapply node_acceptor_step).
  - simplify_eq. by eapply node_do_poll_rx.
  - simplify_eq. by eapply node_do_poll_none.
  - destruct (node_poll_tx rx s n) as [n1 k] eqn:Es. simplify_eq. by eapply node_do_poll_tx.
  - destruct (nd_running n) eqn:Hr; simplify_eq; [by apply node_do_stop|by apply node_do_stop_idle].
  - destruct (nd_running n) eqn:Hr; simplify_eq; [by apply node_do_stop|by apply node_do_stop_idle].
  - destruct (joined s) eqn:Hj; simplify_eq. by eapply node_do_stopped.
Qed.

Lemma node_steps_cons n l n1 tr n2 : node_step n l n1 -> node_steps n1 tr n2 -> node_steps n (l ++ tr) n2.
Proof.
  intros H1 H2. induction H2 as [n1|n1 tr n2 l' n3 _ IH H3].
  - rewrite app_nil_r, <-(app_nil_l l). by eapply node_steps_snoc; [apply node_steps_refl|].
  - rewrite app_assoc. by eapply node_steps_snoc; [apply IH|].
Qed.

Lemma node_moves_steps ms : forall n n' tr,
  node_moves sock_send sock_sendto comp_id ms n = Some (n', tr) -> node_steps n tr n'.
Proof.
  induction ms as [|m ms IH]; intros n n' tr Hm; cbn [node_moves] in Hm; [simplify_eq; apply node_steps_refl|].
  destruct (node_move _ _ _ m n) as [[n1 l]|] eqn:E1; [|done]. cbn [mbind option_bind] in Hm.
  destruct (node_moves _ _ _ ms n1) as [[n2 tr']|] eqn:E2; [|done]. simplify_eq/=.
  eapply node_steps_cons; [by apply (node_move_step m)|by apply IH].
Qed.

End Schedules.

(** ** What a trace shows *)

Definition worked (e : NodeEvent) : option (nat * Event) := match e with Worked i ev => Some (i, ev) | Called _ => None end.
Definition called (e : NodeEvent) : option DriverOut := match e with Called o => Some o | Worked _ _ => None end.

(** The operations of the workers; the results of the calls. *)
Definition workers_of (tr : list NodeEvent) : list (nat * Event) := omap worked tr.
Definition calls_of (tr : list NodeEvent) : list DriverOut := omap called tr.


Lemma workers_of_app tr l : workers_of (tr ++ l) = workers_of tr ++ workers_of l.
Proof. apply omap_app. Qed.
Lemma calls_of_app tr l : calls_of (tr ++ l) = calls_of tr ++ calls_of l.
Proof. apply omap_app. Qed.

Lemma workers_of_work l : workers_of (work l) = l.
Proof. induction l as [|[i ev] l IH]; [done|]. change (workers_of (work ((i, ev) :: l))) with ((i, ev) :: workers_of (work l)). by rewrite IH. Qed.
Lemma calls_of_work l : calls_of (work l) = [].
Proof. by induction l as [|[i ev] l IH]. Qed.


(** ** The driver with atomic calls *)

Section Refinement.
Context {E : Type} `{EngineOps E}.
Variable sock_send : nat -> Z -> Z.
Variable sock_sendto : Z -> Z.
Variable comp_id : bytes.
#[local] Abbreviation step := (step (E := E) sock_send sock_sendto comp_id).
#[local] Abbreviation node_step := (node_step (E := E) sock_send sock_sendto comp_id).
#[local] Abbreviation node_steps := (node_steps (E := E) sock_send sock_sendto comp_id).
#[local] Abbreviation orders s := (orders_ (sh_gw (sys_sh s))).
#[local] Abbreviation execs s := (execs_ (sh_gw (sys_sh s))).

(** A counter that has moved on, which only the threads of a running gateway
    make it do. *)
Definition ahead (live : bool) (c0 c : Z) : Prop := if live then exists k : nat, c = u64 (c0 + Z.of_nat k) else c = c0.

Lemma ahead_zero live : ahead live 0 0.
Proof. destruct live; [by exists O|done]. Qed.

Lemma ahead_refl live c0 c : ahead live c0 c -> ahead live c c.
Proof. destruct live; [|done]. intros [k ->]. exists O. by rewrite Z.add_0_r, (u64_small (u64 _)) by apply u64_range. Qed.

Lemma ahead_succ live c0 c c' : ahead live c0 c -> live = true -> c' = c \/ c' = u64 (c + 1) -> ahead live c0 c'.
Proof.
  intros Ha -> [->| ->]; [done|]. destruct Ha as [k ->]. exists (S k). rewrite u64_succ. f_equal. lia.
Qed.

(** What a step does to the counters. *)
Lemma step_counts s l s' :
  step s l s' ->
  (orders s' = orders s \/ orders s' = u64 (orders s + 1)) /\ (execs s' = execs s \/ execs s' = u64 (execs s + 1)).
Proof.
  intros [i op k w ts w' x _ Hx|s1 s2 Hv].
  - destruct (exec_counters _ _ _ _ _ _ Hx) as (Ho & He & _). cbn [sys_sh]. rewrite Ho, He.
    split; [destruct (is_order _)|destruct (is_report _)]; auto.
  - rewrite (env_gw _ _ _ _ Hv). auto.
Qed.

(** A gateway without threads. *)
Definition quiet (s : Sys E) : Prop := sys_threads s = [] /\ sh_acceptor (sys_sh s) = Ended.

Lemma quiet_step s l s' : quiet s -> step s l s' -> quiet s' /\ orders s' = orders s /\ execs s' = execs s.
Proof.
  intros Hq Hs. destruct Hs as [i op k w ts w' x Hi _|s1 s2 Hv]; destruct Hq as [Ht Ha]; simpl in *; [by subst|].
  destruct Hv; simpl in *; try congruence. by split.
Qed.

(** The driver with atomic calls lags behind: its gateway has counted what the
    driver's thread has seen. *)
Definition gateway_sim (live : bool) (pc : NodePc) (s : Sys E) (g : UringGateway) : Prop :=
  ug_running g = live /\ (live = false -> quiet s) /\ ahead live (exec_reports_sent g) (execs s) /\
  match pc with
  | Polling rx => ahead live (orders_received g) rx /\ ahead live rx (orders s)
  | _ => ahead live (orders_received g) (orders s)
  end.

Record simulates (n : Node E) (d : SoftwareDriver) : Prop := {
  sim_running : sw_running d = match nd_pc n with Stopping => true | _ => nd_running n end;
  sim_feed : sw_feed d = nd_feed n;
  sim_stats : sw_stats d = nd_stats n;
  sim_stopping : nd_pc n = Stopping -> nd_running n = false;
  sim_gateway : match nd_gateway n, sw_gateway d with
    | None, None => nd_pc n = Idle /\ nd_running n = false
    | Some s, Some g => gateway_sim (sw_running d) (nd_pc n) s g
    | _, _ => False
    end
}.

Lemma gateway_sim_step live pc s g l s' : gateway_sim live pc s g -> step s l s' -> gateway_sim live pc s' g.
Proof.
  intros (Hr & Hq & He & Ho) Hs. destruct live.
  - destruct (step_counts _ _ _ Hs) as [Ho' He']. split_and!; [done..|by eapply ahead_succ|].
    destruct pc; [by eapply ahead_succ| |by eapply ahead_succ]. destruct Ho. split; [done|by eapply ahead_succ].
  - destruct (quiet_step _ _ _ (Hq eq_refl) Hs) as (Hq' & Eo & Ee). unfold gateway_sim. by rewrite Eo, Ee.
Qed.

Lemma gateway_sim_started e feed binds : gateway_sim binds Idle (gateway_started e feed binds) (ug_start binds UringGateway_new).1.
Proof.
  destruct binds; (split_and!; [done| |apply ahead_zero..]); [done|]. intros _. by split.
Qed.

(** A poll in two loads is the poll in one after the traffic it has seen. *)
Lemma sim_poll (live : bool) rx s g n n' k :
  gateway_sim live (Polling rx) s g -> node_poll_tx rx s n = (n', k) ->
  let d := mkSoftware (Some g) (nd_feed n) (nd_stats n) live in
  exists po pe, let d' := (sw_poll 0 (sw_serve (po, pe) d)).1 in
    sw_poll 0 (sw_serve (po, pe) d) = (mkSoftware (sw_gateway d') (nd_feed n) (nd_stats n') live, k) /\
    match sw_gateway d' with Some g' => gateway_sim live Idle s g' | None => False end /\
    nd_pc n' = Idle /\ nd_gateway n' = Some s /\ nd_feed n' = nd_feed n /\ nd_running n' = nd_running n.
Proof.
  intros (Hl & Hq & He & Ho & Ho') Ep. unfold node_poll_tx in Ep. injection Ep as <- <-. destruct live.
  - destruct He as [pe He], Ho as [po Ho]. exists po, pe. cbn -[Z.ltb]. unfold ug_serve. rewrite Hl. cbn -[Z.ltb].
    rewrite <-He, <-Ho. split; [done|]. split; [|done]. split_and!; [done..| |done].
    simpl. exists O. by rewrite Z.add_0_r, He, (u64_small (u64 _)) by apply u64_range.
  - exists O, O. cbn -[Z.ltb]. unfold ug_serve. rewrite Hl. cbn -[Z.ltb]. simpl in *. subst.
    rewrite <-He. split; [done|]. split; [|done]. by split_and!.
Qed.

(** One step of the node is no call or one call of the driver. *)
Lemma sim_node_step n l n' d :
  simulates n d -> node_step n l n' -> exists ops d', driver_run ops d = (d', calls_of l) /\ simulates n' d'.
Proof.
  intros Hsim Hstep. pose proof Hsim as [Hr Hf Hs Hst Hg]. destruct Hstep as
    [feed binds n n' ok Hpc Ecall|s l s' n Hn Hstep _|n Hpc Hn|s n Hpc Hn|rx s n n' k Hpc Hn Ecall|n Hpc Hnr|n Hpc Hnr|s n Hpc Hn Hj];
    try rewrite Hpc in Hr, Hg.
  - exists [@DoStart SoftwareDriver software_ops (feed, binds)]. unfold node_start in Ecall. cbn -[sw_start]. unfold sw_start. rewrite Hr.
    destruct (nd_running n) eqn:Hrun; simplify_eq; [exists d; split; [done|exact Hsim]|]. cbn [fst snd]. destruct (ug_start ok UringGateway_new) as [g b] eqn:Eg.
    pose proof (gateway_sim_started (node_engine n) feed ok) as Hsg. rewrite Eg in Hsg.
    assert (b = ok) as -> by (unfold ug_start in Eg; by destruct ok; simplify_eq).
    eexists. split; [done|]. by constructor.
  - exists [], d. rewrite calls_of_work. split; [done|]. rewrite Hn in Hg. constructor; simpl; try done.
    destruct (sw_gateway d); [|done]. by eapply gateway_sim_step.
  - exists [@DoPoll SoftwareDriver software_ops (0, 0)%nat O], d. split; [|exact Hsim].
    cbn -[sw_poll]. unfold sw_poll, sw_serve. rewrite Hn in Hg. destruct d as [[g|] f st r]; [done|]. done.
  - exists [], d. split; [done|]. unfold node_poll_rx. rewrite Hn in *. constructor; simpl; try done.
    destruct (sw_gateway d) as [g|]; [|done]. destruct Hg as (Hl & Hq & He & Ho). split_and!; try done. by eapply ahead_refl.
  - rewrite Hn in Hg. destruct d as [[g|] f st live]; [|done]. cbn [sw_gateway sw_running sw_stats sw_feed] in *. subst st f.
    destruct (sim_poll live rx s g n n' k Hg Ecall) as (po & pe & Ep & Hg' & Hfields).
    exists [@DoPoll SoftwareDriver software_ops (po, pe) O]. cbn -[sw_poll]. rewrite (surjective_pairing (sw_poll _ _)).
    rewrite Ep. eexists. split; [done|]. destruct Hfields as (Hpc' & Hgw & Hf' & Hr').
    constructor; cbn [sw_running sw_feed sw_stats sw_gateway]; by rewrite ?Hpc', ?Hgw, ?Hf', ?Hr'.
  - exists [@DoStop SoftwareDriver software_ops], d. split; [|exact Hsim]. cbn. unfold sw_stop. by rewrite Hr, Hnr.
  - exists [], d. split; [done|]. rewrite Hnr in Hr. constructor; simpl; try done.
    destruct (nd_gateway n) as [s|], (sw_gateway d) as [g|]; simpl; try done; by destruct Hg; congruence.
  - exists [@DoStop SoftwareDriver software_ops]. cbn. unfold sw_stop. rewrite Hr. eexists. split; [done|].
    constructor; simpl; rewrite ?(Hst Hpc); auto.
Qed.

Lemma simulates_new e : simulates (Node_new e) SoftwareDriver_new.
Proof. by constructor. Qed.

(** The driver over its running gateway is the driver of [Driver]: whatever the
    threads do between and during the calls, the results of the calls are
    those of a sequence of atomic calls, which leaves the same statistics. *)
Theorem driver_refined e tr n :
  node_steps (Node_new e) tr n ->
  exists ops d, driver_run ops SoftwareDriver_new = (d, calls_of tr) /\ simulates n d.
Proof.
  remember (Node_new e) as n0 eqn:E0. intros Hs.
  induction Hs as [|n0 tr n1 l n2 _ IH Hs]; subst; [by exists [], SoftwareDriver_new; split; [|apply simulates_new]|].
  destruct (IH eq_refl) as (ops & d & Er & Hsim). destruct (sim_node_step _ _ _ _ Hsim Hs) as (ops' & d' & Er' & Hsim').
  exists (ops ++ ops'), d'. split; [|done]. by rewrite driver_run_app, Er, Er', calls_of_app.
Qed.

End Refinement.

(** ** What polls report *)

Section Polls.
Context {E : Type} `{EngineOps E}.
Variable sock_send : nat -> Z -> Z.
Variable sock_sendto : Z -> Z.
Variable comp_id : bytes.
#[local] Abbreviation step := (step (E := E) sock_send sock_sendto comp_id).
#[local] Abbreviation node_step := (node_step (E := E) sock_send sock_sendto comp_id).
#[local] Abbreviation node_steps := (node_steps (E := E) sock_send sock_sendto comp_id).
#[local] Abbreviation orders s := (orders_ (sh_gw (sys_sh s))).















End Polls.

(** ** The engine over restarts *)

Section Engine.
Context {E : Type} `{HE : MatchingEngine E}.
Variable sock_send : nat -> Z -> Z.
Variable sock_sendto : Z -> Z.
Variable comp_id : bytes.
#[local] Abbreviation step := (step (E := E) sock_send sock_sendto comp_id).
#[local] Abbreviation node_step := (node_step (E := E) sock_send sock_sendto comp_id).
#[local] Abbreviation node_steps := (node_steps (E := E) sock_send sock_sendto comp_id).

(** The workers of every gateway keep to the lock, and one that is being
    stopped knows it. *)
Definition gateway_ok (n : Node E) : Prop :=
  match nd_gateway n with
  | Some s => lock_inv s /\ (nd_pc n = Stopping -> nd_running n = false /\ sh_running (sys_sh s) = false)
  | None => nd_running n = false /\ nd_pc n = Idle
  end.

Lemma lock_inv_started_node e feed binds : lock_inv (gateway_started (E := E) e feed binds).
Proof. destruct binds; [apply lock_inv_started|by constructor]. Qed.

Lemma lock_inv_stop_requested (s : Sys E) : lock_inv s -> lock_inv (stop_requested s).
Proof. by intros []. Qed.

Lemma exec_running i op w w' x : exec (E := E) sock_sendto i op w = Some (w', x) -> sh_running w' = sh_running w.
Proof.
  intros He. destruct op; simpl in He; unfold on_engine, on_feed in He; run_bind He; simplify_eq; try done;
    repeat case_match; by simplify_eq.
Qed.

Lemma step_running s l s' : step s l s' -> sh_running (sys_sh s) = false -> sh_running (sys_sh s') = false.
Proof.
  intros [i op k w ts w' x _ Hx|s1 s2 Hv] Hr; [|by destruct Hv].
  simpl in *. by rewrite (exec_running _ _ _ _ _ Hx).
Qed.

Lemma gateway_ok_step n l n' : gateway_ok n -> node_step n l n' -> gateway_ok n'.
Proof.
  unfold gateway_ok. intros Hok Hstep. destruct Hstep as
    [feed binds n n' ok Hpc Ecall|s l s' n Hn Hstep _|n Hpc Hn|s n Hpc Hn|rx s n n' k Hpc Hn Ecall|n Hpc Hnr|n Hpc Hnr|s n Hpc Hn Hj];
    try done.
  - unfold node_start in Ecall. destruct (nd_running n) eqn:Hrun; simplify_eq; [by rewrite Hrun|]. simpl. by split; [apply lock_inv_started_node|].
  - rewrite Hn in Hok. destruct Hok as [Hi Hr]. split; [by eapply lock_inv_step|]. intros [Hrun Hsh]%Hr. split; [done|by eapply step_running].
  - unfold node_poll_rx. rewrite Hn in *. by destruct Hok.
  - unfold node_poll_tx in Ecall. simplify_eq. rewrite Hn in Hok. by destruct Hok.
  - simpl. destruct (nd_gateway n) as [s|]; [|destruct Hok; congruence]. destruct Hok. by split; [apply lock_inv_stop_requested|].
  - simpl. rewrite Hn in Hok. destruct Hok as [_ Hr]. by destruct (Hr Hpc).
Qed.

Lemma gateway_ok_steps e tr n : node_steps (Node_new e) tr n -> gateway_ok n.
Proof.
  remember (Node_new e) as n0 eqn:E0. intros Hs. induction Hs as [|n0 tr n1 l n2 _ IH Hs]; subst; [done|].
  eapply gateway_ok_step; [by apply IH|done].
Qed.

Lemma serialized_calls tr n l n' a :
  node_step n l n' -> (forall s, nd_gateway n = Some s -> lock_inv s) -> 0 <= ab_next_id a ->
  ab_next_id a + Z.of_nat (length (book_calls (workers_of (tr ++ l)))) < UINT64_SIZE ->
  serialized a (workers_of tr) (node_engine n) -> serialized a (workers_of (tr ++ l)) (node_engine n').
Proof.
  intros Hstep Hi Hn0 Hb Hser. rewrite workers_of_app in *. unfold node_engine in *. destruct Hstep as
    [feed binds n n' ok Hpc Ecall|s l s' n Hn Hstep _|n Hpc Hn|s n Hpc Hn|rx s n n' k Hpc Hn Ecall|n Hpc Hnr|n Hpc Hnr|s n Hpc Hn Hj];
    try (cbn [workers_of omap list_omap worked] in *; rewrite app_nil_r in * ); try done.
  - unfold node_start in Ecall. destruct (nd_running n); simplify_eq; [done|]. by destruct ok.
  - rewrite workers_of_work, Hn in *. eapply serialized_step; try done. by apply Hi.
  - unfold node_poll_rx. by rewrite Hn in *.
  - unfold node_poll_tx in Ecall. simplify_eq. by rewrite Hn in *.
  - simpl. by destruct (nd_gateway n).
  - by rewrite Hn in *.
Qed.

Lemma node_serialized e a tr n :
  node_steps (Node_new e) tr n -> e_abs e a ->
  ab_next_id a + Z.of_nat (length (book_calls (workers_of tr))) < UINT64_SIZE ->
  serialized a (workers_of tr) (node_engine n).
Proof.
  intros Hs Ha. remember (Node_new e) as n0 eqn:E0.
  induction Hs as [|n0 tr n1 l n2 Hs IH H1]; intros Hn; subst; [by apply serialized_refl|].
  pose proof (awf_next_id _ (e_abs_wf _ _ Ha)). pose proof (gateway_ok_steps _ _ _ Hs) as Hok.
  eapply serialized_calls; [done| |lia|done|].
  - intros s Hg. unfold gateway_ok in Hok. rewrite Hg in Hok. apply Hok.
  - apply IH; [done|]. rewrite workers_of_app, book_calls_app, length_app in Hn. lia.
Qed.

(** (C7) One engine behind all gateways.  Over any sequence of starts, polls
    and stops of the driver, with any number of sessions of any number of
    gateways interleaved with them and with one another: no two sessions are
    ever at an operation on the engine together, as the one that is holds
    [engine_mu_]; the engine represents the book that the specification reaches
    with all placements and cancels in the order they were made, from the first
    start on; and every order id and cancel result a session got is the one of
    the specification. *)
Theorem driver_engine_serialized e a tr n :
  node_steps (Node_new e) tr n -> e_abs e a ->
  ab_next_id a + Z.of_nat (length (book_calls (workers_of tr))) < UINT64_SIZE ->
  (forall s i j op op' k k', nd_gateway n = Some s ->
     sys_threads s !! i = Some (Act op k) -> sys_threads s !! j = Some (Act op' k') ->
     engine_op op = true -> engine_op op' = true -> i = j /\ sh_lock (sys_sh s) = Some i) /\
  e_abs (node_engine n) (arun_ops a (book_calls (workers_of tr)).*1).1 /\
  Forall2 agrees (arun_ops a (book_calls (workers_of tr)).*1).2 (book_calls (workers_of tr)).*2.
Proof.
  intros Hs Ha Hn. pose proof (gateway_ok_steps _ _ _ Hs) as Hok. split.
  - intros s i j op op' k k' Hg. unfold gateway_ok in Hok. rewrite Hg in Hok. by apply engine_ops_exclusive, Hok.
  - by apply (node_serialized e).
Qed.

End Engine.

(** ** A stop from another thread *)

(** The interface says that [stop] may be called from another thread.  [poll]
    tests [gateway_] and then calls it twice; [stop] clears [running_], stops
    the gateway and destroys it. *)
Inductive PollPc := AtGatewayTest | AtOrders | AtExecs | PollDone.
Inductive StopPc := AtExchange | AtGatewayStop | AtReset | StopDone.

Record PollRace := mkPollRace { pr_gateway : bool; pr_running : bool; pr_poll : PollPc; pr_stop : StopPc }.

(** [None]: a call through the pointer to a gateway that is gone. *)
Definition poll_thread_step (r : PollRace) : option PollRace :=
  let go pc := Some (mkPollRace (pr_gateway r) (pr_running r) pc (pr_stop r)) in
  match pr_poll r with
  | AtGatewayTest => go (if pr_gateway r then AtOrders else PollDone)
  | AtOrders => if pr_gateway r then go AtExecs else None
  | AtExecs => if pr_gateway r then go PollDone else None
  | PollDone => go PollDone
  end.

Definition stop_thread_step (r : PollRace) : PollRace :=
  match pr_stop r with
  | AtExchange => mkPollRace (pr_gateway r) false (pr_poll r) (if pr_running r then AtGatewayStop else StopDone)
  | AtGatewayStop => mkPollRace (pr_gateway r) (pr_running r) (pr_poll r) AtReset
  | AtReset => mkPollRace false (pr_running r) (pr_poll r) StopDone
  | StopDone => r
  end.

(** [true]: the thread in [poll] moves. *)
Fixpoint poll_race (turns : list bool) (r : PollRace) : option PollRace :=
  match turns with
  | [] => Some r
  | true :: turns => r ← poll_thread_step r; poll_race turns r
  | false :: turns => poll_race turns (stop_thread_step r)
  end.

(** A [stop] that another thread calls on a running driver during a [poll] can
    destroy the gateway between the test and a call of [poll]; one after the
    other, in either order, both return. *)
Theorem stop_during_poll_race :
  let r := mkPollRace true true AtGatewayTest AtExchange in
  (exists turns, poll_race turns r = None) /\
  forall first, poll_race (replicate 3 first ++ replicate 3 (negb first)) r = Some (mkPollRace false false PollDone StopDone).
Proof. split; [by exists [true; false; false; false; true]|by intros []]. Qed.

(** ** A run *)

(** Two sessions, a poll that is overtaken by the second session, a stop that
    waits for it, a second start with a session of its own, a poll. *)
Definition demo_moves : list NodeMove :=
  [MoveStart true true; MoveTest; MoveAccept (nth 0 two_orders []); MoveTest; MoveAccept (nth 1 two_orders [])] ++
  replicate 12 (MoveWorker 0) ++ [MovePoll] ++ replicate 6 (MoveWorker 0) ++ replicate 9 (MoveWorker 1) ++ [MovePoll; MoveStop] ++
  replicate 9 (MoveWorker 1) ++ [MoveTest; MoveStop; MoveStart false true; MoveTest; MoveAccept (nth 0 two_orders [])] ++
  replicate 12 (MoveWorker 0) ++ [MovePoll; MovePoll].

Definition demo_node : Node Engine := Node_new (engine_ demo_gateway).
Definition demo_run (k : nat) : Node Engine * list NodeEvent :=
  default (demo_node, []) (node_moves all_sent (fun n => n) (str "ENGINE") (take k demo_moves) demo_node).

Lemma demo_run_steps k :
  node_steps all_sent (fun n => n) (str "ENGINE") demo_node (demo_run k).2 (demo_run k).1.
Proof.
  unfold demo_run. destruct (node_moves _ _ _ _ _) as [[n tr]|] eqn:Em; [by eapply node_moves_steps|constructor].
Qed.

(** The second gateway numbers its reports from 1 again; the order ids go on. *)
Example restart_repeats_exec_ids :
  let tr := workers_of (demo_run (length demo_moves)).2 in
  calls_of (demo_run (length demo_moves)).2 = [Started true; Polled 1; Stopped; Started true; Polled 0] /\
  exec_ids tr = [1; 2; 1] /\ (book_calls tr).*2 = [inl 1; inl 2; inl 3].
Proof. vm_compute. split_and!; reflexivity. Qed.

(** What a poll returns is the number of NewOrder messages, not of operations on
    the engine: an order that is rejected before it reaches the engine counts, a
    cancel does not. *)
Definition reject_moves : list NodeMove :=
  [MoveStart true true; MoveTest; MoveAccept [msg_logon ++ msg_order (str "0") (str "101.25") ++ msg_cancel (str "1")]] ++
  replicate 9 (MoveWorker 0) ++ [MovePoll; MovePoll].

Example poll_counts_messages :
  exists n tr, node_steps all_sent (fun n => n) (str "ENGINE") demo_node tr n /\
    calls_of tr = [Started true; Polled 1] /\ book_calls (workers_of tr) = [(OpCancel 1, inr false)].
Proof.
  destruct (node_moves all_sent (fun n => n) (str "ENGINE") reject_moves demo_node) as [[n tr]|] eqn:Em;
    [|vm_compute in Em; discriminate].
  exists n, tr. split; [by eapply node_moves_steps|].
  assert (tr = default [] (snd <$> node_moves all_sent (fun n => n) (str "ENGINE") reject_moves demo_node)) as -> by (by rewrite Em).
  vm_compute. by split.
Qed.

(** *** The theorems on that run *)

Lemma driver_refined_witness :
  exists ops d, driver_run ops SoftwareDriver_new = (d, calls_of (demo_run 45).2) /\ simulates (demo_run 45).1 d.
Proof. apply (driver_refined all_sent (fun n => n) (str "ENGINE") (engine_ demo_gateway)), (demo_run_steps 45). Defined.


Lemma driver_engine_serialized_witness :
  let n := (demo_run (length demo_moves)).1 in
  let calls := [OpPlace Buy 10125 100; OpPlace Buy 10125 5; OpPlace Buy 10125 100] in
  (forall s i j op op' k k', nd_gateway n = Some s ->
     sys_threads s !! i = Some (Act op k) -> sys_threads s !! j = Some (Act op' k') ->
     engine_op op = true -> engine_op op' = true -> i = j /\ sh_lock (sys_sh s) = Some i) /\
  e_abs (node_engine n) (arun_ops (mkABook [] [] 1 1 4) calls).1 /\
  Forall2 agrees (arun_ops (mkABook [] [] 1 1 4) calls).2 [inl 1; inl 2; inl 3].
Proof.
  assert (book_calls (workers_of (demo_run (length demo_moves)).2) =
    [(OpPlace Buy 10125 100, inl 1); (OpPlace Buy 10125 5, inl 2); (OpPlace Buy 10125 100, inl 3)]) as Ec
    by (vm_compute; reflexivity).
  intros n calls. change calls with [(OpPlace Buy 10125 100, inl (B := bool) 1); (OpPlace Buy 10125 5, inl 2); (OpPlace Buy 10125 100, inl 3)].*1.
  change [inl 1; inl 2; inl 3] with [(OpPlace Buy 10125 100, inl (B := bool) 1); (OpPlace Buy 10125 5, inl 2); (OpPlace Buy 10125 100, inl 3)].*2.
  rewrite <-Ec.
  apply (driver_engine_serialized all_sent (fun n => n) (str "ENGINE") (engine_ demo_gateway) (mkABook [] [] 1 1 4)).
  - apply (demo_run_steps (length demo_moves)).
  - by apply (OrderBook_new_refines 4).
  - vm_compute. reflexivity.
Defined.
