(* ===== verification/DriverConfig.v ===== *)
(** * Configurations and descriptions of the drivers (src/mvp/src/core/driver.h,
      core/software_driver.cpp, dpdk/dpdk_driver.{h,cpp}, fpga/fpga_driver.{h,cpp})

    What the factory passes on of its configuration, the arguments DPDK is
    initialised with, and the lines that [describe] returns. *)

From stdpp Require Import gmap.
From S2P Require Import Prelude Decimal Float64 Scanf Text Gateway GatewayLife Uring Driver DriverProps.

(** struct DriverFactoryConfig *)
Record DriverFactoryConfig := mkFactoryConfig {
  fc_bind_host : bytes;
  fc_bind_port : Z;          (* uint16_t *)
  fc_comp_id : bytes;
  fc_dpdk_eal_args : bytes;
  fc_dpdk_port_id : Z;       (* uint16_t *)
  fc_dpdk_queue_id : Z;      (* uint16_t *)
  fc_fpga_device : bytes
}.
Definition DriverFactoryConfig_default : DriverFactoryConfig :=
  mkFactoryConfig (str "127.0.0.1") 9878 (str "ENGINE") [] 0 0 (str "/dev/hft_fpga0").

(** struct DpdkConfig *)
Record DpdkConfig := mkDpdkConfig {
  eal_args : bytes;
  port_id : Z;               (* uint16_t *)
  queue_id : Z;              (* uint16_t *)
  nb_rx_desc : Z;            (* uint16_t *)
  nb_tx_desc : Z;            (* uint16_t *)
  mbuf_pool_sz : Z;          (* uint32_t *)
  mtu : Z                    (* uint16_t *)
}.
Definition DpdkConfig_default : DpdkConfig := mkDpdkConfig (str "-l 0-3 --proc-type=primary") 0 0 1024 1024 8191 1500.

(** struct FpgaConfig *)
Record FpgaConfig := mkFpgaConfig { device : bytes; ring_depth : Z; use_hw_timestamp : bool }.
Definition FpgaConfig_default : FpgaConfig := mkFpgaConfig (str "/dev/hft_fpga0") 4096 true.

(** The parts of the factory's configuration that reach each driver; an empty
    string leaves the default of the driver. *)
Definition dpdk_config (cfg : DriverFactoryConfig) : DpdkConfig :=
  let d := DpdkConfig_default in
  mkDpdkConfig (match fc_dpdk_eal_args cfg with [] => eal_args d | args => args end)
    (fc_dpdk_port_id cfg) (fc_dpdk_queue_id cfg) (nb_rx_desc d) (nb_tx_desc d) (mbuf_pool_sz d) (mtu d).

Definition fpga_config (cfg : DriverFactoryConfig) : FpgaConfig :=
  let d := FpgaConfig_default in
  mkFpgaConfig (match fc_fpga_device cfg with [] => device d | dev => dev end) (ring_depth d) (use_hw_timestamp d).

Definition software_config (cfg : DriverFactoryConfig) : UringGatewayConfig :=
  let d := UringGatewayConfig_default in
  mkUringConfig (fc_bind_host cfg) (fc_bind_port cfg) (fc_comp_id cfg) (ucfg_sq_entries d) (ucfg_use_sq_poll d)
    (ucfg_sq_poll_idle_ms d) (ucfg_register_buffers d) (ucfg_rx_buffer_count d) (ucfg_rx_buffer_size d).

(** ** Starting with a configuration *)

(** The words of a string; [rte_eal_init] gets the program's name first. *)
Definition split_args (s : bytes) : list bytes := words s.
Definition eal_argv (c : DpdkConfig) : list bytes := str "hft" :: split_args (eal_args c).

(** The DPDK library: what its functions answer to what they are given. *)
Record DpdkLib := mkDpdkLib {
  rte_eal_init : list bytes -> Z;
  rte_pktmbuf_pool_create : Z -> bool;          (* mbuf_pool_sz *)
  rte_eth_dev_configure : Z -> Z -> Z;          (* port, mtu *)
  rte_eth_dev_start : Z -> Z                    (* port *)
}.

Definition dpdk_env (native : bool) (lib : DpdkLib) (c : DpdkConfig) : DpdkEnv :=
  mkDpdkEnv native (rte_eal_init lib (eal_argv c)) (rte_pktmbuf_pool_create lib (mbuf_pool_sz c))
    (rte_eth_dev_configure lib (port_id c) (mtu c)) (rte_eth_dev_start lib (port_id c)).

(** The device node, by its path. *)
Record FpgaHost := mkFpgaHost { host_open : bytes -> bool; host_fstat : bytes -> option Z; host_mmap : bytes -> bool }.
Definition fpga_env (native : bool) (host : FpgaHost) (c : FpgaConfig) : FpgaEnv :=
  mkFpgaEnv native (host_open host (device c)) (host_fstat host (device c)) (host_mmap host (device c)).

Definition best_driver_for (nfpga ndpdk : bool) (host : FpgaHost) (lib : DpdkLib) (cfg : DriverFactoryConfig) : AnyDriver :=
  make_best_available_driver (fpga_env nfpga host (fpga_config cfg)) (dpdk_env ndpdk lib (dpdk_config cfg)).

(** ** Descriptions *)

(** [stats_.backend], set by the constructors. *)
Definition sw_backend (native_iouring : bool) : bytes := if native_iouring then str "software/io_uring" else str "software/posix".
Definition dp_backend (native : bool) : bytes := if native then str "dpdk/poll-mode" else str "dpdk/stub".

Definition dp_describe (native : bool) (c : DpdkConfig) : bytes :=
  if native then str "DpdkDriver[native] port=" ++ to_chars (port_id c) ++ str " queue=" ++ to_chars (queue_id c)
  else str "DpdkDriver[stub - HFT_DPDK=OFF or non-Linux build]".

Definition fp_describe (native : bool) (c : FpgaConfig) : bytes :=
  if native then str "FpgaDriver[native] dev=" ++ device c else str "FpgaDriver[stub - HFT_FPGA=OFF]".

Definition sw_describe (native_iouring : bool) (cfg : DriverFactoryConfig) : bytes :=
  str "SoftwareDriver[" ++ sw_backend native_iouring ++ str "] on " ++ fc_bind_host cfg ++ str ":" ++ to_chars (fc_bind_port cfg).

Definition any_describe (nfpga ndpdk nuring : bool) (cfg : DriverFactoryConfig) (d : AnyDriver) : bytes :=
  match d with
  | DFpga _ => fp_describe nfpga (fpga_config cfg)
  | DDpdk _ => dp_describe ndpdk (dpdk_config cfg)
  | DSoftware _ => sw_describe nuring cfg
  end.

(** ** Properties *)

(** The arguments reach the library as they were listed. *)
Lemma eal_argv_words cfg ws :
  Forall is_word ws -> ws <> [] -> fc_dpdk_eal_args cfg = unwords ws -> eal_argv (dpdk_config cfg) = str "hft" :: ws.
Proof.
  intros Hw Hne E. unfold eal_argv, split_args, dpdk_config. cbn [eal_args]. rewrite E, <-(words_unwords ws Hw) at 1.
  f_equal. rewrite words_unwords by done. destruct (unwords ws) as [|c bs] eqn:Eu; [|by rewrite <-Eu, words_unwords].
  exfalso. apply Hne. by rewrite <-(words_unwords ws Hw), Eu.
Qed.

Example default_argv :
  eal_argv (dpdk_config DriverFactoryConfig_default) = [str "hft"; str "-l"; str "0-3"; str "--proc-type=primary"].
Proof. vm_compute. reflexivity. Qed.

Lemma scan_port fmt rest :
  sscanf (lits "DpdkDriver[native] port=" ++ fmt) (str "DpdkDriver[native] port=" ++ rest) = sscanf fmt rest.
Proof. done. Qed.
Lemma scan_queue fmt rest : sscanf (lits " queue=" ++ fmt) (str " queue=" ++ rest) = sscanf fmt rest.
Proof. done. Qed.

(** The factory's driver names itself: the line of the driver it hands out
    says which one it is, a hardware driver never calling itself a stub, and
    the ports of DPDK are read back from it. *)
Theorem factory_describes nfpga ndpdk nuring host lib cfg :
  0 <= fc_dpdk_port_id cfg < 65536 -> 0 <= fc_dpdk_queue_id cfg < 65536 ->
  let d := best_driver_for nfpga ndpdk host lib cfg in
  let line := any_describe nfpga ndpdk nuring cfg d in
  match d with
  | DFpga _ => line = str "FpgaDriver[native] dev=" ++ device (fpga_config cfg)
  | DDpdk _ => sscanf (lits "DpdkDriver[native] port=" ++ [DUnsigned 65536] ++ lits " queue=" ++ [DUnsigned 65536]) line
      = Some [fc_dpdk_port_id cfg; fc_dpdk_queue_id cfg]
  | DSoftware _ => (str "SoftwareDriver[software/") `prefix_of` line
  end.
Proof.
  intros Hp Hq d line. pose proof (best_available_driver (fpga_env nfpga host (fpga_config cfg)) (dpdk_env ndpdk lib (dpdk_config cfg))) as Hb.
  fold (best_driver_for nfpga ndpdk host lib cfg) in Hb. fold d in Hb. unfold line, any_describe. destruct d as [f|p|s].
  - destruct Hb as [Hn _]. simpl in Hn. by rewrite Hn.
  - destruct Hb as (_ & Hn & _). simpl in Hn. rewrite Hn. unfold dp_describe.
    rewrite scan_port. cbn [app].
    rewrite (sscanf_unsigned 65536) by (done || lia64). rewrite scan_queue.
    rewrite <-(app_nil_r (to_chars (queue_id _))). by rewrite (sscanf_unsigned 65536) by (done || lia64).
  - unfold sw_describe, sw_backend. destruct nuring; by eexists.
Qed.
