(* ===== verification/Endpoints.v ===== *)
(** * Addresses (src/mvp/src/fix/gateway.{h,cpp}, md/feed.{h,cpp},
      iouring/uring_gateway.cpp, ptp/ptp_client.{h,cpp}, ptp/ptp_oracle.cpp)

    The configurations of the parts that own a socket and the addresses they
    give to the system, down from the factory's configuration.  [inet_pton],
    [bind] and [getsockname] are arguments. *)

From stdpp Require Import gmap.
From S2P Require Import Prelude Decimal Ptp Feed Gateway GatewayLife Uring Driver DriverConfig.

(** ** sockaddr_in *)

(** The port in network order, and the address [inet_pton] has written. *)
Record SockAddr := mkSockAddr { sin_port : Z; sin_addr : Z }.

(** On the little-endian machines the program runs on both exchange the bytes of
    a [uint16_t]. *)
Definition htons (p : Z) : Z := Z.lor (Z.shiftl (Z.land p 255) 8) (Z.shiftr p 8).
Definition ntohs (p : Z) : Z := htons p.

Lemma htons_arith p : 0 <= p < 65536 -> htons p = 256 * (p mod 256) + p / 256.
Proof.
  intros Hp. unfold htons. change 255 with (Z.ones 8). rewrite Z.land_ones, Z.shiftr_div_pow2, Z.shiftl_mul_pow2 by lia.
  change (2 ^ 8) with 256. assert (0 <= p / 256 < 256) as Hd.
  { split; [apply Z.div_pos; lia|apply Z.div_lt_upper_bound; lia]. }
  assert (Z.land (p mod 256 * 256) (p / 256) = 0) as H0.
  { apply Z.bits_inj'. intros i Hi. rewrite Z.land_spec, Z.bits_0. change 256 with (2 ^ 8). destruct (Z.lt_ge_cases i 8).
    - by rewrite Z.mul_pow2_bits_low by lia.
    - rewrite (testbit_small (p / 2 ^ 8) 8) by (change (2 ^ 8) with 256; lia). by rewrite andb_false_r. }
  pose proof (Z.add_lor_land (p mod 256 * 256) (p / 256)) as Hs. lia.
Qed.

Lemma ntohs_htons p : 0 <= p < 65536 -> ntohs (htons p) = p.
Proof.
  intros Hp. pose proof (Z.div_mod p 256 ltac:(lia)) as Hdm. pose proof (Z.mod_pos_bound p 256 ltac:(lia)).
  assert (0 <= p / 256 < 256) by (split; [apply Z.div_pos; lia|apply Z.div_lt_upper_bound; lia]).
  unfold ntohs. rewrite (htons_arith p) by done. rewrite htons_arith by lia.
  rewrite <-(Z.mod_unique (256 * (p mod 256) + p / 256) 256 (p mod 256) (p / 256)) by lia.
  rewrite <-(Z.div_unique (256 * (p mod 256) + p / 256) 256 (p mod 256) (p / 256)) by lia. lia.
Qed.

(** ** Configurations *)

(** struct GatewayConfig *)
Record GatewayConfig := mkGatewayConfig { bind_host : bytes; bind_port : Z (* uint16_t *); comp_id : bytes }.
Definition GatewayConfig_default : GatewayConfig := mkGatewayConfig (str "127.0.0.1") 9878 (str "ENGINE").

(** [fix::GatewayConfig{cfg.bind_host, cfg.bind_port, cfg.comp_id}] *)
Definition posix_config (cfg : UringGatewayConfig) : GatewayConfig :=
  mkGatewayConfig (ucfg_bind_host cfg) (ucfg_bind_port cfg) (ucfg_comp_id cfg).

(** struct FeedConfig *)
Record FeedConfig := mkFeedConfig { dest_host : bytes; dest_port : Z (* uint16_t *); multicast : bool; ttl : Z (* int *) }.
Definition FeedConfig_default : FeedConfig := mkFeedConfig (str "127.0.0.1") 9879 false 1.

(** The feed of [SoftwareDriver::start]. *)
Definition driver_feed_config : FeedConfig :=
  let fc := FeedConfig_default in mkFeedConfig (str "127.0.0.1") (dest_port fc) (multicast fc) (ttl fc).

(** ** Sockets *)

(** The system: what it answers to [socket], [inet_pton] (the address when it
    returns 1), [bind] (and the address [getsockname] then gives), [listen]. *)
Record Host := mkHost {
  host_socket : Z;
  host_pton : bytes -> option Z;
  host_bind : SockAddr -> Z;
  host_listen : Z;
  host_sockname : SockAddr -> SockAddr
}.

Definition pton_result (a : option Z) : Z := match a with Some _ => 1 | None => 0 end.
Definition sockaddr_of (h : Host) (host : bytes) (port : Z) : SockAddr := mkSockAddr (htons port) (default 0 (host_pton h host)).

(** The calls of [Gateway::start]. *)
Definition gateway_env (h : Host) (cfg : GatewayConfig) : NetEnv :=
  let addr := sockaddr_of h (bind_host cfg) (bind_port cfg) in
  mkNetEnv (host_socket h) (pton_result (host_pton h (bind_host cfg))) (host_bind h addr) (host_listen h)
    (ntohs (sin_port (host_sockname h addr))).

Definition gateway_start (h : Host) (cfg : GatewayConfig) (l : Life) : option (Life * bool) := start (gateway_env h cfg) l.

(** [Feed::open]: the descriptor, the open descriptors, the destination of
    every datagram and the time to live set for multicast. *)
Record FeedSocket := mkFeedSocket { fs_fd : Z; fs_open : gset Z; fs_dest : SockAddr; fs_ttl : option Z }.

Definition feed_open_at (h : Host) (cfg : FeedConfig) (dest : SockAddr) (os : gset Z) : option (FeedSocket * bool) :=
  '(fd, os, ok) ← feed_open_socket (host_socket h) (pton_result (host_pton h (dest_host cfg))) (-1) os;
  Some (mkFeedSocket fd os (if host_socket h <? 0 then dest else sockaddr_of h (dest_host cfg) (dest_port cfg))
          (if (ok : bool) && multicast cfg then Some (ttl cfg mod 256) else None), ok).

(** [Gateway::stop] and [Feed::close] of the destructors. *)
Definition gateway_destroy (l : Life) : option Life := stop l.
Definition feed_destroy (fs : FeedSocket) : option (Z * gset Z) := feed_close_socket (fs_fd fs) (fs_open fs).

(** The oracle's address as the client sends to it, and as the oracle binds. *)
Definition ptp_dest (h : Host) (cfg : PtpConfig) : SockAddr := sockaddr_of h (mock_host cfg) (mock_port cfg).
Definition oracle_addr (h : Host) (bind_host : bytes) (bind_port : Z) : SockAddr := sockaddr_of h bind_host bind_port.

(** ** From the factory to the socket *)

(** [bind] takes the port it is asked for, unless that is 0. *)
Definition binds_port (h : Host) : Prop :=
  forall a, sin_port a <> 0 -> sin_port (host_sockname h a) = sin_port a.

Lemma start_ok env l :
  start env Life_new = Some (l, true) ->
  env_pton env = 1 /\ 0 <= env_bind env /\ 0 <= env_listen env /\ bound_port_ l = env_port env /\ running_ l = true.
Proof.
  unfold start, give_up_listen, close_fd. intros Hs. destruct (_ <? 0); [done|].
  destruct (Z.eqb_spec (env_pton env) 1) as [Hp|]; cbn [negb] in Hs; [|by case_decide; simplify_eq/=].
  destruct (Z.ltb_spec (env_bind env) 0); [by case_decide; simplify_eq/=|].
  destruct (Z.ltb_spec (env_listen env) 0); [by case_decide; simplify_eq/=|]. by simplify_eq/=.
Qed.

(** The software driver listens where the factory was told to: when its gateway
    has started, the host was a valid address, the gateway is bound to it and to
    the port of the configuration, and [bound_port] reports that port. *)
Theorem factory_endpoint h cfg l :
  binds_port h -> 0 < fc_bind_port cfg < 65536 ->
  gateway_start h (posix_config (software_config cfg)) Life_new = Some (l, true) ->
  exists a, host_pton h (fc_bind_host cfg) = Some a /\ 0 <= host_bind h (mkSockAddr (htons (fc_bind_port cfg)) a) /\
    bound_port_ l = fc_bind_port cfg /\ running_ l = true.
Proof.
  intros Hb Hp (Hpt & Hbd & _ & Hport & Hr)%start_ok. simpl in *.
  assert (ntohs (htons (fc_bind_port cfg)) = fc_bind_port cfg) as Hn by (apply ntohs_htons; lia).
  unfold sockaddr_of in *. destruct (host_pton h (fc_bind_host cfg)) as [a|]; [|done]. exists a. simpl in *.
  split_and!; try done. rewrite Hport, Hb; [done|]. simpl. intros E0. rewrite E0 in Hn. change (ntohs 0) with 0 in Hn. lia.
Qed.

Definition demo_host : Host := mkHost 3 (fun s => if decide (s = str "127.0.0.1") then Some 16777343 else None) (fun _ => 0) 0 (fun a => a).

Lemma factory_endpoint_witness :
  exists l, gateway_start demo_host (posix_config (software_config DriverFactoryConfig_default)) Life_new = Some (l, true) /\
  exists a, host_pton demo_host (str "127.0.0.1") = Some a /\ 0 <= host_bind demo_host (mkSockAddr (htons 9878) a) /\
    bound_port_ l = 9878 /\ running_ l = true.
Proof.
  eexists. split; [reflexivity|]. eapply (factory_endpoint demo_host DriverFactoryConfig_default); [done|simpl; lia|reflexivity].
Defined.

(** The defaults agree: the factory listens where the gateway does by itself,
    the driver's feed sends where a feed does by default, and a client with the
    default configuration asks the port the oracle binds by default. *)
Example default_endpoints :
  posix_config (software_config DriverFactoryConfig_default) = GatewayConfig_default /\
  posix_config UringGatewayConfig_default = GatewayConfig_default /\
  driver_feed_config = FeedConfig_default /\
  htons 9878 = 38438 /\ forall h, sin_port (ptp_dest h PtpConfig_default) = sin_port (oracle_addr h (str "0.0.0.0") 9881).
Proof. by vm_compute. Qed.
