(* ===== verification/Programs.v ===== *)
(** * The programs around the library (src/mvp/bench/{bench,gen_ticks,backtest_main}.cpp,
      src/mvp/src/ptp/ptp_oracle.cpp)

    Command lines in, printed text out.  [argv] is the list of the arguments,
    the name of the program first; random draws, clock readings and what the
    system answers are arguments. *)

From Corelib Require Import SpecFloat.
From stdpp Require Import gmap strings.
From S2P Require Import Prelude Pool OrderedMap Level OrderBook BookSpec BookRefine BookQuery BookRun Engine Portfolio Strategy Ticks Strategies Replay Decimal Float64 FloatBounds Clock Affinity Bench Scanf Text TickFile GenTicks Backtest Ptp.

(** ** printf *)

Definition nl : bytes := [10].
(** [%-14s]; [%+lld]. *)
Definition pad_right (w : nat) (bs : bytes) : bytes := bs ++ replicate (w - length bs) 32.
Definition signed_chars (n : Z) : bytes := (if n <? 0 then [] else [43]) ++ to_chars n.

(** [(argc > i) ? argv[i] : default] *)
Definition arg_or {A} (argv : list bytes) (i : nat) (read : bytes -> A) (dflt : A) : A :=
  match argv !! i with Some a => read a | None => dflt end.

(** ** The microbenchmark *)

Inductive Timer := X86 | AArch64 | ChronoFallback.
Definition timer_name (t : Timer) : bytes :=
  match t with X86 => str "RDTSCP (x86)" | AArch64 => str "CNTVCT_EL0 (aarch64)" | ChronoFallback => str "chrono fallback" end.

Definition bench_args (argv : list bytes) : option (Z * Z) :=
  let N := arg_or argv 1 strtoull10 1000000 in
  pin_cpu ← arg_or argv 2 atoi (Some 2);
  Some (N, pin_cpu).

(** The platform and its answers, the calibration, the draws of the warm-up and
    of the measured loop with the readings around them, and the readings around
    the loops. *)
Record BenchEnv := mkBenchEnv {
  be_platform : Platform;
  be_timer : Timer;
  be_pin_rc : Z;
  be_fifo_rc : Z;
  be_calibration : Calibration;
  be_warm : nat -> Draw;
  be_draw : nat -> Draw;
  be_wall : Z * Z;           (* now_ns before and after *)
  be_ticks : Z * Z           (* rdtsc before and after *)
}.

Definition nanos_per_s : f64 := f64_of_Z 1000000000.

(** The printed report. *)
Definition bench_text (env : BenchEnv) (N pin_cpu : Z) (pinned : bool) (r : LatencyReport) (resting : nat) : bytes :=
  let npt := ns_per_tick (be_calibration env) in
  let elapsed_s := f64_div (f64_of_Z (u64 ((be_wall env).2 - (be_wall env).1))) nanos_per_s in
  let ops_per_s := f64_div (f64_of_Z N) elapsed_s in
  let total_ns_ticks := f64_mul (f64_of_Z (u64 ((be_ticks env).2 - (be_ticks env).1))) npt in
  str "=== MVP order book microbench (M5) ===" ++ nl ++
  str "timer      : " ++ timer_name (be_timer env) ++ nl ++
  str "pinned     : cpu=" ++ to_chars pin_cpu ++ str " " ++ (if pinned then str "ok" else str "hint-only/failed") ++ nl ++
  str "ns/tick    : " ++ f64_fixed 4 npt ++ nl ++
  str "operations : " ++ to_chars N ++ str " place_limit (mixed buy/sell, crossing)" ++ nl ++
  str "elapsed    : " ++ f64_fixed 3 elapsed_s ++ str " s (rdtsc-window " ++
    f64_fixed 3 (f64_div total_ns_ticks nanos_per_s) ++ str " s)" ++ nl ++
  str "throughput : " ++ f64_fixed 0 ops_per_s ++ str " ops/sec" ++ nl ++
  str "latency ns : p50=" ++ to_chars (p50 r) ++ str "  p90=" ++ to_chars (p90 r) ++ str "  p99=" ++ to_chars (p99 r) ++
    str "  p99.9=" ++ to_chars (p999 r) ++ str "  max=" ++ to_chars (pmax r) ++ nl ++
  str "resting    : " ++ to_chars (Z.of_nat resting) ++ str " orders on book" ++ nl.

(** The most elements [std::vector<uint64_t>::reserve] accepts. *)
Definition vector_max : Z := 2 ^ 60 - 1.

Definition warmup_count : nat := Z.to_nat 10000.

(** [main] on an engine: the calls to the scheduler and the text. *)
Definition bench_program_on (e : Engine) (argv : list bytes) (env : BenchEnv) : option (Outcome (SchedResult * SchedResult * bytes)) :=
  '(N, pin_cpu) ← bench_args argv;
  pin ← pin_thread_to_cpu (be_platform env) (be_pin_rc env) pin_cpu;
  let fifo := set_realtime_priority (be_platform env) (be_fifo_rc env) 90 in
  if vector_max <? N then Some (Thrown (str "vector::reserve"))
  else
    '(e, r) ← bench_main (be_calibration env) (be_warm env <$> seq 0 warmup_count) (be_draw env <$> seq 0 (Z.to_nat N)) e;
    Some (Returned (pin, fifo, bench_text env N pin_cpu (sc_ok pin) r (book_size (book_ e)))).

Definition bench_program (argv : list bytes) (env : BenchEnv) : option (Outcome (SchedResult * SchedResult * bytes)) :=
  bench_program_on Engine_new argv env.

(** ** The tick generator *)

Definition gen_args (argv : list bytes) : bytes * Z * Z :=
  (arg_or argv 1 id (str "ticks.csv"), arg_or argv 2 strtoull10 100000, arg_or argv 3 strtoull10 42).

(** The most ticks, of 40 bytes, that [std::vector<Tick>::reserve] accepts. *)
Definition tick_vector_max : Z := (2 ^ 63 - 1) / 40.

(** [rng seed]: the quantities of the seeding rounds and the draws of the main
    loop; the file and the text written. *)
Definition gen_program (argv : list bytes) (opens : bool) (rng : Z -> (nat -> Z) * list GenDraw) : option (Outcome (bytes * bytes * bytes)) :=
  let '(out_path, n, seed) := gen_args argv in
  if tick_vector_max <? n then Some (Thrown (str "vector::reserve"))
  else
    ticks ← gen_main (rng seed).1 (rng seed).2 (Z.to_nat n);
    match save_csv out_path opens ticks with
    | Thrown what => Some (Thrown what)
    | Returned file =>
        Some (Returned (out_path, file,
          str "wrote " ++ to_chars (Z.of_nat (length ticks)) ++ str " ticks to " ++ out_path ++ nl))
    end.

(** ** The backtester *)

Definition strategy_text (l : StrategyLine) : bytes :=
  str "  " ++ pad_right 14 (str (ln_name l)) ++ str " | submitted=" ++ pad_right 7 (to_chars (ln_submitted l)) ++
  str " filled=" ++ pad_right 7 (to_chars (ln_filled l)) ++ str " canceled=" ++ pad_right 7 (to_chars (ln_canceled l)) ++
  str " | pos=" ++ signed_chars (ln_position l) ++ str " avg=" ++ to_chars (ln_avg_cost l) ++
  str " | realized=" ++ signed_chars (ln_realized l) ++ str " unrealized=" ++ signed_chars (ln_unrealized l) ++
  str " total=" ++ signed_chars (ln_total l) ++ str " | vol=" ++ to_chars (ln_volume l) ++ nl.

Definition stats_text (st : ReplayStats) : bytes :=
  nl ++ str "--- replay stats ---" ++ nl ++
  str "  ticks=" ++ to_chars (ticks_consumed st) ++ str " adds=" ++ to_chars (exogenous_adds st) ++
  str " cancels=" ++ to_chars (exogenous_cancels st) ++ str " trades=" ++ to_chars (trade_prints st) ++
  str " engine_trades=" ++ to_chars (engine_trades st) ++ nl.

Definition rate_text (l : StrategyLine) (rate : f64) : bytes :=
  str "  " ++ pad_right 14 (str (ln_name l)) ++ str " " ++ f64_fixed 2 rate ++ str "%" ++ nl.

(** The rate over a run of [ms] milliseconds, in millions per second. *)
Definition tick_rate (n ms : Z) : f64 :=
  if 0 <? ms then f64_div (f64_of_Z n) (f64_mul (f64_of_Z ms) (f64_of_Z 1000)) else f64_zero.

Definition backtest_text (path : bytes) (nticks : Z) (ms : Z) (st : ReplayStats) (mark : Price)
    (lines : list StrategyLine) (rates : list f64) : bytes :=
  str "loading ticks from " ++ path ++ str " ..." ++ nl ++ str "loaded " ++ to_chars nticks ++ str " ticks" ++ nl ++
  stats_text st ++
  str "  wall=" ++ to_chars ms ++ str "ms  (" ++ f64_fixed 2 (tick_rate (ticks_consumed st) ms) ++ str "M ticks/s)" ++ nl ++
  nl ++ str "--- per-strategy stats (mark=" ++ to_chars mark ++ str ") ---" ++ nl ++ mjoin (strategy_text <$> lines) ++
  nl ++ str "--- fill rates ---" ++ nl ++ mjoin (zip_with rate_text lines rates).

(** The text, with what the file system holds and the duration of the run. *)
Definition backtest_program_on (e : Engine) (argv : list bytes) (fs : bytes -> option bytes) (ms : Z) : option (Outcome bytes) :=
  let path := arg_or argv 1 id (str "ticks.csv") in
  loaded ← load_csv path (fs path);
  r ← backtest_main path (fs path) e;
  match loaded, r with
  | Returned ticks, Returned (st, mark, lines, rates) =>
      Some (Returned (backtest_text path (Z.of_nat (length ticks)) ms st mark lines rates))
  | Thrown what, _ | _, Thrown what => Some (Thrown what)
  end.

Definition backtest_program : list bytes -> (bytes -> option bytes) -> Z -> option (Outcome bytes) :=
  backtest_program_on Engine_new.

(** ** The oracle *)

Definition oracle_args (argv : list bytes) : option (bytes * Z) :=
  bind_port ← arg_or argv 2 (fun a => p ← atoi a; Some (p mod 65536)) (Some 9881);
  Some (arg_or argv 1 id (str "0.0.0.0"), bind_port).

(** The results of [socket], [inet_pton] and [bind], and the datagrams received
    with the readings of the clock. *)
Record OracleEnv := mkOracleEnv {
  oe_socket : Z;
  oe_pton : bytes -> Z;
  oe_bind : Z;
  oe_received : list (bytes * Z * Z)
}.

(** The loop: the replies to the datagrams, in order. *)
Fixpoint oracle_loop (received : list (bytes * Z * Z)) : option (list bytes) :=
  match received with
  | [] => Some []
  | (datagram, m2, m3) :: received =>
      reply ← oracle_step datagram m2 m3;
      replies ← oracle_loop received;
      Some (match reply with Some r => r :: replies | None => replies end)
  end.

(** [return 1] with a message, or the text and the replies. *)
Inductive OracleResult := OracleFails (what : bytes) | OracleServes (text : bytes) (replies : list bytes).

Definition oracle_main (argv : list bytes) (env : OracleEnv) : option OracleResult :=
  '(bind_host, bind_port) ← oracle_args argv;
  if oe_socket env <? 0 then Some (OracleFails (str "socket"))
  else if negb (oe_pton env bind_host =? 1) then Some (OracleFails (str "bad bind host: " ++ bind_host ++ nl))
  else if negb (oe_bind env =? 0) then Some (OracleFails (str "bind"))
  else
    replies ← oracle_loop (oe_received env);
    Some (OracleServes (str "ptp_oracle listening on " ++ bind_host ++ str ":" ++ to_chars bind_port ++ nl) replies).

(** ** Properties *)

Lemma Engine_new_empty : e_abs Engine_new (mkABook [] [] 1 1 kDefaultPoolCapacity).
Proof. apply OrderBook_new_refines. unfold kDefaultPoolCapacity. lia64. Qed.

(** A decimal argument is read as the number it shows. *)
Lemma arg_number argv i n dflt : 0 <= n < UINT64_SIZE -> argv !! i = Some (to_chars n) -> arg_or argv i strtoull10 dflt = n.
Proof.
  intros Hn Ha. unfold arg_or. rewrite Ha, <-(app_nil_r (to_chars n)). by apply strtoull10_printed.
Qed.

Lemma arg_int argv i n dflt : - INT_MAX - 1 <= n <= INT_MAX -> argv !! i = Some (to_chars n) -> arg_or argv i atoi dflt = Some n.
Proof. intros Hn Ha. unfold arg_or. rewrite Ha, <-(app_nil_r (to_chars n)). by apply atoi_printed. Qed.

Lemma bench_args_read prog N cpu :
  0 <= N < UINT64_SIZE -> - INT_MAX - 1 <= cpu <= INT_MAX -> bench_args [prog; to_chars N; to_chars cpu] = Some (N, cpu).
Proof.
  intros HN Hc. unfold bench_args. rewrite (arg_number _ 1 N) by (lia64 || reflexivity).
  rewrite (arg_int _ 2 cpu); [reflexivity|lia|reflexivity].
Qed.

Lemma pin_defined p rc cpu :
  0 <= cpu < CPU_SETSIZE -> exists r, pin_thread_to_cpu p rc cpu = Some r /\
    (p = Linux -> sc_calls r = [SetAffinity {[cpu]}]).
Proof.
  unfold CPU_SETSIZE. intros Hc. unfold pin_thread_to_cpu, cpu_set, CPU_SETSIZE.
  rewrite (proj2 (Z.leb_le _ _)), (proj2 (Z.ltb_lt _ _)), (proj2 (Z.eqb_neq cpu _)) by lia.
  destruct p; eexists; (split; [reflexivity|]); [reflexivity|discriminate|discriminate].
Qed.

(** (C36) The benchmark program, called with a number of operations from 1 to
    2^40 and a CPU that a set of CPUs can hold, on counter readings around the
    placements that differ by less than 2^53 ticks and by less than 2^52
    nanoseconds once scaled: it runs the warm-up and exactly that many measured
    placements on a new engine, without undefined behaviour; it prints that
    number, as p50, p90, p99 and p99.9 the elements of the sorted latencies at
    the ranks [(N - 1) * 0.5], ... (rounded down; for the last two possibly one
    below), as max the largest, and the number of orders that rest on the book
    the specification reaches; on Linux, the one platform where it does, it
    asks the system to pin the thread to that CPU. *)
Theorem bench_program_correct prog N cpu env m sh :
  0 < N <= 2 ^ 40 -> 0 <= cpu < CPU_SETSIZE -> factor (be_calibration env) m sh ->
  (forall i, Bench.draw_ok (be_warm env i)) -> (forall i, Bench.draw_ok (be_draw env i)) ->
  (forall i, let d := be_draw env i in 0 <= u64 (d_after d - d_before d) < 2 ^ 53 /\
     u64 (d_after d - d_before d) * Z.pos m < (2 ^ 52 - 1) * 2 ^ sh) ->
  let warm := be_warm env <$> seq 0 warmup_count in let draws := be_draw env <$> seq 0 (Z.to_nat N) in
  exists pin fifo r ns, bench_program [prog; to_chars N; to_chars cpu] env = Some (Returned (pin, fifo,
      bench_text env N cpu (sc_ok pin) r
        (length (ab_orders (arun_ops (mkABook [] [] 1 1 kDefaultPoolCapacity) (draw_op <$> warm ++ draws)).1)))) /\
    (be_platform env = Linux -> sc_calls pin = [SetAffinity {[cpu]}]) /\
    convert (be_calibration env) ((fun d => u64 (d_after d - d_before d)) <$> draws) = Some ns /\
    Z.of_nat (length ns) = N /\ report_of ns r.
Proof.
  change (2 ^ 40) with 1099511627776. intros HN Hcpu Hc Hw Hd Ht warm draws.
  assert (length draws = Z.to_nat N /\ length warm = warmup_count) as [Hld Hlw].
  { unfold draws, warm. by rewrite !length_fmap, !length_seq. }
  destruct (pin_defined (be_platform env) (be_pin_rc env) cpu Hcpu) as (pin & Epin & Hpin).
  destruct (bench_main_correct (be_calibration env) m sh warm draws Engine_new _ Hc Engine_new_empty)
    as (e' & r & ns & Eb & Ha & Ec & Hl & Hr).
  - apply Forall_fmap, Forall_forall. intros i _. apply Hw.
  - apply Forall_fmap, Forall_forall. intros i _. apply Hd.
  - intros E0. rewrite E0 in Hld. simpl in Hld. lia.
  - rewrite Hld. lia.
  - rewrite Hld, Hlw. unfold warmup_count. simpl. lia64.
  - apply Forall_fmap, Forall_forall. intros i _. apply Ht.
  - exists pin, (set_realtime_priority (be_platform env) (be_fifo_rc env) 90), r, ns.
    unfold bench_program, bench_program_on. rewrite bench_args_read by (unfold INT_MAX, CPU_SETSIZE in *; lia64).
    rewrite bind_Some_l. cbv beta iota. rewrite Epin, bind_Some_l. cbv zeta.
    rewrite (proj2 (Z.ltb_ge _ _)) by (unfold vector_max; lia). fold warm draws. rewrite Eb, bind_Some_l.
    rewrite (refines_size _ _ Ha). split_and!; [reflexivity|exact Hpin|exact Ec|lia|exact Hr].
Qed.

Lemma Engine_new_bounds s :
  Forall (fun o => Z.abs (o_price o) <= 100000) (ab_side (mkABook [] [] 1 1 kDefaultPoolCapacity) s) /\
  depth (ab_side (mkABook [] [] 1 1 kDefaultPoolCapacity) s) <= 0.
Proof. destruct s; split; [constructor|done|constructor|done]. Qed.

Lemma gen_args_read prog path n seed :
  0 <= n < UINT64_SIZE -> 0 <= seed < UINT64_SIZE -> gen_args [prog; path; to_chars n; to_chars seed] = (path, n, seed).
Proof.
  intros Hn Hs. unfold gen_args. rewrite (arg_number _ 2 n); [|exact Hn|reflexivity].
  by rewrite (arg_number _ 3 seed); [|exact Hs|reflexivity].
Qed.

(** (C35) The two programs together.  When [gen_ticks] is called for at most
    100 000 ticks, with draws in the ranges of the uniform distributions, and on
    the assumption that no draw of the noise exceeds 8, it writes the 400 ticks
    of the seeding and those [n] to the file; the backtester called on that file
    runs both strategies over them on a new engine without undefined behaviour
    and prints the report of that run: as many ticks loaded and consumed as
    written, the mark of the final book, and for each strategy, in order, the
    line of its counters and portfolio, with the profit at that mark, and its
    fill rate; the market maker is within its limit and one quote. *)
Theorem generate_then_backtest prog prog' path n seed rng ms :
  let qty := (rng seed).1 in let draws := (rng seed).2 in
  0 <= n <= 100000 -> 0 <= seed < UINT64_SIZE ->
  (forall i, 1 <= qty i <= 20) -> Forall GenTicks.draw_ok draws -> Forall small_noise draws ->
  Z.of_nat (length draws) <= 10 ^ 14 -> n <= Z.of_nat (length (filter (fun d => gd_roll d < 90)%Z draws)) ->
  exists ticks file st w a' s0 s1 mark mm mac,
    gen_main qty draws (Z.to_nat n) = Some ticks /\ save_csv path true ticks = Returned file /\
    gen_program [prog; path; to_chars n; to_chars seed] true rng =
      Some (Returned (path, file, str "wrote " ++ to_chars (400 + n) ++ str " ticks to " ++ path ++ nl)) /\
    run_report Engine_new ticks st w a' s0 s1 mark mm mac /\
    backtest_program [prog'; path] (fun p => if decide (p = path) then Some file else None) ms =
      Some (Returned (backtest_text path (400 + n) ms st mark [mm; mac] [fill_rate s0; fill_rate s1])) /\
    ticks_consumed st = 400 + n /\ Z.abs (ln_position mm) <= 55.
Proof.
  intros qty draws Hn Hseed Hs Hd Hno Hnd Hf.
  destruct (generated_tape_file qty draws (Z.to_nat n) path Hs Hd Hno Hnd ltac:(lia))
    as (ticks & file & Eg & Es & El & Hl & Hw).
  assert (Z.of_nat (length ticks) = 400 + n) as Hcount by (rewrite Hl, Nat2Z.inj_add, Z2Nat.id by lia; reflexivity).
  destruct (tape_size_bounds (length ticks) 0 1 ltac:(lia) ltac:(lia) ltac:(lia)) as [Hb Hsum].
  destruct (backtest_returns path file ticks Engine_new _ 100000 20 0 El Hw Engine_new_empty
    (fun s => proj1 (Engine_new_bounds s)) (fun s => proj2 (Engine_new_bounds s)) Hb Hsum)
    as (st & w & a' & s0 & s1 & mark & mm & mac & Hr & E1 & E2 & H1 & _).
  exists ticks, file, st, w, a', s0, s1, mark, mm, mac.
  split; [exact Eg|]. split; [exact Es|]. split; [|split; [exact Hr|split; [|split; [|exact H1]]]].
  - unfold gen_program. rewrite gen_args_read by lia64. cbv beta iota. fold qty draws.
    rewrite (proj2 (Z.ltb_ge _ _)) by (change tick_vector_max with 230584300921369395; lia).
    rewrite Eg, bind_Some_l, Es, Hcount. reflexivity.
  - unfold backtest_program, backtest_program_on. cbv zeta.
    change (arg_or [prog'; path] 1 id (str "ticks.csv")) with path. rewrite decide_True by reflexivity.
    rewrite El, bind_Some_l, E1, bind_Some_l, Hcount. reflexivity.
  - rewrite E2, Hcount. apply u64_small. lia64.
Qed.

(** Requests reach the oracle in any number; each is answered in turn. *)
Lemma oracle_loop_answers reqs :
  Forall (fun '(t1, m2, m3) => i64_range t1 /\ i64_range (m2 + kMasterOffsetNs) /\ i64_range (m3 + kMasterOffsetNs)) reqs ->
  oracle_loop ((fun '(t1, m2, m3) => (request t1, m2, m3)) <$> reqs) =
    Some ((fun '(t1, m2, m3) => reply_text t1 (m2 + kMasterOffsetNs) (m3 + kMasterOffsetNs)) <$> reqs).
Proof.
  induction 1 as [|[[t1 m2] m3] reqs (H1 & H2 & H3) _ IH]; [done|]. rewrite !fmap_cons. cbn [oracle_loop].
  by rewrite oracle_answers, bind_Some_l, IH.
Qed.

(** The oracle program: with a port and a host that bind, it announces them
    and answers every request, in order, with its own times. *)
Theorem oracle_main_serves prog host port env reqs :
  0 <= port < 65536 -> 0 <= oe_socket env -> oe_pton env host = 1 -> oe_bind env = 0 ->
  oe_received env = ((fun '(t1, m2, m3) => (request t1, m2, m3)) <$> reqs) ->
  Forall (fun '(t1, m2, m3) => i64_range t1 /\ i64_range (m2 + kMasterOffsetNs) /\ i64_range (m3 + kMasterOffsetNs)) reqs ->
  oracle_main [prog; host; to_chars port] env =
    Some (OracleServes (str "ptp_oracle listening on " ++ host ++ str ":" ++ to_chars port ++ nl)
      ((fun '(t1, m2, m3) => reply_text t1 (m2 + kMasterOffsetNs) (m3 + kMasterOffsetNs)) <$> reqs)).
Proof.
  intros Hport Hso Hpt Hbi Hrec Hreq. unfold oracle_main, oracle_args, arg_or.
  change ([prog; host; to_chars port] !! 2%nat) with (Some (to_chars port)).
  change ([prog; host; to_chars port] !! 1%nat) with (Some host). cbv beta iota.
  assert (atoi (to_chars port) = Some port) as ->.
  { rewrite <-(app_nil_r (to_chars port)). apply atoi_printed; [unfold INT_MAX; lia|done]. }
  rewrite !bind_Some_l. rewrite Z.mod_small by done. cbv beta iota.
  rewrite (proj2 (Z.ltb_ge _ _)) by done. unfold id. rewrite Hpt, Hbi, Hrec, oracle_loop_answers by done.
  reflexivity.
Qed.

Definition demo_env : BenchEnv :=
  mkBenchEnv Linux X86 0 0 demo_calibration (fun _ => mkDraw true 9990 3 0 0) (fun i => mkDraw (Nat.even i) 10000 5 100 220)
    (0, 500) (0, 700).

Lemma bench_program_correct_witness :
  let warm := be_warm demo_env <$> seq 0 warmup_count in let draws := be_draw demo_env <$> seq 0 3 in
  exists pin fifo r ns, bench_program [str "bench"; str "3"; str "2"] demo_env = Some (Returned (pin, fifo,
      bench_text demo_env 3 2 (sc_ok pin) r
        (length (ab_orders (arun_ops (mkABook [] [] 1 1 kDefaultPoolCapacity) (draw_op <$> warm ++ draws)).1)))) /\
    (be_platform demo_env = Linux -> sc_calls pin = [SetAffinity {[2]}]) /\
    convert (be_calibration demo_env) ((fun d => u64 (d_after d - d_before d)) <$> draws) = Some ns /\
    Z.of_nat (length ns) = 3 /\ report_of ns r.
Proof.
  apply (bench_program_correct (str "bench") 3 2 demo_env 6004799503160661 54).
  - lia.
  - unfold CPU_SETSIZE. lia.
  - split; [vm_compute; reflexivity|lia].
  - intros i. simpl. split; simpl; lia.
  - intros i. simpl. split; simpl; lia.
  - intros i. simpl. split; vm_compute; repeat split; discriminate.
Defined.

Definition demo_rng (seed : Z) : (nat -> Z) * list GenDraw := (demo_qty, demo_draws).

Lemma generate_then_backtest_witness :
  exists ticks file st w a' s0 s1 mark mm mac,
    gen_main demo_qty demo_draws 2 = Some ticks /\ save_csv (str "t.csv") true ticks = Returned file /\
    gen_program [str "gen_ticks"; str "t.csv"; str "2"; str "7"] true demo_rng =
      Some (Returned (str "t.csv", file, str "wrote " ++ to_chars 402 ++ str " ticks to " ++ str "t.csv" ++ nl)) /\
    run_report Engine_new ticks st w a' s0 s1 mark mm mac /\
    backtest_program [str "backtest"; str "t.csv"] (fun p => if decide (p = str "t.csv") then Some file else None) 12 =
      Some (Returned (backtest_text (str "t.csv") 402 12 st mark [mm; mac] [fill_rate s0; fill_rate s1])) /\
    ticks_consumed st = 402 /\ Z.abs (ln_position mm) <= 55.
Proof.
  apply (generate_then_backtest (str "gen_ticks") (str "backtest") (str "t.csv") 2 7 demo_rng 12).
  - lia.
  - lia64.
  - apply demo_qty_ok.
  - apply demo_draws_ok.
  - apply demo_draws_ok.
  - simpl. lia.
  - vm_compute. discriminate.
Defined.

(** What the programs print, on small inputs. *)
Example printed_strategy :
  strategy_text (mkLine "market_maker" 2 1 0 2 103 0 4 4 2) =
    str "  market_maker   | submitted=2       filled=1       canceled=0       | pos=+2 avg=103 | realized=+0 unrealized=+4 total=+4 | vol=2" ++ nl.
Proof. vm_compute. reflexivity. Qed.

Example printed_backtest :
  match save_csv [] true demo_tape with
  | Returned file => backtest_program_on (Engine_with (OrderBook_new 16)) [str "backtest"; str "t.csv"] (fun _ => Some file) 2
  | Thrown what => None
  end = Some (Returned (
    str "loading ticks from t.csv ..." ++ nl ++ str "loaded 3 ticks" ++ nl ++
    nl ++ str "--- replay stats ---" ++ nl ++ str "  ticks=3 adds=3 cancels=0 trades=0 engine_trades=1" ++ nl ++
    str "  wall=2ms  (0.00M ticks/s)" ++ nl ++
    nl ++ str "--- per-strategy stats (mark=105) ---" ++ nl ++
    str "  market_maker   | submitted=2       filled=1       canceled=0       | pos=+2 avg=103 | realized=+0 unrealized=+4 total=+4 | vol=2" ++ nl ++
    str "  ma_cross       | submitted=0       filled=0       canceled=0       | pos=+0 avg=0 | realized=+0 unrealized=+0 total=+0 | vol=0" ++ nl ++
    nl ++ str "--- fill rates ---" ++ nl ++ str "  market_maker   50.00%" ++ nl ++ str "  ma_cross       0.00%" ++ nl)).
Proof. vm_compute. reflexivity. Qed.

(** An argument list without numbers gets the defaults, as does no argument. *)
Example argument_defaults :
  bench_args [str "bench"] = Some (1000000, 2) /\ gen_args [str "gen_ticks"] = (str "ticks.csv", 100000, 42) /\
  oracle_args [str "oracle"; str "127.0.0.1"; str "65537"] = Some (str "127.0.0.1", 1) /\
  bench_args [str "bench"; str "many"; str "x"] = Some (0, 0).
Proof. by vm_compute. Qed.
