(* ===== verification/UnitTests.v ===== *)
(** * The repository's unit tests, evaluated on the model

    The scenarios of src/mvp/test/test_book.cpp, test_backtest.cpp and
    test_fix.cpp that do not need a socket, with the values their checks
    expect.  Three more of test_book.cpp are next to the book, in [OrderBook]. *)

From S2P Require Import Prelude Pool OrderedMap Level OrderBook Portfolio Ticks Decimal Float64 FixParser TickFile.

(** ** test_book.cpp *)

Example book_test_simple_buy_rests :
  ('(b, id, ts) ← place_limit (OrderBook_new 8) Buy 100 10 [];
   Some (id, ts, best_bid b, best_ask b, qty_at b Buy 100)) = Some (1, [], 100, INT64_MAX, Some 10).
Proof. vm_compute. reflexivity. Qed.

Example book_test_simple_sell_rests :
  ('(b, _, ts) ← place_limit (OrderBook_new 8) Sell 101 7 [];
   Some (best_ask b, qty_at b Sell 101, ts)) = Some (101, Some 7, []).
Proof. vm_compute. reflexivity. Qed.

Example book_test_partial_fill :
  (fun '(b, ts) => (ts, best_bid b, qty_at b Buy 100, best_ask b))
    <$> run_places (OrderBook_new 8) [(Sell, 100, 5); (Buy, 100, 8)]
  = Some ([mkTrade 2 1 100 5], 100, Some 3, INT64_MAX).
Proof. vm_compute. reflexivity. Qed.

(** ** test_backtest.cpp *)

Definition after_fills (fs : list Fill) : option (Z * Z * Z) :=
  (fun p => (position_ p, avg_cost_ p, realized_pnl_ p)) <$> run_fills Portfolio_new fs.

Example backtest_test_portfolio_long_only :
  after_fills [mkFill Buy 100 10] = Some (10, 100, 0) /\
  after_fills [mkFill Buy 100 10; mkFill Sell 110 4] = Some (6, 100, 40) /\
  after_fills [mkFill Buy 100 10; mkFill Sell 110 4; mkFill Sell 120 6] = Some (0, 0, 160).
Proof. by split_and!. Qed.

Example backtest_test_portfolio_short_and_flip :
  after_fills [mkFill Sell 100 10] = Some (-10, 100, 0) /\
  after_fills [mkFill Sell 100 10; mkFill Buy 90 10] = Some (0, 0, 100) /\
  after_fills [mkFill Buy 100 5; mkFill Sell 120 8] = Some (-3, 120, 100).
Proof. by split_and!. Qed.

Example backtest_test_portfolio_unrealized :
  (p ← run_fills Portfolio_new [mkFill Buy 100 10]; u ← unrealized_pnl p 105; t ← total_pnl p 105; Some (u, t))
    = Some (50, 50) /\
  (p ← run_fills Portfolio_new [mkFill Buy 100 10; mkFill Sell 110 10]; u ← unrealized_pnl p 999; t ← total_pnl p 999;
   Some (u, t)) = Some (0, 100).
Proof. by split. Qed.

Definition test_ticks : list Tick :=
  (fun i => mkTick (1000 + i) 0 (i mod 3) (i mod 2) (10000 + i) (i + 1) (i + 100)) <$> seqZ 0 10.

Example backtest_test_csv_roundtrip :
  match save_csv (str "ticks.csv") true test_ticks with
  | Returned file => load_csv (str "ticks.csv") (Some file) = Some (Returned test_ticks)
  | Thrown _ => False
  end.
Proof. vm_compute. reflexivity. Qed.

(** ** test_fix.cpp *)

Definition test_order : option bytes :=
  b ← add_double OrderQty (f64_of_Z 100) 0 (add_char SideTag 49 (add_str Symbol (str "AAPL")
        (add_str ClOrdID (str "ORD1") (begin 68 (str "CLIENT") (str "ENGINE") 42))));
  b ← add_double PriceTag (f64_of_ratio 15025 100) 2 b;
  Some (buf_ (finalize (add_char 40 50 b))).

Example fix_test_parser_roundtrip :
  (bs ← test_order;
   match split_frame bs with
   | Ok frame consumed =>
       r ← parse_frame frame;
       match r with
       | ParseOk m =>
           Some ((consumed =? length bs)%nat, msg_type m, get m SenderCompID, get m TargetCompID,
                 (get m ClOrdID, get m Symbol, get_int m OrderQty 0, get_double m PriceTag f64_zero))
       | ParseFail => None
       end
   | _ => None
   end) =
  Some (true, 68, str "CLIENT", str "ENGINE", (str "ORD1", str "AAPL", 100, f64_of_ratio 15025 100)).
Proof. vm_compute. reflexivity. Qed.

Example fix_test_parser_incomplete :
  let bs := buf_ (finalize (begin 48 (str "C") (str "E") 1)) in
  split_frame (take (Nat.div2 (length bs)) bs) = Incomplete.
Proof. vm_compute. reflexivity. Qed.

Example fix_test_checksum_detects_corruption :
  let bs := buf_ (finalize (add_str ClOrdID (str "X") (begin 68 (str "C") (str "E") 1))) in
  split_frame (alter (fun c => Z.lxor c 32) 20%nat bs) = Malformed.
Proof. vm_compute. reflexivity. Qed.
